(* ===== verification/_CoqProject ===== *)
-Q . S2P
Prelude.v
GoStrings.v
Layout.v
Device.v
PartTable.v
ExtentCheck.v
NetMac.v
World.v
EspConfig.v
EspMember.v
BootEnv.v
EspSet.v
Sha256.v
PayloadSum.v
BlkSum.v
BiosBoot.v
Stages.v
KernelInfo.v
InitrdInfo.v
Metadata.v
Payload.v
NvList.v
CmdLine.v
UefiBoot.v
Verify.v
Update.v
Spare.v
Mirror.v
MirrorOps.v
MirrorRepair.v
MirrorRun.v
EspCmd.v
ZfsNative.v
ZfsCompat.v
Inspect.v
AfterUpdate.v
Minisign.v
Release.v
Cleanup.v
Settings.v
Status.v
Confine.v
Commands.v
Print.v
Stamp.v
EspList.v
Summary.v
