(* ===== verification/Prelude.v ===== *)
(** * alpine-zfsboot: a verification development

alpine-zfsboot boots Alpine Linux from ZFS. Its Go program, the tool of
src/cmd/tool with the packages under src/internal, installs and updates a boot
chain on one or several disks and checks what is installed there. On a BIOS
machine the chain is stage1 (440 bytes of sector 0), stage2 (64 sectors from
LBA 34) and, on the FAT EFI system partition (ESP), KERNEL, INITRD, CMDLINE and
the integrity files BLKSUM and CHECKSUM; on a UEFI machine it is one loader
file. Both carry a metadata file. A mirrored host has an ESP per disk, each
with a MEMBER marker.

The development translates that program into Rocq functions, one per Go
function and under its name, and proves what the program promises: writes are
all or nothing, a run that is cut off leaves something that boots, nothing foreign
is touched, what is written verifies, and what is downloaded is trusted only when
signed for its slot.

** How Go becomes Rocq

- Values. A Go integer is a [Z] with its wrap-around written out ([u32],
  [u64], [i32], [i64]); [byte] slices and strings are lists of bytes; structs
  are records, maps are [gmap]s, or association lists where the order shows.
- Pure calls return [outcome E A]: [Ok], [Err] for a non-nil error, [Panic] for
  an index or slice out of range.
- Calls with effects are computations over a [world] (World.v): the files of
  the mounted ESPs, the raw disks, the count of calls made so far and the trace
  of the states gone through. An [Oracle] decides, call by call, whether the
  system call succeeds, so a theorem over all oracles covers every pattern of
  failing reads and writes, and one about the trace covers a run cut off between
  any two calls. The trace is what the file system shows: a call takes effect as
  one step when it succeeds, so durability before an fsync and a disk write torn
  by a power cut are outside the model (World.v).
- Where a length comes from untrusted data, [make] is explicit: the nvlist
  decoder takes the size of the heap and panics on a negative or larger length
  ([make_slice]), and the cpio walk records every buffer it asks for ([make]).
- Loops are structural recursions, or take a fuel that the proofs show enough:
  the nvlist decoder [DecodeNative] gets the length of its buffer
  ([DecodeNative_total]), the cpio walk the length of the archive
  ([streamFindZFSModule_settles]), the retry of a ZFS query its code's own
  bound ([zfs_queries_bounded]).

** Files

- Prelude.v, GoStrings.v: bytes, integers, outcomes, the monads, tactics and
  hints; the parts of Go's strings, strconv, hex, sort and bufio in use.
- Layout.v: internal/layout. Device.v, PartTable.v, ExtentCheck.v: reading a
  disk, internal/parttable, and internal/bootenv's gate in front of stage2.
- World.v: media, failing calls, traces; [looks], [tame], [within] and the
  other predicates on computations are closed under the monad (here and in Spare.v).
- NetMac.v, EspConfig.v, EspMember.v, BootEnv.v, EspSet.v: internal/netmac,
  internal/espconfig, internal/espmember, internal/bootenv and its espset.go.
- Sha256.v, PayloadSum.v, BlkSum.v: internal/payloadsum with its SHA-256.
- BiosBoot.v: internal/biosboot; Stages.v: the stage pair with rollback
  (cmd/tool/main.go).
- KernelInfo.v, InitrdInfo.v, Metadata.v: internal/kernelinfo,
  internal/initrdinfo, internal/metadata.
- Payload.v: the payload of an ESP with rollback (main.go). CmdLine.v:
  internal/cmdline, int13chunk.go and the edits of CMDLINE. UefiBoot.v:
  internal/uefiboot and the UEFI generation with rollback (main.go).
- Verify.v, Update.v: verification, update and install of one target (main.go).
  Inspect.v: the report of a target and the verify command. AfterUpdate.v: an
  update nothing stops, and the checks that follow one. Settings.v: the
  integrity and int13chunk commands, and the build's manifest command
  (manifestcmd.go). Status.v: the status command, the single-target discovery
  and the checks of install. Cleanup.v: [activeCleanup], the mutex and the
  signal handler of main.go, two threads with every interleaving.
- Spare.v: which files and disks each writer may change.
- Mirror.v, MirrorOps.v, MirrorRepair.v, MirrorRun.v, EspCmd.v: mirror.go and
  espcmd.go, the commands over the set of ESPs.
- NvList.v, ZfsNative.v, ZfsCompat.v: internal/zfsnative, cmd/tool/zfsnative.go
  and zfscompat.go, the feature check against the running pool.
- Minisign.v, Release.v: internal/minisign and internal/release.
- Confine.v: what install, [esp add] and [esp remove] may change. Commands.v:
  [main], its commands with the flags each has, and what holds of all of them.
- Print.v, Summary.v: the printed report, the summaries of a run over the set
  and the text helpers around them. Stamp.v: build stamps as times and the
  version command. EspList.v: what [esp list] shows.

** What the theorems show

- Writing. [writePayload_all_or_nothing], [writeUEFIGeneration_all_or_nothing]
  and [writeBIOSStages_all_or_nothing] refine the specification "the new
  content, or the old content and an error" for runs with at most one failing
  call. [WriteFile_atomic] is the primitive below them; [writePayload_crash_consistent],
  [writeUEFIGeneration_crash_safe] and [writeBIOSStages_crash_boots] speak of the
  states between the calls (the last of those between the two disk writes of a
  run in which no call fails).
- Updating. [updateBIOS_outcomes] gives every result of a BIOS update with its
  reason, [update_goes_through] says when an update must be carried out,
  [update_verifies] composes a successful one with the report of status and with
  verify, [updateUEFI_no_downgrade] guards version and architecture.
- Mirrors. [SelectHost_identity] and [SelectHost_order] choose the members;
  [update_marker_last], [update_markers_agree], [compareMembers_exact] and
  [repairMember_keeps_settings] are about what is done to them,
  [setting_commands_confined] and [integrity_reaches_all] about the setting
  commands, [esp_remove_effect] about taking one out.
- Commands. [tool_never_foreign] composes the confinement of every command of
  [main] into one statement: an ESP of another installation is not written
  without --force-adopt, but for the three commands it names.
- Checking. [verifyTarget_sound], [runVerify_repairs_only_missing],
  [status_truthful], [esp_list_truthful], [print_complete] (every problem of a
  report is printed, and OK only without one), [bootCompatVerdict_sound],
  [release_lines_grow], [stamps_chronological] (newer as a string is newer in time).
- Ending. [mounts_released] and [process_ends]: whichever of the command, [die]
  and the signal handler ends the process, mounts are released once and nothing
  deadlocks.
- Trust. [minisign_Verify_exact] (a signature is accepted exactly when it is one),
  [ResolveBIOS_trusted] and [comment_fits_slot].
- Formats. Round trips and exactness of CHECKSUM, BLKSUM, MEMBER, metadata and
  the GPT header; totality and bounded allocation of the nvlist and cpio readers.
  SHA-256 is one definition for crypto/sha256 and for the block function of
  blksum.go; the published test vectors pin it.
- Where the code does not do what it says, a theorem states what it does:
  [CheckStage2ExtentFree_wrap_misses], [runESPAdopt_takes_foreign],
  [verify_misses_override], [setCmdlineInt13Chunk_tab],
  [signal_during_discovery_leaks], [verify_repair_writes_foreign],
  [esp_remove_undetermined], [status_points_up].

** Parameters

Code outside the repository is an argument: gzip and xz, debug/elf and
debug/pe, random bytes, /proc, /sys and symbolic links, mount(8), the kernel's
answers to the ZFS ioctls, the HTTP servers, JSON, net/url, Ed25519 and
BLAKE2b. The package variables mirror.go reaches the system through are the
record [seams].

** Not modelled

The registration and help texts of the flags (cobra), of which the decisions are
in Commands.v; the column widths and wording of lines that are kept as
constructors; the system call instruction itself; the call of
[setPoolInstallID] at the end of a run, which cannot fail it (the function
itself is in Status.v); [uefiboot.Compare] and [release.Download], which nothing
calls; the test seams; the assembly sources of the loaders, whose rules appear
as the checks Go applies to them. *)

From Stdlib Require Import ZArith Lia Strings.Byte.
From Stdlib Require Strings.String.
Export String.StringSyntax.
From stdpp Require Import base list gmap sorting.

Abbreviation byte := Init.Byte.byte.
Abbreviation bytes := (list Init.Byte.byte).

Declare Scope go_scope.
Delimit Scope go_scope with go.

(** ** Bytes and text

Go's [byte] is [Byte.byte]; both [[]byte] and [string] are lists of bytes, so
the conversions between the two that the source writes are the identity. *)

(** The bytes of a source-code string literal. *)
Definition bs (s : String.string) : bytes := String.list_byte_of_string s.

Arguments bs s%_string_scope.

(** A byte as the number it holds, and the low byte of a number (Go's
conversion [byte(x)]). *)
Definition b2z (b : byte) : Z := Z.of_N (Byte.to_N b).

Definition z2b (z : Z) : byte :=
  match Byte.of_N (Z.to_N (z mod 256)) with
  | Some b => b
  | None => x00
  end.

#[export] Instance byte_eq_decision : EqDecision byte := Byte.byte_eq_dec.

#[export] Program Instance byte_countable : Countable byte :=
  inj_countable Byte.to_N Byte.of_N _.
Next Obligation. intros x. apply Byte.of_to_N. Qed.

(** Decidable equality of byte strings as a boolean, the source's [==] on
strings and [bytes.Equal]. *)
Definition beq (a b : bytes) : bool := bool_decide (a = b).

(** ** Machine integers *)

Definition u16 (z : Z) : Z := z mod 2 ^ 16.
Definition u32 (z : Z) : Z := z mod 2 ^ 32.
Definition u64 (z : Z) : Z := z mod 2 ^ 64.

(** Two's complement reinterpretation, Go's [int32(x)] and [int64(x)]. *)
Definition i32 (z : Z) : Z := (z + 2 ^ 31) mod 2 ^ 32 - 2 ^ 31.
Definition i64 (z : Z) : Z := (z + 2 ^ 63) mod 2 ^ 64 - 2 ^ 63.

(** ** Results of a Go call

[Ok] is a value with a nil error, [Err] a non-nil error, [Panic] a run-time
panic (an index or slice expression out of range). *)
Inductive outcome (E A : Type) : Type :=
| Ok (a : A)
| Err (e : E)
| Panic.
Arguments Ok {E A} a.
Arguments Err {E A} e.
Arguments Panic {E A}.

Definition obind {E A B} (c : outcome E A) (k : A -> outcome E B) : outcome E B :=
  match c with
  | Ok a => k a
  | Err e => Err e
  | Panic => Panic
  end.

(** [fmt.Errorf("...: %w", err)]: the error wrapped by its caller. *)
Definition owrap {E F A} (f : E -> F) (c : outcome E A) : outcome F A :=
  match c with
  | Ok a => Ok a
  | Err e => Err (f e)
  | Panic => Panic
  end.

Notation "'let!' x := c 'in' k" := (obind c (fun x => k))
  (at level 10, x name, c at level 100, k at level 200) : go_scope.
Notation "'let!' ' p := c 'in' k" := (obind c (fun x => match x with p => k end))
  (at level 10, p pattern, c at level 100, k at level 200) : go_scope.
Notation "'check' b 'else' e 'in' k" := (if b then k else Err e)
  (at level 10, b at level 100, e at level 100, k at level 200) : go_scope.
Open Scope go_scope.
Open Scope Z_scope.

Definition is_ok {E A} (c : outcome E A) : bool :=
  match c with Ok _ => true | _ => false end.

(** The call does not panic. *)
Definition safe {E A} (c : outcome E A) : Prop := c <> Panic.

(** ** Slices

[len], [b[i]] and [b[lo:hi]], the last two panicking out of range as Go's do.
Every slice of the modelled code has its capacity beyond its length unused, so
the bound of a slice expression is the length. *)

Definition len {A} (l : list A) : Z := Z.of_nat (length l).

Definition sub {A} (l : list A) (lo n : Z) : list A :=
  take (Z.to_nat n) (drop (Z.to_nat lo) l).

Definition slice {E A} (l : list A) (lo hi : Z) : outcome E (list A) :=
  if (0 <=? lo) && (lo <=? hi) && (hi <=? len l) then Ok (sub l lo (hi - lo)) else Panic.

Definition slice_from {E A} (l : list A) (lo : Z) : outcome E (list A) := slice l lo (len l).

Definition index {E A} (l : list A) (i : Z) : outcome E A :=
  if 0 <=? i then
    match l !! Z.to_nat i with Some b => Ok b | None => Panic end
  else Panic.

Definition zeros (n : Z) : bytes := replicate (Z.to_nat n) x00.

(** [copy(dst, src)]: overwrite the front of [dst], no further than it goes. *)
Definition copy {A} (dst src : list A) : list A :=
  take (length dst) src ++ drop (length src) dst.

(** [copy(dst[off:], src)] on a whole buffer. *)
Definition copy_at {A} (dst : list A) (off : Z) (src : list A) : list A :=
  take (Z.to_nat off) dst ++ copy (drop (Z.to_nat off) dst) src.

(** ** Integers in byte order *)

Fixpoint le_get (l : bytes) : Z :=
  match l with
  | [] => 0
  | b :: t => b2z b + 256 * le_get t
  end.

Fixpoint le_put (n : nat) (z : Z) : bytes :=
  match n with
  | O => []
  | S n => z2b z :: le_put n (z / 256)
  end.

Definition be_get (l : bytes) : Z := le_get (rev l).
Definition be_put (n : nat) (z : Z) : bytes := rev (le_put n z).

(** [binary.LittleEndian.UintN(b[off:])]: panics when fewer bytes are left. *)
Definition le_at {E} (n : Z) (l : bytes) (off : Z) : outcome E Z :=
  let! w := slice l off (off + n) in Ok (le_get w).

(** ** Lemmas on bytes *)

Lemma b2z_range b : 0 <= b2z b < 256.
Proof. unfold b2z. pose proof (Byte.to_N_bounded b). lia. Qed.

Lemma z2b_b2z b : z2b (b2z b) = b.
Proof.
  unfold z2b. rewrite Z.mod_small by apply b2z_range.
  unfold b2z. rewrite N2Z.id, Byte.of_to_N. done.
Qed.

Lemma b2z_z2b z : b2z (z2b z) = z mod 256.
Proof.
  unfold z2b. pose proof (Z.mod_pos_bound z 256 ltac:(lia)).
  destruct (Byte.of_N _) eqn:E.
  - apply Byte.to_of_N in E. unfold b2z. rewrite E. lia.
  - apply Byte.of_N_None_iff in E. lia.
Qed.

(** A boolean fact about bytes, by inspection of all of them. *)
Lemma byte_all (P : byte -> bool) :
  forallb P (z2b <$> seqZ 0 256) = true -> forall b, P b = true.
Proof.
  rewrite forallb_forall. intros H b. apply H, list_elem_of_In, list_elem_of_fmap.
  exists (b2z b). rewrite z2b_b2z. split; [done|]. apply elem_of_seqZ. pose proof (b2z_range b). lia.
Qed.

Lemma b2z_inj a b : b2z a = b2z b -> a = b.
Proof. intros H. rewrite <-(z2b_b2z a), <-(z2b_b2z b), H. done. Qed.

Lemma beq_true a b : beq a b = true <-> a = b.
Proof. unfold beq. apply bool_decide_eq_true. Qed.

Lemma beq_false a b : beq a b = false <-> a <> b.
Proof. unfold beq. apply bool_decide_eq_false. Qed.

Lemma beq_refl a : beq a a = true.
Proof. by apply beq_true. Qed.

Lemma le_get_range l : 0 <= le_get l < 256 ^ len l.
Proof.
  unfold len. induction l as [|b t IH]; cbn [le_get length].
  - lia.
  - rewrite Nat2Z.inj_succ, Z.pow_succ_r by lia. pose proof (b2z_range b). lia.
Qed.

Lemma length_le_put n z : length (le_put n z) = n.
Proof. revert z. induction n; intros; cbn; auto. Qed.

Lemma len_le_put n z : len (le_put n z) = Z.of_nat n.
Proof. unfold len. by rewrite length_le_put. Qed.

Lemma le_get_put n z : le_get (le_put n z) = z mod 256 ^ Z.of_nat n.
Proof.
  revert z. induction n as [|n IH]; intros z; cbn [le_put le_get].
  - rewrite Z.pow_0_r, Z.mod_1_r. done.
  - rewrite IH, b2z_z2b, Nat2Z.inj_succ, Z.pow_succ_r by lia.
    rewrite Z.rem_mul_r by lia. done.
Qed.

Lemma le_put_get l : le_put (length l) (le_get l) = l.
Proof.
  induction l as [|b t IH]; cbn [le_put le_get length]; [done|].
  f_equal.
  - apply b2z_inj. rewrite b2z_z2b, (Z.mul_comm 256), Z.mod_add by lia.
    apply Z.mod_small, b2z_range.
  - rewrite (Z.mul_comm 256), Z.div_add, Z.div_small by (lia || apply b2z_range).
    done.
Qed.

Lemma be_get_put n z : be_get (be_put n z) = z mod 256 ^ Z.of_nat n.
Proof. unfold be_get, be_put. rewrite rev_involutive. apply le_get_put. Qed.

Lemma length_be_put n z : length (be_put n z) = n.
Proof. unfold be_put. by rewrite length_rev, length_le_put. Qed.

(** ** Lemmas on slices *)

Lemma len_nil {A} : len (@nil A) = 0.
Proof. done. Qed.

Lemma len_cons {A} (x : A) l : len (x :: l) = 1 + len l.
Proof. unfold len. cbn [length]. lia. Qed.

Lemma len_app {A} (a b : list A) : len (a ++ b) = len a + len b.
Proof. unfold len. rewrite length_app. lia. Qed.

Lemma len_nonneg {A} (l : list A) : 0 <= len l.
Proof. unfold len. lia. Qed.

Lemma len_zeros n : 0 <= n -> len (zeros n) = n.
Proof. intros. unfold len, zeros. rewrite length_replicate. lia. Qed.

Lemma len_drop {A} (l : list A) p : 0 <= p <= len l -> len (drop (Z.to_nat p) l) = len l - p.
Proof. intros H. unfold len in *. rewrite length_drop. lia. Qed.

Lemma len_sub {A} (l : list A) lo n :
  0 <= lo -> 0 <= n -> lo + n <= len l -> len (sub l lo n) = n.
Proof.
  intros. unfold len, sub in *. rewrite length_take, length_drop. lia.
Qed.

Lemma slice_ok {E A} (l : list A) lo hi :
  0 <= lo -> lo <= hi -> hi <= len l -> slice (E:=E) l lo hi = Ok (sub l lo (hi - lo)).
Proof.
  intros. unfold slice.
  rewrite !(proj2 (Z.leb_le _ _)) by lia. done.
Qed.

Lemma slice_inv {E A} (l : list A) lo hi r :
  slice (E:=E) l lo hi = Ok r ->
  0 <= lo /\ lo <= hi /\ hi <= len l /\ r = sub l lo (hi - lo) /\ len r = hi - lo.
Proof.
  unfold slice. destruct (_ && _) eqn:E1; [|done].
  rewrite !andb_true_iff, !Z.leb_le in E1. intros [= <-].
  repeat split; try lia. apply len_sub; lia.
Qed.

Lemma slice_not_err {E A} (l : list A) lo hi (e : E) : slice l lo hi <> Err e.
Proof. unfold slice. by destruct (_ && _). Qed.

Lemma index_ok {E A} (l : list A) i :
  0 <= i < len l -> exists b, index (E:=E) l i = Ok b /\ l !! Z.to_nat i = Some b.
Proof.
  intros H. unfold index. rewrite (proj2 (Z.leb_le _ _)) by lia.
  destruct (lookup_lt_is_Some_2 l (Z.to_nat i)) as [b Hb]; [unfold len in *; lia|].
  rewrite Hb. eauto.
Qed.

Lemma index_not_err {E A} (l : list A) i (e : E) : index l i <> Err e.
Proof. unfold index. destruct (0 <=? i); [|done]. by destruct (l !! _). Qed.

Lemma sub_app_l {A} (a b : list A) lo n :
  0 <= lo -> 0 <= n -> lo + n <= len a -> sub (a ++ b) lo n = sub a lo n.
Proof.
  intros. unfold sub, len in *. rewrite drop_app_le by lia.
  rewrite take_app_le; [done|]. rewrite length_drop. lia.
Qed.

Lemma sub_app_r {A} (a b : list A) lo n :
  len a <= lo -> sub (a ++ b) lo n = sub b (lo - len a) n.
Proof.
  intros. unfold sub, len in *. rewrite drop_app_ge by lia. do 2 f_equal. lia.
Qed.

Lemma sub_full {A} (l : list A) n : n = len l -> sub l 0 n = l.
Proof. intros ->. unfold sub, len. rewrite drop_0. apply take_ge. lia. Qed.

Lemma sub_sub {A} (l : list A) lo n lo' n' :
  0 <= lo -> 0 <= lo' -> 0 <= n' -> lo' + n' <= n ->
  sub (sub l lo n) lo' n' = sub l (lo + lo') n'.
Proof.
  intros. unfold sub. rewrite skipn_firstn_comm, drop_drop, take_take.
  f_equal; [lia|]. f_equal. lia.
Qed.

Lemma le_at_ok {E} n l off :
  0 <= off -> 0 <= n -> off + n <= len l -> le_at (E:=E) n l off = Ok (le_get (sub l off n)).
Proof.
  intros. unfold le_at. rewrite slice_ok by lia. cbn.
  by replace (off + n - off) with n by lia.
Qed.

Lemma length_copy {A} (dst src : list A) : length (copy dst src) = length dst.
Proof. unfold copy. rewrite length_app, length_take, length_drop. lia. Qed.

Lemma copy_fits {A} (dst src : list A) :
  (length src <= length dst)%nat -> copy dst src = src ++ drop (length src) dst.
Proof. intros. unfold copy. by rewrite take_ge by lia. Qed.

Lemma length_copy_at {A} (dst : list A) off src :
  length (copy_at dst off src) = length dst.
Proof. unfold copy_at. rewrite length_app, length_copy, length_take, length_drop. lia. Qed.

Lemma len_copy_at {A} (dst : list A) off src : len (copy_at dst off src) = len dst.
Proof. unfold len. by rewrite length_copy_at. Qed.

Lemma copy_at_fits {A} (dst : list A) off src :
  0 <= off -> off + len src <= len dst ->
  copy_at dst off src = sub dst 0 off ++ src ++ drop (Z.to_nat (off + len src)) dst.
Proof.
  intros H1 H2. unfold copy_at, len in *. rewrite copy_fits by (rewrite length_drop; lia).
  rewrite drop_drop. unfold sub. rewrite drop_0. do 3 f_equal. lia.
Qed.

(** What was written is read back; what was not is untouched. *)
Lemma sub_copy_at_same {A} (dst : list A) off src :
  0 <= off -> off + len src <= len dst -> sub (copy_at dst off src) off (len src) = src.
Proof.
  intros H1 H2. pose proof (len_nonneg src). rewrite copy_at_fits by lia.
  assert (len (sub dst 0 off) = off) as Hl by (apply len_sub; lia).
  rewrite sub_app_r by lia. rewrite Hl, Z.sub_diag. rewrite sub_app_l by lia. by apply sub_full.
Qed.

Lemma sub_drop {A} (l : list A) k lo n : 0 <= k -> 0 <= lo -> sub (drop (Z.to_nat k) l) lo n = sub l (k + lo) n.
Proof. intros. unfold sub. rewrite drop_drop. do 2 f_equal. lia. Qed.

Lemma sub_copy_at_other {A} (dst : list A) off src lo n :
  0 <= off -> off + len src <= len dst -> 0 <= lo -> 0 <= n -> lo + n <= len dst ->
  lo + n <= off \/ off + len src <= lo ->
  sub (copy_at dst off src) lo n = sub dst lo n.
Proof.
  intros H1 H2 Hlo Hn Hfit Hd. pose proof (len_nonneg src). rewrite copy_at_fits by lia.
  assert (len (sub dst 0 off) = off) as Hl by (apply len_sub; lia).
  destruct Hd as [Hd|Hd].
  - rewrite sub_app_l by lia. rewrite sub_sub by lia. done.
  - rewrite sub_app_r by lia. rewrite sub_app_r by lia. rewrite Hl, sub_drop by lia.
    f_equal. lia.
Qed.

(** ** Automation

[go_cases] splits every [if] and [match] of a hypothesis that equates a call
with an [Ok] result, keeping the equation of each test; [zb] turns boolean
comparisons into propositions. *)

Ltac zb :=
  repeat match goal with
  | H : (_ && _)%bool = true |- _ => apply andb_true_iff in H; destruct H
  | H : (_ || _)%bool = false |- _ => apply orb_false_iff in H; destruct H
  | H : negb _ = true |- _ => apply negb_true_iff in H
  | H : negb _ = false |- _ => apply negb_false_iff in H
  | H : (_ <=? _) = true |- _ => apply Z.leb_le in H
  | H : (_ <=? _) = false |- _ => apply Z.leb_gt in H
  | H : (_ <? _) = true |- _ => apply Z.ltb_lt in H
  | H : (_ <? _) = false |- _ => apply Z.ltb_ge in H
  | H : (_ =? _) = true |- _ => apply Z.eqb_eq in H
  | H : (_ =? _) = false |- _ => apply Z.eqb_neq in H
  | H : beq _ _ = true |- _ => apply beq_true in H
  | H : beq _ _ = false |- _ => apply beq_false in H
  end.

Ltac go_step H :=
  match type of H with
  | context [obind ?c _] => let E := fresh "Hc" in destruct c eqn:E; cbn [obind] in H
  | context [owrap _ ?c] => let E := fresh "Hc" in destruct c eqn:E; cbn [owrap] in H
  | (if ?b then _ else _) = _ => let E := fresh "Hb" in destruct b eqn:E
  | match ?x with _ => _ end = _ => let E := fresh "Hm" in destruct x eqn:E
  end.

Ltac go_cases H := repeat (go_step H; try discriminate H).

Lemma obind_ok_inv {E A B} (c : outcome E A) (k : A -> outcome E B) b :
  obind c k = Ok b -> exists a, c = Ok a /\ k a = Ok b.
Proof. destruct c; cbn; intros H; try discriminate; eauto. Qed.

Lemma obind_safe {E A B} (c : outcome E A) (k : A -> outcome E B) :
  safe c -> (forall a, c = Ok a -> safe (k a)) -> safe (obind c k).
Proof. unfold safe. destruct c; cbn; intros Hc Hk; [by apply Hk | done | done]. Qed.

Lemma owrap_safe {E F A} (f : E -> F) (c : outcome E A) : safe c -> safe (owrap f c).
Proof. unfold safe. by destruct c. Qed.

Lemma safe_ok {E A} (a : A) : safe (E:=E) (Ok a).
Proof. done. Qed.

Lemma safe_err {E A} (e : E) : safe (A:=A) (Err e).
Proof. done. Qed.

Lemma safe_slice {E A} (l : list A) lo hi :
  0 <= lo -> lo <= hi -> hi <= len l -> safe (slice (E:=E) l lo hi).
Proof. intros. rewrite slice_ok by lia. done. Qed.

Lemma safe_index {E A} (l : list A) i : 0 <= i < len l -> safe (index (E:=E) l i).
Proof. intros H. destruct (@index_ok E A l i H) as (b & -> & _). done. Qed.

Lemma safe_if {E A} (b : bool) (x y : outcome E A) :
  (b = true -> safe x) -> (b = false -> safe y) -> safe (if b then x else y).
Proof. destruct b; auto. Qed.

Create HintDb go_safe.
#[export] Hint Resolve safe_ok safe_err owrap_safe : go_safe.
Create Rewrite HintDb go_len.
#[export] Hint Rewrite @len_nil @len_cons @len_app len_le_put : go_len.
