(* ===== verification/GoStrings.v ===== *)
(** * The Go standard library used by the source

Executable definitions of the functions of Go's [strings], [bytes], [strconv],
[encoding/hex] and [sort] packages that the modelled code calls, on the
prelude's byte strings, with the lemmas the components use.

[Fields] and [TrimSpace] recognise the white space [unicode.IsSpace] does, by
its UTF-8 encodings (no encoding of a space starts inside another character,
so scanning byte positions and scanning characters find the same ones).
[ToLower] and [ToUpper] are the ASCII part of Go's; the source only compares
their results with ASCII text that no other character maps to. *)

From S2P Require Import Prelude.
From Stdlib Require Import ZArith Lia Strings.Byte.
From stdpp Require Import base list gmap sorting.
Local Open Scope Z_scope.

(** ** Prefixes, suffixes, searching *)

Fixpoint cut_prefix (s p : bytes) {struct p} : option bytes :=
  match p, s with
  | [], _ => Some s
  | a :: p', b :: s' => if decide (a = b) then cut_prefix s' p' else None
  | _ :: _, [] => None
  end.

Definition has_prefix (s p : bytes) : bool :=
  match cut_prefix s p with Some _ => true | None => false end.

Definition trim_prefix (s p : bytes) : bytes :=
  match cut_prefix s p with Some r => r | None => s end.

Definition has_suffix (s p : bytes) : bool := has_prefix (rev s) (rev p).

Definition trim_suffix (s p : bytes) : bytes :=
  if has_suffix s p then take (length s - length p) s else s.

(** [strings.IndexByte], with [None] for -1. *)
Fixpoint index_byte (s : bytes) (c : byte) : option nat :=
  match s with
  | [] => None
  | b :: t => if decide (b = c) then Some O else S <$> index_byte t c
  end.

(** [strings.Index] / [bytes.Index]. *)
Fixpoint index_of (s p : bytes) : option nat :=
  if has_prefix s p then Some O
  else match s with
       | [] => None
       | _ :: t => S <$> index_of t p
       end.

Definition contains (s p : bytes) : bool :=
  match index_of s p with Some _ => true | None => false end.

(** [bytes.IndexAny(s, chars)] for single-byte characters. *)
Fixpoint index_any (s chars : bytes) : option nat :=
  match s with
  | [] => None
  | b :: t => if decide (b ∈ chars) then Some O else S <$> index_any t chars
  end.

(** [strings.Cut(s, c)] for a one-byte separator. *)
Fixpoint cut (s : bytes) (c : byte) : option (bytes * bytes) :=
  match s with
  | [] => None
  | b :: t =>
      if decide (b = c) then Some ([], t)
      else match cut t c with Some (k, v) => Some (b :: k, v) | None => None end
  end.

(** ** Splitting and joining *)

(** [strings.Split(s, c)] for a one-byte separator: never empty. *)
Fixpoint split (c : byte) (s : bytes) : list bytes :=
  match s with
  | [] => [[]]
  | b :: t =>
      if decide (b = c) then [] :: split c t
      else match split c t with
           | w :: ws => (b :: w) :: ws
           | [] => [[b]]
           end
  end.

(** [strings.SplitAfter(s, c)] for a one-byte separator. *)
Fixpoint split_after (c : byte) (s : bytes) : list bytes :=
  match s with
  | [] => [[]]
  | b :: t =>
      if decide (b = c) then [b] :: split_after c t
      else match split_after c t with
           | w :: ws => (b :: w) :: ws
           | [] => [[b]]
           end
  end.

Fixpoint join (sep : bytes) (l : list bytes) : bytes :=
  match l with
  | [] => []
  | [w] => w
  | w :: ws => w ++ sep ++ join sep ws
  end.

(** ** White space *)

Definition is_space1 (b : byte) : bool :=
  bool_decide (b ∈ [x09; x0a; x0b; x0c; x0d; x20]).

Definition is_space2 (a b : byte) : bool :=
  bool_decide (a = xc2) && (bool_decide (b = x85) || bool_decide (b = xa0)).

Definition is_space3 (a b c : byte) : bool :=
  (bool_decide (a = xe1) && bool_decide (b = x9a) && bool_decide (c = x80))
  || (bool_decide (a = xe2) && bool_decide (b = x80)
      && ((128 <=? b2z c) && (b2z c <=? 138)
          || bool_decide (c ∈ [xa8; xa9; xaf])))
  || (bool_decide (a = xe2) && bool_decide (b = x81) && bool_decide (c = x9f))
  || (bool_decide (a = xe3) && bool_decide (b = x80) && bool_decide (c = x80)).

(** The number of bytes of the space character [s] starts with, 0 for none. *)
Definition space_len (s : bytes) : nat :=
  match s with
  | [] => 0
  | a :: r =>
      if is_space1 a then 1
      else match r with
           | [] => 0
           | b :: r' =>
               if is_space2 a b then 2
               else match r' with
                    | [] => 0
                    | c :: _ => if is_space3 a b c then 3 else 0
                    end
           end
  end%nat.

Definition flush (w : bytes) : list bytes :=
  match w with [] => [] | _ => [w] end.

(** [strings.Fields]: [skip] bytes of a space are still to be passed over,
[w] is the word read so far. *)
Fixpoint fields_from (skip : nat) (w : bytes) (s : bytes) : list bytes :=
  match s with
  | [] => flush w
  | b :: t =>
      match skip with
      | S k => fields_from k w t
      | O => match space_len s with
             | O => fields_from O (w ++ [b]) t
             | S k => flush w ++ fields_from k [] t
             end
      end
  end.

Definition fields (s : bytes) : list bytes := fields_from O [] s.

(** [strings.TrimSpace]: drop the leading spaces, and the trailing ones. *)
Fixpoint trim_space_left (skip : nat) (s : bytes) : bytes :=
  match s with
  | [] => []
  | b :: t =>
      match skip with
      | S k => trim_space_left k t
      | O => match space_len s with
             | O => s
             | S k => trim_space_left k t
             end
      end
  end.

(** Whether everything from here on is space (so a trailing space starts). *)
Fixpoint all_space (skip : nat) (s : bytes) : bool :=
  match s with
  | [] => true
  | b :: t =>
      match skip with
      | S k => all_space k t
      | O => match space_len s with
             | O => false
             | S k => all_space k t
             end
      end
  end.

Fixpoint trim_space_right (s : bytes) : bytes :=
  match s with
  | [] => []
  | b :: t => if all_space O s then [] else b :: trim_space_right t
  end.

Definition trim_space (s : bytes) : bytes := trim_space_right (trim_space_left O s).

(** [strings.TrimLeft] / [TrimRight] / [Trim] with a cutset of one-byte
characters. *)
Fixpoint trim_left (s cutset : bytes) : bytes :=
  match s with
  | [] => []
  | b :: t => if decide (b ∈ cutset) then trim_left t cutset else s
  end.

Definition trim_right (s cutset : bytes) : bytes := rev (trim_left (rev s) cutset).

Definition trim (s cutset : bytes) : bytes := trim_right (trim_left s cutset) cutset.

(** ** Character classes and case *)

Definition in_range (lo hi : Z) (b : byte) : bool := (lo <=? b2z b) && (b2z b <=? hi).
Definition is_digit : byte -> bool := in_range 48 57.
Definition is_upper_hex (b : byte) : bool := is_digit b || in_range 65 70 b.
Definition is_lower_hex (b : byte) : bool := is_digit b || in_range 97 102 b.
Definition is_hex (b : byte) : bool := is_digit b || in_range 65 70 b || in_range 97 102 b.
Definition is_alpha (b : byte) : bool := in_range 65 90 b || in_range 97 122 b.

Definition lower_byte (b : byte) : byte := if in_range 65 90 b then z2b (b2z b + 32) else b.
Definition upper_byte (b : byte) : byte := if in_range 97 122 b then z2b (b2z b - 32) else b.
Definition to_lower (s : bytes) : bytes := lower_byte <$> s.
Definition to_upper (s : bytes) : bytes := upper_byte <$> s.

Definition digits : bytes := bs "0123456789".

(** A regular expression that is a sequence of character classes, one per
byte, anchored at both ends. *)
Fixpoint match_classes (cs : list (byte -> bool)) (s : bytes) : bool :=
  match cs, s with
  | [], [] => true
  | c :: cs', b :: s' => c b && match_classes cs' s'
  | _, _ => false
  end.

Definition is_byte (c : byte) (b : byte) : bool := bool_decide (b = c).

(** [strings.ReplaceAll(s, from, to)] for a non-empty [from]: left to right,
the matches not overlapping ([skip] bytes of a match are still to be passed). *)
Fixpoint replace_from (from to : bytes) (skip : nat) (s : bytes) : bytes :=
  match s with
  | [] => []
  | b :: t =>
      match skip with
      | S k => replace_from from to k t
      | O => if has_prefix s from
             then to ++ replace_from from to (pred (length from)) t
             else b :: replace_from from to O t
      end
  end.

Definition replace_all (s from to : bytes) : bytes := replace_from from to O s.

(** ** Numbers *)

Definition digit_val (b : byte) : Z := b2z b - 48.
Definition digit_of (z : Z) : byte := z2b (z + 48).

Fixpoint dec_from (fuel : nat) (z : Z) : bytes :=
  match fuel with
  | O => []
  | S f => if z <? 10 then [digit_of z] else dec_from f (z / 10) ++ [digit_of (z mod 10)]
  end.

(** [strconv.Itoa] and the [%d] verb; a number has at most [log2 z + 1]
decimal digits. *)
Definition dec (z : Z) : bytes := dec_from (S (Z.to_nat (Z.log2 z))) z.
Definition itoa (z : Z) : bytes := if z <? 0 then bs "-" ++ dec (- z) else dec z.

Definition dec_val (s : bytes) : Z := fold_left (fun a b => 10 * a + digit_val b) s 0.

(** [strconv.ParseUint(s, 10, bits)]. *)
Definition parse_dec (s : bytes) (bits : Z) : option Z :=
  match s with
  | [] => None
  | _ => if forallb is_digit s && (dec_val s <? 2 ^ bits) then Some (dec_val s) else None
  end.

(** [strconv.Atoi] on a 64-bit platform: an optional sign, then digits. *)
Definition atoi (s : bytes) : option Z :=
  match s with
  | x2d :: r => match parse_dec r 64 with
                | Some v => if v <=? 2 ^ 63 then Some (- v) else None
                | None => None
                end
  | x2b :: r => match parse_dec r 64 with
                | Some v => if v <? 2 ^ 63 then Some v else None
                | None => None
                end
  | _ => match parse_dec s 64 with
         | Some v => if v <? 2 ^ 63 then Some v else None
         | None => None
         end
  end.

Definition hex_val (b : byte) : option Z :=
  if is_digit b then Some (b2z b - 48)
  else if in_range 97 102 b then Some (b2z b - 87)
  else if in_range 65 70 b then Some (b2z b - 55)
  else None.

(** [strconv.ParseUint(s, 16, bits)]. *)
Fixpoint hex_from (acc : Z) (s : bytes) : option Z :=
  match s with
  | [] => Some acc
  | b :: t => match hex_val b with Some v => hex_from (16 * acc + v) t | None => None end
  end.

Definition parse_hex (s : bytes) (bits : Z) : option Z :=
  match s with
  | [] => None
  | _ => match hex_from 0 s with
         | Some v => if v <? 2 ^ bits then Some v else None
         | None => None
         end
  end.

(** [encoding/hex]. *)
Definition hex_digit (z : Z) : byte := if z <? 10 then z2b (z + 48) else z2b (z + 87).
Definition hex_byte (b : byte) : bytes := [hex_digit (b2z b / 16); hex_digit (b2z b mod 16)].
Definition hex_encode (s : bytes) : bytes := s ≫= hex_byte.

Fixpoint hex_decode (s : bytes) : option bytes :=
  match s with
  | [] => Some []
  | [_] => None
  | a :: b :: t =>
      match hex_val a, hex_val b, hex_decode t with
      | Some u, Some v, Some r => Some (z2b (16 * u + v) :: r)
      | _, _, _ => None
      end
  end.

(** ** Ordering *)

Fixpoint bytes_ltb (a b : bytes) : bool :=
  match a, b with
  | _, [] => false
  | [], _ :: _ => true
  | x :: a', y :: b' =>
      if b2z x <? b2z y then true
      else if b2z x =? b2z y then bytes_ltb a' b' else false
  end.

Definition bytes_le (a b : bytes) : Prop := bytes_ltb b a = false.
#[export] Instance bytes_le_dec a b :
  Decision (bytes_le a b) := decide (bytes_ltb b a = false).

(** [sort.Strings]. *)
Definition sort_strings (l : list bytes) : list bytes := merge_sort bytes_le l.

(** [sort.SliceStable] with the comparison [less]. *)
Section stable_sort.
Context {A : Type} (less : A -> A -> bool).

Fixpoint insert_stable (x : A) (l : list A) : list A :=
  match l with
  | [] => [x]
  | y :: t => if less y x then y :: insert_stable x t else x :: l
  end.

Definition sort_stable (l : list A) : list A := foldr insert_stable [] l.

End stable_sort.

(** ** Lemmas: prefixes, cutting, splitting *)

Lemma cut_prefix_Some s p r : cut_prefix s p = Some r <-> s = p ++ r.
Proof.
  revert s. induction p as [|a p IH]; intros s; cbn.
  - split; congruence.
  - destruct s as [|b s]; [split; discriminate|].
    destruct (decide (a = b)) as [->|Hne].
    + rewrite IH. split; [by intros ->|by intros [= ->]].
    + split; [done|]. by intros [= -> ->].
Qed.

Lemma cut_prefix_app p r : cut_prefix (p ++ r) p = Some r.
Proof. by apply cut_prefix_Some. Qed.

Lemma has_prefix_true s p : has_prefix s p = true <-> exists r, s = p ++ r.
Proof.
  unfold has_prefix. destruct (cut_prefix s p) as [r|] eqn:E.
  - apply cut_prefix_Some in E. naive_solver.
  - split; [done|]. intros [r Hr]. apply cut_prefix_Some in Hr. congruence.
Qed.

Lemma has_prefix_app p r : has_prefix (p ++ r) p = true.
Proof. apply has_prefix_true. eauto. Qed.

Lemma has_suffix_true s p : has_suffix s p = true <-> exists r, s = r ++ p.
Proof.
  unfold has_suffix. rewrite has_prefix_true. split; intros [r Hr].
  - exists (rev r). rewrite <-(rev_involutive s), Hr, rev_app_distr, rev_involutive. done.
  - exists (rev r). rewrite Hr, rev_app_distr. done.
Qed.

Lemma cut_app k c v : c ∉ k -> cut (k ++ c :: v) c = Some (k, v).
Proof.
  induction k as [|b k IH]; cbn; intros Hk.
  - by rewrite decide_True.
  - rewrite decide_False by set_solver. rewrite IH by set_solver. done.
Qed.

Lemma cut_Some s c k v : cut s c = Some (k, v) -> s = k ++ c :: v /\ c ∉ k.
Proof.
  revert k. induction s as [|b s IH]; cbn; intros k H; [done|].
  case_decide; simplify_eq/=; [set_solver|].
  destruct (cut s c) as [[k' v']|]; simplify_eq/=.
  destruct (IH k' eq_refl) as [-> ?]. set_solver.
Qed.

Lemma cut_None s c : cut s c = None <-> c ∉ s.
Proof.
  induction s as [|b s IH]; cbn; [set_solver|].
  case_decide; [set_solver|].
  destruct (cut s c) as [[k' v']|]; [|set_solver].
  split; [done|]. intros ?. assert (c ∉ s) by set_solver. naive_solver.
Qed.

Lemma split_not_nil c s : split c s <> [].
Proof. destruct s as [|b s]; cbn; [done|]. case_decide; [done|]. by destruct (split c s). Qed.

Lemma split_no_sep c s : c ∉ s -> split c s = [s].
Proof.
  induction s as [|b s IH]; cbn; intros H; [done|].
  rewrite decide_False by set_solver. rewrite IH by set_solver. done.
Qed.

Lemma split_app c w s : c ∉ w -> split c (w ++ c :: s) = w :: split c s.
Proof.
  induction w as [|b w IH]; cbn; intros H.
  - by rewrite decide_True.
  - rewrite decide_False by set_solver. rewrite IH by set_solver. done.
Qed.

Lemma split_elem c s w : w ∈ split c s -> c ∉ w.
Proof.
  revert w. induction s as [|b s IH]; cbn; intros w Hw.
  - apply list_elem_of_singleton in Hw as ->. apply not_elem_of_nil.
  - case_decide.
    + apply elem_of_cons in Hw as [->|Hw]; [apply not_elem_of_nil|auto].
    + pose proof (split_not_nil c s). destruct (split c s) as [|w0 ws]; [done|].
      assert (c ∉ w0) by (apply IH; set_solver).
      apply elem_of_cons in Hw as [->|Hw]; [set_solver|apply IH; set_solver].
Qed.

Lemma split_cases c s :
  (c ∉ s /\ split c s = [s]) \/
  (exists w t, s = w ++ c :: t /\ c ∉ w /\ split c s = w :: split c t).
Proof.
  destruct (cut s c) as [[k v]|] eqn:E.
  - right. apply cut_Some in E as [-> Hk]. exists k, v. split_and!; auto using split_app.
  - left. apply cut_None in E. auto using split_no_sep.
Qed.

Lemma join_cons sep w ws : ws <> [] -> join sep (w :: ws) = w ++ sep ++ join sep ws.
Proof. by destruct ws. Qed.

Lemma join_split c s : join [c] (split c s) = s.
Proof.
  remember (length s) as n eqn:Hn. revert s Hn.
  induction n as [n IH] using lt_wf_ind. intros s ->.
  destruct (split_cases c s) as [[? ->]|(w & t & -> & ? & ->)]; [done|].
  rewrite join_cons by apply split_not_nil.
  rewrite (IH (length t)); [done| |done]. rewrite length_app. cbn. lia.
Qed.

Lemma split_join c l : l <> [] -> Forall (fun w => c ∉ w) l -> split c (join [c] l) = l.
Proof.
  intros Hne Hl. induction Hl as [|w l Hw Hl IH]; [done|].
  destruct l as [|w' l].
  - cbn. by apply split_no_sep.
  - rewrite join_cons by done. cbn [app]. rewrite split_app by done.
    rewrite IH by done. done.
Qed.

(** Text made of newline-terminated lines splits into them and an empty rest. *)
Lemma split_lines c (ls : list bytes) :
  Forall (fun w => c ∉ w) ls ->
  split c (ls ≫= (fun l => l ++ [c])) = ls ++ [[]].
Proof.
  induction 1 as [|w ls Hw Hls IH]; [done|].
  cbn. rewrite <-app_assoc. cbn. rewrite split_app by done. rewrite IH. done.
Qed.

(** ** Lemmas: numbers *)

Lemma digit_of_digit z : 0 <= z < 10 -> is_digit (digit_of z) = true /\ digit_val (digit_of z) = z.
Proof.
  intros. unfold is_digit, in_range, digit_val, digit_of.
  rewrite !b2z_z2b, Z.mod_small by lia. rewrite andb_true_iff, !Z.leb_le. lia.
Qed.

Lemma dec_val_snoc s b : dec_val (s ++ [b]) = 10 * dec_val s + digit_val b.
Proof. unfold dec_val. by rewrite fold_left_app. Qed.

Lemma dec_from_spec fuel z :
  0 <= z < 2 ^ Z.of_nat fuel ->
  forallb is_digit (dec_from fuel z) = true /\ dec_val (dec_from fuel z) = z /\
  (fuel <> O -> dec_from fuel z <> []).
Proof.
  revert z. induction fuel as [|f IH]; intros z Hz; cbn [dec_from].
  { cbn in Hz. unfold dec_val. cbn. split_and!; [done|lia|done]. }
  rewrite Nat2Z.inj_succ, Z.pow_succ_r in Hz by lia.
  destruct (Z.ltb_spec z 10).
  - destruct (digit_of_digit z) as [H1 H2]; [lia|].
    unfold dec_val. cbn. rewrite H1, H2. split_and!; [done|lia|done].
  - destruct (IH (z / 10)) as (H1 & H2 & _).
    { split; [apply Z.div_pos; lia|]. apply Z.div_lt_upper_bound; lia. }
    destruct (digit_of_digit (z mod 10)) as [H3 H4]; [apply Z.mod_pos_bound; lia|].
    rewrite forallb_app, H1, dec_val_snoc, H2, H4. cbn [forallb]. rewrite H3.
    split_and!; [done|symmetry; apply Z.div_mod; lia|]. intros _ Hn. by apply app_eq_nil in Hn as [_ ?].
Qed.

Lemma dec_spec z :
  0 <= z -> forallb is_digit (dec z) = true /\ dec_val (dec z) = z /\ dec z <> [].
Proof.
  intros Hz. unfold dec.
  destruct (dec_from_spec (S (Z.to_nat (Z.log2 z))) z) as (H1 & H2 & H3); [|by auto].
  split; [done|]. rewrite Nat2Z.inj_succ, Z2Nat.id by apply Z.log2_nonneg.
  destruct (Z.eq_dec z 0) as [->|]; [done|]. apply Z.log2_spec. lia.
Qed.

Lemma parse_dec_dec z bits : 0 <= z < 2 ^ bits -> parse_dec (dec z) bits = Some z.
Proof.
  intros Hz. destruct (dec_spec z) as (H1 & H2 & H3); [lia|].
  unfold parse_dec. destruct (dec z) eqn:E; [done|]. rewrite <-E in *.
  rewrite H1, H2. cbn. by rewrite (proj2 (Z.ltb_lt _ _)) by lia.
Qed.

Lemma dec_val_bound s : forallb is_digit s = true -> 0 <= dec_val s < 10 ^ len s.
Proof.
  induction s as [|b s IH] using rev_ind; intros H; [unfold dec_val, len; cbn; lia|].
  rewrite forallb_app, andb_true_iff in H. destruct H as [H1 H2].
  cbn in H2. rewrite andb_true_r in H2.
  unfold is_digit, in_range in H2. rewrite andb_true_iff, !Z.leb_le in H2.
  rewrite dec_val_snoc. unfold digit_val. specialize (IH H1).
  unfold len in *. rewrite length_app, Nat2Z.inj_add, Z.pow_add_r by lia. cbn [length].
  change (10 ^ Z.of_nat 1) with 10. lia.
Qed.

Lemma dec_from_length fuel z n :
  0 <= z < 10 ^ Z.of_nat n -> (0 < n)%nat -> (length (dec_from fuel z) <= n)%nat.
Proof.
  revert z n. induction fuel as [|f IH]; intros z n Hz Hn; cbn [dec_from length]; [lia|].
  destruct (Z.ltb_spec z 10); [cbn; lia|].
  rewrite length_app. cbn. destruct n as [|n]; [lia|].
  destruct n as [|n]; [cbn in Hz; lia|].
  rewrite (Nat2Z.inj_succ (S n)), Z.pow_succ_r in Hz by lia.
  specialize (IH (z / 10) (S n)).
  assert (0 <= z / 10 < 10 ^ Z.of_nat (S n)); [|lia].
  split; [apply Z.div_pos; lia|apply Z.div_lt_upper_bound; lia].
Qed.

(** ** Lemmas: hexadecimal *)

Lemma in_range_true lo hi b : in_range lo hi b = true <-> lo <= b2z b <= hi.
Proof. unfold in_range. rewrite andb_true_iff, !Z.leb_le. lia. Qed.

Lemma in_range_false lo hi b : in_range lo hi b = false <-> b2z b < lo \/ hi < b2z b.
Proof. unfold in_range. rewrite andb_false_iff, !Z.leb_gt. lia. Qed.

Lemma hex_digit_spec z :
  0 <= z < 16 ->
  hex_val (hex_digit z) = Some z /\ lower_byte (hex_digit z) = hex_digit z /\
  is_lower_hex (hex_digit z) = true.
Proof.
  intros Hz.
  assert (z = 0 \/ z = 1 \/ z = 2 \/ z = 3 \/ z = 4 \/ z = 5 \/ z = 6 \/ z = 7 \/ z = 8 \/
    z = 9 \/ z = 10 \/ z = 11 \/ z = 12 \/ z = 13 \/ z = 14 \/ z = 15) as Hc by lia.
  repeat destruct Hc as [->|Hc]; try subst z; by vm_compute.
Qed.

Lemma hex_nibbles b : 0 <= b2z b / 16 < 16 /\ 0 <= b2z b mod 16 < 16.
Proof.
  pose proof (b2z_range b). split.
  - split; [apply Z.div_pos; lia|apply Z.div_lt_upper_bound; lia].
  - apply Z.mod_pos_bound. lia.
Qed.

Lemma hex_decode_encode s : hex_decode (hex_encode s) = Some s.
Proof.
  induction s as [|b s IH]; [done|]. cbn.
  change (s ≫= hex_byte) with (hex_encode s). rewrite IH.
  destruct (hex_nibbles b) as [H1 H2].
  destruct (hex_digit_spec _ H1) as (-> & _), (hex_digit_spec _ H2) as (-> & _).
  rewrite <-Z.div_mod by lia. by rewrite z2b_b2z.
Qed.

Lemma hex_encode_lower s : to_lower (hex_encode s) = hex_encode s.
Proof.
  unfold to_lower. induction s as [|b s IH]; [done|]. cbn.
  change (s ≫= hex_byte) with (hex_encode s). rewrite IH.
  destruct (hex_nibbles b) as [H1 H2].
  destruct (hex_digit_spec _ H1) as (_ & -> & _), (hex_digit_spec _ H2) as (_ & -> & _). done.
Qed.

Lemma hex_encode_digits s : forallb is_lower_hex (hex_encode s) = true.
Proof.
  induction s as [|b s IH]; [done|]. cbn.
  change (s ≫= hex_byte) with (hex_encode s). rewrite IH.
  destruct (hex_nibbles b) as [H1 H2].
  destruct (hex_digit_spec _ H1) as (_ & _ & ->), (hex_digit_spec _ H2) as (_ & _ & ->). done.
Qed.

Lemma length_hex_encode s : length (hex_encode s) = (2 * length s)%nat.
Proof.
  induction s as [|b s IH]; [done|]. cbn.
  change (s ≫= hex_byte) with (hex_encode s). rewrite IH. lia.
Qed.

Lemma hex_decode_length s r : hex_decode s = Some r -> length s = (2 * length r)%nat.
Proof.
  revert r. induction s as [s IH] using (induction_ltof1 _ (@length byte)). unfold ltof in IH.
  destruct s as [|a [|b t]]; cbn; intros r H; simplify_eq/=; [done|].
  destruct (hex_val a), (hex_val b), (hex_decode t) eqn:E; simplify_eq/=.
  apply IH in E; [lia|lia].
Qed.

(** Lower-case text that decodes is the encoding of what it decodes to. *)
Lemma hex_val_lower b v :
  hex_val b = Some v -> lower_byte b = b -> 0 <= v < 16 /\ hex_digit v = b.
Proof.
  intros H1 H2.
  assert (match hex_val b with
          | Some v => implb (beq [lower_byte b] [b]) ((0 <=? v) && (v <? 16) && beq [hex_digit v] [b])
          | None => true end = true) as H.
  { clear H1 H2. revert b. apply byte_all. vm_compute. reflexivity. }
  rewrite H1, H2, beq_refl in H. cbn [implb] in H. rewrite !andb_true_iff, beq_true in H.
  destruct H as [[? ?] [= ?]]. split; [lia|done].
Qed.

Lemma hex_encode_decode s r :
  hex_decode s = Some r -> to_lower s = s -> hex_encode r = s.
Proof.
  revert r. induction s as [s IH] using (induction_ltof1 _ (@length byte)). unfold ltof in IH.
  destruct s as [|a [|b t]]; cbn; intros r H Hl; [by injection H as <-|done|].
  injection Hl as Hla Hlb Hlt.
  destruct (hex_val a) as [u|] eqn:Ea, (hex_val b) as [v|] eqn:Eb,
    (hex_decode t) as [q|] eqn:E; try discriminate H. injection H as <-.
  destruct (hex_val_lower _ _ Ea Hla) as [Hu Ha], (hex_val_lower _ _ Eb Hlb) as [Hv Hb].
  apply IH in E; [|cbn; lia|done].
  unfold hex_encode in *. cbn. rewrite E, b2z_z2b, Z.mod_small by lia.
  rewrite (Z.mul_comm 16), Z.div_add_l, Z.div_small, Z.add_0_r by lia.
  rewrite (Z.add_comm (u * 16)), Z.mod_add, Z.mod_small by lia.
  by rewrite Ha, Hb.
Qed.

(** ** Lemmas: character classes *)

Lemma match_classes_length cs s : match_classes cs s = true -> length s = length cs.
Proof.
  revert s. induction cs as [|c cs IH]; intros [|b s]; cbn; try done.
  rewrite andb_true_iff. intros [_ H]. f_equal. auto.
Qed.

Lemma match_classes_not_elem cs s x :
  match_classes cs s = true -> Forall (fun c => c x = false) cs -> x ∉ s.
Proof.
  intros Hm Hcs. revert s Hm. induction Hcs as [|c cs Hc Hcs IH]; intros [|b s]; cbn; try done.
  - set_solver.
  - rewrite andb_true_iff. intros [H1 H2].
    apply not_elem_of_cons. split; [congruence|auto].
Qed.

Lemma match_classes_replicate n c s :
  match_classes (replicate n c) s = true <-> length s = n /\ forallb c s = true.
Proof.
  revert s. induction n as [|n IH]; intros [|b s]; cbn; [done|split; [done|by intros [? _]]|split; [done|by intros [? _]]|].
  rewrite !andb_true_iff, IH. split; [intros (? & <- & ?)|intros ([= <-] & ? & ?)]; done.
Qed.

Lemma match_classes_app cs1 cs2 s1 s2 :
  match_classes cs1 s1 = true -> match_classes cs2 s2 = true ->
  match_classes (cs1 ++ cs2) (s1 ++ s2) = true.
Proof.
  revert s1. induction cs1 as [|c cs1 IH]; intros [|b s1]; cbn; try done.
  rewrite !andb_true_iff. intros [-> H1] H2. auto.
Qed.

Lemma forallb_not_elem (c : byte -> bool) s x : forallb c s = true -> c x = false -> x ∉ s.
Proof.
  induction s as [|b s IH]; cbn; [set_solver|].
  rewrite andb_true_iff. intros [H1 H2] Hx. apply not_elem_of_cons.
  split; [congruence|auto].
Qed.

(** ** Lemmas: ordering *)

Lemma bytes_ltb_irrefl a : bytes_ltb a a = false.
Proof.
  induction a as [|x a IH]; [done|]. cbn.
  by rewrite Z.ltb_irrefl, Z.eqb_refl.
Qed.

Lemma bytes_ltb_trans a b c :
  bytes_ltb a b = true -> bytes_ltb b c = true -> bytes_ltb a c = true.
Proof.
  revert b c. induction a as [|x a IH]; intros [|y b] [|z c]; cbn; try done.
  destruct (Z.ltb_spec (b2z x) (b2z y)), (Z.ltb_spec (b2z y) (b2z z)),
    (Z.ltb_spec (b2z x) (b2z z)), (Z.eqb_spec (b2z x) (b2z y)), (Z.eqb_spec (b2z y) (b2z z)),
    (Z.eqb_spec (b2z x) (b2z z)); try done; try lia; eauto.
Qed.

Lemma bytes_ltb_total a b : bytes_ltb a b = true \/ a = b \/ bytes_ltb b a = true.
Proof.
  revert b. induction a as [|x a IH]; intros [|y b]; cbn; auto.
  destruct (Z.ltb_spec (b2z x) (b2z y)), (Z.ltb_spec (b2z y) (b2z x)),
    (Z.eqb_spec (b2z x) (b2z y)), (Z.eqb_spec (b2z y) (b2z x)); auto; try lia.
  assert (x = y) as -> by auto using b2z_inj.
  destruct (IH b) as [?|[->|?]]; auto.
Qed.

Lemma bytes_ltb_asym a b : bytes_ltb a b = true -> bytes_ltb b a = false.
Proof.
  intros H. destruct (bytes_ltb b a) eqn:E; [|done].
  pose proof (bytes_ltb_trans _ _ _ H E). by rewrite bytes_ltb_irrefl in *.
Qed.

#[export] Instance bytes_le_trans : Transitive bytes_le.
Proof.
  intros a b c. unfold bytes_le. intros H1 H2.
  destruct (bytes_ltb c a) eqn:E; [|done].
  destruct (bytes_ltb_total a b) as [H|[->|H]]; [|congruence|congruence].
  pose proof (bytes_ltb_trans _ _ _ E H). congruence.
Qed.

#[export] Instance bytes_le_total : Total bytes_le.
Proof.
  intros a b. unfold bytes_le. destruct (bytes_ltb_total a b) as [H|[->|H]].
  - left. by apply bytes_ltb_asym.
  - left. apply bytes_ltb_irrefl.
  - right. by apply bytes_ltb_asym.
Qed.

#[export] Instance bytes_le_antisymm : AntiSymm (=) bytes_le.
Proof.
  intros a b. unfold bytes_le. intros H1 H2.
  destruct (bytes_ltb_total a b) as [?|[?|?]]; congruence.
Qed.

Lemma sort_strings_perm l : sort_strings l ≡ₚ l.
Proof. apply merge_sort_Permutation. Qed.

Lemma sort_strings_unique l1 l2 : l1 ≡ₚ l2 -> sort_strings l1 = sort_strings l2.
Proof.
  intros H. apply (StronglySorted_unique bytes_le).
  - apply StronglySorted_merge_sort; apply _.
  - apply StronglySorted_merge_sort; apply _.
  - by rewrite !sort_strings_perm.
Qed.

Section stable_sort_lemmas.
Context {A : Type} (less : A -> A -> bool).

Lemma insert_stable_perm x l : insert_stable less x l ≡ₚ x :: l.
Proof.
  induction l as [|y l IH]; cbn; [done|].
  destruct (less y x); [|done]. rewrite IH. apply Permutation_swap.
Qed.

Lemma sort_stable_perm l : sort_stable less l ≡ₚ l.
Proof.
  induction l as [|x l IH]; cbn; [done|]. by rewrite insert_stable_perm, IH.
Qed.

(** The relation a sorted result satisfies: never a later element strictly
before an earlier one. *)
Definition not_after (a b : A) : Prop := less b a = false.

Context (less_trans : Transitive not_after)
  (less_asym : forall a b, less a b = true -> less b a = false).

Lemma insert_stable_sorted x l :
  StronglySorted not_after l -> StronglySorted not_after (insert_stable less x l).
Proof.
  induction 1 as [|y l Hl IH Hy]; cbn; [repeat constructor|].
  destruct (less y x) eqn:E.
  - constructor; [done|]. rewrite insert_stable_perm. constructor; [|done].
    unfold not_after. auto.
  - constructor; [by constructor|]. constructor; [done|].
    eapply Forall_impl; [exact Hy|]. intros z Hz. by transitivity y.
Qed.

Lemma sort_stable_sorted l : StronglySorted not_after (sort_stable less l).
Proof. induction l; cbn; [constructor|by apply insert_stable_sorted]. Qed.

End stable_sort_lemmas.

(** ** Lemmas: white space *)

(** A byte that neither is nor starts a white-space character. *)
Definition plain_byte (b : byte) : bool := negb (is_space1 b) && (b2z b <? 128).

Lemma space_len_plain b t : plain_byte b = true -> space_len (b :: t) = O.
Proof.
  unfold plain_byte. intros H. apply andb_true_iff in H as [H1 H2]. apply negb_true_iff in H1.
  unfold space_len. rewrite H1. destruct t as [|c t]; [done|].
  assert (is_space2 b c = false) as -> by (unfold is_space2; by destruct b).
  destruct t as [|d t]; [done|].
  assert (is_space3 b c d = false) as -> by (unfold is_space3; by destruct b).
  done.
Qed.

Lemma trim_space_plain s : forallb plain_byte s = true -> trim_space s = s.
Proof.
  intros H. unfold trim_space.
  assert (trim_space_left O s = s) as ->.
  { destruct s as [|b s]; [done|]. cbn [forallb] in H. apply andb_true_iff in H as [Hb _].
    cbn [trim_space_left]. by rewrite space_len_plain. }
  induction s as [|b s IH]; [done|]. cbn [forallb] in H. apply andb_true_iff in H as [Hb Hs].
  cbn [trim_space_right all_space]. rewrite space_len_plain by done. by rewrite IH.
Qed.

Lemma forallb_impl {A} (f g : A -> bool) l :
  (forall x, f x = true -> g x = true) -> forallb f l = true -> forallb g l = true.
Proof.
  intros Hfg. induction l as [|x l IH]; cbn; [done|]. rewrite !andb_true_iff. intros [? ?]. auto.
Qed.

Lemma match_classes_forallb cs (g : byte -> bool) s :
  Forall (fun c : byte -> bool => forall b, c b = true -> g b = true) cs ->
  match_classes cs s = true -> forallb g s = true.
Proof.
  intros H. revert s. induction H as [|c cs Hc H IH]; intros [|b s]; cbn; try done.
  rewrite !andb_true_iff. intros [? ?]. auto.
Qed.

Lemma fields_from_plain w s : forallb plain_byte s = true -> fields_from O w s = flush (w ++ s).
Proof.
  revert w. induction s as [|b s IH]; intros w H; [cbn; by rewrite app_nil_r|].
  cbn [forallb] in H. apply andb_true_iff in H as [Hb Hs].
  cbn [fields_from]. rewrite space_len_plain by done. rewrite IH by done. by rewrite <-app_assoc.
Qed.

(** A word followed by an ASCII space is the first field. *)
Lemma fields_from_word w s t :
  forallb plain_byte s = true ->
  fields_from O w (s ++ x20 :: t) = flush (w ++ s) ++ fields_from O [] t.
Proof.
  revert w. induction s as [|b s IH]; intros w H; [cbn; by rewrite app_nil_r|].
  cbn [forallb] in H. apply andb_true_iff in H as [Hb Hs].
  cbn [app fields_from]. rewrite space_len_plain by done. rewrite IH by done. by rewrite <-app_assoc.
Qed.

Lemma fields_word s t :
  forallb plain_byte s = true -> s <> [] -> fields (s ++ x20 :: t) = s :: fields t.
Proof. intros. unfold fields. rewrite fields_from_word by done. cbn. by destruct s. Qed.

Lemma fields_plain s : forallb plain_byte s = true -> s <> [] -> fields s = [s].
Proof. intros. unfold fields. rewrite fields_from_plain by done. cbn. by destruct s. Qed.

(** Words joined by single spaces are its fields. *)
Lemma fields_join ws :
  Forall (fun w => forallb plain_byte w = true /\ w <> []) ws -> fields (join [x20] ws) = ws.
Proof.
  induction 1 as [|w ws [Hw Hne] H IH]; [done|]. destruct ws as [|w' ws].
  - cbn. by apply fields_plain.
  - rewrite join_cons by done. cbn [app]. by rewrite fields_word, IH.
Qed.

(** ** Lemmas: replacing *)

Lemma replace_from_absent from to s :
  (forall a b, s = a ++ b -> b <> [] -> has_prefix b from = false) -> replace_from from to O s = s.
Proof.
  induction s as [|b s IH]; intros H; [done|]. cbn [replace_from].
  rewrite (H [] (b :: s) eq_refl) by done. rewrite IH; [done|].
  intros a r -> Hr. by apply (H (b :: a) r).
Qed.

(** Text without the first byte of the pattern is left as it is. *)
Lemma replace_all_absent c from to s : c ∉ s -> replace_all s (c :: from) to = s.
Proof.
  intros H. apply replace_from_absent. intros a b -> Hb.
  destruct (has_prefix b (c :: from)) eqn:E; [|done]. apply has_prefix_true in E as [r ->].
  exfalso. apply H, elem_of_app. right. cbn. by left.
Qed.

(** CRLF line ends become LF. *)
Lemma replace_crlf (ls : list bytes) :
  Forall (fun l => x0d ∉ l) ls ->
  replace_all (ls ≫= fun l => l ++ [x0d; x0a]) [x0d; x0a] [x0a] = ls ≫= fun l => l ++ [x0a].
Proof.
  intros H. unfold replace_all. induction H as [|l ls Hl H IH]; [done|].
  cbn [mbind list_bind]. rewrite <-!app_assoc. induction l as [|b l IHl].
  - cbn [app replace_from]. unfold has_prefix. cbn [cut_prefix].
    rewrite !decide_True by done. cbn. by rewrite IH.
  - apply not_elem_of_cons in Hl as [Hb Hl]. cbn [app replace_from]. unfold has_prefix at 1.
    cbn [cut_prefix]. rewrite decide_False by done. f_equal. by apply IHl.
Qed.

(** ** Positions *)

Lemma index_byte_Some s c i : index_byte s c = Some i -> (i < length s)%nat /\ c ∉ take i s /\ s !! i = Some c.
Proof.
  revert i. induction s as [|b s IH]; cbn; intros i H; [done|].
  destruct (decide (b = c)) as [->|Hb].
  - injection H as <-. split_and!; [lia|apply not_elem_of_nil|done].
  - destruct (index_byte s c) as [j|] eqn:E; [|done]. injection H as <-.
    destruct (IH j eq_refl) as (Hl & Hn & Hs). split_and!; [lia| |done].
    cbn. apply not_elem_of_cons. split; [congruence|done].
Qed.

Lemma index_any_Some s cs i : index_any s cs = Some i -> (i < length s)%nat /\ forall c, c ∈ cs -> c ∉ take i s.
Proof.
  revert i. induction s as [|b s IH]; cbn; intros i H; [done|].
  destruct (decide (b ∈ cs)) as [Hb|Hb].
  - injection H as <-. split; [lia|]. intros c _. apply not_elem_of_nil.
  - destruct (index_any s cs) as [j|] eqn:E; [|done]. injection H as <-.
    destruct (IH j eq_refl) as (Hl & Hn). split; [lia|]. intros c Hc.
    cbn. apply not_elem_of_cons. split; [congruence|auto].
Qed.

Lemma index_of_bound s p i : index_of s p = Some i -> (i <= length s)%nat.
Proof.
  revert i. induction s as [|b s IH]; intros i; cbn [index_of].
  - destruct (has_prefix [] p); [by intros [= <-]|done].
  - destruct (has_prefix (b :: s) p); [by intros [= <-]; cbn; lia|].
    destruct (index_of s p) as [j|] eqn:E; [|done]. intros [= <-]. specialize (IH j eq_refl). cbn. lia.
Qed.

(** A match lies inside the text. *)
Lemma index_of_fits s p i : index_of s p = Some i -> (i + length p <= length s)%nat.
Proof.
  revert i. induction s as [|b s IH]; intros i; cbn [index_of].
  - destruct (has_prefix [] p) eqn:E; [|done]. intros [= <-]. apply has_prefix_true in E as [r E].
    apply (f_equal length) in E. rewrite length_app in E. cbn in *. lia.
  - destruct (has_prefix (b :: s) p) eqn:E.
    + intros [= <-]. apply has_prefix_true in E as [r E]. apply (f_equal length) in E. rewrite length_app in E. lia.
    + destruct (index_of s p) as [j|] eqn:Ej; [|done]. intros [= <-]. specialize (IH j eq_refl). cbn. lia.
Qed.
