(* ===== verification/Layout.v ===== *)
(** * internal/layout: the on-disk boot contract

The constants of internal/layout/layout.go, under their own names. *)

From S2P Require Import Prelude.
From Stdlib Require Import ZArith.
From stdpp Require Import base list.
Local Open Scope Z_scope.

Definition SectorSize : Z := 512.
Definition Stage1Bytes : Z := 440.
Definition Stage2LBA : Z := 34.
Definition Stage2Sectors : Z := 64.
Definition Stage2Bytes : Z := Stage2Sectors * SectorSize.

Definition FATVolumeLabel : bytes := bs "EFI".
Definition ESPDir : bytes := bs "EFI/ALPINE".
Definition KernelFile : bytes := bs "EFI/ALPINE/KERNEL".
Definition InitrdFile : bytes := bs "EFI/ALPINE/INITRD".
Definition CmdlineFile : bytes := bs "EFI/ALPINE/CMDLINE".
Definition ConfigFile : bytes := bs "EFI/ALPINE/config".
Definition AuthorizedKeysFile : bytes := bs "EFI/ALPINE/authorized_keys".
Definition SSHHostEd25519KeyFile : bytes := bs "EFI/ALPINE/ssh_host_ed25519_key".
Definition MetadataFile : bytes := bs "EFI/ALPINE/metadata".
Definition PayloadSumFile : bytes := bs "EFI/ALPINE/CHECKSUM".
Definition BlkSumFile : bytes := bs "EFI/ALPINE/BLKSUM".
Definition MemberFile : bytes := bs "EFI/ALPINE/MEMBER".
Definition EFIBootDir : bytes := bs "EFI/BOOT".

Definition Int13ChunkKey : bytes := bs "alpine-zfsboot.int13chunk".
Definition Int13ChunkDefault : Z := 16.
Definition Int13ChunkMax : Z := 127.
Definition CmdlineMaxBytes : Z := 511.
Definition ESPUUIDsKey : bytes := bs "alpine-zfsboot.esp-uuids".
Definition ESPSelfKey : bytes := bs "alpine-zfsboot.esp-self".
Definition NetMACKey : bytes := bs "alpine-zfsboot.net.mac".

(** The firmware's loader name for an architecture, empty for any other. *)
Definition EFILoaderName (arch : bytes) : bytes :=
  if beq arch (bs "x86_64") then bs "BOOTX64.EFI"
  else if beq arch (bs "aarch64") then bs "BOOTAA64.EFI"
  else [].
