(* ===== verification/Device.v ===== *)
(** * Block devices and the CRC of their partition tables

A device path as the source reads it: [os.Open] fails or gives the content;
[ReadAt] fails for a negative offset, at the end of the device, and wherever
the medium has an unreadable range. [crc32] is the standard library's
[crc32.ChecksumIEEE]. *)

From S2P Require Import Prelude.
From Stdlib Require Import ZArith Lia Strings.Byte.
From stdpp Require Import base list.
Local Open Scope Z_scope.

Record device := mkDevice {
  content : bytes;
  unreadable : Z -> Z -> bool  (** offset, length *)
}.

(** [f.ReadAt(buf, off)] with [len(buf) = n]. *)
Definition read_at (d : device) (off n : Z) : option bytes :=
  if (0 <=? off) && (off + n <=? len (content d)) && negb (unreadable d off n)
  then Some (sub (content d) off n) else None.

(** A device with no unreadable range. *)
Definition plain (b : bytes) : device := mkDevice b (fun _ _ => false).

(** [crc32.ChecksumIEEE]: reflected polynomial 0xEDB88320, bit by bit. *)
Definition crc_bit (c : Z) : Z :=
  if Z.testbit c 0 then Z.lxor (Z.shiftr c 1) 0xEDB88320 else Z.shiftr c 1.

Definition crc_byte (c : Z) (b : byte) : Z :=
  Nat.iter 8 crc_bit (Z.lxor c (b2z b)).

Definition crc32 (data : bytes) : Z := Z.lxor (fold_left crc_byte data 0xFFFFFFFF) 0xFFFFFFFF.

Example crc32_check_value : crc32 (bs "123456789") = 0xCBF43926.
Proof. vm_compute. reflexivity. Qed.

Lemma read_at_len d off n r : 0 <= n -> read_at d off n = Some r -> len r = n.
Proof.
  unfold read_at. intros Hn H. destruct (_ && _) eqn:E; [|done]. zb.
  injection H as <-. apply len_sub; lia.
Qed.

Lemma read_at_plain b off n :
  0 <= off -> off + n <= len b -> read_at (plain b) off n = Some (sub b off n).
Proof.
  intros. unfold read_at, plain. cbn. rewrite !(proj2 (Z.leb_le _ _)) by lia. done.
Qed.

Lemma crc_bit_range c : 0 <= c < 2 ^ 32 -> 0 <= crc_bit c < 2 ^ 32.
Proof.
  intros Hc. unfold crc_bit.
  assert (0 <= Z.shiftr c 1 < 2 ^ 31) as Hs.
  { rewrite Z.shiftr_div_pow2 by lia. split; [apply Z.div_pos; lia|].
    apply Z.div_lt_upper_bound; lia. }
  destruct (Z.testbit c 0); [|lia].
  assert (0 <= Z.lxor (Z.shiftr c 1) 3988292384) by (apply Z.lxor_nonneg; lia).
  split; [done|].
  destruct (Z.eq_dec (Z.lxor (Z.shiftr c 1) 3988292384) 0) as [->|]; [done|].
  apply Z.log2_lt_pow2; [lia|].
  eapply Z.le_lt_trans; [apply Z.log2_lxor; lia|].
  apply Z.max_lub_lt; [|vm_compute; done].
  destruct (Z.eq_dec (Z.shiftr c 1) 0) as [->|]; [vm_compute; done|].
  apply Z.log2_lt_pow2; lia.
Qed.
