(* ===== verification/PartTable.v ===== *)
(** * internal/parttable: the GPT and MBR readers

The read-only partition-table reader of internal/parttable/parttable.go: the
GPT header of LBA 1 with its CRC, the partition array, and the MBR of LBA 0.
A path the caller opens is [None] when [os.Open] fails. *)

From S2P Require Import Prelude Device.
From Stdlib Require Import ZArith Lia Strings.Byte.
From stdpp Require Import base list.
Local Open Scope Z_scope.

Definition sectorSize : Z := 512.
Definition gptSignature : bytes := bs "EFI PART".
Definition gptHeaderSize : Z := 92.

(** The header's fields, in the on-disk order. *)
Record GPTHeader := mkGPTHeader {
  Signature : bytes;
  Revision : Z;
  HeaderSize : Z;
  HeaderCRC32 : Z;
  Reserved : Z;
  MyLBA : Z;
  AlternateLBA : Z;
  FirstUsableLBA : Z;
  LastUsableLBA : Z;
  DiskGUID : bytes;
  PartitionEntryLBA : Z;
  NumPartitionEntries : Z;
  PartitionEntrySize : Z;
  PartitionEntryArrayCRC32 : Z
}.

Record GPTPartitionEntry := mkGPTPartitionEntry {
  TypeGUID : bytes;
  UniqueGUID : bytes;
  StartLBA : Z;
  EndLBA : Z;
  Attributes : Z;
  Name : list Z
}.

Record MBRPartitionEntry := mkMBRPartitionEntry {
  Status : byte;
  Type_ : byte;
  MStartLBA : Z;
  MSectorCount : Z
}.

Inductive parttable_error :=
| EOpen
| EReadLBA (lba : Z)
| ErrNoGPTSignature
| EHeaderSize (got : Z)
| EHeaderCRC (stored computed : Z)
| EEntrySize (got : Z)
| EZeroEntries
| ENoBootSignature
| ELooksLikeFAT.

(** ** Decoding: [binary.Read] takes the fields off the front, little endian *)

Definition field {A} (n : nat) (f : bytes -> A) (b : bytes) : A * bytes :=
  (f (take n b), drop n b).

Definition raw (b : bytes) : bytes := b.

Definition read_GPTHeader (b : bytes) : GPTHeader :=
  let '(sig, b) := field 8 raw b in
  let '(rev, b) := field 4 le_get b in
  let '(hsz, b) := field 4 le_get b in
  let '(crc, b) := field 4 le_get b in
  let '(res, b) := field 4 le_get b in
  let '(my, b) := field 8 le_get b in
  let '(alt, b) := field 8 le_get b in
  let '(first, b) := field 8 le_get b in
  let '(last, b) := field 8 le_get b in
  let '(guid, b) := field 16 raw b in
  let '(lba, b) := field 8 le_get b in
  let '(num, b) := field 4 le_get b in
  let '(size, b) := field 4 le_get b in
  let '(acrc, b) := field 4 le_get b in
  mkGPTHeader sig rev hsz crc res my alt first last guid lba num size acrc.

(** The 36 UTF-16 code units of a partition name. *)
Fixpoint read_units (n : nat) (b : bytes) : list Z :=
  match n with
  | O => []
  | S n => le_get (take 2 b) :: read_units n (drop 2 b)
  end.

Definition read_GPTPartitionEntry (b : bytes) : GPTPartitionEntry :=
  let '(ty, b) := field 16 raw b in
  let '(uq, b) := field 16 raw b in
  let '(st, b) := field 8 le_get b in
  let '(en, b) := field 8 le_get b in
  let '(at_, b) := field 8 le_get b in
  mkGPTPartitionEntry ty uq st en at_ (read_units 36 b).

Definition SectorCount (e : GPTPartitionEntry) : Z := u64 (EndLBA e - StartLBA e + 1).

(** [string(rune)]: the UTF-8 encoding of a code unit, an unpaired surrogate
becoming U+FFFD. *)
Definition utf8 (r : Z) : bytes :=
  if r <? 128 then [z2b r]
  else if r <? 2048 then [z2b (192 + r / 64); z2b (128 + r mod 64)]
  else if (55296 <=? r) && (r <=? 57343) then [xef; xbf; xbd]
  else [z2b (224 + r / 4096); z2b (128 + r / 64 mod 64); z2b (128 + r mod 64)].

(** The code units before the first NUL. *)
Fixpoint until_zero (l : list Z) : list Z :=
  match l with
  | [] => []
  | c :: t => if c =? 0 then [] else c :: until_zero t
  end.

Definition utf16Decode (s : list Z) : list Z := s.

Definition NameString (e : GPTPartitionEntry) : bytes := utf16Decode (until_zero (Name e)) ≫= utf8.

Definition isZeroGUID (g : bytes) : bool := forallb (fun b => bool_decide (b = x00)) g.

(** ** The GPT header *)

(** [work[16..19] = 0]: the header with its CRC field zeroed. *)
Definition zero_crc (h : bytes) : bytes := take 16 h ++ [x00; x00; x00; x00] ++ drop 20 h.

Definition crc32ISO (data : bytes) : Z := crc32 data.

Definition ReadGPTHeader (disk : option device) : outcome parttable_error GPTHeader :=
  match disk with
  | None => Err EOpen
  | Some f =>
      match read_at f sectorSize sectorSize with
      | None => Err (EReadLBA 1)
      | Some sector =>
          let! sig := slice sector 0 8 in
          if negb (beq sig gptSignature) then Err ErrNoGPTSignature else
          let! hb := slice sector 0 gptHeaderSize in
          let hdr := read_GPTHeader hb in
          if negb (HeaderSize hdr =? gptHeaderSize) then Err (EHeaderSize (HeaderSize hdr)) else
          let got := crc32ISO (zero_crc hb) in
          if negb (got =? HeaderCRC32 hdr) then Err (EHeaderCRC (HeaderCRC32 hdr) got) else
          Ok hdr
      end
  end.

(** ** The GPT partition array *)

Section partitions.
Context (f : device) (hdr : GPTHeader).

(** [uint32] arithmetic, as the source declares both. *)
Definition entriesPerSector : Z := sectorSize / PartitionEntrySize hdr.
Definition totalSectors : Z :=
  u32 (u32 (NumPartitionEntries hdr + entriesPerSector) - 1) / entriesPerSector.

(** The inner loop over one sector; [n] iterations are left. *)
Fixpoint sector_entries (n : nat) (i entryIndex : Z) (sector : bytes)
    (out : list GPTPartitionEntry) : outcome parttable_error (list GPTPartitionEntry * Z) :=
  match n with
  | O => Ok (out, entryIndex)
  | S n =>
      if entryIndex <? NumPartitionEntries hdr then
        let off := u32 (i * PartitionEntrySize hdr) in
        let! r := slice sector off (u32 (off + 128)) in
        let e := read_GPTPartitionEntry r in
        let out := if isZeroGUID (TypeGUID e) then out else out ++ [e] in
        sector_entries n (i + 1) (u32 (entryIndex + 1)) sector out
      else Ok (out, entryIndex)
  end.

(** The byte offset [int64(lba) * sectorSize] of array sector [s]. *)
Definition array_offset (s : Z) : Z :=
  i64 (i64 (u64 (PartitionEntryLBA hdr + s)) * sectorSize).

(** The outer loop over the array's sectors; [n] are left. *)
Fixpoint array_entries (n : nat) (s entryIndex : Z) (out : list GPTPartitionEntry)
  : outcome parttable_error (list GPTPartitionEntry) :=
  match n with
  | O => Ok out
  | S n =>
      match read_at f (array_offset s) sectorSize with
      | None => Err (EReadLBA (u64 (PartitionEntryLBA hdr + s)))
      | Some sector =>
          let! ' (out, entryIndex) :=
            sector_entries (Z.to_nat entriesPerSector) 0 entryIndex sector out in
          array_entries n (s + 1) entryIndex out
      end
  end.

End partitions.

Definition GPTPartitions (disk : option device) (hdr : GPTHeader)
  : outcome parttable_error (list GPTPartitionEntry) :=
  if (PartitionEntrySize hdr <? 128) || (sectorSize <? PartitionEntrySize hdr)
  then Err (EEntrySize (PartitionEntrySize hdr)) else
  if NumPartitionEntries hdr =? 0 then Err EZeroEntries else
  match disk with
  | None => Err EOpen
  | Some f => array_entries f hdr (Z.to_nat (totalSectors hdr)) 0 0 []
  end.

(** ** The MBR *)

Definition mbrBootSignatureOffset : Z := 510.
Definition mbrPartitionTableOffset : Z := 446.
Definition mbrPartitionEntrySize : Z := 16.
Definition mbrMaxPartitions : Z := 4.

Definition looksLikeFATBootSector (sector : bytes) : outcome parttable_error bool :=
  let! b0 := index sector 0 in
  let jmpOK := bool_decide (b0 = xeb) || bool_decide (b0 = xe9) in
  let! bps := slice sector 11 13 in
  let! spc := index sector 13 in
  let sectorsPerCluster := b2z spc in
  let bytesPerSectorOK := le_get bps =? sectorSize in
  let sectorsPerClusterOK :=
    negb (sectorsPerCluster =? 0)
    && (Z.land sectorsPerCluster ((sectorsPerCluster - 1) mod 256) =? 0) in
  Ok (jmpOK && bytesPerSectorOK && sectorsPerClusterOK).

Definition mbr_entry (sector : bytes) (i : Z) : outcome parttable_error MBRPartitionEntry :=
  let off := mbrPartitionTableOffset + i * mbrPartitionEntrySize in
  let! r := slice sector off (off + mbrPartitionEntrySize) in
  let! st := index r 0 in
  let! ty := index r 4 in
  let! start := slice r 8 12 in
  let! count := slice r 12 16 in
  Ok (mkMBRPartitionEntry st ty (le_get start) (le_get count)).

Fixpoint mbr_entries (n : nat) (i : Z) (sector : bytes) (out : list MBRPartitionEntry)
  : outcome parttable_error (list MBRPartitionEntry) :=
  match n with
  | O => Ok out
  | S n =>
      let! e := mbr_entry sector i in
      mbr_entries n (i + 1) sector (if MSectorCount e =? 0 then out else out ++ [e])
  end.

Definition MBRPartitions (disk : option device) : outcome parttable_error (list MBRPartitionEntry) :=
  match disk with
  | None => Err EOpen
  | Some f =>
      match read_at f 0 sectorSize with
      | None => Err (EReadLBA 0)
      | Some sector =>
          let! s0 := index sector mbrBootSignatureOffset in
          let! s1 := index sector (mbrBootSignatureOffset + 1) in
          if negb (bool_decide (s0 = x55) && bool_decide (s1 = xaa)) then Err ENoBootSignature else
          let! fat := looksLikeFATBootSector sector in
          if fat then Err ELooksLikeFAT else
          mbr_entries (Z.to_nat mbrMaxPartitions) 0 sector []
      end
  end.

(** ** Specification: the on-disk form of a header, and the array's entries *)

(** The 92 bytes the UEFI header layout gives [h]. *)
Definition put_GPTHeader (h : GPTHeader) : bytes :=
  Signature h ++ le_put 4 (Revision h) ++ le_put 4 (HeaderSize h) ++ le_put 4 (HeaderCRC32 h)
  ++ le_put 4 (Reserved h) ++ le_put 8 (MyLBA h) ++ le_put 8 (AlternateLBA h)
  ++ le_put 8 (FirstUsableLBA h) ++ le_put 8 (LastUsableLBA h) ++ DiskGUID h
  ++ le_put 8 (PartitionEntryLBA h) ++ le_put 4 (NumPartitionEntries h)
  ++ le_put 4 (PartitionEntrySize h) ++ le_put 4 (PartitionEntryArrayCRC32 h).

Definition fits (n z : Z) : Prop := 0 <= z < 256 ^ n.

(** Every field has its declared width. *)
Definition wf_GPTHeader (h : GPTHeader) : Prop :=
  length (Signature h) = 8%nat /\ fits 4 (Revision h) /\ fits 4 (HeaderSize h) /\
  fits 4 (HeaderCRC32 h) /\ fits 4 (Reserved h) /\ fits 8 (MyLBA h) /\ fits 8 (AlternateLBA h) /\
  fits 8 (FirstUsableLBA h) /\ fits 8 (LastUsableLBA h) /\ length (DiskGUID h) = 16%nat /\
  fits 8 (PartitionEntryLBA h) /\ fits 4 (NumPartitionEntries h) /\
  fits 4 (PartitionEntrySize h) /\ fits 4 (PartitionEntryArrayCRC32 h).

Definition with_crc (c : Z) (h : GPTHeader) : GPTHeader :=
  mkGPTHeader (Signature h) (Revision h) (HeaderSize h) c (Reserved h) (MyLBA h)
    (AlternateLBA h) (FirstUsableLBA h) (LastUsableLBA h) (DiskGUID h)
    (PartitionEntryLBA h) (NumPartitionEntries h) (PartitionEntrySize h)
    (PartitionEntryArrayCRC32 h).

(** Entry [k] of the array: entries do not straddle sectors, so it is entry
[k mod entriesPerSector] of array sector [k / entriesPerSector]. *)
Definition entry_at (f : device) (hdr : GPTHeader) (k : nat) : option GPTPartitionEntry :=
  let q := Z.of_nat k / entriesPerSector hdr in
  let r := Z.of_nat k mod entriesPerSector hdr in
  sector ← read_at f (array_offset hdr q) sectorSize;
  Some (read_GPTPartitionEntry (sub sector (r * PartitionEntrySize hdr) 128)).

(** [es] are the entries with the numbers [ks], in order. *)
Definition listed (f : device) (hdr : GPTHeader) (ks : list nat) (es : list GPTPartitionEntry) : Prop :=
  Forall2 (fun k e => entry_at f hdr k = Some e) ks es.

Definition used (e : GPTPartitionEntry) : bool := negb (isZeroGUID (TypeGUID e)).

(** ** Lemmas *)

Lemma field_app {A} n (f : bytes -> A) x r :
  length x = n -> field n f (x ++ r) = (f x, r).
Proof. intros <-. unfold field. by rewrite take_app_length, drop_app_length. Qed.

Lemma le_field_app n z r :
  fits (Z.of_nat n) z -> field n le_get (le_put n z ++ r) = (z, r).
Proof.
  intros H. rewrite field_app by apply length_le_put.
  rewrite le_get_put, Z.mod_small by done. done.
Qed.

Lemma read_put_GPTHeader h : wf_GPTHeader h -> read_GPTHeader (put_GPTHeader h) = h.
Proof.
  intros (?&?&?&?&?&?&?&?&?&?&?&?&?&?). unfold put_GPTHeader, read_GPTHeader.
  rewrite field_app by done. rewrite !le_field_app by done.
  rewrite field_app by done. rewrite !le_field_app by done.
  rewrite <-(app_nil_r (le_put 4 (PartitionEntryArrayCRC32 h))), le_field_app by done.
  by destruct h.
Qed.

Lemma le_put_get_n n b : length b = n -> le_put n (le_get b) = b.
Proof. intros <-. apply le_put_get. Qed.

Lemma take_app_rest n (l r : bytes) : r = drop n l -> take n l ++ r = l.
Proof. intros ->. apply take_drop. Qed.

Lemma put_read_GPTHeader b : length b = 92%nat -> put_GPTHeader (read_GPTHeader b) = b.
Proof.
  intros Hb. unfold read_GPTHeader, field, put_GPTHeader, raw. cbn [Signature Revision HeaderSize
    HeaderCRC32 Reserved MyLBA AlternateLBA FirstUsableLBA LastUsableLBA DiskGUID PartitionEntryLBA
    NumPartitionEntries PartitionEntrySize PartitionEntryArrayCRC32].
  rewrite !le_put_get_n by (rewrite length_take, ?length_drop; lia).
  repeat (apply take_app_rest). apply take_ge. rewrite !length_drop. lia.
Qed.

Lemma fits_le_get n b : length b = n -> fits (Z.of_nat n) (le_get b).
Proof. intros <-. apply le_get_range. Qed.

Lemma read_GPTHeader_wf b : length b = 92%nat -> wf_GPTHeader (read_GPTHeader b).
Proof.
  intros Hb. unfold wf_GPTHeader, read_GPTHeader, field, raw. cbn.
  split_and!; try (apply (fits_le_get 4)); try (apply (fits_le_get 8));
    rewrite length_take, ?length_drop; lia.
Qed.

Lemma zero_crc_put h :
  length (Signature h) = 8%nat -> zero_crc (put_GPTHeader h) = put_GPTHeader (with_crc 0 h).
Proof.
  intros Hs. unfold zero_crc, put_GPTHeader, with_crc. cbn [Signature Revision HeaderSize
    HeaderCRC32 Reserved MyLBA AlternateLBA FirstUsableLBA LastUsableLBA DiskGUID PartitionEntryLBA
    NumPartitionEntries PartitionEntrySize PartitionEntryArrayCRC32].
  change (le_put 4 0) with [x00; x00; x00; x00].
  set (rest := le_put 4 (Reserved h) ++ _).
  replace (take 16 (Signature h ++ le_put 4 (Revision h) ++ le_put 4 (HeaderSize h)
      ++ le_put 4 (HeaderCRC32 h) ++ rest))
    with (Signature h ++ le_put 4 (Revision h) ++ le_put 4 (HeaderSize h)).
  - replace (drop 20 _) with rest; [by rewrite <-!app_assoc|].
    rewrite (app_assoc (Signature h)), (app_assoc (Signature h ++ _)),
      (app_assoc ((Signature h ++ _) ++ _)).
    rewrite drop_app_length'; [done|]. rewrite !length_app, !length_le_put. lia.
  - rewrite (app_assoc (Signature h) (le_put 4 (Revision h)) (le_put 4 (HeaderSize h) ++ _ ++ _)),
      (app_assoc (Signature h ++ le_put 4 (Revision h))).
    rewrite take_app_length'; [by rewrite <-app_assoc|].
    rewrite !length_app, !length_le_put. lia.
Qed.

Lemma read_sector_len f off s : read_at f off sectorSize = Some s -> len s = sectorSize.
Proof. apply read_at_len. unfold sectorSize. lia. Qed.

(** The entries of one sector. *)
Section sector.
Context (hdr : GPTHeader).
Notation size := (PartitionEntrySize hdr).
Notation num := (NumPartitionEntries hdr).
Context (Hsize : 128 <= size <= sectorSize).

Definition sector_entry (sector : bytes) (j : nat) : GPTPartitionEntry :=
  read_GPTPartitionEntry (sub sector (Z.of_nat j * size) 128).

Lemma eps_pos : 1 <= entriesPerSector hdr <= 4 /\ entriesPerSector hdr * size <= sectorSize.
Proof.
  unfold entriesPerSector, sectorSize in *.
  pose proof (Z.mul_div_le 512 size ltac:(lia)).
  assert (1 <= 512 / size) by (apply Z.div_le_lower_bound; lia).
  assert (512 / size <= 512 / 128) by (apply Z.div_le_compat_l; lia).
  change (512 / 128) with 4 in *. nia.
Qed.

Lemma entry_bounds j :
  Z.of_nat j < entriesPerSector hdr -> 0 <= Z.of_nat j * size /\ Z.of_nat j * size + 128 <= 512.
Proof. intros. pose proof eps_pos. unfold sectorSize in *. nia. Qed.

Lemma sector_slice (sector : bytes) j :
  len sector = sectorSize -> Z.of_nat j < entriesPerSector hdr ->
  slice (E:=parttable_error) sector (u32 (Z.of_nat j * size)) (u32 (u32 (Z.of_nat j * size) + 128))
  = Ok (sub sector (Z.of_nat j * size) 128).
Proof.
  intros Hl Hj. destruct (entry_bounds j Hj). unfold u32.
  rewrite (Z.mod_small (Z.of_nat j * size)) by lia.
  rewrite (Z.mod_small (_ + 128)) by lia.
  unfold sectorSize in Hl. rewrite slice_ok by lia. do 2 f_equal. lia.
Qed.

Lemma sector_entries_safe n i k sector out :
  len sector = sectorSize -> Z.of_nat i + Z.of_nat n <= entriesPerSector hdr ->
  safe (sector_entries hdr n (Z.of_nat i) k sector out).
Proof.
  intros Hl. revert i k out. induction n as [|n IH]; intros i k out Hi; cbn [sector_entries]; [done|].
  destruct (k <? num); [|done].
  rewrite sector_slice by (done || lia). cbn [obind].
  replace (Z.of_nat i + 1) with (Z.of_nat (S i)) by lia. apply IH. lia.
Qed.

Lemma sector_entries_spec n i k sector out :
  len sector = sectorSize -> Z.of_nat i + Z.of_nat n <= entriesPerSector hdr ->
  Z.of_nat k <= num < 2 ^ 32 ->
  let m := Nat.min n (Z.to_nat num - k) in
  sector_entries hdr n (Z.of_nat i) (Z.of_nat k) sector out =
  Ok (out ++ List.filter used (sector_entry sector <$> seq i m), Z.of_nat (k + m)).
Proof.
  intros Hl. revert i k out. induction n as [|n IH]; intros i k out Hi Hk; cbn [sector_entries].
  { cbn. rewrite app_nil_r. by rewrite Nat.add_0_r. }
  destruct (Z.ltb_spec (Z.of_nat k) num).
  - rewrite sector_slice by (done || lia). cbn [obind].
    replace (Z.of_nat i + 1) with (Z.of_nat (S i)) by lia.
    replace (u32 (Z.of_nat k + 1)) with (Z.of_nat (S k)) by (unfold u32; rewrite Z.mod_small; lia).
    rewrite IH by lia.
    replace (Nat.min (S n) (Z.to_nat num - k)) with (S (Nat.min n (Z.to_nat num - S k))) by lia.
    cbn [seq fmap list_fmap List.filter]. unfold used at 2.
    change (sector_entry sector i) with (read_GPTPartitionEntry (sub sector (Z.of_nat i * size) 128)).
    f_equal. f_equal; [|lia].
    destruct (isZeroGUID _); cbn [negb]; [done|]. by rewrite <-app_assoc.
  - replace (Nat.min (S n) (Z.to_nat num - k)) with O by lia.
    cbn. rewrite app_nil_r. by rewrite Nat.add_0_r.
Qed.

End sector.

Section array.
Context (f : device) (hdr : GPTHeader).
Notation size := (PartitionEntrySize hdr).
Notation num := (NumPartitionEntries hdr).
Context (Hsize : 128 <= size <= sectorSize).

Lemma array_entries_safe n s k out : safe (array_entries f hdr n s k out).
Proof.
  revert s k out. induction n as [|n IH]; intros s k out; cbn [array_entries]; [done|].
  destruct (read_at _ _ _) as [sector|] eqn:Hr; [|done].
  apply read_sector_len in Hr.
  apply obind_safe.
  - apply (sector_entries_safe hdr Hsize _ 0); [done|].
    pose proof (eps_pos hdr Hsize). lia.
  - intros [out' k'] _. apply IH.
Qed.

Context (Hnum : 0 <= num < 2 ^ 32).

(** Array sector [s] holds the entries [s * entriesPerSector] onwards. *)
Lemma sector_entry_at s sector j :
  read_at f (array_offset hdr (Z.of_nat s)) sectorSize = Some sector ->
  Z.of_nat j < entriesPerSector hdr ->
  entry_at f hdr (s * Z.to_nat (entriesPerSector hdr) + j) = Some (sector_entry hdr sector j).
Proof.
  intros Hr Hj. destruct (eps_pos hdr Hsize) as [He _]. unfold entry_at.
  replace (Z.of_nat (s * Z.to_nat (entriesPerSector hdr) + j))
    with (Z.of_nat j + Z.of_nat s * entriesPerSector hdr) by lia.
  rewrite Z.div_add, Z.div_small, Z.add_0_l, Hr by lia. cbn.
  rewrite Z.mod_add, Z.mod_small by lia. done.
Qed.

Lemma listed_sector s sector m :
  read_at f (array_offset hdr (Z.of_nat s)) sectorSize = Some sector ->
  Z.of_nat m <= entriesPerSector hdr ->
  listed f hdr (seq (s * Z.to_nat (entriesPerSector hdr)) m) (sector_entry hdr sector <$> seq 0 m).
Proof.
  intros Hr Hm. unfold listed. rewrite Forall2_lookup. intros i. rewrite list_lookup_fmap.
  destruct (decide (i < m)%nat).
  - rewrite !lookup_seq_lt by lia. cbn. constructor.
    apply sector_entry_at; [done|lia].
  - rewrite !lookup_seq_ge by lia. constructor.
Qed.

Lemma array_entries_ok n s out r :
  let E := Z.to_nat (entriesPerSector hdr) in
  let k := Nat.min (Z.to_nat num) (s * E) in
  (Z.to_nat num <= (s + n) * E)%nat ->
  array_entries f hdr n (Z.of_nat s) (Z.of_nat k) out = Ok r ->
  exists es, listed f hdr (seq k (Z.to_nat num - k)) es /\ r = out ++ List.filter used es.
Proof.
  intros E. destruct (eps_pos hdr Hsize) as [He _].
  revert s out. induction n as [|n IH]; intros s out k Hn H; cbn [array_entries] in H.
  { injection H as <-. exists []. cbn. rewrite app_nil_r. split; [|done].
    replace (Z.to_nat num - k)%nat with O by nia. constructor. }
  destruct (read_at _ _ _) as [sector|] eqn:Hr; [|done].
  pose proof (read_sector_len _ _ _ Hr) as Hl.
  rewrite (sector_entries_spec hdr Hsize E 0 k) in H by (done || lia).
  cbn [obind] in H. set (m := Nat.min E (Z.to_nat num - k)) in *.
  replace (Z.of_nat s + 1) with (Z.of_nat (S s)) in H by lia.
  replace (k + m)%nat with (Nat.min (Z.to_nat num) (S s * E)) in H by lia.
  apply IH in H as (es & Hes & ->); [|nia].
  exists ((sector_entry hdr sector <$> seq 0 m) ++ es).
  rewrite List.filter_app, app_assoc. split; [|done].
  replace (Z.to_nat num - k)%nat
    with (m + (Z.to_nat num - Nat.min (Z.to_nat num) (S s * E)))%nat by lia.
  rewrite seq_app. apply Forall2_app.
  - destruct (decide (m = 0%nat)) as [->|Hm0]; [constructor|].
    replace k with (s * E)%nat by lia. apply (listed_sector s sector m Hr). lia.
  - by replace (k + m)%nat with (Nat.min (Z.to_nat num) (S s * E)) by lia.
Qed.

(** The array's sector count covers every entry unless the addition wraps. *)
Lemma totalSectors_covers :
  num + entriesPerSector hdr <= 2 ^ 32 ->
  (Z.to_nat num <= Z.to_nat (totalSectors hdr) * Z.to_nat (entriesPerSector hdr))%nat.
Proof.
  intros Hov. destruct (eps_pos hdr Hsize) as [He _]. unfold totalSectors, u32.
  destruct (Z.eq_dec (num + entriesPerSector hdr) (2 ^ 32)) as [Heq|Hne].
  - rewrite Heq, Z_mod_same_full. change ((0 - 1) mod 2 ^ 32) with (2 ^ 32 - 1).
    pose proof (Z.div_mod (2 ^ 32 - 1) (entriesPerSector hdr) ltac:(lia)).
    pose proof (Z.mod_pos_bound (2 ^ 32 - 1) (entriesPerSector hdr) ltac:(lia)).
    assert (0 <= (2 ^ 32 - 1) / entriesPerSector hdr) by (apply Z.div_pos; lia). nia.
  - rewrite (Z.mod_small (num + _)) by lia.
    destruct (Z.eq_dec num 0) as [->|]; [lia|].
    rewrite Z.mod_small by lia.
    set (a := num + entriesPerSector hdr - 1).
    pose proof (Z.div_mod a (entriesPerSector hdr) ltac:(lia)).
    pose proof (Z.mod_pos_bound a (entriesPerSector hdr) ltac:(lia)).
    assert (0 <= a / entriesPerSector hdr) by (apply Z.div_pos; lia). nia.
Qed.

End array.

Lemma GPTPartitions_inv f hdr out :
  GPTPartitions (Some f) hdr = Ok out ->
  128 <= PartitionEntrySize hdr <= sectorSize /\ NumPartitionEntries hdr <> 0 /\
  array_entries f hdr (Z.to_nat (totalSectors hdr)) 0 0 [] = Ok out.
Proof.
  unfold GPTPartitions. destruct (_ || _) eqn:E; [done|]. zb.
  destruct (_ =? 0) eqn:E0; [done|]. zb. intros Ho. split_and!; [lia|lia|done|done].
Qed.

Lemma ReadGPTHeader_inv f h :
  ReadGPTHeader (Some f) = Ok h ->
  exists sector, read_at f sectorSize sectorSize = Some sector /\ len sector = sectorSize /\
    sub sector 0 8 = gptSignature /\ read_GPTHeader (sub sector 0 92) = h /\
    HeaderSize h = gptHeaderSize /\ crc32 (zero_crc (sub sector 0 92)) = HeaderCRC32 h.
Proof.
  unfold ReadGPTHeader. destruct (read_at _ _ _) as [sector|] eqn:Hr; [|done].
  pose proof (read_sector_len _ _ _ Hr) as Hl. intros H. exists sector.
  unfold sectorSize, gptHeaderSize in *.
  rewrite !slice_ok in H by lia. cbn [obind] in H.
  change (8 - 0) with 8 in H. change (92 - 0) with 92 in H.
  remember (read_GPTHeader (sub sector 0 92)) as hh eqn:Hhh.
  destruct (beq _ _) eqn:E1; cbn [negb] in H; [|done].
  destruct (_ =? 92) eqn:E2; cbn [negb] in H; [|done].
  destruct (_ =? HeaderCRC32 _) eqn:E3; cbn [negb] in H; [|done].
  injection H as <-. zb. done.
Qed.

Lemma sub_0 {A} (l : list A) n : sub l 0 n = take (Z.to_nat n) l.
Proof. unfold sub. by rewrite drop_0. Qed.

Lemma length_header_bytes (sector : bytes) : len sector = sectorSize -> length (sub sector 0 92) = 92%nat.
Proof.
  intros H. unfold sectorSize in H. rewrite sub_0, length_take. unfold len in H. lia.
Qed.

(** GPT header, accepted exactly: [ReadGPTHeader] returns [h] if and only if
LBA 1 can be read, its first 92 bytes are the on-disk form of [h] with every
field at its declared width, the signature is "EFI PART", [header_size] is 92,
and the stored CRC32 is that of the header with the CRC field zeroed. *)
Theorem ReadGPTHeader_exact (f : device) (h : GPTHeader) :
  ReadGPTHeader (Some f) = Ok h <->
  exists sector, read_at f sectorSize sectorSize = Some sector /\
    take 92 sector = put_GPTHeader h /\ wf_GPTHeader h /\
    Signature h = gptSignature /\ HeaderSize h = gptHeaderSize /\
    HeaderCRC32 h = crc32 (put_GPTHeader (with_crc 0 h)).
Proof.
  split.
  - intros (sector & Hr & Hl & Hsig & Hh & Hs & Hcrc)%ReadGPTHeader_inv.
    pose proof (length_header_bytes _ Hl) as Hb.
    assert (take 92 sector = put_GPTHeader h) as Hput.
    { rewrite <-Hh, put_read_GPTHeader by done. by rewrite sub_0. }
    pose proof (read_GPTHeader_wf _ Hb) as Hwf. rewrite Hh in Hwf.
    exists sector. split_and!; try done.
    + rewrite <-Hsig, <-Hh. unfold read_GPTHeader, field, raw. cbn.
      rewrite !sub_0, take_take. done.
    + rewrite <-Hcrc, <-zero_crc_put by apply Hwf.
      by rewrite <-Hput, sub_0.
  - intros (sector & Hr & Hput & Hwf & Hsig & Hs & Hcrc). unfold ReadGPTHeader. rewrite Hr.
    pose proof (read_sector_len _ _ _ Hr) as Hl. unfold sectorSize, gptHeaderSize in *.
    rewrite !slice_ok by lia. cbn [obind]. rewrite !sub_0.
    change (Z.to_nat (92 - 0)) with 92%nat. change (Z.to_nat (8 - 0)) with 8%nat.
    replace (take 8 sector) with gptSignature; [rewrite beq_refl; cbn [negb]|].
    + rewrite Hput, read_put_GPTHeader, Hs, Z.eqb_refl by done. cbn [negb].
      unfold crc32ISO. rewrite zero_crc_put by apply Hwf.
      rewrite <-Hcrc, Z.eqb_refl. done.
    + rewrite <-Hsig. transitivity (take 8 (take 92 sector)); [|by rewrite take_take].
      rewrite Hput. unfold put_GPTHeader. destruct Hwf as [Hw _].
      symmetry. by apply take_app_length'.
Qed.

(** Partition array, memory safety: for every header and every disk,
[GPTPartitions] returns a list or an error and never slices past the sector it
read (the header's entry size is attacker-controlled). *)
Theorem GPTPartitions_never_panics (disk : option device) (hdr : GPTHeader) :
  safe (GPTPartitions disk hdr).
Proof.
  unfold GPTPartitions. destruct (_ || _) eqn:E; [done|]. zb.
  destruct (_ =? 0); [done|]. destruct disk as [f|]; [|done].
  apply array_entries_safe. lia.
Qed.

Lemma GPTPartitions_listed f hdr out :
  0 <= NumPartitionEntries hdr ->
  NumPartitionEntries hdr + entriesPerSector hdr <= 2 ^ 32 ->
  GPTPartitions (Some f) hdr = Ok out ->
  exists es, listed f hdr (seq 0 (Z.to_nat (NumPartitionEntries hdr))) es /\
             out = List.filter used es.
Proof.
  intros Hnum Hwrap Hok. apply GPTPartitions_inv in Hok as (Hsize & Hn0 & Hok).
  destruct (eps_pos hdr Hsize) as [He _].
  destruct (array_entries_ok f hdr Hsize ltac:(lia) (Z.to_nat (totalSectors hdr)) 0 [] out)
    as (es & Hes & ->).
  - pose proof (totalSectors_covers hdr Hsize ltac:(lia) Hwrap). lia.
  - cbn. by rewrite Nat.min_0_r.
  - exists es. rewrite Nat.min_0_r, Nat.sub_0_r in Hes. done.
Qed.

(** Partition array, completeness: when [GPTPartitions] succeeds on a header
whose entry count does not wrap the 32-bit sector computation, it returns
exactly the used entries among all [NumPartitionEntries] entries of the array,
in array order, each read at the header's own stride. *)
Theorem GPTPartitions_complete (f : device) (hdr : GPTHeader) (out : list GPTPartitionEntry)
  (Hnum : 0 <= NumPartitionEntries hdr)
  (Hwrap : NumPartitionEntries hdr + entriesPerSector hdr <= 2 ^ 32)
  (Hok : GPTPartitions (Some f) hdr = Ok out) :
  exists es, listed f hdr (seq 0 (Z.to_nat (NumPartitionEntries hdr))) es /\
             out = List.filter used es.
Proof. by apply GPTPartitions_listed. Qed.

(** Partition array, the wrapped case: with an entry count within
[entriesPerSector - 1] of 2^32 the 32-bit addition in [totalSectors] wraps, no
sector is read, and [GPTPartitions] reports a table without partitions, on
every disk and without an error. *)
Theorem GPTPartitions_wraps_to_empty (f : device) (hdr : GPTHeader)
  (Hsize : 128 <= PartitionEntrySize hdr <= sectorSize)
  (Hnum : 2 ^ 32 - entriesPerSector hdr < NumPartitionEntries hdr < 2 ^ 32) :
  GPTPartitions (Some f) hdr = Ok [].
Proof.
  destruct (eps_pos hdr Hsize) as [He _]. unfold GPTPartitions.
  rewrite (proj2 (Z.ltb_ge _ _)), (proj2 (Z.ltb_ge _ _)) by lia. cbn [orb].
  rewrite (proj2 (Z.eqb_neq _ _)) by lia.
  replace (totalSectors hdr) with 0; [done|].
  unfold totalSectors, u32.
  replace ((NumPartitionEntries hdr + entriesPerSector hdr) mod 2 ^ 32)
    with (NumPartitionEntries hdr + entriesPerSector hdr - 2 ^ 32).
  - rewrite Z.mod_small by lia. rewrite Z.div_small by lia. done.
  - rewrite <-(Z.mod_add _ (-1)) by lia. rewrite Z.mod_small; lia.
Qed.

(** ** MBR *)

(** Slot [i] of the table, as the MBR layout places it. *)
Definition slot_at (sector : bytes) (i : nat) : MBRPartitionEntry :=
  let r := sub sector (446 + 16 * Z.of_nat i) 16 in
  mkMBRPartitionEntry (nth 0 r x00) (nth 4 r x00) (le_get (sub r 8 4)) (le_get (sub r 12 4)).

Lemma index_nth {E} (l : bytes) i :
  0 <= i < len l -> index (E:=E) l i = Ok (nth (Z.to_nat i) l x00).
Proof.
  intros H. destruct (@index_ok E byte l i H) as (b & -> & Hb).
  f_equal. symmetry. by apply nth_lookup_Some.
Qed.

Lemma mbr_entry_ok sector i :
  len sector = sectorSize -> (i < 4)%nat ->
  mbr_entry sector (Z.of_nat i) = Ok (slot_at sector i).
Proof.
  intros Hl Hi. unfold mbr_entry, mbrPartitionTableOffset, mbrPartitionEntrySize, slot_at,
    sectorSize in *.
  rewrite slice_ok by lia. cbn [obind].
  replace (446 + Z.of_nat i * 16 + 16 - (446 + Z.of_nat i * 16)) with 16 by lia.
  replace (446 + Z.of_nat i * 16) with (446 + 16 * Z.of_nat i) by lia.
  set (r := sub sector _ 16).
  assert (len r = 16) by (apply len_sub; lia).
  rewrite !index_nth by lia. cbn [obind]. rewrite !slice_ok by lia. done.
Qed.

Lemma mbr_entries_ok sector n i out :
  len sector = sectorSize -> (i + n <= 4)%nat ->
  mbr_entries n (Z.of_nat i) sector out =
  Ok (out ++ List.filter (fun e => negb (MSectorCount e =? 0)) (slot_at sector <$> seq i n)).
Proof.
  intros Hl. revert i out. induction n as [|n IH]; intros i out Hi; cbn [mbr_entries].
  { cbn. by rewrite app_nil_r. }
  rewrite mbr_entry_ok by (done || lia). cbn [obind].
  replace (Z.of_nat i + 1) with (Z.of_nat (S i)) by lia. rewrite IH by lia.
  cbn [seq fmap list_fmap List.filter].
  destruct (_ =? 0); cbn [negb]; [done|]. by rewrite <-app_assoc.
Qed.

Lemma looksLikeFAT_ok sector :
  len sector = sectorSize -> exists b, looksLikeFATBootSector sector = Ok b.
Proof.
  intros Hl. unfold looksLikeFATBootSector, sectorSize in *.
  rewrite !index_nth by lia. cbn [obind]. rewrite slice_ok by lia. cbn [obind]. eauto.
Qed.

Lemma MBRPartitions_slots f out :
  MBRPartitions (Some f) = Ok out ->
  exists sector, read_at f 0 sectorSize = Some sector /\
    out = List.filter (fun e => negb (MSectorCount e =? 0)) (slot_at sector <$> seq 0 4).
Proof.
  unfold MBRPartitions. destruct (read_at f 0 sectorSize) as [sector|] eqn:Hr; [|done].
  pose proof (read_sector_len _ _ _ Hr) as Hl. intros H. unfold mbrBootSignatureOffset in H.
  rewrite !index_nth in H by (unfold sectorSize in Hl; lia). cbn [obind] in H.
  destruct (looksLikeFAT_ok sector Hl) as [b Hb]. rewrite Hb in H. cbn [obind] in H.
  destruct (negb _) in H; [done|]. destruct b; [done|].
  change (Z.to_nat mbrMaxPartitions) with 4%nat in H.
  rewrite (mbr_entries_ok sector 4 0) in H by (done || lia).
  injection H as <-. eauto.
Qed.

(** MBR, exact result: [MBRPartitions] never panics, and it returns a list
exactly when LBA 0 is readable, carries the 0x55AA signature and does not look
like a FAT boot sector; the list is then the slots with a non-zero sector
count, in table order. *)
Theorem MBRPartitions_exact (f : device) :
  safe (MBRPartitions (Some f)) /\
  forall out, MBRPartitions (Some f) = Ok out <->
  exists sector, read_at f 0 sectorSize = Some sector /\
    nth 510 sector x00 = x55 /\ nth 511 sector x00 = xaa /\
    looksLikeFATBootSector sector = Ok false /\
    out = List.filter (fun e => negb (MSectorCount e =? 0)) (slot_at sector <$> seq 0 4).
Proof.
  unfold MBRPartitions, mbrBootSignatureOffset.
  destruct (read_at f 0 sectorSize) as [sector|] eqn:Hr; [|split; [done|naive_solver]].
  pose proof (read_sector_len _ _ _ Hr) as Hl.
  rewrite !index_nth by (unfold sectorSize in Hl; lia). cbn [obind].
  destruct (looksLikeFAT_ok sector Hl) as [b Hb]. rewrite Hb. cbn [obind].
  change (Z.to_nat 510) with 510%nat. change (Z.to_nat (510 + 1)) with 511%nat.
  change (Z.to_nat mbrMaxPartitions) with 4%nat.
  rewrite (mbr_entries_ok sector 4 0) by (done || lia). cbn [app].
  destruct (bool_decide_reflect (nth 510 sector x00 = x55)) as [H0|H0],
    (bool_decide_reflect (nth 511 sector x00 = xaa)) as [H1|H1]; cbn [negb andb];
    (split; [by destruct b|intros out; split]).
  all: try (intros [=]; fail).
  all: try (intros (s & [= <-] & ? & ? & ? & ->); congruence).
  - destruct b; [done|]. intros [= <-]. exists sector. split_and!; done.
  - intros (s & [= <-] & ? & ? & Hf & ->). rewrite Hb in Hf. by injection Hf as ->.
Qed.

(** ** Concrete tables *)

(** A one-sector array of four 128-byte entries at LBA 2, entry 1 in use. *)
Definition sample_entry_bytes : bytes :=
  bs "0123456789abcdef" ++ bs "fedcba9876543210" ++ le_put 8 2048 ++ le_put 8 4095
  ++ zeros 8 ++ zeros 72.

Definition sample_header0 : GPTHeader :=
  mkGPTHeader gptSignature 65536 92 0 0 1 4095 34 4000 (bs "DISK-GUID-16-BYT") 2 4 128 0.

Definition sample_header : GPTHeader :=
  with_crc (crc32 (put_GPTHeader sample_header0)) sample_header0.

Definition sample_gpt_disk : device :=
  plain (zeros 512 ++ put_GPTHeader sample_header ++ zeros 420
         ++ zeros 128 ++ sample_entry_bytes ++ zeros 256).

Example sample_header_read : ReadGPTHeader (Some sample_gpt_disk) = Ok sample_header.
Proof. vm_compute. reflexivity. Qed.

Definition sample_entry : GPTPartitionEntry := read_GPTPartitionEntry sample_entry_bytes.

Lemma GPTPartitions_complete_witness :
  exists es, listed sample_gpt_disk sample_header (seq 0 4) es /\
             [sample_entry] = List.filter used es.
Proof.
  apply (GPTPartitions_complete sample_gpt_disk sample_header [sample_entry]).
  - vm_compute. discriminate.
  - vm_compute. discriminate.
  - vm_compute. reflexivity.
Defined.

(** The same disk with an entry count of 2^32 - 1: the partition is not seen. *)
Definition wrapping_header : GPTHeader :=
  mkGPTHeader gptSignature 65536 92 0 0 1 4095 34 4000 (bs "DISK-GUID-16-BYT") 2 (2 ^ 32 - 1) 128 0.

Lemma GPTPartitions_wraps_to_empty_witness :
  entry_at sample_gpt_disk wrapping_header 1 = Some sample_entry /\
  GPTPartitions (Some sample_gpt_disk) wrapping_header = Ok [].
Proof.
  split; [vm_compute; reflexivity|].
  apply (GPTPartitions_wraps_to_empty sample_gpt_disk wrapping_header); vm_compute; split;
    (discriminate || reflexivity).
Defined.
