(* ===== verification/ExtentCheck.v ===== *)
(** * internal/bootenv: the stage2 extent check

[CheckStage2ExtentFree] of internal/bootenv/bootenv.go, the gate in front of
every BIOS write: nothing in the disk's own partition table may occupy the 64
sectors stage1 loads stage2 from. Also the GPT/msdos detection next to it. *)

From S2P Require Import Prelude Layout Device PartTable.
From Stdlib Require Import ZArith Lia Strings.Byte.
From stdpp Require Import base list.
Local Open Scope Z_scope.

Inductive DiskLayout := LayoutUnknown | LayoutGPT | LayoutMSDOS.

Definition parseDiskLayout (lba1 : bytes) : DiskLayout :=
  if (len gptSignature <=? len lba1) && beq (take 8 lba1) gptSignature
  then LayoutGPT else LayoutMSDOS.

Definition DetectDiskLayout (disk : option device) : outcome parttable_error DiskLayout :=
  match disk with
  | None => Err EOpen
  | Some f =>
      match read_at f SectorSize 8 with
      | None => Err (EReadLBA 1)
      | Some buf => Ok (parseDiskLayout buf)
      end
  end.

Inductive extent_error :=
| EGPTHeader (e : parttable_error)
| ENoTable (e : parttable_error)
| EMBRPartition (type : byte) (pStart pEnd : Z)
| EEntrySizeZero
| EArrayOverlap (arrayStart arrayEnd : Z)
| EGPTArray (e : parttable_error)
| EGPTPartition (name : bytes) (pStart pEnd : Z).

Definition lbaRangesOverlap (aStart aEnd bStart bEnd : Z) : bool :=
  (aStart <=? bEnd) && (bStart <=? aEnd).

Definition extentStart : Z := Stage2LBA.
Definition extentEnd : Z := Stage2LBA + Stage2Sectors - 1.

(** The loops over the table's entries: the first conflict is the error. *)
Fixpoint check_gpt_entries (es eE : Z) (entries : list GPTPartitionEntry) : outcome extent_error unit :=
  match entries with
  | [] => Ok tt
  | e :: rest =>
      if (StartLBA e =? es) && (EndLBA e =? eE) then check_gpt_entries es eE rest
      else if lbaRangesOverlap es eE (StartLBA e) (EndLBA e)
      then Err (EGPTPartition (NameString e) (StartLBA e) (EndLBA e))
      else check_gpt_entries es eE rest
  end.

Fixpoint check_mbr_entries (es eE : Z) (entries : list MBRPartitionEntry) : outcome extent_error unit :=
  match entries with
  | [] => Ok tt
  | e :: rest =>
      let pStart := MStartLBA e in
      let pEnd := u64 (u64 (pStart + MSectorCount e) - 1) in
      if (pStart =? es) && (pEnd =? eE) then check_mbr_entries es eE rest
      else if lbaRangesOverlap es eE pStart pEnd
      then Err (EMBRPartition (Type_ e) pStart pEnd)
      else check_mbr_entries es eE rest
  end.

(** The partition array's own extent, in 64-bit arithmetic. *)
Definition array_eps (hdr : GPTHeader) : Z :=
  let n := SectorSize / PartitionEntrySize hdr in if n <? 1 then 1 else n.
Definition arraySectors (hdr : GPTHeader) : Z :=
  u64 (u64 (NumPartitionEntries hdr + array_eps hdr) - 1) / array_eps hdr.
Definition arrayEnd (hdr : GPTHeader) : Z :=
  u64 (u64 (PartitionEntryLBA hdr + arraySectors hdr) - 1).

Definition checkGPTExtentFree (disk : option device) (hdr : GPTHeader) (es eE : Z)
  : outcome extent_error unit :=
  if PartitionEntrySize hdr =? 0 then Err EEntrySizeZero else
  if (0 <? arraySectors hdr) && lbaRangesOverlap es eE (PartitionEntryLBA hdr) (arrayEnd hdr)
  then Err (EArrayOverlap (PartitionEntryLBA hdr) (arrayEnd hdr)) else
  let! entries := owrap EGPTArray (GPTPartitions disk hdr) in
  check_gpt_entries es eE entries.

Definition CheckStage2ExtentFree (disk : option device) : outcome extent_error unit :=
  match ReadGPTHeader disk with
  | Ok hdr => checkGPTExtentFree disk hdr extentStart extentEnd
  | Panic => Panic
  | Err ErrNoGPTSignature =>
      let! entries := owrap ENoTable (MBRPartitions disk) in
      check_mbr_entries extentStart extentEnd entries
  | Err e => Err (EGPTHeader e)
  end.

(** ** Specification *)

(** The range [[a, b]] either leaves the stage2 extent alone or is exactly it. *)
Definition harmless (a b : Z) : Prop :=
  (forall lba, extentStart <= lba <= extentEnd -> ~ (a <= lba <= b)) \/
  (a = extentStart /\ b = extentEnd).

(** ** Lemmas *)

Lemma no_overlap_harmless a b :
  lbaRangesOverlap extentStart extentEnd a b = false -> harmless a b.
Proof.
  unfold lbaRangesOverlap, harmless. intros H. left. intros lba Hl Hab.
  apply andb_false_iff in H as [H|H]; zb; lia.
Qed.

Lemma check_gpt_entries_ok l :
  check_gpt_entries extentStart extentEnd l = Ok tt ->
  Forall (fun e => harmless (StartLBA e) (EndLBA e)) l.
Proof.
  induction l as [|e l IH]; cbn [check_gpt_entries]; [by constructor|].
  destruct (_ && _) eqn:E1; [intros H; zb; constructor; [by right|auto]|].
  destruct (lbaRangesOverlap _ _ _ _) eqn:E2; [done|].
  intros H. constructor; [by apply no_overlap_harmless|auto].
Qed.

(** Conversely a refusal is never spurious: some well-ordered entry really
occupies a stage2 sector, or an entry's range is inverted. *)
Lemma check_gpt_entries_err l (err : extent_error) :
  check_gpt_entries extentStart extentEnd l = Err err ->
  exists e, e ∈ l /\ err = EGPTPartition (NameString e) (StartLBA e) (EndLBA e) /\
    (StartLBA e <= EndLBA e -> ~ harmless (StartLBA e) (EndLBA e)).
Proof.
  induction l as [|e l IH]; cbn [check_gpt_entries]; [done|].
  destruct (_ && _) eqn:E1.
  { intros H. destruct (IH H) as (x & Hx & He). exists x. split; [by constructor|done]. }
  destruct (lbaRangesOverlap _ _ _ _) eqn:E2.
  - intros H. injection H as <-. exists e. split; [by constructor|]. split; [done|].
    intros Hle [Hh|[Ha Hb]].
    + unfold lbaRangesOverlap in E2. zb.
      apply (Hh (Z.max extentStart (StartLBA e))); lia || (unfold extentStart, extentEnd, Stage2LBA, Stage2Sectors in *; lia).
    + rewrite Ha, Hb, !Z.eqb_refl in E1. done.
  - intros H. destruct (IH H) as (x & Hx & He). exists x. split; [by constructor|done].
Qed.

Lemma check_mbr_entries_ok l :
  check_mbr_entries extentStart extentEnd l = Ok tt ->
  Forall (fun e => 0 <= MStartLBA e < 2 ^ 32 /\ 0 < MSectorCount e < 2 ^ 32) l ->
  Forall (fun e => harmless (MStartLBA e) (MStartLBA e + MSectorCount e - 1)) l.
Proof.
  induction l as [|e l IH]; cbn [check_mbr_entries]; [by constructor|].
  intros H [[Hs Hc] Hl]%Forall_cons.
  replace (u64 (u64 (MStartLBA e + MSectorCount e) - 1)) with (MStartLBA e + MSectorCount e - 1)
    in H by (unfold u64; rewrite (Z.mod_small (_ + _)), Z.mod_small; lia).
  destruct (_ && _) eqn:E1; [zb; constructor; [right; lia|auto]|].
  destruct (lbaRangesOverlap _ _ _ _) eqn:E2; [done|].
  constructor; [by apply no_overlap_harmless|auto].
Qed.

Lemma MBRPartitions_ranges f out :
  MBRPartitions (Some f) = Ok out ->
  Forall (fun e => 0 <= MStartLBA e < 2 ^ 32 /\ 0 < MSectorCount e < 2 ^ 32) out.
Proof.
  intros (sector & Hr & ->)%MBRPartitions_slots.
  pose proof (read_sector_len _ _ _ Hr) as Hl. apply Forall_forall.
  intros e He. apply list_elem_of_In, filter_In in He as [He Hne]. apply negb_true_iff, Z.eqb_neq in Hne.
  apply list_elem_of_In, list_elem_of_fmap in He as (i & -> & Hi%elem_of_seq).
  unfold slot_at, sectorSize in *. cbn in *.
  assert (forall l : bytes, len l = 4 -> 0 <= le_get l < 2 ^ 32) as H32.
  { intros l Hlen. pose proof (le_get_range l) as Hg. rewrite Hlen in Hg. exact Hg. }
  assert (len (sub sector (446 + 16 * Z.of_nat i) 16) = 16) by (apply len_sub; lia).
  pose proof (H32 _ (len_sub (sub sector (446 + 16 * Z.of_nat i) 16) 8 4
    ltac:(lia) ltac:(lia) ltac:(lia))).
  pose proof (H32 _ (len_sub (sub sector (446 + 16 * Z.of_nat i) 16) 12 4
    ltac:(lia) ltac:(lia) ltac:(lia))).
  lia.
Qed.

Lemma checkGPTExtentFree_ok f hdr :
  checkGPTExtentFree (Some f) hdr extentStart extentEnd = Ok tt ->
  (0 < arraySectors hdr -> lbaRangesOverlap extentStart extentEnd (PartitionEntryLBA hdr) (arrayEnd hdr) = false)
  /\ exists out, GPTPartitions (Some f) hdr = Ok out /\
       Forall (fun e => harmless (StartLBA e) (EndLBA e)) out.
Proof.
  unfold checkGPTExtentFree. intros H. destruct (_ =? 0); [done|].
  destruct (_ && _) eqn:E; [done|].
  destruct (GPTPartitions (Some f) hdr) as [out| |]; cbn [owrap obind] in H; [|done|done].
  split.
  - intros Ha. apply andb_false_iff in E as [E|E]; [zb; lia|done].
  - exists out. split; [done|]. by apply check_gpt_entries_ok.
Qed.

(** ** Soundness of the gate *)

(** The table's claims on the disk, read independently of the code under check:
every used entry of a GPT whose header is valid, every non-empty slot of an
MBR. *)
Definition claims (f : device) (a b : Z) : Prop :=
  match ReadGPTHeader (Some f) with
  | Ok hdr => exists k e, (k < Z.to_nat (NumPartitionEntries hdr))%nat /\
      entry_at f hdr k = Some e /\ used e = true /\ a = StartLBA e /\ b = EndLBA e
  | _ => exists sector i, read_at f 0 sectorSize = Some sector /\ (i < 4)%nat /\
      MSectorCount (slot_at sector i) <> 0 /\ a = MStartLBA (slot_at sector i) /\
      b = a + MSectorCount (slot_at sector i) - 1
  end.

(** The header's entry count does not wrap [totalSectors]. *)
Definition countable_entries (f : device) : Prop :=
  forall hdr, ReadGPTHeader (Some f) = Ok hdr ->
    NumPartitionEntries hdr + entriesPerSector hdr <= 2 ^ 32.

Lemma read_header_num f hdr :
  ReadGPTHeader (Some f) = Ok hdr -> 0 <= NumPartitionEntries hdr < 2 ^ 32.
Proof.
  intros (sector & _ & Hl & _ & Hh & _)%ReadGPTHeader_inv.
  pose proof (read_GPTHeader_wf _ (length_header_bytes _ Hl)) as Hwf. rewrite Hh in Hwf.
  unfold wf_GPTHeader, fits in Hwf. change (256 ^ 4) with (2 ^ 32) in Hwf. intuition lia.
Qed.

Lemma read_header_lba f hdr :
  ReadGPTHeader (Some f) = Ok hdr -> 0 <= PartitionEntryLBA hdr < 2 ^ 64.
Proof.
  intros (sector & _ & Hl & _ & Hh & _)%ReadGPTHeader_inv.
  pose proof (read_GPTHeader_wf _ (length_header_bytes _ Hl)) as Hwf. rewrite Hh in Hwf.
  unfold wf_GPTHeader, fits in Hwf. change (256 ^ 8) with (2 ^ 64) in Hwf. intuition lia.
Qed.

Lemma listed_lookup f hdr n es k e :
  listed f hdr (seq 0 n) es -> (k < n)%nat -> entry_at f hdr k = Some e -> e ∈ es.
Proof.
  intros Hl Hk He. eapply Forall2_lookup_l in Hl as (e' & Hlk & He').
  2: by apply lookup_seq_lt.
  cbn in He'. rewrite He in He'. injection He' as ->. by eapply list_elem_of_lookup_2.
Qed.

Lemma CheckStage2ExtentFree_gpt f hdr :
  ReadGPTHeader (Some f) = Ok hdr -> CheckStage2ExtentFree (Some f) = Ok tt ->
  NumPartitionEntries hdr + entriesPerSector hdr <= 2 ^ 32 ->
  forall k e, (k < Z.to_nat (NumPartitionEntries hdr))%nat -> entry_at f hdr k = Some e ->
    used e = true -> harmless (StartLBA e) (EndLBA e).
Proof.
  unfold CheckStage2ExtentFree. intros Hh Hok Hc k e Hk He Hu. rewrite Hh in Hok.
  destruct (checkGPTExtentFree_ok _ _ Hok) as (_ & out & Hout & Hall).
  destruct (GPTPartitions_listed f hdr out) as (es & Hes & ->); [|done..|].
  { pose proof (read_header_num _ _ Hh). lia. }
  rewrite Forall_forall in Hall. apply Hall, list_elem_of_In, filter_In. split; [|done].
  apply list_elem_of_In. by eapply listed_lookup.
Qed.

Lemma CheckStage2ExtentFree_mbr f :
  (forall hdr, ReadGPTHeader (Some f) <> Ok hdr) -> CheckStage2ExtentFree (Some f) = Ok tt ->
  exists sector, read_at f 0 sectorSize = Some sector /\
    forall i, (i < 4)%nat -> MSectorCount (slot_at sector i) <> 0 ->
      harmless (MStartLBA (slot_at sector i))
        (MStartLBA (slot_at sector i) + MSectorCount (slot_at sector i) - 1).
Proof.
  unfold CheckStage2ExtentFree. intros Hno Hok.
  destruct (ReadGPTHeader (Some f)) as [h|err|]; [by destruct (Hno h)| |done].
  destruct err; try done.
  destruct (MBRPartitions (Some f)) as [out| |] eqn:Hm; cbn [owrap obind] in Hok; [|done|done].
  pose proof (check_mbr_entries_ok _ Hok (MBRPartitions_ranges _ _ Hm)) as Hall.
  apply MBRPartitions_slots in Hm as (sector & Hr & ->). exists sector. split; [done|].
  intros i Hi Hn. rewrite Forall_forall in Hall. apply Hall, list_elem_of_In, filter_In.
  split; [|by apply negb_true_iff, Z.eqb_neq].
  apply list_elem_of_In, list_elem_of_fmap. exists i. split; [done|]. apply elem_of_seq. lia.
Qed.

(** C29 - The gate is sound: on a disk whose GPT entry count (if it has a GPT)
does not wrap, when [CheckStage2ExtentFree] passes, every partition the disk's
table claims, GPT or MBR, either contains none of the 64 sectors at LBA 34 or
is exactly that range. *)
Theorem CheckStage2ExtentFree_sound (f : device) (a b : Z)
  (Hc : countable_entries f)
  (Hok : CheckStage2ExtentFree (Some f) = Ok tt)
  (Hclaim : claims f a b) : harmless a b.
Proof.
  unfold claims in Hclaim. destruct (ReadGPTHeader (Some f)) as [hdr|err|] eqn:Hh.
  - destruct Hclaim as (k & e & Hk & He & Hu & -> & ->).
    eapply CheckStage2ExtentFree_gpt; eauto.
  - destruct (CheckStage2ExtentFree_mbr f) as (s & Hs & Hall); [congruence|done|].
    destruct Hclaim as (s' & i & Hs' & Hi & Hn & -> & ->). rewrite Hs in Hs'.
    injection Hs' as <-. auto.
  - destruct (CheckStage2ExtentFree_mbr f) as (s & Hs & Hall); [congruence|done|].
    destruct Hclaim as (s' & i & Hs' & Hi & Hn & -> & ->). rewrite Hs in Hs'.
    injection Hs' as <-. auto.
Qed.

Lemma array_outside (f : device) (hdr : GPTHeader) (lba : Z) :
  ReadGPTHeader (Some f) = Ok hdr -> CheckStage2ExtentFree (Some f) = Ok tt ->
  PartitionEntryLBA hdr + arraySectors hdr <= 2 ^ 64 ->
  PartitionEntryLBA hdr <= lba < PartitionEntryLBA hdr + arraySectors hdr ->
  ~ (extentStart <= lba <= extentEnd).
Proof.
  intros Hh Hok Hend Hin. unfold CheckStage2ExtentFree in Hok. rewrite Hh in Hok.
  destruct (checkGPTExtentFree_ok _ _ Hok) as [Ha _].
  specialize (Ha ltac:(lia)). intros Hl.
  pose proof (read_header_lba _ _ Hh) as Hlba.
  assert (arrayEnd hdr = PartitionEntryLBA hdr + arraySectors hdr - 1) as Hae.
  { unfold arrayEnd, u64. rewrite Zminus_mod_idemp_l. apply Z.mod_small. lia. }
  unfold lbaRangesOverlap in Ha. rewrite Hae in Ha.
  apply andb_false_iff in Ha as [Ha|Ha]; zb; lia.
Qed.

(** The GPT partition array itself never overlaps the stage2 extent when the
gate passes, for any header whose array does not run past LBA 2^64 (the code's
own arithmetic is 64-bit here, so no entry count wraps it). *)
Theorem CheckStage2ExtentFree_array (f : device) (hdr : GPTHeader) (lba : Z)
  (Hh : ReadGPTHeader (Some f) = Ok hdr)
  (Hok : CheckStage2ExtentFree (Some f) = Ok tt)
  (Hend : PartitionEntryLBA hdr + arraySectors hdr <= 2 ^ 64)
  (Hin : PartitionEntryLBA hdr <= lba < PartitionEntryLBA hdr + arraySectors hdr) :
  ~ (extentStart <= lba <= extentEnd).
Proof. by eapply array_outside. Qed.

(** The two computations of the array's length agree when neither wraps. *)
Lemma totalSectors_array hdr :
  128 <= PartitionEntrySize hdr <= 512 -> 0 <= NumPartitionEntries hdr ->
  NumPartitionEntries hdr + entriesPerSector hdr <= 2 ^ 32 ->
  totalSectors hdr = arraySectors hdr /\ 0 <= arraySectors hdr < 2 ^ 32.
Proof.
  intros Hs Hn Hc. assert (1 <= entriesPerSector hdr <= 4) as He.
  { unfold entriesPerSector. split.
    - apply Z.div_le_lower_bound; unfold sectorSize; lia.
    - apply (Z.div_le_upper_bound sectorSize); unfold sectorSize; lia. }
  assert (array_eps hdr = entriesPerSector hdr) as Ha.
  { unfold array_eps. change (SectorSize / PartitionEntrySize hdr) with (entriesPerSector hdr).
    by rewrite (proj2 (Z.ltb_ge _ _)) by lia. }
  unfold totalSectors, arraySectors. rewrite Ha. unfold u32, u64. rewrite !Zminus_mod_idemp_l.
  rewrite !Z.mod_small by lia. split; [done|]. split; [apply Z.div_pos; lia|].
  apply Z.div_lt_upper_bound; nia.
Qed.

Lemma array_offset_small hdr s :
  0 <= PartitionEntryLBA hdr -> 0 <= s -> PartitionEntryLBA hdr + s < 2 ^ 54 ->
  array_offset hdr s = (PartitionEntryLBA hdr + s) * 512.
Proof.
  intros Hp Hs Hb. unfold array_offset, i64, u64, sectorSize.
  rewrite (Z.mod_small (PartitionEntryLBA hdr + s)) by lia.
  rewrite (Z.mod_small (PartitionEntryLBA hdr + s + _)) by lia.
  rewrite Z.add_simpl_r. rewrite Z.mod_small by lia. lia.
Qed.

(** The walk of the array depends on the array's sectors alone. *)
Lemma array_entries_ext f f' hdr n s k out :
  (forall j, s <= j < s + Z.of_nat n ->
     read_at f' (array_offset hdr j) sectorSize = read_at f (array_offset hdr j) sectorSize) ->
  array_entries f' hdr n s k out = array_entries f hdr n s k out.
Proof.
  revert s k out. induction n as [|n IH]; intros s k out H; [done|]. cbn [array_entries].
  rewrite H by lia. destruct (read_at f (array_offset hdr s) sectorSize) as [sec|]; [|done].
  destruct (sector_entries hdr _ 0 k sec out) as [[o k']|e|]; cbn [obind]; [|done|done].
  apply IH. intros j Hj. apply H. lia.
Qed.

(** ** Concrete disks *)

Lemma CheckStage2ExtentFree_sound_witness :
  claims sample_gpt_disk 2048 4095 /\ harmless 2048 4095.
Proof.
  assert (claims sample_gpt_disk 2048 4095) as Hcl.
  { unfold claims. rewrite sample_header_read. exists 1%nat, sample_entry.
    split_and!; vm_compute; (lia || reflexivity). }
  split; [exact Hcl|].
  apply (CheckStage2ExtentFree_sound sample_gpt_disk 2048 4095).
  - intros hdr H. rewrite sample_header_read in H. injection H as <-. vm_compute. discriminate.
  - vm_compute. reflexivity.
  - exact Hcl.
Defined.

Lemma CheckStage2ExtentFree_array_witness : ~ (extentStart <= 2 <= extentEnd).
Proof.
  apply (CheckStage2ExtentFree_array sample_gpt_disk sample_header 2).
  - exact sample_header_read.
  - vm_compute. reflexivity.
  - vm_compute. discriminate.
  - vm_compute. split; [discriminate|reflexivity].
Defined.

(** A disk with a valid header whose entry count is 2^32 - 1, its array after
the stage2 extent, and a partition at LBA 40-50, inside the extent. *)
Definition inside_entry_bytes : bytes :=
  bs "0123456789abcdef" ++ bs "fedcba9876543210" ++ le_put 8 40 ++ le_put 8 50
  ++ zeros 8 ++ zeros 72.
Definition inside_header0 : GPTHeader :=
  mkGPTHeader gptSignature 65536 92 0 0 1 4095 34 4000 (bs "DISK-GUID-16-BYT") 98 (2 ^ 32 - 1) 128 0.
Definition inside_header : GPTHeader :=
  with_crc (crc32 (put_GPTHeader inside_header0)) inside_header0.
Definition inside_disk : device :=
  plain (zeros 512 ++ put_GPTHeader inside_header ++ zeros (420 + 96 * 512)
         ++ inside_entry_bytes ++ zeros 384).

(** What the 32-bit wrap in [GPTPartitions] costs the gate: on a disk with a
valid header, an entry count of 2^32 - 1 and a partition over LBA 40-50, the
check passes, so the stage2 write it guards overwrites that partition. *)
Theorem CheckStage2ExtentFree_wrap_misses :
  claims inside_disk 40 50 /\ CheckStage2ExtentFree (Some inside_disk) = Ok tt /\
  ~ harmless 40 50.
Proof.
  split_and!.
  - unfold claims. replace (ReadGPTHeader (Some inside_disk)) with (Ok (E:=parttable_error) inside_header)
      by (vm_compute; reflexivity).
    exists 0%nat, (read_GPTPartitionEntry inside_entry_bytes).
    split_and!; [cbn; lia|vm_compute; reflexivity..].
  - vm_compute. reflexivity.
  - intros [H|[? ?]]; [|discriminate]. apply (H 45); vm_compute; split; discriminate.
Qed.
