(* ===== verification/NetMac.v ===== *)
(** * internal/netmac: the rescue network card's address

[Normalize], the accepted shapes and canonical form of
alpine-zfsboot.net.mac=, and [Resolve], which finds the one physical card with
that address among the entries of /sys/class/net. *)

From S2P Require Import Prelude GoStrings.
From Stdlib Require Import ZArith Lia Strings.Byte.
From stdpp Require Import base list.
Local Open Scope Z_scope.

Inductive netmac_error :=
| EMalformed (mac : bytes) | EMixedSeparators (mac : bytes) | EAllZeros (mac : bytes)
| EMulticast (mac : bytes) | ENoMAC | EReadDir
| ENoCard (norm : bytes) (seen : list bytes) | EAmbiguous (norm : bytes) (matches : list bytes).

Definition is_sep (b : byte) : bool := is_byte x3a b || is_byte x2d b.

(** [^HH([:-])HH(?:[:-]HH){4}$] *)
Definition mac_shape (hex sep : byte -> bool) : list (byte -> bool) :=
  [hex; hex; sep; hex; hex; sep; hex; hex; sep; hex; hex; sep; hex; hex; sep; hex; hex].
Definition macRE (mac : bytes) : bool := match_classes (mac_shape is_hex is_sep) mac.

(** [strings.Count(s, c)] for one byte. *)
Definition count_byte (s : bytes) (c : byte) : Z := len (filter (fun b => b = c) s).

Definition Normalize (mac : bytes) : outcome netmac_error bytes :=
  let mac := trim mac [x20; x09] in
  if beq mac [] then Ok [] else
  check macRE mac else EMalformed mac in
  let! sep := index mac 2 in
  check count_byte mac sep =? 5 else EMixedSeparators mac in
  let norm := to_lower (replace_all mac (bs "-") (bs ":")) in
  check negb (beq norm (bs "00:00:00:00:00:00")) else EAllZeros mac in
  let! head := slice norm 0 2 in
  let first := match hex_from 0 head with Some v => v | None => 0 end in
  check negb (Z.land first 1 =? 1) else EMulticast mac in
  Ok norm.

Record Interface := mkInterface {
  IName : bytes;
  MAC : bytes;
  Virtual : bool;
  Loopback : bool
}.

(** An entry of the sysfs directory: its name, and the result of reading its
address file, its link target and its type file. *)
Record net_entry := mkNetEntry {
  ne_name : bytes;
  ne_address : option bytes;
  ne_link : option bytes;
  ne_type : option bytes
}.

Definition scan_entry (e : net_entry) : option Interface :=
  raw ← ne_address e;
  Some (mkInterface (ne_name e) (to_lower (trim_space raw))
    (match ne_link e with Some t => contains t (bs "/virtual/") | None => false end)
    (beq (ne_name e) (bs "lo") ||
     match ne_type e with Some t => beq (trim_space t) (bs "772") | None => false end)).

Definition Scan (dir : option (list net_entry)) : outcome netmac_error (list Interface) :=
  match dir with
  | None => Err EReadDir
  | Some entries =>
      Ok (sort_stable (fun a b => bytes_ltb (IName a) (IName b)) (omap scan_entry entries))
  end.

Definition physical (i : Interface) : bool := negb (Loopback i || Virtual i).

Definition Resolve (dir : option (list net_entry)) (mac : bytes) : outcome netmac_error bytes :=
  let! norm := Normalize mac in
  check negb (beq norm []) else ENoMAC in
  let! ifaces := Scan dir in
  let cards := List.filter physical ifaces in
  let seen := (fun i => IName i ++ bs "=" ++ MAC i) <$> cards in
  let matches := IName <$> List.filter (fun i => beq (MAC i) norm) cards in
  match matches with
  | [m] => Ok m
  | [] => Err (ENoCard norm seen)
  | _ => Err (EAmbiguous norm matches)
  end.

(** ** Lemmas *)

Lemma replace_one (s : bytes) (a b : byte) :
  replace_all s [a] [b] = (fun x => if decide (x = a) then b else x) <$> s.
Proof.
  unfold replace_all. induction s as [|x s IH]; [done|].
  cbn [replace_from length Nat.pred]. unfold has_prefix. cbn [cut_prefix].
  destruct (decide (a = x)) as [->|Hne]; cbn [fmap list_fmap].
  - rewrite decide_True by done. cbn. by rewrite IH.
  - rewrite decide_False by done. by rewrite IH.
Qed.

Lemma match_classes_fmap cs ds (f : byte -> byte) s :
  Forall2 (fun c d => forall b, c b = true -> d (f b) = true) cs ds ->
  match_classes cs s = true -> match_classes ds (f <$> s) = true.
Proof.
  intros H. revert s. induction H as [|c d cs ds Hcd H IH]; intros [|b s]; cbn; try done.
  rewrite !andb_true_iff. intros [? ?]. auto.
Qed.

Lemma trim_left_clean s cutset : Forall (fun b => b ∉ cutset) s -> trim_left s cutset = s.
Proof. destruct 1 as [|b s Hb Hs]; cbn; [done|]. by rewrite decide_False. Qed.

Lemma trim_clean s cutset : Forall (fun b => b ∉ cutset) s -> trim s cutset = s.
Proof.
  intros H. unfold trim, trim_right. rewrite (trim_left_clean s) by done.
  rewrite trim_left_clean; [apply rev_involutive|]. by apply Forall_rev.
Qed.

(** The canonical byte of an address: lower case, and ':' for '-'. *)
Definition canon_byte (b : byte) : byte := lower_byte (if decide (b = x2d) then x3a else b).
Definition canon_shape : list (byte -> bool) := mac_shape is_lower_hex (is_byte x3a).

Lemma canon_bytes s : to_lower (replace_all s (bs "-") (bs ":")) = canon_byte <$> s.
Proof.
  change (bs "-") with [x2d]. change (bs ":") with [x3a].
  rewrite replace_one. unfold to_lower. by rewrite <-list_fmap_compose.
Qed.

Lemma canon_hex b : is_hex b = true -> is_lower_hex (canon_byte b) = true.
Proof. by destruct b. Qed.
Lemma canon_sep b : is_sep b = true -> is_byte x3a (canon_byte b) = true.
Proof. by destruct b. Qed.
Lemma lower_is_hex b : is_lower_hex b = true -> is_hex b = true.
Proof. by destruct b. Qed.
Lemma colon_is_sep b : is_byte x3a b = true -> is_sep b = true.
Proof. by destruct b. Qed.
Lemma canon_fixed b : is_lower_hex b || is_byte x3a b = true -> canon_byte b = b.
Proof. by destruct b. Qed.
Lemma canon_clean b : is_lower_hex b || is_byte x3a b = true -> b ∉ [x20; x09].
Proof.
  intros H Hin. apply elem_of_cons in Hin as [->|Hin]; [discriminate H|].
  apply list_elem_of_singleton in Hin as ->. discriminate H.
Qed.

Lemma shape_Forall2 (P : (byte -> bool) -> (byte -> bool) -> Prop) h s h' s' :
  P h h' -> P s s' -> Forall2 P (mac_shape h s) (mac_shape h' s').
Proof. intros. repeat constructor; done. Qed.

Lemma canon_of_mac s : macRE s = true -> match_classes canon_shape (canon_byte <$> s) = true.
Proof.
  apply match_classes_fmap. apply shape_Forall2; auto using canon_hex, canon_sep.
Qed.

Lemma canon_is_mac s : match_classes canon_shape s = true -> macRE s = true.
Proof.
  intros H. unfold macRE. rewrite <-(list_fmap_id s). revert H.
  apply match_classes_fmap. apply shape_Forall2; auto using lower_is_hex, colon_is_sep.
Qed.

Lemma canon_Forall s :
  match_classes canon_shape s = true -> Forall (fun b => is_lower_hex b || is_byte x3a b = true) s.
Proof.
  unfold canon_shape, mac_shape.
  do 17 (destruct s as [|? s]; cbn [match_classes]; [intros; constructor|];
         rewrite andb_true_iff; intros [? H]; constructor;
         [by apply orb_true_iff; auto|revert H]).
  destruct s; [constructor|done].
Qed.

Lemma canon_count s : match_classes canon_shape s = true -> count_byte s x3a = 5.
Proof.
  unfold canon_shape, mac_shape.
  assert (forall b, is_lower_hex b = true -> b <> x3a) as Hh by (intros b H ->; done).
  do 17 (destruct s as [|? s]; cbn [match_classes]; [done|]; rewrite andb_true_iff; intros [? H]; revert H).
  destruct s; [|done]. intros _. unfold is_byte in *.
  repeat match goal with H : bool_decide (?b = _) = true |- _ => apply bool_decide_eq_true in H as -> end.
  unfold count_byte. repeat first [rewrite filter_cons_True by done | rewrite filter_cons_False by (apply Hh; assumption)].
  done.
Qed.

Lemma canon_third {E} s : match_classes canon_shape s = true -> index (E:=E) s 2 = Ok x3a.
Proof.
  unfold canon_shape, mac_shape.
  do 3 (destruct s as [|? s]; cbn [match_classes]; [done|]; rewrite andb_true_iff; intros [? H]; revert H).
  intros _. unfold is_byte in *.
  match goal with H : bool_decide (?b = _) = true |- _ => apply bool_decide_eq_true in H as -> end.
  done.
Qed.

(** The usable addresses in canonical form. *)
Definition canonical_unicast (n : bytes) : Prop :=
  match_classes canon_shape n = true /\ n <> bs "00:00:00:00:00:00" /\
  exists v, hex_from 0 (take 2 n) = Some v /\ Z.land v 1 <> 1.

Lemma lower_hex_val b : is_lower_hex b = true -> exists v, hex_val b = Some v.
Proof. destruct b; try done; cbn; eauto. Qed.

Lemma canon_head n : match_classes canon_shape n = true -> exists v, hex_from 0 (take 2 n) = Some v.
Proof.
  unfold canon_shape, mac_shape.
  do 2 (destruct n as [|? n]; cbn [match_classes]; [done|]; rewrite andb_true_iff; intros [? H]; revert H).
  intros _. cbn. destruct (lower_hex_val b) as [v ->]; [done|].
  destruct (lower_hex_val b0) as [v' ->]; [done|]. eauto.
Qed.

Lemma Normalize_inv mac n :
  Normalize mac = Ok n -> n = [] \/ canonical_unicast n.
Proof.
  unfold Normalize. set (m := trim mac _). intros H.
  destruct (beq m []); [injection H as <-; by left|]. right.
  destruct (macRE m) eqn:Hm; [|done].
  destruct (index m 2) as [sep| |]; cbn [obind] in H; [|done..].
  destruct (_ =? 5); [|done]. rewrite canon_bytes in H.
  pose proof (canon_of_mac _ Hm) as Hc. set (c := canon_byte <$> m) in *.
  destruct (beq c _) eqn:Hz; cbn [negb] in H; [done|]. zb.
  assert (len c = 17) as Hl.
  { apply match_classes_length in Hc. unfold len. by rewrite Hc. }
  rewrite slice_ok in H by lia. cbn [obind] in H.
  change (sub c 0 (2 - 0)) with (take 2 c) in H.
  destruct (canon_head c Hc) as [v Hv]. rewrite Hv in H.
  destruct (Z.land v 1 =? 1) eqn:E; cbn [negb] in H; [done|]. zb. injection H as <-.
  split_and!; [done|done|]. exists v. split; [|done].
  done.
Qed.

Lemma Normalize_safe mac : safe (Normalize mac).
Proof.
  unfold Normalize. set (m := trim mac _). apply safe_if; intros _; [done|].
  destruct (macRE m) eqn:Hm; [|done]. pose proof (canon_of_mac _ Hm) as Hc.
  assert (len m = 17 /\ len (canon_byte <$> m) = 17) as [Hl Hl'].
  { apply match_classes_length in Hm, Hc. unfold len. by rewrite Hm, Hc. }
  apply obind_safe; [apply safe_index; lia|]. intros sep _. destruct (_ =? 5); [|done]. rewrite canon_bytes.
  destruct (negb _); [|done]. apply obind_safe; [apply safe_slice; lia|]. intros head _. by destruct (negb _).
Qed.

Lemma canonical_Normalize n : canonical_unicast n -> Normalize n = Ok n.
Proof.
  intros (Hc & Hz & v & Hv & H1). unfold Normalize.
  pose proof (canon_Forall _ Hc) as Hall.
  assert (trim n [x20; x09] = n) as ->.
  { apply trim_clean. eapply Forall_impl; [exact Hall|]. apply canon_clean. }
  destruct (beq n []) eqn:E; [zb; by subst|].
  rewrite canon_is_mac by done. rewrite canon_third by done. cbn [obind].
  rewrite canon_count by done. cbn [Z.eqb Pos.eqb].
  rewrite canon_bytes.
  assert (canon_byte <$> n = n) as ->.
  { clear -Hall. induction Hall as [|b n Hb Hn IH]; [done|]. cbn. by rewrite canon_fixed, IH. }
  rewrite (proj2 (beq_false _ _)) by done. cbn [negb].
  assert (len n = 17) as Hl.
  { apply match_classes_length in Hc. unfold len. by rewrite Hc. }
  rewrite slice_ok by lia. cbn [obind]. change (sub n 0 (2 - 0)) with (take 2 n). rewrite Hv.
  by rewrite (proj2 (Z.eqb_neq _ _)) by done.
Qed.

(** Card address, canonical form: whatever input [Normalize] accepts, the
result is empty or the one form init compares against (17 bytes, lower-case
hex, ':' separators, not all zeros, unicast), and normalising that form again
changes nothing. *)
Theorem Normalize_canonical (mac n : bytes) (H : Normalize mac = Ok n) :
  (n = [] \/ canonical_unicast n) /\ Normalize n = Ok n.
Proof.
  destruct (Normalize_inv mac n H) as [->|Hc]; [split; [by left|done]|].
  split; [by right|]. by apply canonical_Normalize.
Qed.

Lemma Normalize_canonical_witness :
  Normalize (bs "  AA-BB-CC-DD-EE-0F") = Ok (bs "aa:bb:cc:dd:ee:0f") /\
  Normalize (bs "aa:bb:cc:dd:ee:0f") = Ok (bs "aa:bb:cc:dd:ee:0f").
Proof.
  assert (Normalize (bs "  AA-BB-CC-DD-EE-0F") = Ok (bs "aa:bb:cc:dd:ee:0f")) as H
    by (vm_compute; reflexivity).
  split; [exact H|]. apply (Normalize_canonical _ _ H).
Defined.

Lemma Resolve_unique dir mac name :
  Resolve dir mac = Ok name ->
  exists norm ifaces i, Normalize mac = Ok norm /\ Scan dir = Ok ifaces /\
    List.filter (fun i => physical i && beq (MAC i) norm) ifaces = [i] /\ IName i = name.
Proof.
  unfold Resolve. intros H. destruct (Normalize mac) as [norm| |]; cbn [obind] in H; [|done..].
  destruct (beq norm []); cbn [negb] in H; [done|].
  destruct (Scan dir) as [ifaces| |]; cbn [obind] in H; [|done..].
  exists norm, ifaces.
  assert (List.filter (fun i => beq (MAC i) norm) (List.filter physical ifaces)
          = List.filter (fun i => physical i && beq (MAC i) norm) ifaces) as Hf.
  { clear. induction ifaces as [|i l IH]; cbn; [done|].
    destruct (physical i); cbn; [|done]. destruct (beq _ _); by rewrite IH. }
  rewrite Hf in H. destruct (List.filter _ ifaces) as [|i [|? ?]] eqn:E; cbn in H; [done| |done].
  injection H as <-. eauto.
Qed.
