(* ===== verification/World.v ===== *)
(** * The media and the system calls

The state the writers act on: the files of the mounted ESPs, the raw disks,
and the temporary files of writes in progress. A file is named by its
mountpoint and its path below it, the two arguments the source hands to
[filepath.Join]. Every system call advances a clock; an oracle says which calls
fail and, for a disk write, how many bytes reached the medium first. [history]
collects every state of files and disks the media went through, latest first, as
the file system shows them between two calls: the states that a run which is
killed, or a machine that stops, finds in use. A call that succeeds takes effect
at once and as one step. So fsync and close only count as calls that can fail:
which of the effects before an fsync a power cut would take back is not
modelled, nor is the torn sector range of a disk write that was under way when
the machine stopped (a write that fails is torn, at a point the oracle chooses). *)

From S2P Require Import Prelude Device.
From Stdlib Require Import ZArith Lia.
From stdpp Require Import base list gmap.
Local Open Scope Z_scope.

Abbreviation filemap := (gmap (bytes * bytes) bytes).
Abbreviation diskmap := (gmap bytes bytes).

Record world := mkWorld {
  files : filemap;
  temps : gmap (bytes * nat) bytes;
  disks : diskmap;
  clock : nat;
  history : list (filemap * diskmap)
}.

(** The oracle: [None], the call succeeds; [Some k], it fails. *)
Class Oracle := fault : nat -> option nat.

Inductive sysop :=
| OpMkdirAll | OpCreateTemp | OpWrite | OpChmod | OpSync | OpClose | OpRename
| OpOpenDir | OpSyncDir | OpReadFile | OpRemove | OpOpen | OpReadAt | OpWriteAt
| OpGate | OpLink | OpStat.

(** Errors of the layers that do I/O. *)
Inductive ioerr :=
| ESys (op : sysop)
| ENotExist
| EMismatch (what : bytes)
| ERefused (why : bytes)
| EIn (ctx : bytes) (e : ioerr).

(** Go functions over the world: the result and the world afterwards. *)
Definition io (A : Type) : Type := world -> outcome ioerr A * world.

Definition ret {A} (a : A) : io A := fun w => (Ok a, w).
Definition throw {A} (e : ioerr) : io A := fun w => (Err e, w).
Definition bind {A B} (c : io A) (k : A -> io B) : io B := fun w =>
  match c w with
  | (Ok a, w') => k a w'
  | (Err e, w') => (Err e, w')
  | (Panic, w') => (Panic, w')
  end.

(** [err := c(); ...]: the result as a value, for code that inspects it. *)
Definition attempt {A} (c : io A) : io (outcome ioerr A) := fun w =>
  let (r, w') := c w in (Ok r, w').

(** [return fmt.Errorf("ctx: %w", err)] *)
Definition wrap {A} (ctx : bytes) (c : io A) : io A := fun w =>
  let (r, w') := c w in (owrap (EIn ctx) r, w').

(** A computation on values, without effects, run as a step. *)
Definition lift {A} (r : outcome ioerr A) : io A := fun w => (r, w).

Declare Scope io_scope.
Delimit Scope io_scope with io.
Notation "'do' x := c 'in' k" := (bind c (fun x => k))
  (at level 10, x name, c at level 100, k at level 200) : io_scope.
Notation "'run' c 'then' k" := (bind c (fun _ => k))
  (at level 10, c at level 100, k at level 200) : io_scope.
Open Scope io_scope.

(** ** System calls *)

Definition tick (w : world) : world :=
  mkWorld (files w) (temps w) (disks w) (S (clock w)) (history w).

Definition set_temps (t : gmap (bytes * nat) bytes) (w : world) : world :=
  mkWorld (files w) t (disks w) (clock w) (history w).

Definition set_files (f : filemap) (w : world) : world :=
  mkWorld f (temps w) (disks w) (clock w) ((f, disks w) :: history w).

Definition set_disks (d : diskmap) (w : world) : world :=
  mkWorld (files w) (temps w) d (clock w) ((files w, d) :: history w).

Section calls.
Context {O : Oracle}.

(** A call with effect [f] when the oracle lets it through. *)
Definition sys {A} (op : sysop) (f : world -> A * world) : io A := fun w =>
  let w1 := tick w in
  match fault (clock w) with
  | Some _ => (Err (ESys op), w1)
  | None => let (a, w2) := f w1 in (Ok a, w2)
  end.

(** A call whose only effect on the modelled state is to succeed or fail. *)
Definition plain_call (op : sysop) : io unit := sys op (fun w => (tt, w)).

(** [os.ReadFile(filepath.Join(mp, rel))] *)
Definition readFile (mp rel : bytes) : io bytes := fun w =>
  match sys OpReadFile (fun w => (files w !! (mp, rel), w)) w with
  | (Ok (Some c), w') => (Ok c, w')
  | (Ok None, w') => (Err ENotExist, w')
  | (Err e, w') => (Err e, w')
  | (Panic, w') => (Panic, w')
  end.

(** [os.Remove(filepath.Join(mp, rel))] *)
Definition removeFile (mp rel : bytes) : io unit := fun w =>
  match fault (clock w) with
  | Some _ => (Err (ESys OpRemove), tick w)
  | None =>
      match files w !! (mp, rel) with
      | None => (Err ENotExist, tick w)
      | Some _ => (Ok tt, set_files (delete (mp, rel) (files w)) (tick w))
      end
  end.

(** [os.CreateTemp], named by the clock: a name nothing else uses. *)
Definition createTemp (mp : bytes) : io nat :=
  sys OpCreateTemp (fun w => (clock w, set_temps (<[(mp, clock w) := []]> (temps w)) w)).

(** [tmp.Write(content)]: a failed write leaves a prefix. *)
Definition writeTemp (mp : bytes) (t : nat) (content : bytes) : io unit := fun w =>
  let w1 := tick w in
  match fault (clock w) with
  | Some k => (Err (ESys OpWrite), set_temps (<[(mp, t) := take k content]> (temps w)) w1)
  | None => (Ok tt, set_temps (<[(mp, t) := content]> (temps w)) w1)
  end.

(** The deferred [os.Remove(tmpPath)], its error ignored. *)
Definition dropTemp (mp : bytes) (t : nat) : world -> world := fun w =>
  match fault (clock w) with
  | Some _ => tick w
  | None => set_temps (delete (mp, t) (temps w)) (tick w)
  end.

(** [os.Rename(tmpPath, target)]: one atomic change of the directory. *)
Definition renameTemp (mp : bytes) (t : nat) (rel : bytes) : io unit := fun w =>
  match fault (clock w) with
  | Some _ => (Err (ESys OpRename), tick w)
  | None =>
      match temps w !! (mp, t) with
      | None => (Err ENotExist, tick w)
      | Some c =>
          (Ok tt, set_files (<[(mp, rel) := c]> (files w))
                    (set_temps (delete (mp, t) (temps w)) (tick w)))
      end
  end.

(** [f.ReadAt] of [n] bytes at [off] of a disk. *)
Definition readDisk (disk : bytes) (off n : Z) : io bytes := fun w =>
  match sys OpReadAt (fun w => (d ← disks w !! disk; read_at (plain d) off n, w)) w with
  | (Ok (Some c), w') => (Ok c, w')
  | (Ok None, w') => (Err (ESys OpReadAt), w')
  | (Err e, w') => (Err e, w')
  | (Panic, w') => (Panic, w')
  end.

(** [f.WriteAt] inside the device: a failed write leaves a prefix written. *)
Definition writeDisk (disk : bytes) (off : Z) (data : bytes) : io unit := fun w =>
  let w1 := tick w in
  match disks w !! disk with
  | None => (Err (ESys OpWriteAt), w1)
  | Some d =>
      match fault (clock w) with
      | Some k => (Err (ESys OpWriteAt), set_disks (<[disk := copy_at d off (take k data)]> (disks w)) w1)
      | None => (Ok tt, set_disks (<[disk := copy_at d off data]> (disks w)) w1)
      end
  end.

End calls.

(** [defer f()] around the rest of a function. *)
Definition deferred {A} (f : world -> world) (c : io A) : io A := fun w =>
  let (r, w') := c w in (r, f w').

(** ** What a call may do to the media

[frame w w']: no file and no disk changed, though time passed. *)
Definition frame (w w' : world) : Prop :=
  files w' = files w /\ disks w' = disks w /\ history w' = history w /\
  (clock w <= clock w')%nat.

#[export] Instance frame_preorder : PreOrder frame.
Proof.
  split; [intros w; by unfold frame|]. intros x y z (?&?&?&?) (?&?&?&?). unfold frame.
  split_and!; (congruence || lia).
Qed.

Section oracle.
Context {O : Oracle}.

(** Some call between [w] and [w'] failed. *)
Definition failed (w w' : world) : Prop :=
  exists i, (clock w <= i < clock w')%nat /\ fault i <> None.

(** From clock [n] on, no call fails. *)
Definition calm (n : nat) : Prop := forall i, (n <= i)%nat -> fault i = None.

(** At most one call fails. *)
Definition one_fault : Prop := forall i j, fault i <> None -> fault j <> None -> i = j.

Lemma calm_le n m : calm n -> (n <= m)%nat -> calm m.
Proof. intros H Hnm i Hi. apply H. lia. Qed.

Lemma failed_calm w w' : one_fault -> failed w w' -> calm (clock w').
Proof.
  intros H1 (i & Hi & Hf) j Hj. destruct (fault j) eqn:E; [|done].
  exfalso. assert (i = j) by (apply H1; [done|by rewrite E]). lia.
Qed.

Lemma calm_failed w w' : calm (clock w) -> failed w w' -> False.
Proof. intros Hc (i & Hi & Hf). apply Hf, Hc. lia. Qed.

Lemma failed_here w w' n : fault (clock w) = Some n -> (clock w < clock w')%nat -> failed w w'.
Proof. intros H Hc. exists (clock w). split; [lia|]. by rewrite H. Qed.

Lemma failed_l w x w' : failed w x -> (clock x <= clock w')%nat -> failed w w'.
Proof. intros (i & Hi & Hf) H. exists i. split; [lia|done]. Qed.

Lemma failed_r w x w' : (clock w <= clock x)%nat -> failed x w' -> failed w w'.
Proof. intros H (i & Hi & Hf). exists i. split; [lia|done]. Qed.

Lemma frame_tick w : frame w (tick w).
Proof. unfold frame. cbn. split_and!; (done || lia). Qed.

(** A call that leaves the media alone, on both its branches. *)
Lemma plain_call_spec op w r w' :
  plain_call op w = (r, w') ->
  frame w w' /\ (clock w < clock w')%nat /\ (r = Ok tt \/ (r = Err (ESys op) /\ failed w w')).
Proof.
  unfold plain_call, sys. destruct (fault (clock w)) eqn:E; intros [= <- <-]; cbn.
  - split_and!; [apply frame_tick|lia|]. right. split; [done|].
    eapply failed_here; [done|cbn; lia].
  - split_and!; [apply frame_tick|lia|by left].
Qed.

Lemma readFile_spec mp rel w r w' :
  readFile mp rel w = (r, w') ->
  frame w w' /\ (clock w < clock w')%nat /\
  match r with
  | Ok c => files w !! (mp, rel) = Some c
  | Err ENotExist => files w !! (mp, rel) = None
  | Err _ => failed w w'
  | Panic => False
  end.
Proof.
  unfold readFile, sys. destruct (fault (clock w)) eqn:E.
  - intros [= <- <-]. split_and!; [apply frame_tick|cbn; lia|].
    eapply failed_here; [done|cbn; lia].
  - cbn. destruct (files w !! (mp, rel)) eqn:Ef; intros [= <- <-];
      (split_and!; [apply frame_tick|cbn; lia|done]).
Qed.

Lemma readFile_ok mp rel c w :
  fault (clock w) = None -> files w !! (mp, rel) = Some c -> readFile mp rel w = (Ok c, tick w).
Proof. intros Hf Hc. unfold readFile, sys. rewrite Hf. cbn. by rewrite Hc. Qed.

Lemma removeFile_spec mp rel w r w' :
  removeFile mp rel w = (r, w') ->
  disks w' = disks w /\ (clock w < clock w')%nat /\
  match r with
  | Ok _ => is_Some (files w !! (mp, rel)) /\ files w' = delete (mp, rel) (files w) /\
            history w' = (files w', disks w) :: history w
  | Err ENotExist => files w !! (mp, rel) = None /\ frame w w'
  | Err _ => frame w w' /\ failed w w'
  | Panic => False
  end.
Proof.
  unfold removeFile. destruct (fault (clock w)) eqn:E.
  - intros [= <- <-]. cbn. split_and!; try (done || lia); try apply frame_tick.
    eapply failed_here; [done|cbn; lia].
  - destruct (files w !! (mp, rel)) eqn:Ef; intros [= <- <-]; cbn;
      split_and!; try (done || lia); try apply frame_tick; eauto.
Qed.

Lemma plain_call_temps op w r w' : plain_call op w = (r, w') -> temps w' = temps w.
Proof. unfold plain_call, sys. by destruct (fault _); intros [= <- <-]. Qed.

End oracle.

Lemma bind_inv {A B} (c : io A) (k : A -> io B) w r w' :
  bind c k w = (r, w') ->
  (exists a x, c w = (Ok a, x) /\ k a x = (r, w')) \/
  (exists e, c w = (Err e, w') /\ r = Err e) \/ (c w = (Panic, w') /\ r = Panic).
Proof. unfold bind. destruct (c w) as [[a|e|] x]; [left|right; left|right; right]; naive_solver. Qed.

Lemma wrap_inv {A} ctx (c : io A) w r w' :
  wrap ctx c w = (r, w') -> exists r', c w = (r', w') /\ r = owrap (EIn ctx) r'.
Proof. unfold wrap. destruct (c w) as [r' x]. intros [= <- <-]. eauto. Qed.

Lemma attempt_inv {A} (c : io A) w r w' :
  attempt c w = (r, w') -> exists r', c w = (r', w') /\ r = Ok r'.
Proof. unfold attempt. destruct (c w) as [r' x]. intros [= <- <-]. eauto. Qed.

Lemma bind_attempt_inv {A B} (c : io A) (k : outcome ioerr A -> io B) w r w' :
  bind (attempt c) k w = (r, w') -> exists rc x, c w = (rc, x) /\ k rc x = (r, w').
Proof. unfold bind, attempt. destruct (c w) as [rc x]. eauto. Qed.

(** Case analysis of the first call of a sequence: it succeeded and the rest
ran in [x], or it ended the sequence. *)
Ltac io_bind H x E :=
  let a := fresh "a" in let e := fresh "e" in let Hr := fresh "Hr" in
  apply bind_inv in H as [(a & x & E & H)|[(e & E & Hr)|[E Hr]]].

(** ** Computations that only look

Whatever fails, the media are left alone; the calls the source makes to read
are of this kind, and so is what is composed of them. *)
Section looks.
Context {O : Oracle}.

Definition looks {A : Type} (c : io A) : Prop := forall w r w', c w = (r, w') -> frame w w'.

Lemma looks_bind {A B : Type} (c : io A) (k : A -> io B) :
  looks c -> (forall a, looks (k a)) -> looks (bind c k).
Proof.
  intros Hc Hk w r w' H. io_bind H x E; apply Hc in E; [|done|done]. etransitivity; [exact E|]. by eapply Hk.
Qed.

Lemma looks_ret {A : Type} (a : A) : looks (ret a).
Proof. intros w r w' [= <- <-]. reflexivity. Qed.

Lemma looks_throw {A : Type} e : looks (throw (A:=A) e).
Proof. intros w r w' [= <- <-]. reflexivity. Qed.

Lemma looks_lift {A : Type} (v : outcome ioerr A) : looks (lift v).
Proof. intros w r w' [= <- <-]. reflexivity. Qed.

Lemma looks_attempt {A : Type} (c : io A) : looks c -> looks (attempt c).
Proof. intros Hc w r w' H. apply attempt_inv in H as (r' & H & _). by eapply Hc. Qed.

Lemma looks_wrap {A : Type} ctx (c : io A) : looks c -> looks (wrap ctx c).
Proof. intros Hc w r w' H. apply wrap_inv in H as (r' & H & _). by eapply Hc. Qed.

Lemma looks_readFile mp rel : looks (readFile mp rel).
Proof. intros w r w' H. by apply readFile_spec in H as (? & _). Qed.

Lemma looks_plain_call op : looks (plain_call op).
Proof. intros w r w' H. by apply plain_call_spec in H as (? & _). Qed.

(** [tame c]: the computation does not panic. *)
Definition tame {A : Type} (c : io A) : Prop := forall w w', c w <> (Panic, w').

Lemma tame_bind {A B : Type} (c : io A) (k : A -> io B) : tame c -> (forall a, tame (k a)) -> tame (bind c k).
Proof.
  intros Hc Hk w w' H. io_bind H x E; [by apply Hk in H|discriminate Hr|by apply Hc in E].
Qed.

Lemma tame_ret {A : Type} (a : A) : tame (ret a).
Proof. by intros w w' [=]. Qed.

Lemma tame_throw {A : Type} e : tame (throw (A:=A) e).
Proof. by intros w w' [=]. Qed.

Lemma tame_lift {A : Type} (v : outcome ioerr A) : safe v -> tame (lift v).
Proof. intros Hv w w' H. injection H as -> _. by destruct Hv. Qed.

Lemma tame_attempt {A : Type} (c : io A) : tame (attempt c).
Proof. intros w w' H. apply attempt_inv in H as (r & _ & [=]). Qed.

Lemma tame_wrap {A : Type} ctx (c : io A) : tame c -> tame (wrap ctx c).
Proof. intros Hc w w' H. apply wrap_inv in H as ([a|e|] & H & Hr); try discriminate Hr. by apply Hc in H. Qed.

Lemma tame_readFile mp rel : tame (readFile mp rel).
Proof. intros w w' H. by apply readFile_spec in H as (_ & _ & H). Qed.

Lemma tame_plain_call op : tame (plain_call op).
Proof. intros w w' H. apply plain_call_spec in H as (_ & _ & [H|[H _]]); discriminate H. Qed.

(** A computation over an attempt that does not panic need not handle one. *)
Lemma tame_attempt_bind {A B : Type} (c : io A) (k : outcome ioerr A -> io B) :
  tame c -> (forall a, tame (k (Ok a))) -> (forall e, tame (k (Err e))) -> tame (bind (attempt c) k).
Proof.
  intros Hc Ho He w w' H. apply bind_attempt_inv in H as ([a|e|] & x & E & H); [by apply Ho in H|by apply He in H|by apply Hc in E].
Qed.

(** [answers c a]: from a state where no further call fails, [c] returns [a]
and leaves the media alone. *)
Definition answers {A : Type} (c : io A) (a : A) (w : world) : Prop :=
  calm (clock w) -> exists w', c w = (Ok a, w') /\ frame w w'.

Lemma answers_bind {A B : Type} (c : io A) (k : A -> io B) a b w :
  answers c a w -> (forall x, files x = files w -> answers (k a) b x) -> answers (bind c k) b w.
Proof.
  intros Hc Hk C. destruct (Hc C) as (x & E & F). unfold bind. rewrite E.
  destruct (Hk x) as (w' & E' & F'); [apply F|eapply calm_le; [exact C|apply F]|].
  exists w'. split; [done|by etransitivity].
Qed.

(** The same for a continuation that looks at disks too. *)
Lemma answers_then {A B : Type} (c : io A) (k : A -> io B) a b w :
  answers c a w -> (forall x, frame w x -> answers (k a) b x) -> answers (bind c k) b w.
Proof.
  intros Hc Hk C. destruct (Hc C) as (x & E & F). unfold bind. rewrite E.
  destruct (Hk x F) as (w' & E' & F'); [eapply calm_le; [exact C|apply F]|].
  exists w'. split; [done|by etransitivity].
Qed.

Lemma answers_ret {A : Type} (a : A) w : answers (ret a) a w.
Proof. intros _. exists w. by split. Qed.

Lemma answers_attempt {A : Type} (c : io A) a w : answers c a w -> answers (attempt c) (Ok a) w.
Proof. intros Hc C. destruct (Hc C) as (x & E & F). exists x. unfold attempt. by rewrite E. Qed.

Lemma answers_readFile mp rel c w : files w !! (mp, rel) = Some c -> answers (readFile mp rel) c w.
Proof. intros Hc C. exists (tick w). split; [apply readFile_ok; [by apply C|done]|apply frame_tick]. Qed.

End looks.

Create HintDb looks.
#[export] Hint Resolve looks_ret looks_throw looks_lift looks_attempt looks_wrap looks_readFile looks_plain_call : looks.

Create HintDb tame.
#[export] Hint Resolve tame_ret tame_throw tame_attempt tame_wrap tame_readFile tame_plain_call : tame.

(** Decides that a computation written in the monad does not panic. *)
Ltac taming :=
  repeat first [solve [auto with tame] | apply tame_wrap | apply tame_attempt_bind; [|intros ?|intros ?]
               | case_match | apply tame_bind; [|intros ?]].

(** Decides that a computation written in the monad only looks. *)
Ltac looking :=
  repeat first [solve [auto with looks] | apply looks_attempt | apply looks_wrap | case_match | apply looks_bind; [|intros ?]].

(** ** Concrete oracles and worlds *)

Definition no_faults : Oracle := fun _ => None.
Definition fail_at (n k : nat) : Oracle := fun i => if decide (i = n) then Some k else None.

Definition fresh_world (f : filemap) (d : diskmap) : world := mkWorld f ∅ d 0 [].

Lemma fail_at_one n k : @one_fault (fail_at n k).
Proof.
  intros i j. unfold fault, fail_at. repeat case_decide; congruence.
Qed.

Lemma no_faults_calm n : @calm no_faults n.
Proof. by intros i _. Qed.

Lemma no_faults_one : @one_fault no_faults.
Proof. by intros i j H. Qed.
