(* ===== verification/EspConfig.v ===== *)
(** * internal/espconfig: files on the ESP

[WriteFile], the one transactional primitive every writer uses, the payload and
config writers built on it, and the config file's own format. *)

From Stdlib Require Import ZArith Lia Strings.Byte.
From stdpp Require Import base list gmap.
From S2P Require Import Prelude GoStrings Layout World NetMac.
Local Open Scope Z_scope.

Section writers.
Context {O : Oracle}.

Definition WriteFile (mountpoint relPath content : bytes) : io unit :=
  run plain_call OpMkdirAll then
  do tmp := createTemp mountpoint in
  deferred (dropTemp mountpoint tmp)
    (run writeTemp mountpoint tmp content then
     run attempt (plain_call OpChmod) then
     run plain_call OpSync then
     run plain_call OpClose then
     run renameTemp mountpoint tmp relPath then
     run plain_call OpOpenDir then
     plain_call OpSyncDir).

Definition VerifyFile (mountpoint relPath want : bytes) : io unit :=
  do got := readFile mountpoint relPath in
  if beq got want then ret tt else throw (EMismatch relPath).

(** [for _, f := range fs]: the first failure ends the loop. *)
Fixpoint each {A} (fs : list A) (f : A -> io unit) : io unit :=
  match fs with
  | [] => ret tt
  | x :: t => run f x then each t f
  end.

Definition payload_files (kernel initrd cmdline : bytes) : list (bytes * bytes) :=
  [(KernelFile, kernel); (InitrdFile, initrd); (CmdlineFile, cmdline)].

Definition WritePayload (mountpoint kernel initrd cmdline : bytes) : io unit :=
  each (payload_files kernel initrd cmdline)
    (fun f => wrap (fst f) (WriteFile mountpoint (fst f) (snd f))).

Definition VerifyPayload (mountpoint kernel initrd cmdline : bytes) : io unit :=
  each (payload_files kernel initrd cmdline)
    (fun f => VerifyFile mountpoint (fst f) (snd f)).

Record Config := mkConfig {
  Net : bytes; IPv4 : bytes; IPv4Address : bytes; IPv4Gateway : bytes;
  IPv6 : bytes; IPv6Address : bytes; IPv6Gateway : bytes;
  SSHListen : bytes; SSHPort : bytes; SSHAllow : bytes;
  Console : bytes; ESPUUIDs : bytes; NetMAC : bytes
}.

Definition config_pairs (c : Config) : list (bytes * bytes) :=
  [(bs "alpine-zfsboot.net", Net c);
   (bs "alpine-zfsboot.ipv4", IPv4 c);
   (bs "alpine-zfsboot.ipv4.address", IPv4Address c);
   (bs "alpine-zfsboot.ipv4.gateway", IPv4Gateway c);
   (bs "alpine-zfsboot.ipv6", IPv6 c);
   (bs "alpine-zfsboot.ipv6.address", IPv6Address c);
   (bs "alpine-zfsboot.ipv6.gateway", IPv6Gateway c);
   (bs "alpine-zfsboot.ssh.listen", SSHListen c);
   (bs "alpine-zfsboot.ssh.port", SSHPort c);
   (bs "alpine-zfsboot.ssh.allow", SSHAllow c);
   (bs "alpine-zfsboot.console", Console c);
   (bs "alpine-zfsboot.esp-uuids", ESPUUIDs c);
   (bs "alpine-zfsboot.net.mac", NetMAC c)].

Definition kv_line (kv : bytes * bytes) : bytes := fst kv ++ bs "=" ++ snd kv.

Definition render (c : Config) : bytes :=
  config_pairs c ≫= fun kv => if beq (snd kv) [] then [] else kv_line kv ++ [x0a].

Definition WriteConfig (mountpoint : bytes) (cfg : Config) : io unit :=
  WriteFile mountpoint ConfigFile (render cfg).

Definition VerifyConfig (mountpoint : bytes) (cfg : Config) : io unit :=
  VerifyFile mountpoint ConfigFile (render cfg).

Definition WriteAuthorizedKeys (mountpoint sshKey : bytes) : io unit :=
  WriteFile mountpoint AuthorizedKeysFile (sshKey ++ [x0a]).

Definition dropbearEd25519KeyTypeName : bytes := bs "ssh-ed25519".
Definition PrivateKeySize : Z := 64.

Definition encodeDropbearEd25519PrivateKey (priv : bytes) : outcome ioerr bytes :=
  if negb (len priv =? PrivateKeySize) then Panic else
  Ok (be_put 4 (len dropbearEd25519KeyTypeName) ++ dropbearEd25519KeyTypeName
      ++ be_put 4 PrivateKeySize ++ priv).

(** [ed25519.GenerateKey]: the private key it produced, or its error. *)
Definition NewHostKey (generated : option bytes) : outcome ioerr bytes :=
  match generated with
  | None => Err (ERefused (bs "generating an ed25519 key"))
  | Some priv => encodeDropbearEd25519PrivateKey priv
  end.

Definition WriteHostKey (mountpoint key : bytes) : io unit :=
  WriteFile mountpoint SSHHostEd25519KeyFile key.

Definition GenerateHostKey (generated : option bytes) (mountpoint : bytes) : io unit :=
  do key := lift (NewHostKey generated) in WriteHostKey mountpoint key.

(** The loop of [ConfigValue]: the last matching line wins. *)
Fixpoint config_scan (prefix : bytes) (lines : list bytes) (acc : option bytes) : option bytes :=
  match lines with
  | [] => acc
  | line :: t =>
      let line := trim_suffix line [x0d] in
      match cut_prefix line prefix with
      | Some v => config_scan prefix t (Some v)
      | None => config_scan prefix t acc
      end
  end.

Definition ConfigValue (content key : bytes) : option bytes :=
  config_scan (key ++ bs "=") (split x0a content) None.

(** The text [SetConfigKey] writes, from the text it read. *)
Definition kept_line (prefix line : bytes) : bytes :=
  if beq line [] then []
  else if has_prefix line prefix then []
  else if has_suffix line [x0a] then line else line ++ [x0a].

Definition set_config_text (raw key value : bytes) : bytes :=
  let prefix := key ++ bs "=" in
  (split_after x0a raw ≫= kept_line prefix)
  ++ (if beq value [] then [] else prefix ++ value ++ [x0a]).

Definition SetConfigKey (mountpoint key value : bytes) : io unit :=
  do r := attempt (readFile mountpoint ConfigFile) in
  match r with
  | Ok raw => WriteFile mountpoint ConfigFile (set_config_text raw key value)
  | Err ENotExist => WriteFile mountpoint ConfigFile (set_config_text [] key value)
  | Err e => throw (EIn ConfigFile e)
  | Panic => lift Panic
  end.

End writers.

(** [consoleRE]: a name, then optionally a comma, the baud digits, and the
optional parity, bits and flow letters. *)
Definition console_names : list bytes :=
  [bs "tty0"; bs "ttyS0"; bs "ttyS1"; bs "ttyS2"; bs "ttyAMA0"].

Definition opt_class (c : byte -> bool) (s : bytes) : list bytes :=
  match s with b :: t => if c b then [s; t] else [s] | [] => [s] end.

(** Every way to continue after one or more digits. *)
Fixpoint after_digits (s : bytes) : list bytes :=
  match s with
  | b :: t => if is_digit b then t :: after_digits t else []
  | [] => []
  end.

Definition console_options (s : bytes) : bool :=
  match s with
  | [] => true
  | b :: t =>
      is_byte x2c b &&
      existsb (fun r => beq r [])
        (flat_map (opt_class (is_byte x72))
          (flat_map (opt_class (in_range 53 56))
            (flat_map (opt_class (fun c => is_byte x6e c || is_byte x65 c || is_byte x6f c))
              (after_digits t))))
  end.

Definition consoleRE (v : bytes) : bool :=
  existsb (fun n => match cut_prefix v n with Some r => console_options r | None => false end)
    console_names.

Definition ValidateConsole (v : bytes) : bool := beq v [] || consoleRE v.

Definition ValidateNetMAC (v : bytes) : outcome netmac_error bytes := Normalize v.

Example console_accepts :
  map ValidateConsole [bs "ttyS0,115200n8"; bs "tty0"; bs ""; bs "ttyAMA0,9600"; bs "ttyS0,115200e7r"]
  = [true; true; true; true; true].
Proof. vm_compute. reflexivity. Qed.

Example console_refuses :
  map ValidateConsole [bs "ttyS3"; bs "tty0,"; bs "ttyS0,115200x"; bs "tty0 "; bs "ttyS0,n8"]
  = [false; false; false; false; false].
Proof. vm_compute. reflexivity. Qed.

(** ** WriteFile: atomic replacement *)

Section atomic.
Context {O : Oracle}.

(** What one atomic replacement of a file may have done: nothing, or exactly
the new content under the target's name. *)
Definition replaced (mp rel content : bytes) (w w' : world) : Prop :=
  disks w' = disks w /\ files w' = <[(mp, rel) := content]> (files w) /\
  history w' = (files w', disks w) :: history w /\ (clock w < clock w')%nat.

Lemma createTemp_spec mp w r w' :
  createTemp mp w = (r, w') ->
  frame w w' /\ (clock w < clock w')%nat /\
  (r = Ok (S (clock w)) \/ (r = Err (ESys OpCreateTemp) /\ failed w w')).
Proof.
  unfold createTemp, sys. destruct (fault (clock w)) eqn:E; intros [= <- <-]; cbn.
  - split_and!; [apply frame_tick|lia|]. right. split; [done|]. eapply failed_here; [done|cbn; lia].
  - split_and!; [|lia|by left]. unfold frame. cbn. split_and!; (done || lia).
Qed.

Lemma writeTemp_spec mp t c w r w' :
  writeTemp mp t c w = (r, w') ->
  frame w w' /\ (clock w < clock w')%nat /\
  ((r = Ok tt /\ temps w' !! (mp, t) = Some c) \/ (r = Err (ESys OpWrite) /\ failed w w')).
Proof.
  unfold writeTemp. destruct (fault (clock w)) eqn:E; intros [= <- <-]; cbn;
    (split_and!; [unfold frame; cbn; split_and!; (done || lia)|lia|]).
  - right. split; [done|]. eapply failed_here; [done|cbn; lia].
  - left. split; [done|]. apply lookup_insert_eq.
Qed.

Lemma renameTemp_spec mp t rel c w r w' :
  temps w !! (mp, t) = Some c -> renameTemp mp t rel w = (r, w') ->
  (r = Ok tt /\ replaced mp rel c w w') \/ (r = Err (ESys OpRename) /\ frame w w' /\ failed w w').
Proof.
  intros Hc. unfold renameTemp. rewrite Hc. destruct (fault (clock w)) eqn:E; intros [= <- <-].
  - right. split_and!; [done|apply frame_tick|]. eapply failed_here; [done|cbn; lia].
  - left. split; [done|]. unfold replaced. cbn. split_and!; (done || lia).
Qed.

Lemma frame_dropTemp mp t w : frame w (dropTemp mp t w).
Proof.
  unfold dropTemp. destruct (fault _); unfold frame; cbn; split_and!; (done || lia).
Qed.


(** The part of [WriteFile] after the temporary file exists. *)
Definition install (mp rel content : bytes) (t : nat) : io unit :=
  run writeTemp mp t content then
  run attempt (plain_call OpChmod) then
  run plain_call OpSync then
  run plain_call OpClose then
  run renameTemp mp t rel then
  run plain_call OpOpenDir then
  plain_call OpSyncDir.

(** The outcome of an atomic write started in [w]. *)
Definition atomic_write (mp rel content : bytes) (w : world) (r : outcome ioerr unit) (w' : world) : Prop :=
  (r = Ok tt /\ replaced mp rel content w w') \/
  (r <> Ok tt /\ r <> Panic /\ failed w w' /\ (frame w w' \/ replaced mp rel content w w')).

Lemma replaced_frame_l mp rel c w x w' : frame w x -> replaced mp rel c x w' -> replaced mp rel c w w'.
Proof.
  intros (Hf & Hd & Hh & Hc) (? & ? & ? & ?). unfold replaced. rewrite <-Hf, <-Hd, <-Hh.
  split_and!; (done || lia).
Qed.

Lemma replaced_frame_r mp rel c w x w' : replaced mp rel c w x -> frame x w' -> replaced mp rel c w w'.
Proof.
  intros (? & ? & ? & ?) (Hf & Hd & Hh & Hc). unfold replaced. rewrite Hf, Hd, Hh.
  split_and!; (done || lia).
Qed.

Lemma atomic_write_frame_l mp rel c w x r w' :
  frame w x -> atomic_write mp rel c x r w' -> atomic_write mp rel c w r w'.
Proof.
  intros Hf [[-> H]|(? & ? & Hx & H)]; [left; split; [done|by eapply replaced_frame_l]|].
  right. split_and!; [done|done| |].
  - eapply failed_r; [|done]. apply Hf.
  - destruct H as [H|H]; [left; by etransitivity|right; by eapply replaced_frame_l].
Qed.

Lemma failed_write mp rel c w (r : outcome ioerr unit) e w' :
  r = Err e -> frame w w' -> failed w w' -> atomic_write mp rel c w r w'.
Proof. intros ->. right. split_and!; (done || by left). Qed.

(** A plain call at the head of an atomic write. *)
Lemma plain_atomic mp rel c op (k : unit -> io unit) w r w' :
  bind (plain_call op) k w = (r, w') ->
  (forall x, temps x = temps w -> frame w x -> k tt x = (r, w') -> atomic_write mp rel c x r w') ->
  atomic_write mp rel c w r w'.
Proof.
  intros H Hk. io_bind H x E; pose proof (plain_call_temps _ _ _ _ E) as Ht;
    apply plain_call_spec in E as (Hf & _ & [Hok|[Herr Hfl]]); try discriminate.
  - injection Hok as ->. eapply atomic_write_frame_l; [done|]. by apply Hk.
  - injection Herr as ->. by eapply failed_write.
Qed.

Lemma install_tail mp rel c t w r w' :
  temps w !! (mp, t) = Some c ->
  (run renameTemp mp t rel then run plain_call OpOpenDir then plain_call OpSyncDir) w = (r, w') ->
  atomic_write mp rel c w r w'.
Proof.
  intros Ht H. io_bind H x E; apply (renameTemp_spec _ _ _ _ _ _ _ Ht) in E as [[? Hrep]|(? & Hf & Hfl)];
    simplify_eq; [|by eapply failed_write].
  assert (forall e y, r = Err e -> frame x y -> failed x y -> atomic_write mp rel c w r y) as Hfail.
  { intros e y -> Hfy Hfl. right. split_and!; [done|done| |right; by eapply replaced_frame_r].
    eapply failed_r; [|done]. destruct Hrep as (_ & _ & _ & ?). lia. }
  io_bind H y E1; apply plain_call_spec in E1 as (Hf & _ & [Hok|[Herr Hfl]]); simplify_eq; [|by eapply Hfail].
  apply plain_call_spec in H as (Hf' & _ & [->|[-> Hfl]]).
  - left. split; [done|]. eapply replaced_frame_r; [done|]. by etransitivity.
  - eapply Hfail; [done|by etransitivity|]. eapply failed_r; [|done]. apply Hf.
Qed.

Lemma install_spec mp rel c t w r w' :
  install mp rel c t w = (r, w') -> atomic_write mp rel c w r w'.
Proof.
  unfold install. intros H. io_bind H x E;
    apply writeTemp_spec in E as (Hf & _ & [[Hok Ht]|[Herr Hfl]]); simplify_eq; [|by eapply failed_write].
  eapply atomic_write_frame_l; [done|]. clear Hf.
  io_bind H y E; apply attempt_inv in E as (rc & E & Hrc); simplify_eq.
  pose proof (plain_call_temps _ _ _ _ E) as Ht1. apply plain_call_spec in E as (Hf & _ & _).
  eapply atomic_write_frame_l; [done|].
  eapply plain_atomic; [done|]. intros z Hz _ Hk.
  eapply plain_atomic; [exact Hk|]. intros z' Hz' _ Hk'.
  eapply install_tail; [|exact Hk']. congruence.
Qed.

(** The deferred removal of the temporary file touches no file of the tree. *)
Lemma deferred_atomic mp rel c t (k : io unit) w r w' :
  (forall r z, k w = (r, z) -> atomic_write mp rel c w r z) ->
  deferred (dropTemp mp t) k w = (r, w') -> atomic_write mp rel c w r w'.
Proof.
  intros Hk H. unfold deferred in H. destruct (k w) as [r' z]. injection H as -> <-.
  pose proof (Hk _ _ eq_refl) as Ei. pose proof (frame_dropTemp mp t z) as Hd.
  destruct Ei as [[-> H]|(? & ? & Hx & H)]; [left; split; [done|by eapply replaced_frame_r]|].
  right. split_and!; [done|done| |].
  - eapply failed_l; [done|]. apply Hd.
  - destruct H as [H|H]; [left; by etransitivity|right; by eapply replaced_frame_r].
Qed.

Lemma WriteFile_spec mp rel c w r w' :
  WriteFile mp rel c w = (r, w') -> atomic_write mp rel c w r w'.
Proof.
  unfold WriteFile. intros H. eapply plain_atomic; [done|]. intros x _ _ Hk. clear H.
  io_bind Hk y E; apply createTemp_spec in E as (Hf & _ & [Hok|[Herr Hfl]]); simplify_eq;
    [|by eapply failed_write].
  eapply atomic_write_frame_l; [done|].
  eapply deferred_atomic; [|exact Hk]. apply install_spec.
Qed.

(** C28 - Atomic file replacement: whichever system calls fail, [WriteFile] never
panics and leaves the media either untouched or with exactly the target
replaced by the complete new content; those are also the only two states a
crash at any point can leave. It reports success only in the second case, and
an error only when some call did fail. *)
Theorem WriteFile_atomic (mp rel c : bytes) (w w' : world) (r : outcome ioerr unit)
  (H : WriteFile mp rel c w = (r, w')) :
  let new := <[(mp, rel) := c]> (files w) in
  r <> Panic /\ disks w' = disks w /\
  (files w' = files w \/ files w' = new) /\
  (r = Ok tt -> files w' = new) /\
  (r <> Ok tt -> failed w w') /\
  exists states, history w' = states ++ history w /\ Forall (fun s => s = (new, disks w)) states.
Proof.
  apply WriteFile_spec in H as [[-> (Hd & Hf & Hh & _)]|(Hr & Hp & Hx & [(Hf & Hd & Hh & _)|(Hd & Hf & Hh & _)])].
  - split_and!; try (done || by right). exists [(files w', disks w)]. rewrite Hf. split; [by rewrite Hh, Hf|].
    by repeat constructor.
  - split_and!; try (done || by left). by exists [].
  - split_and!; try (done || by right). exists [(files w', disks w)]. rewrite Hf. split; [by rewrite Hh, Hf|].
    by repeat constructor.
Qed.

End atomic.

(** ** The config file *)

Lemma split_after_spec c s :
  exists ls l, split c s = ls ++ [l] /\ split_after c s = ((fun w => w ++ [c]) <$> ls) ++ [l] /\
    Forall (fun w => c ∉ w) (ls ++ [l]).
Proof.
  induction s as [|b s (ls & l & H1 & H2 & H3)]; cbn [split split_after].
  - exists [], []. cbn. split_and!; [done..|]. repeat constructor. apply not_elem_of_nil.
  - rewrite H1, H2. case_decide as Hb.
    + subst b. exists ([] :: ls), l. split_and!; [done..|]. constructor; [apply not_elem_of_nil|done].
    + destruct ls as [|w ls].
      * exists [], (b :: l). cbn in *. inversion H3. split_and!; [done..|]. constructor; [|done].
        apply not_elem_of_cons; done.
      * exists ((b :: w) :: ls), l. cbn in *. inversion H3. split_and!; [done..|].
        constructor; [|done]. apply not_elem_of_cons; done.
Qed.

Lemma trim_suffix_cr_prefix line : exists r, line = trim_suffix line [x0d] ++ r.
Proof.
  unfold trim_suffix. destruct (has_suffix line _); [|exists []; by rewrite app_nil_r].
  exists (drop (length line - 1) line). cbn. by rewrite take_drop.
Qed.

Lemma trim_suffix_snoc s p : trim_suffix (s ++ p) p = s.
Proof.
  unfold trim_suffix. assert (has_suffix (s ++ p) p = true) as -> by (apply has_suffix_true; eauto).
  rewrite length_app, Nat.add_sub. by apply take_app_length.
Qed.

Lemma trim_suffix_none s p : has_suffix s p = false -> trim_suffix s p = s.
Proof. unfold trim_suffix. by intros ->. Qed.

(** The value a config line gives a key, if any. *)
Definition line_value (k line : bytes) : option bytes :=
  cut_prefix (trim_suffix line [x0d]) (k ++ bs "=").

Lemma line_value_app k v :
  has_suffix v [x0d] = false -> line_value k (k ++ bs "=" ++ v) = Some v.
Proof.
  intros Hv. unfold line_value. rewrite trim_suffix_none.
  - rewrite app_assoc. apply cut_prefix_app.
  - destruct (has_suffix (k ++ bs "=" ++ v) [x0d]) eqn:E; [|done].
    apply has_suffix_true in E as [r Hr]. rewrite <-Hv. symmetry. apply has_suffix_true.
    destruct v as [|b v _] using rev_ind.
    + rewrite app_nil_r in Hr. apply app_inj_tail in Hr as [_ Hr]. discriminate Hr.
    + rewrite !app_assoc in Hr. apply app_inj_tail in Hr as [_ ->]. eauto.
Qed.

Lemma line_value_has k line :
  has_prefix line (k ++ bs "=") = match line_value k line with Some _ => true | None => false end.
Proof.
  unfold line_value. destruct (cut_prefix _ _) as [v|] eqn:E.
  - apply cut_prefix_Some in E. destruct (trim_suffix_cr_prefix line) as [r Hr].
    rewrite Hr, E, <-app_assoc. apply has_prefix_app.
  - destruct (has_prefix line _) eqn:Hp; [|done]. apply has_prefix_true in Hp as [r ->].
    destruct (has_suffix r [x0d]) eqn:Hs.
    + apply has_suffix_true in Hs as [r' ->]. rewrite app_assoc, trim_suffix_snoc in E.
      by rewrite cut_prefix_app in E.
    + pose proof (line_value_app k r Hs) as H. unfold line_value in H. rewrite app_assoc in H.
      congruence.
Qed.

Lemma line_value_other k k' line :
  k <> k' -> x3d ∉ k -> x3d ∉ k' -> has_prefix line (k ++ bs "=") = true -> line_value k' line = None.
Proof.
  intros Hne Hk Hk' Hp. destruct (line_value k' line) as [v|] eqn:E; [|done]. exfalso.
  assert (has_prefix line (k' ++ bs "=") = true) as Hp' by (by rewrite line_value_has, E).
  apply has_prefix_true in Hp as [r Hr], Hp' as [r' Hr']. rewrite Hr, <-!app_assoc in Hr'.
  cbn in Hr'. pose proof (cut_app k x3d r Hk) as H1. rewrite Hr' in H1.
  rewrite cut_app in H1 by done. naive_solver.
Qed.

Lemma config_scan_cons k line lines acc :
  config_scan (k ++ bs "=") (line :: lines) acc =
  config_scan (k ++ bs "=") lines (match line_value k line with Some v => Some v | None => acc end).
Proof. cbn [config_scan]. unfold line_value. by destruct (cut_prefix _ _). Qed.

Lemma config_scan_app k a b acc :
  config_scan (k ++ bs "=") (a ++ b) acc = config_scan (k ++ bs "=") b (config_scan (k ++ bs "=") a acc).
Proof. revert acc. induction a as [|x a IH]; intros acc; [done|]. cbn [app]. by rewrite !config_scan_cons, IH. Qed.

Lemma config_scan_skip k (keep : bytes -> bool) lines acc :
  Forall (fun l => keep l = false -> line_value k l = None) lines ->
  config_scan (k ++ bs "=") (List.filter keep lines) acc = config_scan (k ++ bs "=") lines acc.
Proof.
  intros H. revert acc. induction H as [|l lines Hl H IH]; intros acc; [done|].
  cbn [List.filter]. destruct (keep l) eqn:E; rewrite config_scan_cons.
  - by rewrite config_scan_cons, IH.
  - by rewrite Hl, IH.
Qed.

Lemma config_scan_none k lines acc :
  Forall (fun l => line_value k l = None) lines -> config_scan (k ++ bs "=") lines acc = acc.
Proof.
  intros H. revert acc. induction H as [|l lines Hl H IH]; intros acc; [done|].
  by rewrite config_scan_cons, Hl.
Qed.

Lemma line_value_nil k : line_value k [] = None.
Proof. unfold line_value. cbn. by destruct k. Qed.

(** The lines of the rewritten file: those of other keys, then the new one. *)
Definition keeps (key line : bytes) : bool := negb (has_prefix line (key ++ bs "=")).
Definition set_lines (lines : list bytes) (key value : bytes) : list bytes :=
  List.filter (keeps key) lines ++ (if beq value [] then [] else [key ++ bs "=" ++ value]).

Lemma has_suffix_nl w : has_suffix (w ++ [x0a]) [x0a] = true.
Proof. apply has_suffix_true. eauto. Qed.

Lemma has_prefix_nl w k : x0a ∉ k -> has_prefix (w ++ [x0a]) (k ++ bs "=") = has_prefix w (k ++ bs "=").
Proof.
  intros Hk. apply eq_true_iff_eq. rewrite !has_prefix_true. split; intros [r Hr].
  - destruct r as [|b r _] using rev_ind.
    + rewrite app_nil_r in Hr. apply app_inj_tail in Hr as [_ Hr]. discriminate Hr.
    + rewrite app_assoc in Hr. apply app_inj_tail in Hr as [-> _]. eauto.
  - exists (r ++ [x0a]). by rewrite Hr, <-app_assoc.
Qed.

Lemma kept_lines ls key :
  x0a ∉ key ->
  ((fun w => w ++ [x0a]) <$> ls) ≫= kept_line (key ++ bs "=")
  = List.filter (keeps key) ls ≫= (fun l => l ++ [x0a]).
Proof.
  intros Hk. induction ls as [|l ls IH]; [done|]. cbn [fmap list_fmap mbind list_bind List.filter].
  rewrite IH. unfold kept_line, keeps. rewrite has_prefix_nl by done.
  destruct (beq (l ++ [x0a]) []) eqn:E; [zb; by destruct l|].
  destruct (has_prefix l _); cbn [negb]; [done|]. by rewrite has_suffix_nl.
Qed.

Lemma set_config_text_lines raw key value :
  x0a ∉ key ->
  exists ls, Forall (fun w => x0a ∉ w) ls /\ (split x0a raw = ls \/ split x0a raw = ls ++ [[]]) /\
    set_config_text raw key value = set_lines ls key value ≫= (fun l => l ++ [x0a]).
Proof.
  intros Hk. destruct (split_after_spec x0a raw) as (ls & l & H1 & H2 & H3).
  unfold set_config_text, set_lines. rewrite H1, H2, bind_app, kept_lines by done.
  cbn [mbind list_bind]. rewrite app_nil_r.
  assert ((if beq value [] then [] else (key ++ bs "=") ++ value ++ [x0a])
          = (if beq value [] then [] else [key ++ bs "=" ++ value]) ≫= (λ l, l ++ [x0a])) as ->.
  { destruct (beq value []); [done|]. cbn. by rewrite app_nil_r, <-!app_assoc. }
  apply Forall_app in H3 as [H3 H4]. destruct (decide (l = [])) as [->|Hl].
  - exists ls. split_and!; [done|by right|]. unfold kept_line. rewrite beq_refl, app_nil_r.
    by rewrite bind_app.
  - exists (ls ++ [l]). split_and!; [by apply Forall_app|by left|].
    rewrite List.filter_app, !bind_app. f_equal. f_equal. cbn [List.filter].
    unfold kept_line, keeps. rewrite (proj2 (beq_false _ _)) by done.
    destruct (has_prefix l _); cbn [negb mbind list_bind]; [done|].
    destruct (has_suffix l [x0a]) eqn:E; [|by rewrite app_nil_r].
    exfalso. inversion H4 as [|? ? Hn]; subst. apply has_suffix_true in E as [r ->].
    apply Hn, elem_of_app. right. by apply list_elem_of_singleton.
Qed.

(** Fields the config functions can carry: single lines, a key without '='. *)
Definition config_key (k : bytes) : Prop := x0a ∉ k /\ x3d ∉ k.
Definition config_value (v : bytes) : Prop := x0a ∉ v /\ has_suffix v [x0d] = false.

(** Config rewrite: after [SetConfigKey] rewrites any file content, reading
the key gives the value written (nothing when the value is empty), and every
other key reads as it did before. *)
Theorem set_config_text_value (raw key value : bytes)
  (Hk : config_key key) (Hv : config_value value) :
  ConfigValue (set_config_text raw key value) key = (if beq value [] then None else Some value) /\
  forall k', config_key k' -> k' <> key ->
    ConfigValue (set_config_text raw key value) k' = ConfigValue raw k'.
Proof.
  destruct Hk as [Hk Hke], Hv as [Hv Hcr].
  destruct (set_config_text_lines raw key value Hk) as (ls & Hls & Hraw & ->).
  assert (Forall (fun w => x0a ∉ w) (set_lines ls key value)) as Hset.
  { unfold set_lines. apply Forall_app. split.
    - apply Forall_forall. intros x Hx. apply list_elem_of_In, filter_In in Hx as [Hx _].
      rewrite Forall_forall in Hls. by apply Hls, list_elem_of_In.
    - destruct (beq value []); repeat constructor. rewrite !not_elem_of_app. split_and!; [done| |done].
      intros H. apply list_elem_of_singleton in H. discriminate H. }
  assert (forall k, ConfigValue (set_lines ls key value ≫= (λ l, l ++ [x0a])) k
            = config_scan (k ++ bs "=") (set_lines ls key value) None) as Hcv.
  { intros k. unfold ConfigValue. rewrite split_lines by done. rewrite config_scan_app, config_scan_cons.
    cbn [config_scan]. by rewrite line_value_nil. }
  rewrite Hcv. unfold set_lines. rewrite config_scan_app. split.
  - rewrite (config_scan_none key (List.filter _ _)).
    + destruct (beq value []); [done|]. rewrite config_scan_cons, line_value_app; done.
    + apply Forall_forall. intros x Hx. apply list_elem_of_In, filter_In in Hx as [_ Hx].
      unfold keeps in Hx. rewrite line_value_has in Hx. by destruct (line_value key x).
  - intros k' [Hk' Hke'] Hne. rewrite Hcv. unfold set_lines. rewrite config_scan_app.
    rewrite config_scan_skip.
    + transitivity (config_scan (k' ++ bs "=") ls None).
      * destruct (beq value []); [done|]. apply config_scan_none. repeat constructor.
        apply (line_value_other key); [done..|]. rewrite app_assoc. apply has_prefix_app.
      * unfold ConfigValue. destruct Hraw as [->| ->]; [done|].
        rewrite config_scan_app, config_scan_cons, line_value_nil. done.
    + apply Forall_forall. intros x _ Hx. apply (line_value_other key); [done..|].
      unfold keeps in Hx. by apply negb_false_iff in Hx.
Qed.

Lemma set_config_text_value_witness :
  ConfigValue (set_config_text (bs "alpine-zfsboot.net=eth0") (bs "alpine-zfsboot.console") (bs "tty0"))
    (bs "alpine-zfsboot.net") = Some (bs "eth0").
Proof.
  assert (forall k, bool_decide (x0a ∉ k) && bool_decide (x3d ∉ k) = true -> config_key k) as Hck.
  { intros k H. unfold config_key. rewrite andb_true_iff, !bool_decide_eq_true in H. exact H. }
  assert (config_value (bs "tty0")) as Hv.
  { split; [apply (bool_decide_unpack _); vm_compute; exact I|vm_compute; reflexivity]. }
  rewrite (proj2 (set_config_text_value (bs "alpine-zfsboot.net=eth0") (bs "alpine-zfsboot.console")
    (bs "tty0") (Hck (bs "alpine-zfsboot.console") eq_refl) Hv)
    (bs "alpine-zfsboot.net") (Hck (bs "alpine-zfsboot.net") eq_refl)).
  - vm_compute. reflexivity.
  - discriminate.
Defined.

(** The text of a list of settings, an empty value giving no line. *)
Definition pairs_lines (l : list (bytes * bytes)) : list bytes :=
  kv_line <$> List.filter (fun kv => negb (beq (snd kv) [])) l.

Lemma render_lines c : render c = pairs_lines (config_pairs c) ≫= (fun l => l ++ [x0a]).
Proof.
  unfold render, pairs_lines. generalize (config_pairs c) as l.
  induction l as [|kv l IH]; [done|]. cbn [mbind list_bind List.filter].
  rewrite IH. by destruct (beq (snd kv) []).
Qed.

Lemma pairs_scan l k v acc :
  NoDup l.*1 -> Forall (fun kv => x3d ∉ kv.1 /\ config_value kv.2) l -> (k, v) ∈ l ->
  config_scan (k ++ bs "=") (pairs_lines l) acc = if beq v [] then acc else Some v.
Proof.
  assert (forall kv x, x3d ∉ kv.1 -> x3d ∉ x -> kv.1 <> x -> line_value x (kv_line kv) = None) as Hno.
  { intros kv x ? ? ?. apply (line_value_other kv.1); [done..|]. unfold kv_line.
    rewrite app_assoc. apply has_prefix_app. }
  intros Hnd Hall Hin. revert acc. induction l as [|[k0 v0] l IH]; intros acc; [by apply not_elem_of_nil in Hin|].
  apply Forall_cons in Hall as [[Hk0 Hv0] Hall]. cbn in Hnd. apply NoDup_cons in Hnd as [Hn0 Hnd].
  cbn in Hk0, Hv0. apply elem_of_cons in Hin as [Heq|Hin].
  - injection Heq as -> ->. unfold pairs_lines. cbn [List.filter snd].
    assert (Forall (fun x => line_value k0 x = None) (pairs_lines l)) as Hrest.
    { unfold pairs_lines. apply Forall_fmap, Forall_forall. intros kv Hkv.
      apply list_elem_of_In, filter_In in Hkv as [Hkv _]. apply list_elem_of_In in Hkv. cbn.
      rewrite Forall_forall in Hall. destruct (Hall _ Hkv). apply Hno; [done..|].
      intros <-. apply Hn0. by apply list_elem_of_fmap_2. }
    destruct (beq v0 []); cbn [negb fmap list_fmap]; [by apply config_scan_none|].
    rewrite config_scan_cons. change (kv_line (k0, v0)) with (k0 ++ bs "=" ++ v0).
    rewrite line_value_app by apply Hv0. by apply config_scan_none.
  - assert (x3d ∉ k) as Hk by (rewrite Forall_forall in Hall; by apply (Hall _ Hin)).
    assert (k0 <> k) as Hne by (intros ->; apply Hn0; by apply (list_elem_of_fmap_2 fst _ _ Hin)).
    unfold pairs_lines. cbn [List.filter]. destruct (negb _); [|by apply IH].
    cbn [fmap list_fmap]. rewrite config_scan_cons, Hno by done. by apply IH.
Qed.

(** Every setting is a single line. *)
Definition config_ok (c : Config) : Prop := Forall (fun kv => config_value kv.2) (config_pairs c).

(** Config file round trip: each of the thirteen settings reads back from
the rendered file as it was, an empty one as not set. *)
Theorem render_ConfigValue (c : Config) (k v : bytes)
  (Hc : config_ok c) (Hin : (k, v) ∈ config_pairs c) :
  ConfigValue (render c) k = if beq v [] then None else Some v.
Proof.
  unfold ConfigValue. rewrite render_lines, split_lines.
  - rewrite config_scan_app, config_scan_cons, line_value_nil. cbn [config_scan].
    apply pairs_scan; [|apply Forall_and; split; [|done]|done].
    + apply (bool_decide_unpack _). vm_compute. exact I.
    + unfold config_pairs. repeat constructor; apply (bool_decide_unpack _); vm_compute; exact I.
  - unfold pairs_lines. apply Forall_fmap, Forall_forall. intros kv Hkv.
    apply list_elem_of_In, filter_In in Hkv as [Hkv _]. apply list_elem_of_In in Hkv.
    unfold config_ok in Hc. rewrite Forall_forall in Hc. destruct (Hc _ Hkv) as [Hnl _].
    change (x0a ∉ kv.1 ++ bs "=" ++ kv.2). rewrite !not_elem_of_app. split_and!; [|apply (bool_decide_unpack _); vm_compute; exact I|done].
    assert (Forall (fun kv => x0a ∉ kv.1) (config_pairs c)) as Hkeys.
    { unfold config_pairs. repeat constructor; apply (bool_decide_unpack _); vm_compute; exact I. }
    rewrite Forall_forall in Hkeys. by apply Hkeys.
Qed.

Definition sample_config : Config :=
  mkConfig (bs "on") [] [] [] [] [] [] [] (bs "22") [] (bs "ttyS0,115200n8") [] [].

Lemma render_ConfigValue_witness :
  ConfigValue (render sample_config) (bs "alpine-zfsboot.ssh.port") = Some (bs "22").
Proof.
  apply (render_ConfigValue sample_config (bs "alpine-zfsboot.ssh.port") (bs "22")).
  - unfold config_ok, config_pairs. repeat constructor; cbn [snd];
      (apply (bool_decide_unpack _); vm_compute; exact I) || (vm_compute; reflexivity).
  - apply (bool_decide_unpack _). vm_compute. exact I.
Defined.

(** The directory fsync fails: an error is reported, the new file is there. *)
Definition sample_write : outcome ioerr unit * world :=
  @WriteFile (fail_at 8 0) (bs "/mnt") ConfigFile (bs "new") (fresh_world {[(bs "/mnt", ConfigFile) := bs "old"]} ∅).

Lemma WriteFile_atomic_witness :
  is_ok (fst sample_write) = false /\ @failed (fail_at 8 0) (fresh_world {[(bs "/mnt", ConfigFile) := bs "old"]} ∅) (snd sample_write) /\
  files (snd sample_write) !! (bs "/mnt", ConfigFile) = Some (bs "new").
Proof.
  split_and!; [vm_compute; reflexivity| |vm_compute; reflexivity].
  apply (@WriteFile_atomic (fail_at 8 0) _ _ _ _ (snd sample_write) (fst sample_write)
           (surjective_pairing sample_write)).
  vm_compute. discriminate.
Defined.
