(* ===== verification/EspMember.v ===== *)
(** * internal/espmember: the MEMBER marker

EFI/ALPINE/MEMBER says which installation an ESP belongs to. This file models
its text format (encode, decode, validate), the FAT UUID lists it and the
kernel command line carry, and the file operations on it. *)

From Stdlib Require Import ZArith Lia Strings.Byte.
From stdpp Require Import base list gmap.
From S2P Require Import Prelude GoStrings Layout World EspConfig.
Local Open Scope Z_scope.

Definition headerPrefix : bytes := bs "alpine-zfsboot esp-member ".
Definition Format : Z := 1.
Definition Header : bytes := bs "alpine-zfsboot esp-member 1".

Record Member := mkMember {
  InstallID : bytes;
  Generation : Z;
  ESPUUID : bytes;
  Members : list bytes;
  Pool : bytes;
  Disk : bytes;
  Written : bytes
}.

Definition zero_Member : Member := mkMember [] 0 [] [] [] [] [].

#[export] Instance Member_eq_dec : EqDecision Member.
Proof. solve_decision. Defined.

Inductive member_error :=
| ENotUUID (s : bytes) | EListedTwice (u : bytes) | ERand
| ENotMember (line : bytes) | EFormat (v : bytes) | ENotKeyValue (line : bytes)
| EInstallID (v : bytes) | EGeneration (v : bytes) | EESPUUID (v : bytes)
| EMembers (e : member_error) | EInfo (k : bytes) | EMissing
| EWouldNotDecode (e : member_error) | ENoRoundTrip.

(** ** The regular expressions *)

Definition fatUUIDRE (s : bytes) : bool :=
  match_classes (replicate 4 is_upper_hex ++ [is_byte x2d] ++ replicate 4 is_upper_hex) s.

Definition installIDRE (s : bytes) : bool :=
  match_classes (replicate 8 is_lower_hex ++ [is_byte x2d] ++ replicate 4 is_lower_hex ++ [is_byte x2d]
    ++ replicate 4 is_lower_hex ++ [is_byte x2d] ++ replicate 4 is_lower_hex ++ [is_byte x2d]
    ++ replicate 12 is_lower_hex) s.

Definition genRE (s : bytes) : bool :=
  (1 <=? len s) && (len s <=? 18) && forallb is_digit s.

Definition info_char (b : byte) : bool :=
  is_alpha b || is_digit b || bool_decide (b ∈ bs " ._:/@+,()-").

Definition infoRE (s : bytes) : bool := (len s <=? 128) && forallb info_char s.

(** ** UUIDs *)

(** [strings.ToUpper] is taken on ASCII letters: the letters outside ASCII it
also changes never give a string [fatUUIDRE] accepts. *)
Definition NormalizeFATUUID (s : bytes) : outcome member_error bytes :=
  let u := to_upper (trim_space s) in
  if negb (fatUUIDRE u) then Err (ENotUUID s) else Ok u.

Fixpoint parse_uuids (parts seen out : list bytes) : outcome member_error (list bytes) :=
  match parts with
  | [] => Ok out
  | part :: rest =>
      let! u := NormalizeFATUUID part in
      if bool_decide (u ∈ seen) then Err (EListedTwice u)
      else parse_uuids rest (u :: seen) (out ++ [u])
  end.

Definition ParseUUIDList (s : bytes) : outcome member_error (list bytes) :=
  if beq (trim_space s) [] then Ok [] else parse_uuids (split x2c s) [] [].

(** [rand.Read]: 16 random bytes or an error. *)
Definition NewInstallID (random : option bytes) : outcome member_error bytes :=
  match random with
  | None => Err ERand
  | Some b =>
      let! b6 := index b 6 in
      let! b8 := index b 8 in
      let b := <[6%nat := z2b (Z.lor (Z.land (b2z b6) 0x0f) 0x40)]> b in
      let b := <[8%nat := z2b (Z.lor (Z.land (b2z b8) 0x3f) 0x80)]> b in
      let! p0 := slice b 0 4 in
      let! p1 := slice b 4 6 in
      let! p2 := slice b 6 8 in
      let! p3 := slice b 8 10 in
      let! p4 := slice b 10 16 in
      Ok (hex_encode p0 ++ bs "-" ++ hex_encode p1 ++ bs "-" ++ hex_encode p2 ++ bs "-"
          ++ hex_encode p3 ++ bs "-" ++ hex_encode p4)
  end.

(** ** The file format *)

Definition member_lines (m : Member) : list bytes :=
  [Header; bs "INSTALL_ID=" ++ InstallID m; bs "GENERATION=" ++ itoa (Generation m);
   bs "ESP_UUID=" ++ ESPUUID m; bs "MEMBERS=" ++ join (bs ",") (Members m)]
  ++ (if negb (beq (Pool m) []) then [bs "POOL=" ++ Pool m] else [])
  ++ (if negb (beq (Disk m) []) then [bs "DISK=" ++ Disk m] else [])
  ++ (if negb (beq (Written m) []) then [bs "WRITTEN=" ++ Written m] else []).

Definition Encode (m : Member) : bytes := member_lines m ≫= fun l => l ++ [x0a].

(** The decoder's loop state: the marker so far and which keys were seen. *)
Record decoding := mkDecoding { d_m : Member; haveID : bool; haveGen : bool; haveUUID : bool }.

Definition decode_line (d : decoding) (line : bytes) : outcome member_error decoding :=
  if beq line [] then Ok d else
  match cut line x3d with
  | None => Err (ENotKeyValue line)
  | Some (k, v) =>
      let 'mkDecoding m hi hg hu := d in
      let 'mkMember id gen uuid mem pool disk written := m in
      if beq k (bs "INSTALL_ID") then
        check installIDRE v else EInstallID v in
        Ok (mkDecoding (mkMember v gen uuid mem pool disk written) true hg hu)
      else if beq k (bs "GENERATION") then
        check genRE v else EGeneration v in
        let g := match parse_dec v 64 with Some g => g | None => 0 end in
        Ok (mkDecoding (mkMember id g uuid mem pool disk written) hi true hu)
      else if beq k (bs "ESP_UUID") then
        match NormalizeFATUUID v with
        | Ok u => check beq u v else EESPUUID v in
            Ok (mkDecoding (mkMember id gen u mem pool disk written) hi hg true)
        | _ => Err (EESPUUID v)
        end
      else if beq k (bs "MEMBERS") then
        let! l := owrap EMembers (ParseUUIDList v) in
        Ok (mkDecoding (mkMember id gen uuid l pool disk written) hi hg hu)
      else if beq k (bs "POOL") || beq k (bs "DISK") || beq k (bs "WRITTEN") then
        check infoRE v else EInfo k in
        Ok (mkDecoding (mkMember id gen uuid mem
              (if beq k (bs "POOL") then v else pool)
              (if beq k (bs "DISK") then v else disk)
              (if beq k (bs "WRITTEN") then v else written)) hi hg hu)
      else Ok d
  end.

Fixpoint decode_lines (d : decoding) (lines : list bytes) : outcome member_error decoding :=
  match lines with
  | [] => Ok d
  | line :: rest => let! d' := decode_line d line in decode_lines d' rest
  end.

Definition Decode (raw : bytes) : outcome member_error Member :=
  match split x0a (replace_all raw [x0d; x0a] [x0a]) with
  | [] => Panic
  | first :: rest =>
      check has_prefix first headerPrefix else ENotMember first in
      let v := trim_prefix first headerPrefix in
      check beq v (itoa Format) else EFormat v in
      let! d := decode_lines (mkDecoding zero_Member false false false) rest in
      check haveID d && haveGen d && haveUUID d else EMissing in
      Ok (d_m d)
  end.

Definition SanitizeInfo (s : bytes) : bytes :=
  take 128 ((fun c => if infoRE [c] then c else x5f) <$> s).

Definition Validate (m : Member) : outcome member_error unit :=
  let! got := owrap EWouldNotDecode (Decode (Encode m)) in
  check beq (InstallID got) (InstallID m) && beq (ESPUUID got) (ESPUUID m)
        && (Generation got =? Generation m) else ENoRoundTrip in
  Ok tt.

(** ** The file *)

Section files.
Context {O : Oracle}.

Inductive member_file :=
| Absent
| Present (r : outcome member_error Member)
| Unreadable (e : ioerr).

Definition Read (mountpoint : bytes) : io member_file :=
  do r := attempt (readFile mountpoint MemberFile) in
  match r with
  | Ok raw => ret (Present (Decode raw))
  | Err ENotExist => ret Absent
  | Err e => ret (Unreadable (EIn MemberFile e))
  | Panic => lift Panic
  end.

Definition Write (mountpoint : bytes) (m : Member) : io unit :=
  match Validate m with
  | Ok _ => WriteFile mountpoint MemberFile (Encode m)
  | Err _ => throw (ERefused MemberFile)
  | Panic => lift Panic
  end.

Definition Remove (mountpoint : bytes) : io unit :=
  do r := attempt (removeFile mountpoint MemberFile) in
  match r with
  | Ok _ | Err ENotExist =>
      do o := attempt (plain_call OpOpenDir) in
      match o with
      | Ok _ => run attempt (plain_call OpSyncDir) then ret tt
      | _ => ret tt
      end
  | Err e => throw e
  | Panic => lift Panic
  end.

End files.

(** ** Well-formed markers *)

Definition wf_uuids (l : list bytes) : Prop := Forall (fun u => fatUUIDRE u = true) l /\ NoDup l.

Definition wf_Member (m : Member) : Prop :=
  installIDRE (InstallID m) = true /\ 0 <= Generation m < 10 ^ 18 /\
  fatUUIDRE (ESPUUID m) = true /\ wf_uuids (Members m) /\
  infoRE (Pool m) = true /\ infoRE (Disk m) = true /\ infoRE (Written m) = true.

(** ** Lemmas: UUIDs *)

Lemma upper_hex_plain b : is_upper_hex b = true -> plain_byte b = true /\ upper_byte b = b.
Proof. by destruct b. Qed.
Lemma dash_plain b : is_byte x2d b = true -> plain_byte b = true /\ upper_byte b = b.
Proof. by destruct b. Qed.
Lemma lower_hex_plain b : is_lower_hex b = true -> plain_byte b = true.
Proof. by destruct b. Qed.

Lemma fatUUIDRE_forallb (g : byte -> bool) u :
  (forall b, is_upper_hex b = true -> g b = true) -> g x2d = true ->
  fatUUIDRE u = true -> forallb g u = true.
Proof.
  intros Hg Hd. apply match_classes_forallb.
  assert (forall b, is_byte x2d b = true -> g b = true).
  { unfold is_byte. by intros b ->%bool_decide_eq_true. }
  cbn. repeat constructor; done.
Qed.

Lemma installIDRE_forallb (g : byte -> bool) u :
  (forall b, is_lower_hex b = true -> g b = true) -> g x2d = true ->
  installIDRE u = true -> forallb g u = true.
Proof.
  intros Hg Hd. apply match_classes_forallb.
  assert (forall b, is_byte x2d b = true -> g b = true).
  { unfold is_byte. by intros b ->%bool_decide_eq_true. }
  cbn. repeat constructor; done.
Qed.

Lemma uuid_no (x : byte) u :
  is_upper_hex x = false -> x <> x2d -> fatUUIDRE u = true -> x ∉ u.
Proof.
  intros Hx Hd Hu. apply (forallb_not_elem (fun b => negb (bool_decide (b = x)))).
  - revert Hu. apply fatUUIDRE_forallb.
    + intros b Hb. apply negb_true_iff, bool_decide_eq_false. intros ->. congruence.
    + apply negb_true_iff, bool_decide_eq_false. congruence.
  - apply negb_false_iff, bool_decide_eq_true. done.
Qed.

Lemma id_no (x : byte) u :
  is_lower_hex x = false -> x <> x2d -> installIDRE u = true -> x ∉ u.
Proof.
  intros Hx Hd Hu. apply (forallb_not_elem (fun b => negb (bool_decide (b = x)))).
  - revert Hu. apply installIDRE_forallb.
    + intros b Hb. apply negb_true_iff, bool_decide_eq_false. intros ->. congruence.
    + apply negb_true_iff, bool_decide_eq_false. congruence.
  - apply negb_false_iff, bool_decide_eq_true. done.
Qed.

Lemma Normalize_uuid u : fatUUIDRE u = true -> NormalizeFATUUID u = Ok u.
Proof.
  intros H. unfold NormalizeFATUUID. rewrite trim_space_plain.
  - assert (to_upper u = u) as ->; [|by rewrite H].
    assert (forallb (fun b => bool_decide (upper_byte b = b)) u = true) as Hu.
    { revert H. apply fatUUIDRE_forallb; [|done]. intros b Hb.
      by apply bool_decide_eq_true, upper_hex_plain. }
    unfold to_upper. induction u as [|b u IH]; [done|]. cbn in Hu.
    apply andb_true_iff in Hu as [Hb Hu]. apply bool_decide_eq_true in Hb. cbn. rewrite Hb.
    f_equal. clear H IH Hb. induction u as [|c u IH]; [done|]. cbn in *.
    apply andb_true_iff in Hu as [Hc Hu]. apply bool_decide_eq_true in Hc. by rewrite Hc, IH.
  - revert H. apply fatUUIDRE_forallb; [|done]. apply upper_hex_plain.
Qed.

Lemma Normalize_uuid_inv s u : NormalizeFATUUID s = Ok u -> fatUUIDRE u = true.
Proof.
  unfold NormalizeFATUUID. destruct (fatUUIDRE _) eqn:E; cbn; [|done]. by intros [= <-].
Qed.

Lemma parse_uuids_inv parts seen out l :
  parse_uuids parts seen out = Ok l ->
  Forall (fun u => fatUUIDRE u = true) out -> NoDup out -> (forall u, u ∈ seen <-> u ∈ out) ->
  wf_uuids l.
Proof.
  revert seen out. induction parts as [|p parts IH]; cbn; intros seen out H Hf Hnd Hs.
  - injection H as <-. done.
  - destruct (NormalizeFATUUID p) as [u| |] eqn:E; cbn in H; [|done..].
    destruct (bool_decide_reflect (u ∈ seen)) as [|Hn]; [done|].
    apply IH in H; [done|..].
    + apply Forall_app. split; [done|]. repeat constructor. by eapply Normalize_uuid_inv.
    + apply NoDup_app. split_and!; [done| |apply NoDup_singleton].
      intros x Hx ->%list_elem_of_singleton. by apply Hn, Hs.
    + intros x. rewrite elem_of_cons, elem_of_app, list_elem_of_singleton, Hs. tauto.
Qed.

Lemma ParseUUIDList_inv s l : ParseUUIDList s = Ok l -> wf_uuids l.
Proof.
  unfold ParseUUIDList. destruct (beq _ _).
  - intros [= <-]. split; constructor.
  - intros H. eapply parse_uuids_inv; [done|constructor|constructor|done].
Qed.

Lemma parse_uuids_ok parts seen out :
  Forall (fun u => fatUUIDRE u = true) parts -> NoDup parts -> (forall u, u ∈ seen -> u ∉ parts) ->
  parse_uuids parts seen out = Ok (out ++ parts).
Proof.
  intros Hf. revert seen out. induction Hf as [|u parts Hu Hf IH]; cbn; intros seen out Hnd Hs.
  - by rewrite app_nil_r.
  - apply NoDup_cons in Hnd as [Hn Hnd]. rewrite Normalize_uuid by done. cbn.
    rewrite bool_decide_eq_false_2 by (intros Hin; apply (Hs _ Hin); by left).
    rewrite IH; [by rewrite <-app_assoc|done|]. intros x [->|Hx]%elem_of_cons; [done|].
    intros Hp. apply (Hs _ Hx). by right.
Qed.

Lemma fatUUIDRE_length u : fatUUIDRE u = true -> length u = 9%nat.
Proof. intros H. by apply match_classes_length in H. Qed.

(** A well-formed list survives the comma-separated form. *)
Lemma ParseUUIDList_join l : wf_uuids l -> ParseUUIDList (join (bs ",") l) = Ok l.
Proof.
  intros [Hf Hnd]. destruct l as [|u l]; [done|]. unfold ParseUUIDList.
  assert (forallb plain_byte (join (bs ",") (u :: l)) = true) as Hp.
  { clear Hnd. induction Hf as [|x l' Hx Hf IH]; [done|].
    assert (forallb plain_byte x = true) as Hpx.
    { revert Hx. apply fatUUIDRE_forallb; [|done]. apply upper_hex_plain. }
    destruct l' as [|y l']; [done|]. rewrite join_cons by done. by rewrite !forallb_app, Hpx, IH. }
  rewrite trim_space_plain by done. destruct (beq _ _) eqn:E.
  - zb. apply Forall_cons in Hf as [Hu _]. apply fatUUIDRE_length in Hu.
    destruct u; [done|]. by destruct l.
  - change (bs ",") with [x2c]. rewrite split_join; [|done|].
    + rewrite parse_uuids_ok; [done..|]. intros x Hx. by apply not_elem_of_nil in Hx.
    + eapply Forall_impl; [exact Hf|]. intros x Hx. by apply uuid_no.
Qed.

(** ** Lemmas: decoding *)

Definition wf_decoding (d : decoding) : Prop :=
  (haveID d = true -> installIDRE (InstallID (d_m d)) = true) /\
  0 <= Generation (d_m d) < 10 ^ 18 /\
  (haveUUID d = true -> fatUUIDRE (ESPUUID (d_m d)) = true) /\ wf_uuids (Members (d_m d)) /\
  infoRE (Pool (d_m d)) = true /\ infoRE (Disk (d_m d)) = true /\ infoRE (Written (d_m d)) = true.

Lemma genRE_value v : genRE v = true ->
  exists g, parse_dec v 64 = Some g /\ 0 <= g < 10 ^ 18.
Proof.
  unfold genRE. intros H. zb. pose proof (dec_val_bound v H0) as Hb.
  assert (10 ^ len v <= 10 ^ 18) by (apply Z.pow_le_mono_r; lia).
  exists (dec_val v). split; [|lia]. unfold parse_dec. destruct v as [|b v]; [done|].
  rewrite H0. by rewrite (proj2 (Z.ltb_lt _ _)) by lia.
Qed.

Lemma decode_line_wf d line d' : decode_line d line = Ok d' -> wf_decoding d -> wf_decoding d'.
Proof.
  destruct d as [[id gen uuid mem pool disk written] hi hg hu].
  unfold decode_line, wf_decoding. intros H (H1 & H2 & H3 & H4 & H5 & H6 & H7).
  destruct (beq line []); [by injection H as <-|].
  destruct (cut line x3d) as [[k v]|]; [|done].
  destruct (beq k (bs "INSTALL_ID")).
  { destruct (installIDRE v) eqn:E; [|done]. by injection H as <-. }
  destruct (beq k (bs "GENERATION")).
  { destruct (genRE v) eqn:E; [|done]. destruct (genRE_value v E) as (g & Hg & ?).
    rewrite Hg in H. by injection H as <-. }
  destruct (beq k (bs "ESP_UUID")).
  { destruct (NormalizeFATUUID v) as [u| |] eqn:E; [|done..]. destruct (beq u v); [|done].
    injection H as <-. apply Normalize_uuid_inv in E. done. }
  destruct (beq k (bs "MEMBERS")).
  { destruct (ParseUUIDList v) as [l| |] eqn:E; cbn [owrap obind] in H; [|done..].
    injection H as <-. apply ParseUUIDList_inv in E. done. }
  destruct (_ || _); [|by injection H as <-].
  destruct (infoRE v) eqn:E; [|done]. injection H as <-. cbn [d_m haveID haveUUID InstallID Generation ESPUUID Members Pool Disk Written] in *.
  destruct H4. split_and!; try (done || lia); by destruct (beq _ _).
Qed.

Lemma decode_lines_wf lines d d' : decode_lines d lines = Ok d' -> wf_decoding d -> wf_decoding d'.
Proof.
  revert d. induction lines as [|l lines IH]; cbn; intros d H Hd; [by injection H as <-|].
  destruct (decode_line d l) as [x| |] eqn:E; cbn in H; [|done..].
  eapply IH; [done|]. by eapply decode_line_wf.
Qed.

Lemma Decode_inv raw m : Decode raw = Ok m -> wf_Member m.
Proof.
  unfold Decode. intros H. destruct (split _ _) as [|first rest]; [done|].
  destruct (has_prefix _ _); [|done]. destruct (beq _ _); [|done].
  destruct (decode_lines _ rest) as [d| |] eqn:E; cbn [obind] in H; [|done..].
  destruct (_ && _) eqn:Eh; [|done]. injection H as <-. zb.
  apply decode_lines_wf in E as (? & ? & ? & ? & ? & ? & ?); [unfold wf_Member; auto 10|].
  unfold wf_decoding, wf_uuids. cbn [d_m haveID haveUUID zero_Member InstallID Generation ESPUUID Members Pool Disk Written].
  split_and!; try (done || lia); constructor.
Qed.

(** ** Lemmas: encoding *)

Lemma info_no x v : info_char x = false -> infoRE v = true -> x ∉ v.
Proof. unfold infoRE. intros Hx H. zb. by eapply forallb_not_elem. Qed.

Lemma itoa_gen g : 0 <= g < 10 ^ 18 ->
  genRE (itoa g) = true /\ parse_dec (itoa g) 64 = Some g /\ forallb is_digit (itoa g) = true.
Proof.
  intros Hg. unfold itoa. rewrite (proj2 (Z.ltb_ge _ _)) by lia.
  destruct (dec_spec g) as (H1 & H2 & H3); [lia|].
  split_and!; [|apply parse_dec_dec; lia|done]. unfold genRE. rewrite H1.
  assert (length (dec g) <= 18)%nat by (apply dec_from_length; [exact Hg|lia]).
  assert (length (dec g) <> 0%nat) by (by destruct (dec g)).
  unfold len. rewrite !(proj2 (Z.leb_le _ _)) by lia. done.
Qed.

Lemma cut_key k v line : x3d ∉ k -> line = k ++ x3d :: v -> cut line x3d = Some (k, v).
Proof. intros Hk ->. by apply cut_app. Qed.

(** One decoding step per written line: evaluate the key comparisons. *)
Ltac decode_key k v :=
  unfold decode_line; rewrite (proj2 (beq_false _ _)) by done;
  rewrite (cut_key k v) by (reflexivity || (apply (bool_decide_unpack _); vm_compute; exact I));
  repeat match goal with
  | |- context [beq (bs ?a) (bs ?b)] =>
      let r := eval vm_compute in (beq (bs a) (bs b)) in change (beq (bs a) (bs b)) with r
  end; cbn [orb]; cbv iota.

Section steps.
Context (id : bytes) (gen : Z) (uuid : bytes) (mem : list bytes) (pool disk written : bytes) (hi hg hu : bool).
Local Abbreviation d0 := (mkDecoding (mkMember id gen uuid mem pool disk written) hi hg hu).

Lemma step_id v : installIDRE v = true ->
  decode_line d0 (bs "INSTALL_ID=" ++ v) = Ok (mkDecoding (mkMember v gen uuid mem pool disk written) true hg hu).
Proof. intros H. decode_key (bs "INSTALL_ID") v. by rewrite H. Qed.

Lemma step_gen g : 0 <= g < 10 ^ 18 ->
  decode_line d0 (bs "GENERATION=" ++ itoa g) = Ok (mkDecoding (mkMember id g uuid mem pool disk written) hi true hu).
Proof.
  intros H. destruct (itoa_gen g H) as (H1 & H2 & _).
  decode_key (bs "GENERATION") (itoa g). by rewrite H1, H2.
Qed.

Lemma step_uuid v : fatUUIDRE v = true ->
  decode_line d0 (bs "ESP_UUID=" ++ v) = Ok (mkDecoding (mkMember id gen v mem pool disk written) hi hg true).
Proof. intros H. decode_key (bs "ESP_UUID") v. by rewrite Normalize_uuid, beq_refl. Qed.

Lemma step_members l : wf_uuids l ->
  decode_line d0 (bs "MEMBERS=" ++ join (bs ",") l) = Ok (mkDecoding (mkMember id gen uuid l pool disk written) hi hg hu).
Proof. intros H. decode_key (bs "MEMBERS") (join (bs ",") l). by rewrite ParseUUIDList_join. Qed.

Lemma step_pool v : infoRE v = true ->
  decode_line d0 (bs "POOL=" ++ v) = Ok (mkDecoding (mkMember id gen uuid mem v disk written) hi hg hu).
Proof. intros H. decode_key (bs "POOL") v. by rewrite H. Qed.

Lemma step_disk v : infoRE v = true ->
  decode_line d0 (bs "DISK=" ++ v) = Ok (mkDecoding (mkMember id gen uuid mem pool v written) hi hg hu).
Proof. intros H. decode_key (bs "DISK") v. by rewrite H. Qed.

Lemma step_written v : infoRE v = true ->
  decode_line d0 (bs "WRITTEN=" ++ v) = Ok (mkDecoding (mkMember id gen uuid mem pool disk v) hi hg hu).
Proof. intros H. decode_key (bs "WRITTEN") v. by rewrite H. Qed.

End steps.

Lemma decode_lines_app a b d :
  decode_lines d (a ++ b) = let! d' := decode_lines d a in decode_lines d' b.
Proof. revert d. induction a as [|x a IH]; intros d; cbn; [done|]. destruct (decode_line d x); cbn; auto. Qed.

Lemma opt_pool id gen uuid mem disk written hi hg hu v rest : infoRE v = true ->
  decode_lines (mkDecoding (mkMember id gen uuid mem [] disk written) hi hg hu)
    ((if negb (beq v []) then [bs "POOL=" ++ v] else []) ++ rest)
  = decode_lines (mkDecoding (mkMember id gen uuid mem v disk written) hi hg hu) rest.
Proof.
  intros H. destruct (beq v []) eqn:E; cbn [negb app decode_lines]; [by zb; subst|].
  by rewrite step_pool.
Qed.

Lemma opt_disk id gen uuid mem pool written hi hg hu v rest : infoRE v = true ->
  decode_lines (mkDecoding (mkMember id gen uuid mem pool [] written) hi hg hu)
    ((if negb (beq v []) then [bs "DISK=" ++ v] else []) ++ rest)
  = decode_lines (mkDecoding (mkMember id gen uuid mem pool v written) hi hg hu) rest.
Proof.
  intros H. destruct (beq v []) eqn:E; cbn [negb app decode_lines]; [by zb; subst|].
  by rewrite step_disk.
Qed.

Lemma opt_written id gen uuid mem pool disk hi hg hu v rest : infoRE v = true ->
  decode_lines (mkDecoding (mkMember id gen uuid mem pool disk []) hi hg hu)
    ((if negb (beq v []) then [bs "WRITTEN=" ++ v] else []) ++ rest)
  = decode_lines (mkDecoding (mkMember id gen uuid mem pool disk v) hi hg hu) rest.
Proof.
  intros H. destruct (beq v []) eqn:E; cbn [negb app decode_lines]; [by zb; subst|].
  by rewrite step_written.
Qed.

Lemma decode_member_lines m : wf_Member m ->
  decode_lines (mkDecoding zero_Member false false false) (tl (member_lines m) ++ [[]])
  = Ok (mkDecoding m true true true).
Proof.
  intros (H1 & H2 & H3 & H4 & H5 & H6 & H7). unfold member_lines, zero_Member. cbn [app tl].
  destruct m as [id gen uuid mem pool disk written].
  cbn [InstallID Generation ESPUUID Members Pool Disk Written] in *.
  cbn [decode_lines]. rewrite step_id by done. cbn [obind decode_lines].
  rewrite step_gen by done. cbn [obind decode_lines].
  rewrite step_uuid by done. cbn [obind decode_lines].
  rewrite step_members by done. cbn [obind]. rewrite <-!app_assoc.
  rewrite opt_pool, opt_disk, opt_written by done. cbn [decode_lines].
  unfold decode_line. by rewrite beq_refl.
Qed.

Lemma member_lines_no x m :
  wf_Member m -> is_upper_hex x = false -> is_lower_hex x = false -> x <> x2d -> x <> x2c ->
  info_char x = false -> x ∉ Header -> x ∉ bs "INSTALL_ID=GENERATION=ESP_UUID=MEMBERS=POOL=DISK=WRITTEN=" ->
  Forall (fun l => x ∉ l) (member_lines m).
Proof.
  intros (H1 & H2 & H3 & H4 & H5 & H6 & H7) Hu Hl Hd Hc Hi Hh Hk.
  destruct (itoa_gen _ H2) as (_ & _ & Hg).
  assert (x ∉ itoa (Generation m)) as Hgen.
  { apply (forallb_not_elem _ _ _ Hg). unfold is_upper_hex in Hu. by apply orb_false_iff in Hu as [? _]. }
  assert (x ∉ join (bs ",") (Members m)) as Hm.
  { destruct H4 as [Hf _]. induction Hf as [|u l Hx Hf IH]; [apply not_elem_of_nil|].
    pose proof (uuid_no x u Hu Hd Hx). destruct l; [done|].
    rewrite join_cons by done. rewrite !not_elem_of_app. split_and!; [done| |done].
    intros Hin%list_elem_of_singleton. by subst. }
  change (bs "INSTALL_ID=GENERATION=ESP_UUID=MEMBERS=POOL=DISK=WRITTEN=") with
    (bs "INSTALL_ID=" ++ bs "GENERATION=" ++ bs "ESP_UUID=" ++ bs "MEMBERS=" ++ bs "POOL=" ++ bs "DISK=" ++ bs "WRITTEN=") in Hk.
  rewrite !not_elem_of_app in Hk. destruct Hk as (? & ? & ? & ? & ? & ? & ?).
  pose proof (id_no x _ Hl Hd H1). pose proof (uuid_no x _ Hu Hd H3).
  pose proof (info_no x _ Hi H5). pose proof (info_no x _ Hi H6). pose proof (info_no x _ Hi H7).
  unfold member_lines. rewrite !Forall_app, !Forall_cons.
  split_and!; try constructor; try done; try (by apply not_elem_of_app);
    destruct (negb _); repeat constructor; by apply not_elem_of_app.
Qed.

Lemma Decode_lines m text :
  wf_Member m -> replace_all text [x0d; x0a] [x0a] = Encode m -> Decode text = Ok m.
Proof.
  intros Hm Ht. unfold Decode. rewrite Ht. unfold Encode.
  rewrite split_lines by (apply member_lines_no; (done || apply (bool_decide_unpack _); vm_compute; exact I)).
  assert (member_lines m = Header :: tl (member_lines m)) as Hml by done.
  rewrite Hml at 1. cbn [app].
  change (has_prefix Header headerPrefix) with true.
  change (beq (trim_prefix Header headerPrefix) (itoa Format)) with true. cbv iota.
  rewrite decode_member_lines by done. done.
Qed.

Lemma Encode_no_cr m : wf_Member m -> Forall (fun l => x0d ∉ l) (member_lines m).
Proof.
  intros Hm. apply member_lines_no; (done || apply (bool_decide_unpack _); vm_compute; exact I).
Qed.

Lemma Decode_of_Encode m : wf_Member m -> Decode (Encode m) = Ok m.
Proof.
  intros Hm. apply Decode_lines; [done|]. apply replace_all_absent. unfold Encode.
  pose proof (Encode_no_cr m Hm) as H. induction H as [|l ls Hl H IH]; [apply not_elem_of_nil|].
  cbn [mbind list_bind]. rewrite !not_elem_of_app. split_and!; [done| |done].
  intros Hx%list_elem_of_singleton. discriminate Hx.
Qed.

(** ** Properties *)

(** C35 - MEMBER round trip: a well-formed marker reads back as it was written,
with LF or with CRLF line ends, and passes [Validate]. *)
Theorem Decode_Encode (m : Member) (Hm : wf_Member m) :
  Decode (Encode m) = Ok m /\
  Decode (member_lines m ≫= fun l => l ++ [x0d; x0a]) = Ok m /\
  Validate m = Ok tt.
Proof.
  split_and!.
  - by apply Decode_of_Encode.
  - apply Decode_lines; [done|]. by apply replace_crlf, Encode_no_cr.
  - unfold Validate. rewrite Decode_of_Encode by done. cbn [owrap obind].
    by rewrite !beq_refl, Z.eqb_refl.
Qed.

Definition sample_member : Member :=
  mkMember (bs "0123abcd-1111-4222-8333-0123456789ab") 42 (bs "12AB-34CD")
    [bs "12AB-34CD"; bs "FFFF-0000"] (bs "rpool") (bs "/dev/sda") (bs "2024-01-01T00:00:00Z").

Lemma sample_member_wf : wf_Member sample_member.
Proof.
  unfold wf_Member, wf_uuids. split_and!; try (vm_compute; (reflexivity || discriminate)).
  - repeat constructor.
  - apply (bool_decide_unpack _). vm_compute. exact I.
Qed.

Lemma Decode_Encode_witness : Decode (Encode sample_member) = Ok sample_member.
Proof. apply (Decode_Encode sample_member sample_member_wf). Defined.

(** MEMBER decoding is sound: whatever bytes the file holds, a marker that
decodes has an install id, a generation below 10^18 (so the 64-bit parse never
fails), an upper-case FAT UUID, a members list of distinct UUIDs and printable
informational fields, and is the marker its own canonical text encodes. *)
Theorem Decode_wf (raw : bytes) (m : Member) (H : Decode raw = Ok m) :
  wf_Member m /\ Decode (Encode m) = Ok m.
Proof. apply Decode_inv in H. split; [done|]. by apply Decode_of_Encode. Qed.

Definition sample_text : bytes :=
  bs "alpine-zfsboot esp-member 1" ++ [x0d; x0a] ++ bs "GENERATION=007" ++ [x0a; x0a]
  ++ bs "X=y" ++ [x0a] ++ bs "INSTALL_ID=0123abcd-1111-4222-8333-0123456789ab" ++ [x0d; x0a]
  ++ bs "MEMBERS= 12ab-34cd,FFFF-0000" ++ [x0a] ++ bs "ESP_UUID=12AB-34CD".

Definition sample_decoded : Member :=
  mkMember (bs "0123abcd-1111-4222-8333-0123456789ab") 7 (bs "12AB-34CD")
    [bs "12AB-34CD"; bs "FFFF-0000"] [] [] [].

Lemma Decode_wf_witness : Decode sample_text = Ok sample_decoded /\ wf_Member sample_decoded.
Proof.
  assert (Decode sample_text = Ok sample_decoded) as H by (vm_compute; reflexivity).
  split; [exact H|]. apply (Decode_wf sample_text sample_decoded H).
Defined.

(** UUID lists: the result of [ParseUUIDList] is a list of distinct,
normalised FAT UUIDs, and joining it with commas parses to itself. *)
Theorem ParseUUIDList_normal (s : bytes) (l : list bytes) (H : ParseUUIDList s = Ok l) :
  wf_uuids l /\ ParseUUIDList (join (bs ",") l) = Ok l.
Proof. apply ParseUUIDList_inv in H. split; [done|]. by apply ParseUUIDList_join. Qed.

Lemma ParseUUIDList_normal_witness :
  ParseUUIDList (bs "12ab-34cd, FFFF-0000 ") = Ok [bs "12AB-34CD"; bs "FFFF-0000"] /\
  wf_uuids [bs "12AB-34CD"; bs "FFFF-0000"].
Proof.
  assert (ParseUUIDList (bs "12ab-34cd, FFFF-0000 ") = Ok [bs "12AB-34CD"; bs "FFFF-0000"]) as H
    by (vm_compute; reflexivity).
  split; [exact H|]. apply (ParseUUIDList_normal _ _ H).
Defined.

Lemma info_char_one c : infoRE [c] = info_char c.
Proof. unfold infoRE. cbn [forallb]. by rewrite andb_true_r. Qed.

(** Informational fields: [SanitizeInfo] turns any bytes into a value the
decoder accepts, and leaves an acceptable value alone. *)
Theorem SanitizeInfo_accepted (s : bytes) :
  infoRE (SanitizeInfo s) = true /\ (infoRE s = true -> SanitizeInfo s = s).
Proof.
  unfold SanitizeInfo. split.
  - set (g := fun c => _). unfold infoRE. apply andb_true_iff. split.
    + apply Z.leb_le. unfold len. rewrite length_take. lia.
    + apply forallb_forall. intros x Hx. apply list_elem_of_In in Hx.
      apply (subseteq_take 128) in Hx. apply list_elem_of_fmap in Hx as (c & -> & _).
      unfold g. rewrite info_char_one. by destruct (info_char c) eqn:E.
  - intros H. unfold infoRE in H. zb. unfold len in H.
    assert ((fun c => if infoRE [c] then c else x5f) <$> s = s) as ->; [|apply take_ge; lia].
    clear H. induction s as [|c s IH]; [done|]. cbn [forallb] in H0.
    apply andb_true_iff in H0 as [Hc Hs]. cbn [fmap list_fmap]. rewrite info_char_one, Hc.
    f_equal. by apply IH.
Qed.

(** The version 4 shape of an install id: lower-case hex groups 8-4-4-4-12 with
'4' leading the third group and the variant bits 10 in the fourth. *)
Definition v4_shape (id : bytes) : Prop :=
  installIDRE id = true /\ id !! 14%nat = Some x34 /\
  exists v, id !! 19%nat = Some v /\ v ∈ bs "89ab".

Lemma hex_group bytes_ n : length bytes_ = n -> match_classes (replicate (2 * n) is_lower_hex) (hex_encode bytes_) = true.
Proof.
  intros Hn. apply match_classes_replicate. split; [by rewrite length_hex_encode, Hn|].
  apply hex_encode_digits.
Qed.

Lemma version_nibble b : hex_byte (z2b (Z.lor (Z.land (b2z b) 0x0f) 0x40)) !! 0%nat = Some x34.
Proof. by destruct b. Qed.

Lemma variant_nibble b :
  exists v, hex_byte (z2b (Z.lor (Z.land (b2z b) 0x3f) 0x80)) !! 0%nat = Some v /\ v ∈ bs "89ab".
Proof.
  destruct b; (eexists; split; [vm_compute; reflexivity|]);
    apply (bool_decide_unpack _); vm_compute; exact I.
Qed.

(** Install ids: from any 16 random bytes [NewInstallID] makes a lower-case
version 4 UUID, which is an id the decoder accepts; it never panics. *)
Theorem NewInstallID_v4 (b : bytes) (Hb : length b = 16%nat) :
  exists id, NewInstallID (Some b) = Ok id /\ v4_shape id.
Proof.
  do 16 (destruct b as [|? b]; [done|]). destruct b; [|done]. clear Hb.
  eexists. split; [reflexivity|].
  set (c6 := z2b (Z.lor (Z.land (b2z b6) 0x0f) 0x40)). set (c8 := z2b (Z.lor (Z.land (b2z b8) 0x3f) 0x80)).
  split_and!.
  - unfold installIDRE. change (bs "-") with [x2d].
    apply match_classes_app; [by apply (hex_group _ 4)|].
    do 3 (apply match_classes_app; [done|]; apply match_classes_app; [by apply (hex_group _ 2)|]).
    apply match_classes_app; [done|by apply (hex_group _ 6)].
  - exact (version_nibble b6).
  - exact (variant_nibble b8).
Qed.

Lemma NewInstallID_v4_witness :
  exists id, NewInstallID (Some (bs "0123456789abcdef")) = Ok id /\ v4_shape id.
Proof. apply (NewInstallID_v4 (bs "0123456789abcdef")). reflexivity. Defined.

Lemma Validate_inv m : Validate m = Ok tt ->
  exists got, Decode (Encode m) = Ok got /\ InstallID got = InstallID m /\
    ESPUUID got = ESPUUID m /\ Generation got = Generation m.
Proof.
  unfold Validate. intros H. destruct (Decode (Encode m)) as [got| |]; cbn [owrap obind] in H; [|done..].
  destruct (_ && _) eqn:E; [|done]. zb. eauto 10.
Qed.

(** Writing the marker: a successful [Write], for any marker handed to it,
leaves a MEMBER file that [Read] then decodes, with the same install id, ESP
UUID and generation; an invalid marker is refused with nothing written. *)
Theorem Write_Read {O : Oracle} (mp : bytes) (m : Member) (w w' : world) (r : outcome ioerr unit)
  (H : Write mp m w = (r, w')) :
  match r with
  | Ok _ => fault (clock w') = None ->
      exists got w'', Read mp w' = (Ok (Present (Ok got)), w'') /\ InstallID got = InstallID m /\
        ESPUUID got = ESPUUID m /\ Generation got = Generation m
  | Err _ => (is_ok (Validate m) = false /\ w' = w) \/
      files w' = files w \/ files w' = <[(mp, MemberFile) := Encode m]> (files w)
  | Panic => Validate m = Panic
  end.
Proof.
  unfold Write in H. destruct (Validate m) as [[]|e|] eqn:Hv.
  - apply WriteFile_spec in H as [[-> (_ & Hf & _)]|(Hr & Hp & _ & H)].
    + intros Hcalm. destruct (Validate_inv m Hv) as (got & Hd & Heq).
      exists got, (tick w'). split; [|done].
      unfold Read, bind, attempt.
      rewrite (readFile_ok _ _ (Encode m)) by (done || by rewrite Hf, lookup_insert_eq).
      unfold ret. by rewrite Hd.
    + destruct r as [[]|e|]; [done| |done].
      destruct H as [(? & _)|(_ & ? & _)]; auto.
  - injection H as <- <-. by left.
  - injection H as <- <-. done.
Qed.

Lemma Write_Read_witness :
  exists got w'', @Read no_faults (bs "/mnt") (snd (@Write no_faults (bs "/mnt") sample_member (fresh_world ∅ ∅)))
    = (Ok (Present (Ok got)), w'') /\ Generation got = 42.
Proof.
  destruct (@Write_Read no_faults (bs "/mnt") sample_member (fresh_world ∅ ∅)
    (snd (@Write no_faults (bs "/mnt") sample_member (fresh_world ∅ ∅))) (Ok tt))
    as (got & w'' & H & _ & _ & Hg).
  - vm_compute. reflexivity.
  - reflexivity.
  - exists got, w''. split; [exact H|]. exact Hg.
Defined.
