(* ===== verification/BootEnv.v ===== *)
(** * internal/bootenv: finding and mounting the ESP

The boot-sector and /proc parsers, the selection rule of [FindESP], [MountESP]
with its mount and unmount calls as events, the preflight of the target
mountpoint, and [DevicePartitionBase]. *)

From Stdlib Require Import ZArith Lia Strings.Byte.
From stdpp Require Import base list.
From S2P Require Import Prelude GoStrings Layout Device.
Local Open Scope Z_scope.

Inductive bootenv_error :=
| ENoESP (checked : Z) | EManyESPs (devs : list bytes) | ENoLabelDevice | EProcPartitions
| ENotMounted | EWrongFS (fstype : bytes) | EWrongDisk (got want : bytes)
| EReadOnlyMount (dev mp : bytes) | EMkdirTemp | EMount (dev : bytes).

(** [os.Stat(root/sys/firmware/efi)] succeeded. *)
Definition IsUEFI (stat_ok : bool) : bool := stat_ok.

(** ** Candidates *)

Record espCandidate := mkCandidate {
  c_dev : bytes;
  c_uuid : bytes;
  hasConfigMarker : bool;
  hasPayloadMarker : bool
}.

Definition qualifies (c : espCandidate) : bool := hasConfigMarker c && hasPayloadMarker c.

Definition selectESP (candidates : list espCandidate) : outcome bootenv_error bytes :=
  match List.filter qualifies candidates with
  | [] => Err (ENoESP (len candidates))
  | [c] => Ok (c_dev c)
  | qualifying =>
      Err (EManyESPs ((fun c => if beq (c_uuid c) [] then c_dev c
                                else c_dev c ++ bs " (UUID " ++ c_uuid c ++ bs ")") <$> qualifying))
  end.

(** ** FAT32 boot sectors *)

Definition fatBPBMinSize : Z := 90.
Definition fatFSTypeOff : Z := 82.
Definition fatFSTypeLen : Z := 8.
Definition fatVolumeLabelOff : Z := 71.
Definition fatVolumeLabelLen : Z := 11.

Definition fat32VolumeLabel (sector : bytes) : outcome bootenv_error (option bytes) :=
  if len sector <? fatBPBMinSize then Ok None else
  let! ty := slice sector fatFSTypeOff (fatFSTypeOff + fatFSTypeLen) in
  if negb (beq ty (bs "FAT32   ")) then Ok None else
  let! l := slice sector fatVolumeLabelOff (fatVolumeLabelOff + fatVolumeLabelLen) in
  Ok (Some (trim_right l (bs " "))).

(** ** /proc/partitions *)

Fixpoint proc_rows (i : nat) (lines : list bytes) : list bytes :=
  match lines with
  | [] => []
  | line :: rest =>
      (if (i =? 0)%nat || beq (trim_space line) [] then [] else
       match fields line with
       | [_; _; _; name] => [bs "/dev/" ++ name]
       | _ => []
       end) ++ proc_rows (S i) rest
  end.

Definition parseProcPartitions (content : bytes) : list bytes := proc_rows 0 (split x0a content).

(** [os.ReadFile("/proc/partitions")] *)
Definition enumerateBlockDevices (proc : option bytes) : outcome bootenv_error (list bytes) :=
  match proc with
  | None => Err EProcPartitions
  | Some data => Ok (parseProcPartitions data)
  end.

(** The machine as the scans see it: /proc/partitions and the devices. *)
Definition findFATLabelDevices (proc : option bytes) (open : bytes -> option device) (label : bytes)
  : outcome bootenv_error (list bytes) :=
  let! devs := enumerateBlockDevices proc in
  let matching dev :=
    match open dev with
    | None => false
    | Some f =>
        match read_at f 0 fatBPBMinSize with
        | None => false
        | Some sector =>
            match fat32VolumeLabel sector with Ok (Some l) => beq l label | _ => false end
        end
    end in
  Ok (List.filter matching devs).

(** ** /proc/self/mounts *)

Definition mountFieldEscapes : list (bytes * bytes) :=
  [(bs "\040", [x20]); (bs "\011", [x09]); (bs "\012", [x0a]); (bs "\134", [x5c])].

Definition unescapeMountField (s : bytes) : bytes :=
  fold_left (fun s e => replace_all s (fst e) (snd e)) mountFieldEscapes s.

(** The first line whose device is [dev], literally or through symlinks. *)
Definition mount_line_matches (resolveSymlink : bytes -> option bytes) (dev mdev : bytes) : bool :=
  beq mdev dev ||
  match resolveSymlink dev, resolveSymlink mdev with
  | Some devReal, Some mdevReal => beq mdevReal devReal
  | _, _ => false
  end.

Fixpoint existing_mount (resolveSymlink : bytes -> option bytes) (dev : bytes) (lines : list bytes)
  : option (bytes * bool) :=
  match lines with
  | [] => None
  | line :: rest =>
      match fields line with
      | f0 :: f1 :: f2 :: f3 :: _ =>
          if mount_line_matches resolveSymlink dev (unescapeMountField f0)
          then Some (unescapeMountField f1, beq (default [] (head (split x2c f3))) (bs "rw"))
          else existing_mount resolveSymlink dev rest
      | _ => existing_mount resolveSymlink dev rest
      end
  end.

Definition parseExistingMount (mountsContent dev : bytes) (resolveSymlink : bytes -> option bytes)
  : option (bytes * bool) :=
  existing_mount resolveSymlink dev (split x0a mountsContent).

Definition findExistingMount (mounts : option bytes) (resolveSymlink : bytes -> option bytes) (dev : bytes)
  : option (bytes * bool) :=
  match mounts with
  | None => None
  | Some data => parseExistingMount data dev resolveSymlink
  end.

(** The last line with this mountpoint wins. *)
Fixpoint mount_at (mountpoint : bytes) (lines : list bytes) (acc : option (bytes * bytes))
  : option (bytes * bytes) :=
  match lines with
  | [] => acc
  | line :: rest =>
      match fields line with
      | f0 :: f1 :: f2 :: _ :: _ =>
          mount_at mountpoint rest
            (if beq (unescapeMountField f1) mountpoint then Some (unescapeMountField f0, f2) else acc)
      | _ => mount_at mountpoint rest acc
      end
  end.

Definition parseMountAtPath (mountsContent mountpoint : bytes) : option (bytes * bytes) :=
  mount_at mountpoint (split x0a mountsContent) None.

Definition FindMountAtPath (mounts : option bytes) (mountpoint : bytes) : option (bytes * bytes) :=
  match mounts with None => None | Some data => parseMountAtPath data mountpoint end.

(** ** Whole disks and partitions *)

(** The longest run of digits at the end: what is before it, and the run. *)
Definition split_digits (s : bytes) : bytes * bytes :=
  let n := length (trim_left (rev s) digits) in (take n s, drop n s).

(** [^(.*\d)p(\d+)$] *)
Definition partitionSuffixP (s : bytes) : option bytes :=
  let (pre, num) := split_digits s in
  match rev pre with
  | p :: d :: r =>
      if negb (beq num []) && is_byte x70 p && is_digit d && bool_decide (x0a ∉ r)
      then Some (rev (d :: r)) else None
  | _ => None
  end.

(** [^(.*[a-zA-Z])(\d+)$] *)
Definition partitionSuffixPlain (s : bytes) : option bytes :=
  let (pre, num) := split_digits s in
  match rev pre with
  | a :: r =>
      if negb (beq num []) && is_alpha a && bool_decide (x0a ∉ r) then Some pre else None
  | [] => None
  end.

Definition some_digits (s : bytes) : bool := negb (beq s []) && forallb is_digit s.

(** [nvme\d+n\d+], matched against a whole string. *)
Definition nvme_name (s : bytes) : bool :=
  match cut_prefix s (bs "nvme") with
  | Some r =>
      match cut r x6e with
      | Some (a, b) => some_digits a && some_digits b
      | None => false
      end
  | None => false
  end.

Definition prefixed_number (p s : bytes) : bool :=
  match cut_prefix s p with Some r => some_digits r | None => false end.

(** [(nvme\d+n\d+|mmcblk\d+|loop\d+|nbd\d+|md\d+)$]: some suffix matches. *)
Definition whole_disk_name (s : bytes) : bool :=
  nvme_name s || prefixed_number (bs "mmcblk") s || prefixed_number (bs "loop") s
  || prefixed_number (bs "nbd") s || prefixed_number (bs "md") s.

Fixpoint pSuffixWholeDisk (s : bytes) : bool :=
  whole_disk_name s || match s with [] => false | _ :: t => pSuffixWholeDisk t end.

Definition DevicePartitionBase (part : bytes) : bytes :=
  match partitionSuffixP part with
  | Some m => m
  | None =>
      if pSuffixWholeDisk part then part
      else match partitionSuffixPlain part with
           | Some m => m
           | None => part
           end
  end.

(** ** The preflight of the target mountpoint *)

Definition resolveSymlinkOrSelf (eval : bytes -> option bytes) (p : bytes) : bytes :=
  match eval p with Some real => real | None => p end.

(** [abs]: [filepath.Abs]; [eval]: [filepath.EvalSymlinks]. *)
Definition canonicalizeMountpoint (abs eval : bytes -> option bytes) (mountpoint : bytes) : bytes :=
  let canonical := match abs mountpoint with Some a => a | None => mountpoint end in
  resolveSymlinkOrSelf eval canonical.

Definition checkMountInfo (found : option (bytes * bytes)) (diskArg : bytes)
    (resolveSymlink : bytes -> bytes) : outcome bootenv_error unit :=
  match found with
  | None => Err ENotMounted
  | Some (dev, fstype) =>
      if negb (beq fstype (bs "vfat")) then Err (EWrongFS fstype) else
      if beq diskArg [] then Ok tt else
      let gotDisk := DevicePartitionBase (resolveSymlink dev) in
      let wantDisk := DevicePartitionBase (resolveSymlink diskArg) in
      if negb (beq gotDisk wantDisk) then Err (EWrongDisk gotDisk wantDisk) else Ok tt
  end.

Definition VerifyESPMounted (mounts : option bytes) (abs eval : bytes -> option bytes)
    (mountpoint diskArg : bytes) : outcome bootenv_error unit :=
  checkMountInfo (FindMountAtPath mounts (canonicalizeMountpoint abs eval mountpoint)) diskArg
    (resolveSymlinkOrSelf eval).

(** ** Mounting *)

(** What [MountESP] and its cleanup ask of the kernel, in order. *)
Inductive mount_event :=
| EvMkdir (mp : bytes)
| EvMount (dev mp : bytes) (readonly : bool)
| EvUnmount (mp : bytes)
| EvRmdir (mp : bytes).

(** The cleanup function: nothing for a reused mount; otherwise unmount, and
remove the directory only when that worked. *)
Inductive cleanup := CleanupNone | CleanupUnmount (mp : bytes).

Definition run_cleanup (c : cleanup) (umount_ok : bool) : list mount_event :=
  match c with
  | CleanupNone => []
  | CleanupUnmount mp => EvUnmount mp :: (if umount_ok then [EvRmdir mp] else [])
  end.

(** [tmpdir]: what [os.MkdirTemp] returned; [mount_ok]: whether [mount(2)]
succeeded. *)
Definition MountESP (existing : option (bytes * bool)) (tmpdir : option bytes) (mount_ok : bool)
    (dev : bytes) (readonly : bool)
  : outcome bootenv_error (bytes * cleanup) * list mount_event :=
  match existing with
  | Some (mp, rw) =>
      if readonly || rw then (Ok (mp, CleanupNone), []) else (Err (EReadOnlyMount dev mp), [])
  | None =>
      match tmpdir with
      | None => (Err EMkdirTemp, [])
      | Some mountpoint =>
          let tried := [EvMkdir mountpoint; EvMount dev mountpoint readonly] in
          if mount_ok then (Ok (mountpoint, CleanupUnmount mountpoint), tried)
          else (Err (EMount dev), tried ++ [EvRmdir mountpoint])
      end
  end.

(** ** Markers and discovery *)

(** [exists_] is [os.Stat] of a path below the mountpoint succeeding. *)
Definition probeMarkers (exists_ : bytes -> bool) : espCandidate :=
  mkCandidate [] []
    (existsb exists_ [ConfigFile; AuthorizedKeysFile; SSHHostEd25519KeyFile])
    (existsb exists_ [EFIBootDir ++ bs "/BOOTX64.EFI"; EFIBootDir ++ bs "/BOOTAA64.EFI"; KernelFile]).

(** ** The disk of an ESP *)

(** [filepath.Base] and [filepath.Dir] of a path without trailing slashes, as
[EvalSymlinks] and the device list give them. *)
Definition after_last_slash (s : bytes) : bytes := List.last (split x2f s) [].
Definition path_base (s : bytes) : bytes := if beq s [] then bs "." else after_last_slash s.
Definition path_dir (s : bytes) : bytes :=
  match rev (split x2f s) with
  | _ :: x :: r => join (bs "/") (rev (x :: r))
  | _ => bs "."
  end.

Inductive disk_error :=
| ESoftwareRAID (parent : bytes) | ENotPartition (dev : bytes) | EResolve (sys : bytes).

Definition refuseParent (parent : bytes) : option disk_error :=
  if has_prefix parent (bs "md") || has_prefix parent (bs "dm-") then Some (ESoftwareRAID parent) else None.

(** The whole disk of a partition. [eval] is [filepath.EvalSymlinks] on device
paths; sysfs is asked whether the entry and its "partition" file exist and
what the entry links to. *)
Definition DiskOfESP (eval : bytes -> option bytes) (sys_entry sys_partition : bytes -> bool)
    (sys_link : bytes -> option bytes) (dev : bytes) : outcome disk_error bytes :=
  let real := resolveSymlinkOrSelf eval dev in
  let name := path_base real in
  if sys_entry name then
    if negb (sys_partition name) then
      match refuseParent name with Some e => Err e | None => Err (ENotPartition dev) end
    else
    match sys_link name with
    | None => Err (EResolve name)
    | Some link =>
        let parent := path_base (path_dir link) in
        match refuseParent parent with
        | Some e => Err e
        | None => Ok (bs "/dev/" ++ parent)
        end
    end
  else
  let disk := DevicePartitionBase real in
  if beq disk real then
    match refuseParent name with Some e => Err e | None => Err (ENotPartition dev) end
  else
  match refuseParent (path_base disk) with
  | Some e => Err e
  | None => Ok disk
  end.

Example disk_of_sysfs :
  DiskOfESP Some (fun _ => true) (fun _ => true) (fun _ => Some (bs "/sys/devices/pci/ata1/block/sda/sda1"))
    (bs "/dev/sda1") = Ok (bs "/dev/sda").
Proof. vm_compute. reflexivity. Qed.

Example disk_of_names :
  DiskOfESP (fun _ => None) (fun _ => false) (fun _ => false) (fun _ => None) (bs "/dev/nvme0n1p1")
  = Ok (bs "/dev/nvme0n1").
Proof. vm_compute. reflexivity. Qed.

Example disk_of_md :
  DiskOfESP (fun _ => None) (fun _ => false) (fun _ => false) (fun _ => None) (bs "/dev/md0p1")
  = Err (ESoftwareRAID (bs "md0")).
Proof. vm_compute. reflexivity. Qed.

(** ** Escaped mount fields *)

(** The kernel's escaping of a path in /proc/self/mounts. *)
Definition escape_byte (b : byte) : bytes :=
  if decide (b = x20) then bs "\040" else if decide (b = x09) then bs "\011"
  else if decide (b = x0a) then bs "\012" else if decide (b = x5c) then bs "\134" else [b].
Definition escapeMountField (s : bytes) : bytes := s ≫= escape_byte.

(** A block of text a replacement can treat as a unit: one byte that is not a
backslash, or a backslash and three bytes that are not. *)
Definition block (l : bytes) : Prop :=
  (exists c, l = [c] /\ c <> x5c) \/
  (exists x y z, l = [x5c; x; y; z] /\ x <> x5c /\ y <> x5c /\ z <> x5c).

Lemma replace_block l p q to t :
  block l -> p = x5c :: q -> length q = 3%nat ->
  replace_from p to O (l ++ t) = (if decide (l = p) then to else l) ++ replace_from p to O t.
Proof.
  intros Hl -> Hq. destruct Hl as [(c & -> & Hc)|(x & y & z & -> & Hx & Hy & Hz)].
  - rewrite decide_False by naive_solver. cbn [app replace_from].
    unfold has_prefix. cbn [cut_prefix]. by rewrite decide_False.
  - destruct q as [|q1 [|q2 [|q3 [|]]]]; try discriminate Hq.
    cbn [app replace_from]. unfold has_prefix at 1. cbn [cut_prefix].
    rewrite decide_True by done. destruct (decide ([x5c; x; y; z] = [x5c; q1; q2; q3])) as [He|He].
    + injection He as -> -> ->. rewrite !decide_True by done. done.
    + replace (match (if decide (q1 = x) then _ else _) with Some _ => true | None => false end)
        with false.
      * unfold has_prefix. cbn [cut_prefix]. rewrite !decide_False by done. done.
      * repeat case_decide; try done. exfalso. naive_solver.
Qed.

Lemma replace_blocks (f : byte -> bytes) p q to s :
  (forall b, block (f b)) -> p = x5c :: q -> length q = 3%nat ->
  replace_all (s ≫= f) p to = s ≫= (fun b => if decide (f b = p) then to else f b).
Proof.
  intros Hf Hp Hq. unfold replace_all. induction s as [|b s IH]; [done|].
  cbn [mbind list_bind]. by rewrite (replace_block _ _ q), IH.
Qed.

Lemma bind_ext_bytes (f g : byte -> bytes) s : (forall b, f b = g b) -> s ≫= f = s ≫= g.
Proof. intros H. induction s as [|b s IH]; [done|]. cbn. by rewrite H, IH. Qed.

Ltac blocks :=
  intros b; unfold block, escape_byte;
  repeat case_decide; subst; try discriminate;
  try (right; do 3 eexists; split_and!; (reflexivity || discriminate));
  try (left; eexists; split; [reflexivity|congruence]).

(** Mount table fields: undoing the kernel's four octal escapes gives back
every path exactly, whatever bytes it contains (backslashes that look like an
escape included), so the order of the four replacements is right. *)
Theorem unescape_escape (s : bytes) : unescapeMountField (escapeMountField s) = s.
Proof.
  unfold unescapeMountField, escapeMountField, mountFieldEscapes. cbn [fold_left fst snd].
  rewrite (replace_blocks _ (bs "\040") (bs "040")) by (done || blocks).
  rewrite (replace_blocks _ (bs "\011") (bs "011")) by (done || blocks).
  rewrite (replace_blocks _ (bs "\012") (bs "012")) by (done || blocks).
  rewrite (replace_blocks _ (bs "\134") (bs "134")) by (done || blocks).
  transitivity (s ≫= fun b => [b]).
  - apply bind_ext_bytes. intros b. unfold escape_byte. repeat case_decide; subst; try done.
  - induction s as [|b s IH]; [done|]. cbn. by rewrite IH.
Qed.

(** ** Partition names *)

Lemma elem_digits b : b ∈ digits <-> is_digit b = true.
Proof.
  split.
  - intros H. by destruct b; first [reflexivity|apply (bool_decide_pack _) in H; vm_compute in H].
  - intros H. apply (bool_decide_unpack _). by destruct b; first [vm_compute in H; discriminate|vm_compute; exact I].
Qed.

Lemma trim_left_digits ds t :
  forallb is_digit ds = true -> trim_left (ds ++ t) digits = trim_left t digits.
Proof.
  induction ds as [|d ds IH]; cbn; [done|]. rewrite andb_true_iff. intros [Hd Hds].
  rewrite decide_True by (by apply elem_digits). auto.
Qed.

Lemma not_elem_rev (x : byte) l : x ∉ l -> x ∉ rev l.
Proof. intros H Hin. apply H, list_elem_of_In. by apply in_rev, list_elem_of_In. Qed.

Lemma split_digits_app pre c ds :
  forallb is_digit ds = true -> is_digit c = false ->
  split_digits ((pre ++ [c]) ++ ds) = (pre ++ [c], ds).
Proof.
  intros Hds Hc. unfold split_digits.
  rewrite rev_app_distr, trim_left_digits.
  2: { apply forallb_forall. intros x Hx%in_rev. rewrite forallb_forall in Hds. auto. }
  rewrite (rev_app_distr pre [c]). cbn [rev app trim_left].
  rewrite decide_False by (rewrite elem_digits; congruence).
  cbn [length]. rewrite length_rev.
  replace (S (length pre)) with (length (pre ++ [c])) by (rewrite length_app; cbn; lia).
  by rewrite take_app_length, drop_app_length.
Qed.

Lemma pSuffixWholeDisk_app pre s : whole_disk_name s = true -> pSuffixWholeDisk (pre ++ s) = true.
Proof.
  intros H. induction pre as [|b pre IH]; cbn [app pSuffixWholeDisk].
  - destruct s; cbn [pSuffixWholeDisk]; by rewrite H.
  - rewrite IH. by rewrite orb_true_r.
Qed.

Lemma no_p_suffix pre c num :
  forallb is_digit num = true -> is_digit c = false ->
  (c = x70 -> match rev pre with d :: _ => is_digit d = false | [] => True end) ->
  partitionSuffixP ((pre ++ [c]) ++ num) = None.
Proof.
  intros Hd Hc Hp. unfold partitionSuffixP. rewrite split_digits_app by done.
  rewrite rev_app_distr. cbn [rev app]. destruct (rev pre) as [|d r]; [done|].
  unfold is_byte. destruct (bool_decide_reflect (c = x70)) as [->|].
  - rewrite Hp by done. by rewrite andb_false_r.
  - by rewrite andb_false_r.
Qed.

(** Partition to disk: a partition number after 'p' and a base that ends in
a digit ("nvme0n1p2"), or after a base that ends in a letter ("sda1") that is
not one of the digit-ending whole-disk shapes, is stripped and nothing else. *)
Theorem DevicePartitionBase_strips (base num : bytes) (c : byte)
  (Hnl : x0a ∉ base) (Hnum : some_digits num = true) :
  (is_digit c = true -> DevicePartitionBase ((base ++ [c]) ++ bs "p" ++ num) = base ++ [c]) /\
  (is_alpha c = true -> c <> x70 -> pSuffixWholeDisk ((base ++ [c]) ++ num) = false ->
   DevicePartitionBase ((base ++ [c]) ++ num) = base ++ [c]).
Proof.
  unfold some_digits in Hnum. apply andb_true_iff in Hnum as [Hne Hd]. split.
  - intros Hc. unfold DevicePartitionBase, partitionSuffixP.
    change (bs "p") with [x70]. rewrite app_assoc, split_digits_app by done.
    rewrite rev_app_distr. cbn [rev app]. rewrite rev_app_distr. cbn [rev app].
    rewrite Hne, Hc. cbn [is_byte andb].
    rewrite bool_decide_eq_true_2 by (by apply not_elem_rev). cbn [andb].
    cbn [rev]. by rewrite rev_involutive.
  - intros Hc Hp Hw. assert (is_digit c = false) as Hcd by (by destruct c).
    unfold DevicePartitionBase. rewrite no_p_suffix by done.
    rewrite Hw. unfold partitionSuffixPlain. rewrite split_digits_app by done.
    rewrite rev_app_distr. cbn [rev app]. rewrite Hne, Hc. cbn [andb].
    by rewrite bool_decide_eq_true_2 by (by apply not_elem_rev).
Qed.

Lemma DevicePartitionBase_strips_witness :
  DevicePartitionBase (bs "/dev/nvme0n1p2") = bs "/dev/nvme0n1" /\
  DevicePartitionBase (bs "/dev/sda12") = bs "/dev/sda".
Proof.
  assert (forall s : bytes, bool_decide (x0a ∉ s) = true -> x0a ∉ s) as Hn.
  { intros s H. apply bool_decide_eq_true in H. exact H. }
  split.
  - apply (proj1 (DevicePartitionBase_strips (bs "/dev/nvme0n") (bs "2") x31 (Hn (bs "/dev/nvme0n") eq_refl) eq_refl)).
    reflexivity.
  - apply (proj2 (DevicePartitionBase_strips (bs "/dev/sd") (bs "12") x61 (Hn (bs "/dev/sd") eq_refl) eq_refl));
      [reflexivity|discriminate|vm_compute; reflexivity].
Defined.

(** Whole disks stay themselves: any path that ends in an mmcblk, loop, nbd,
md or nvme whole-disk name is returned unchanged. *)
Theorem DevicePartitionBase_whole (dir cls num ctrl : bytes)
  (Hcls : cls ∈ [bs "mmcblk"; bs "loop"; bs "nbd"; bs "md"])
  (Hnum : some_digits num = true) (Hctrl : some_digits ctrl = true) :
  DevicePartitionBase (dir ++ cls ++ num) = dir ++ cls ++ num /\
  DevicePartitionBase (dir ++ bs "nvme" ++ ctrl ++ bs "n" ++ num) = dir ++ bs "nvme" ++ ctrl ++ bs "n" ++ num.
Proof.
  pose proof Hnum as Hd. unfold some_digits in Hd. apply andb_true_iff in Hd as [_ Hd].
  unfold DevicePartitionBase. split.
  - assert (exists i z, cls = i ++ [z] /\ is_digit z = false /\
      match rev i with d :: _ => is_digit d = false | [] => False end) as (i & z & -> & Hz & Hi).
    { rewrite !elem_of_cons in Hcls. destruct Hcls as [->|[->|[->|[->|[]%not_elem_of_nil]]]].
      - by exists (bs "mmcbl"), x6b. - by exists (bs "loo"), x70. - by exists (bs "nb"), x64.
      - by exists (bs "m"), x64. }
    rewrite (app_assoc dir), (app_assoc dir i [z]), no_p_suffix; [|done|done|].
    + rewrite <-(app_assoc dir i [z]), <-app_assoc, pSuffixWholeDisk_app; [done|].
      unfold whole_disk_name, prefixed_number.
      rewrite !elem_of_cons in Hcls. destruct Hcls as [->|[->|[->|[->|[]%not_elem_of_nil]]]];
        rewrite cut_prefix_app, Hnum; by rewrite ?orb_true_r.
    + intros _. rewrite rev_app_distr. destruct (rev i); [done|]. exact Hi.
  - change (bs "n") with [x6e]. rewrite !app_assoc. rewrite no_p_suffix by done.
    rewrite <-!app_assoc, pSuffixWholeDisk_app; [done|].
    unfold whole_disk_name, nvme_name. rewrite cut_prefix_app. cbn [app].
    pose proof Hctrl as Hc. unfold some_digits in Hc. apply andb_true_iff in Hc as [_ Hc].
    rewrite cut_app by (by eapply forallb_not_elem). by rewrite Hctrl, Hnum.
Qed.

Lemma DevicePartitionBase_whole_witness : DevicePartitionBase (bs "/dev/md127") = bs "/dev/md127".
Proof.
  refine (proj1 (DevicePartitionBase_whole (bs "/dev/") (bs "md") (bs "127") (bs "0") _ eq_refl eq_refl)).
  apply (bool_decide_unpack _). vm_compute. exact I.
Defined.

(** The whole-disk pattern is not anchored at the start of the name: the
SCSI disk sdmd (the kernel names disks sda .. sdz, sdaa .. sdzz) and its
virtio and Xen counterparts have partitions whose names end like an md array's,
and those are returned unchanged instead of as their disk. *)
Theorem DevicePartitionBase_sdmd (num : bytes) (Hnum : some_digits num = true) :
  DevicePartitionBase (bs "/dev/sdmd" ++ num) = bs "/dev/sdmd" ++ num /\
  DevicePartitionBase (bs "/dev/vdnbd" ++ num) = bs "/dev/vdnbd" ++ num.
Proof.
  pose proof Hnum as Hd. unfold some_digits in Hd. apply andb_true_iff in Hd as [_ Hd].
  unfold DevicePartitionBase.
  change (bs "/dev/sdmd") with (bs "/dev/sdm" ++ [x64]).
  change (bs "/dev/vdnbd") with (bs "/dev/vdnb" ++ [x64]).
  rewrite !no_p_suffix by done.
  change ((bs "/dev/sdm" ++ [x64]) ++ num) with (bs "/dev/sd" ++ bs "md" ++ num).
  change ((bs "/dev/vdnb" ++ [x64]) ++ num) with (bs "/dev/vd" ++ bs "nbd" ++ num).
  rewrite !pSuffixWholeDisk_app; [done|..];
    unfold whole_disk_name, prefixed_number; rewrite cut_prefix_app, Hnum; by rewrite ?orb_true_r.
Qed.

Lemma DevicePartitionBase_sdmd_witness : DevicePartitionBase (bs "/dev/sdmd1") = bs "/dev/sdmd1".
Proof. apply (proj1 (DevicePartitionBase_sdmd (bs "1") eq_refl)). Defined.

(** ** Discovery, the mount table and mounting *)

Lemma filter_perm {A} (f : A -> bool) l l' : l ≡ₚ l' -> List.filter f l ≡ₚ List.filter f l'.
Proof.
  induction 1 as [|x l l' H IH|x y l|l l' l'' H1 IH1 H2 IH2]; cbn; [done| | |by etrans].
  - destruct (f x); [by constructor|done].
  - destruct (f x), (f y); try done. apply Permutation_swap.
Qed.

(** ESP discovery does not depend on enumeration order: the device chosen is
the one qualifying candidate, and the same for every order of the candidates;
with none or several, every order is refused. *)
Theorem selectESP_order (cs cs' : list espCandidate) (H : cs ≡ₚ cs') (d : bytes) :
  selectESP cs = Ok d <-> selectESP cs' = Ok d.
Proof.
  revert cs cs' H. assert (forall cs cs', cs ≡ₚ cs' -> selectESP cs = Ok d -> selectESP cs' = Ok d) as Himp.
  { intros cs cs' H. apply (filter_perm qualifies) in H. unfold selectESP.
    destruct (List.filter qualifies cs) as [|c [|c' l]]; try done.
    apply Permutation_singleton_l in H. by rewrite <-H. }
  intros cs cs' H. split; apply Himp; [done|by symmetry].
Qed.

Lemma selectESP_order_witness :
  let a := mkCandidate (bs "/dev/sda1") [] true true in
  let b := mkCandidate (bs "/dev/sdb1") [] true false in
  selectESP [a; b] = Ok (bs "/dev/sda1") <-> selectESP [b; a] = Ok (bs "/dev/sda1").
Proof. intros a b. apply (selectESP_order [a; b] [b; a]). apply Permutation_swap. Defined.

(** The mount a line of the table describes at a path. *)
Definition line_mount (mountpoint line : bytes) : option (bytes * bytes) :=
  match fields line with
  | f0 :: f1 :: f2 :: _ :: _ =>
      if beq (unescapeMountField f1) mountpoint then Some (unescapeMountField f0, f2) else None
  | _ => None
  end.

Lemma mount_at_last mp lines acc :
  mount_at mp lines acc =
  match last (omap (line_mount mp) lines) with Some m => Some m | None => acc end.
Proof.
  revert acc. induction lines as [|l lines IH]; intros acc; [done|].
  cbn [mount_at omap list_omap]. unfold line_mount at 1.
  destruct (fields l) as [|f0 [|f1 [|f2 [|f3 r]]]]; rewrite IH; try done.
  destruct (beq (unescapeMountField f1) mp); [|done].
  rewrite last_cons. by destruct (last _).
Qed.

(** What is mounted at a path: the last line of the table that names it, so
a mount stacked over an earlier one is the one seen. *)
Theorem parseMountAtPath_last (content mountpoint : bytes) :
  parseMountAtPath content mountpoint = last (omap (line_mount mountpoint) (split x0a content)).
Proof. unfold parseMountAtPath. rewrite mount_at_last. by destruct (last _). Qed.

(** Mounting the ESP: a device that is already mounted is reused without
any mount, unmount or directory call, neither now nor in the cleanup, and only
for writing if that mount is read-write; otherwise the mount made is exactly
the one its cleanup undoes, and after a failed mount the directory made for it
is gone. *)
Theorem MountESP_events (existing : option (bytes * bool)) (tmpdir : option bytes)
    (mount_ok : bool) (dev : bytes) (readonly : bool) :
  match MountESP existing tmpdir mount_ok dev readonly with
  | (Ok (mp, c), evs) =>
      (forall umount_ok, evs = [] -> run_cleanup c umount_ok = []) /\
      match existing with
      | Some (emp, rw) => evs = [] /\ mp = emp /\ (readonly = false -> rw = true)
      | None => evs = [EvMkdir mp; EvMount dev mp readonly] /\
          run_cleanup c true = [EvUnmount mp; EvRmdir mp] /\ run_cleanup c false = [EvUnmount mp]
      end
  | (Err _, evs) =>
      forall mp, EvMkdir mp ∈ evs -> EvRmdir mp ∈ evs /\ EvUnmount mp ∉ evs
  | (Panic, _) => False
  end.
Proof.
  unfold MountESP. destruct existing as [[emp rw]|].
  - destruct (readonly || rw) eqn:E.
    + split; [done|]. split_and!; [done|done|]. intros ->. done.
    + intros mp H. by apply not_elem_of_nil in H.
  - destruct tmpdir as [t|]; [|intros mp H; by apply not_elem_of_nil in H].
    destruct mount_ok; cbn [app].
    + split; [done|]. done.
    + intros mp H. rewrite !elem_of_cons in H.
      destruct H as [[= ->]|[H|[H|[]%not_elem_of_nil]]]; [|discriminate..].
      split; [by right; right; left|]. rewrite !not_elem_of_cons. split_and!; try discriminate.
      apply not_elem_of_nil.
Qed.
