(* ===== verification/EspSet.v ===== *)
(** * internal/bootenv/espset.go: which ESPs belong to this host

The FAT scan, and [SelectHost], which decides from the scan, the explicit UUID
list and the primary ESP which volumes are this host's mirror members. *)

From Stdlib Require Import ZArith Lia Strings.Byte.
From stdpp Require Import base list gmap sorting.
From S2P Require Import Prelude GoStrings Layout Device World EspConfig EspMember BootEnv.
Local Open Scope Z_scope.

(** ** FAT volumes *)

Definition fat32BootSigOff : Z := 66.
Definition fat32VolIDOff : Z := 67.
Definition fat16BootSigOff : Z := 38.
Definition fat16VolIDOff : Z := 39.
Definition fat16LabelOff : Z := 43.
Definition fat16FSTypeOff : Z := 54.

Record FATVolume := mkFATVolume { Dev : bytes; UUID : bytes; Label : bytes }.

(** [%04X] of a 16-bit number. *)
Definition hex_upper_digit (z : Z) : byte := if z <? 10 then z2b (z + 48) else z2b (z + 55).
Definition hex4 (v : Z) : bytes :=
  [hex_upper_digit (v / 4096 mod 16); hex_upper_digit (v / 256 mod 16);
   hex_upper_digit (v / 16 mod 16); hex_upper_digit (v mod 16)].

Definition serial (sector : bytes) (off : Z) : outcome bootenv_error bytes :=
  let! b0 := index sector off in
  let! b1 := index sector (off + 1) in
  let! b2 := index sector (off + 2) in
  let! b3 := index sector (off + 3) in
  let v := Z.lor (Z.lor (Z.lor (b2z b0) (Z.shiftl (b2z b1) 8)) (Z.shiftl (b2z b2) 16)) (Z.shiftl (b2z b3) 24) in
  Ok (hex4 (Z.shiftr v 16) ++ bs "-" ++ hex4 (Z.land v 0xffff)).

Definition fatVolumeInfo (sector : bytes) : outcome bootenv_error (option (bytes * bytes)) :=
  if len sector <? fatBPBMinSize then Ok None else
  let! ty := slice sector fatFSTypeOff (fatFSTypeOff + fatFSTypeLen) in
  let! sig32 := index sector fat32BootSigOff in
  if beq ty (bs "FAT32   ") && (is_byte x29 sig32 || is_byte x28 sig32) then
    let! l := fat32VolumeLabel sector in
    let! u := serial sector fat32VolIDOff in
    Ok (Some (u, default [] l))
  else
  let! ft := slice sector fat16FSTypeOff (fat16FSTypeOff + 8) in
  let! sig16 := index sector fat16BootSigOff in
  if (beq ft (bs "FAT12   ") || beq ft (bs "FAT16   ") || beq ft (bs "FAT     ")) && is_byte x29 sig16 then
    let! u := serial sector fat16VolIDOff in
    let! l := slice sector fat16LabelOff (fat16LabelOff + 11) in
    Ok (Some (u, trim_right l (bs " ")))
  else Ok None.

Fixpoint scan_volumes (open : bytes -> option device) (devs : list bytes)
  : outcome bootenv_error (list FATVolume) :=
  match devs with
  | [] => Ok []
  | dev :: rest =>
      match f ← open dev; read_at f 0 fatBPBMinSize with
      | None => scan_volumes open rest
      | Some sector =>
          let! v := fatVolumeInfo sector in
          let! out := scan_volumes open rest in
          match v with
          | Some (uuid, label) => Ok (mkFATVolume dev uuid label :: out)
          | None => Ok out
          end
      end
  end.

Definition ScanFATVolumes (proc : option bytes) (open : bytes -> option device)
  : outcome bootenv_error (list FATVolume) :=
  let! devs := enumerateBlockDevices proc in scan_volumes open devs.

Definition VolumeUUID (open : bytes -> option device) (dev : bytes) : option bytes :=
  f ← open dev;
  sector ← read_at f 0 fatBPBMinSize;
  match fatVolumeInfo sector with
  | Ok (Some (uuid, _)) => Some uuid
  | _ => None
  end.

(** The legacy discovery: [probe dev] is the result of mounting the device
read-only and checking its markers, [None] when that failed. *)
Definition FindESP (proc : option bytes) (open : bytes -> option device)
    (probe : bytes -> option espCandidate) : outcome bootenv_error bytes :=
  let! devs := findFATLabelDevices proc open FATVolumeLabel in
  if len devs =? 0 then Err ENoLabelDevice else
  selectESP (omap (fun dev =>
    c ← probe dev;
    Some (mkCandidate dev (default [] (VolumeUUID open dev)) (hasConfigMarker c) (hasPayloadMarker c))) devs).

(** ** What the scan knows of one volume *)

Record ESPInfo := mkESPInfo {
  vol : FATVolume;
  AlpineDir : bool;
  Qualifies : bool;
  eMember : option Member;
  MemberErr : bool;
  ConfigList : bytes;
  ProbeErr : bool
}.

Definition eUUID (e : ESPInfo) : bytes := UUID (vol e).
Definition eDev (e : ESPInfo) : bytes := Dev (vol e).

Definition ValidMember (e : ESPInfo) : bool :=
  match eMember e with Some m => negb (MemberErr e) && beq (ESPUUID m) (eUUID e) | None => false end.

Definition CopiedMarker (e : ESPInfo) : bool :=
  match eMember e with Some m => negb (MemberErr e) && negb (beq (ESPUUID m) (eUUID e)) | None => false end.

Definition eGeneration (e : ESPInfo) : Z :=
  if ValidMember e then match eMember e with Some m => Generation m | None => 0 end else 0.

(** The install id of a valid marker. *)
Definition eInstallID (e : ESPInfo) : bytes :=
  match eMember e with Some m => InstallID m | None => [] end.

(** The facts of a mounted volume: whether EFI/ALPINE is a directory, which
files exist, what reading MEMBER and config gave. *)
Definition ProbeMounted (v : FATVolume) (is_dir : bool) (exists_ : bytes -> bool)
    (member : member_file) (config : option bytes) : ESPInfo :=
  let c := probeMarkers exists_ in
  mkESPInfo v is_dir (qualifies c)
    (match member with Present (Ok m) => Some m | _ => None end)
    (match member with Absent | Present (Ok _) => false | _ => true end)
    (match config with Some raw => default [] (ConfigValue raw ESPUUIDsKey) | None => [] end)
    false.

Definition probeESPFiles (v : FATVolume) (mounted : option ESPInfo) : ESPInfo :=
  match mounted with
  | None => mkESPInfo v false false None false [] true
  | Some info => info
  end.

(** ** The selection *)

Inductive mode := ModeList | ModeMember | ModeLegacy.

Inductive reason :=
| RCopied (esp : bytes) | RUnreadable | RForeignStick (id : bytes) | ROtherInstall (id : bytes)
| RNoMarker | RNotListed.

Record HostMember := mkHostMember { hm_info : ESPInfo; Foreign : bool }.
Record Ignored := mkIgnored { ig_info : ESPInfo; Reason : reason }.

Inductive list_source := SrcGiven (s : bytes) | SrcConfigOf (uuid : bytes) | SrcUnmarked | SrcNone.

Record HostSet := mkHostSet {
  Mode : mode;
  ListSource : list_source;
  hsInstallID : bytes;
  hsMembers : list HostMember;
  Expected : list bytes;
  Missing : list bytes;
  hsIgnored : list Ignored
}.

Inductive select_error :=
| EDup (uuid : bytes) (devs : list bytes)
| EManyInstalls (ids : list bytes)
| EConfigListErr (uuid : bytes) (e : member_error)
| ENoneListed (lst : list bytes)
| ENoHostESP (checked : Z)
| EManyUnmarked (uuids : list bytes).

Record SelectOpts := mkSelectOpts { opt_List : list bytes; opt_ListSource : bytes; PrimaryUUID : bytes }.

Definition hmUUID (m : HostMember) : bytes := eUUID (hm_info m).

Definition UUIDs (h : HostSet) : list bytes := hmUUID <$> hsMembers h.

Definition MaxGeneration (h : HostSet) : Z :=
  fold_left (fun g m => if g <? eGeneration (hm_info m) then eGeneration (hm_info m) else g) (hsMembers h) 0.

(** [countUUIDs]: the devices that carry a UUID. *)
Definition countUUIDs (infos : list ESPInfo) (uuid : bytes) : list bytes :=
  eDev <$> List.filter (fun i => beq (eUUID i) uuid) infos.

Definition infoByUUID (infos : list ESPInfo) (uuid : bytes) : option ESPInfo :=
  List.find (fun i => beq (eUUID i) uuid) infos.

(** The comparison of [orderMembers]. *)
Definition member_less (primary : bytes) (rank : bytes -> option Z) (a b : HostMember) : bool :=
  let ga := eGeneration (hm_info a) in let gb := eGeneration (hm_info b) in
  if negb (ga =? gb) then gb <? ga else
  let pa := beq (hmUUID a) primary in let pb := beq (hmUUID b) primary in
  if negb (Bool.eqb pa pb) then pa else
  match rank (hmUUID a), rank (hmUUID b) with
  | Some ra, Some rb => if negb (ra =? rb) then ra <? rb else bytes_ltb (hmUUID a) (hmUUID b)
  | _, _ => bytes_ltb (hmUUID a) (hmUUID b)
  end.

Definition orderMembers (ms : list HostMember) (primary : bytes) (rank : bytes -> option Z)
  : list HostMember := sort_stable (member_less primary rank) ms.

(** The loop of [selectList] over the listed UUIDs. *)
Fixpoint list_loop (infos : list ESPInfo) (lst missing : list bytes) (members : list ESPInfo)
  : outcome select_error (list ESPInfo * list bytes) :=
  match lst with
  | [] => Ok (members, missing)
  | u :: rest =>
      match countUUIDs infos u with
      | [] => list_loop infos rest (missing ++ [u]) members
      | [_] => match infoByUUID infos u with
               | Some i => list_loop infos rest missing (members ++ [i])
               | None => Panic
               end
      | devs => Err (EDup u devs)
      end
  end.

(** [rank[u] = n]: the last position of [u] in the list. *)
Fixpoint rank_from (n : Z) (lst : list bytes) (u : bytes) : option Z :=
  match lst with
  | [] => None
  | x :: rest =>
      match rank_from (n + 1) rest u with
      | Some r => Some r
      | None => if beq x u then Some n else None
      end
  end.

(** The identity of the set: that of the first listed, present, valid marker. *)
Definition list_identity (infos : list ESPInfo) (lst : list bytes) : bytes :=
  match omap (fun u => i ← infoByUUID infos u;
                if (len (countUUIDs infos u) =? 1) && ValidMember i then Some (eInstallID i) else None) lst with
  | id :: _ => id
  | [] => []
  end.

Definition selectList (infos : list ESPInfo) (lst : list bytes) (source : list_source) (primary : bytes)
  : outcome select_error HostSet :=
  let! ' (found, missing) := list_loop infos lst [] [] in
  if len found =? 0 then Err (ENoneListed lst) else
  let ordered := orderMembers ((fun i => mkHostMember i false) <$> found) primary (rank_from 0 lst) in
  let id := list_identity infos lst in
  let members := (fun m => mkHostMember (hm_info m)
                    (ValidMember (hm_info m) && negb (beq (eInstallID (hm_info m)) id))) <$> ordered in
  let ignored := (fun i => mkIgnored i RNotListed) <$>
                 List.filter (fun i => negb (bool_decide (eUUID i ∈ lst)) && AlpineDir i) infos in
  Ok (mkHostSet ModeList source id members lst missing ignored).

Definition legacy_candidate (i : ESPInfo) : bool :=
  beq (Label (vol i)) FATVolumeLabel && Qualifies i
  && match eMember i with None => true | Some _ => false end.

(** The configured lists of several unmarked ESPs, when they agree. *)
Fixpoint agreed_list (qual : list ESPInfo) (lst : bytes) (agree : bool) : bytes * bool :=
  match qual with
  | [] => (lst, agree)
  | i :: rest =>
      if beq (ConfigList i) [] then agreed_list rest lst agree
      else agreed_list rest (ConfigList i)
             (if negb (beq lst []) && negb (beq (ConfigList i) lst) then false else agree)
  end.

Definition uuid_less (a b : ESPInfo) : bool := bytes_ltb (eUUID a) (eUUID b).

(** The usable unmarked ESPs: those without a marker file; or, when there is
none, the one ESP whose marker is unreadable. *)
Definition legacy_qual (l : list ESPInfo) : list ESPInfo :=
  let cands := List.filter legacy_candidate l in
  let qual0 := List.filter (fun i => negb (MemberErr i)) cands in
  match qual0, List.filter MemberErr cands with [], [b] => [b] | _, _ => qual0 end.

(** That one ESP is no longer ignored. *)
Definition legacy_ignored (l : list ESPInfo) (ignored : list Ignored) : list Ignored :=
  let cands := List.filter legacy_candidate l in
  match List.filter (fun i => negb (MemberErr i)) cands, List.filter MemberErr cands with
  | [], [b] => List.filter (fun ig => negb (beq (eUUID (ig_info ig)) (eUUID b))) ignored
  | _, _ => ignored
  end.

Definition selectLegacy (infos : list ESPInfo) (ignored : list Ignored) : outcome select_error HostSet :=
  match legacy_qual infos with
  | [] => Err (ENoHostESP (len infos))
  | [i] =>
      if 1 <? len (countUUIDs infos (eUUID i)) then Err (EDup (eUUID i) (countUUIDs infos (eUUID i))) else
      if negb (beq (ConfigList i) []) then
        let! l := owrap (EConfigListErr (eUUID i)) (ParseUUIDList (ConfigList i)) in
        selectList infos l (SrcConfigOf (eUUID i)) []
      else Ok (mkHostSet ModeLegacy SrcNone [] [mkHostMember i false] [eUUID i] [] (legacy_ignored infos ignored))
  | several =>
      let qual := sort_stable uuid_less several in
      let '(lst, agree) := agreed_list qual [] true in
      let refuse := Err (EManyUnmarked (eUUID <$> qual)) in
      if negb (beq lst []) && agree then
        match ParseUUIDList lst with
        | Ok l => selectList infos l SrcUnmarked []
        | Err _ => refuse
        | Panic => Panic
        end
      else refuse
  end.

Definition group (infos : list ESPInfo) (id : bytes) : list ESPInfo :=
  List.filter (fun i => ValidMember i && beq (eInstallID i) id) infos.

(** The keys of the [groups] map. *)
Definition group_ids (infos : list ESPInfo) : list bytes :=
  remove_dups (eInstallID <$> List.filter ValidMember infos).

(** The ESPs ignored in the first pass: copied and unreadable markers. *)
Definition first_ignored (infos : list ESPInfo) : list Ignored :=
  omap (fun i =>
    if ValidMember i then None
    else if CopiedMarker i then
      Some (mkIgnored i (RCopied (match eMember i with Some m => ESPUUID m | None => [] end)))
    else if MemberErr i then Some (mkIgnored i RUnreadable) else None) infos.

(** A lone marked ESP without LABEL=EFI gives way to an unmarked LABEL=EFI one. *)
Definition stick_rule (infos : list ESPInfo) (primaryMarked : bool) (g : list ESPInfo) : bool :=
  let hasEFI := existsb (fun i => beq (Label (vol i)) FATVolumeLabel) g in
  let unmarked := existsb (fun i => beq (Label (vol i)) FATVolumeLabel && Qualifies i
    && match eMember i with None => true | Some _ => false end && negb (MemberErr i)) infos in
  negb primaryMarked && negb hasEFI && unmarked && (len g =? 1).

(** The primary ESP, when it is present and validly marked. *)
Definition marked_primary (infos : list ESPInfo) (primary : bytes) : option ESPInfo :=
  match infoByUUID infos primary with
  | Some p => if negb (beq primary []) && ValidMember p then Some p else None
  | None => None
  end.

(** The member-mode result for one installation. *)
Definition selectMember (infos : list ESPInfo) (ignored : list Ignored) (primary id : bytes)
  : outcome select_error HostSet :=
  let g := group infos id in
  match List.find (fun i => 1 <? len (countUUIDs infos (eUUID i))) g with
  | Some i => Err (EDup (eUUID i) (countUUIDs infos (eUUID i)))
  | None =>
      let members := orderMembers ((fun i => mkHostMember i false) <$> g) primary (fun _ => None) in
      let present := eUUID <$> g in
      match members with
      | [] => Panic
      | best :: _ =>
          if negb (beq (ConfigList (hm_info best)) []) then
            let! l := owrap (EConfigListErr (hmUUID best)) (ParseUUIDList (ConfigList (hm_info best))) in
            selectList infos l (SrcConfigOf (hmUUID best)) primary
          else
          let listed := match eMember (hm_info best) with Some m => Members m | None => [] end in
          let expected := remove_dups (listed ++ present) in
          let others := omap (fun i =>
            if bool_decide (eUUID i ∈ present) then None
            else if ValidMember i then Some (mkIgnored i (ROtherInstall (eInstallID i)))
            else if match eMember i with None => true | Some _ => false end && negb (MemberErr i) && AlpineDir i
            then Some (mkIgnored i RNoMarker) else None) infos in
          Ok (mkHostSet ModeMember SrcNone id members (sort_strings expected)
                (sort_strings (List.filter (fun u => negb (bool_decide (u ∈ present))) expected))
                (ignored ++ others))
      end
  end.

Definition SelectHost (infos : list ESPInfo) (opts : SelectOpts) : outcome select_error HostSet :=
  let primary := PrimaryUUID opts in
  if 0 <? len (opt_List opts) then
    selectList infos (opt_List opts) (SrcGiven (opt_ListSource opts)) primary
  else
  let ids := group_ids infos in
  let ignored := first_ignored infos in
  match ids with
  | [] => selectLegacy infos ignored
  | first :: others =>
      let mp := marked_primary infos primary in
      let lone := match others with [] => true | _ => false end in
      if lone && stick_rule infos (match mp with Some _ => true | None => false end) (group infos first) then
        selectLegacy infos (ignored ++ ((fun i => mkIgnored i (RForeignStick (eInstallID i))) <$> group infos first))
      else
      match mp with
      | Some p =>
          if 1 <? len (countUUIDs infos (eUUID p)) then Err (EDup (eUUID p) (countUUIDs infos (eUUID p)))
          else selectMember infos ignored primary (eInstallID p)
      | None => if lone then selectMember infos ignored primary first
                else Err (EManyInstalls (sort_strings ids))
      end
  end.

(** ** Lemmas: the scan *)

Lemma hex_upper_digit_ok z : 0 <= z < 16 -> is_upper_hex (hex_upper_digit z) = true.
Proof.
  intros Hz. assert (forallb (fun z => is_upper_hex (hex_upper_digit z)) (seqZ 0 16) = true) as H
    by (vm_compute; reflexivity).
  rewrite forallb_forall in H. apply H, list_elem_of_In, elem_of_seqZ. lia.
Qed.

Lemma hex4_ok v : match_classes (replicate 4 is_upper_hex) (hex4 v) = true.
Proof.
  unfold hex4. cbn [replicate match_classes].
  rewrite !hex_upper_digit_ok by (apply Z.mod_pos_bound; lia). done.
Qed.

Lemma serial_ok sector off :
  0 <= off -> off + 4 <= len sector ->
  exists u, serial sector off = Ok u /\ fatUUIDRE u = true.
Proof.
  intros H1 H2. unfold serial.
  destruct (@index_ok bootenv_error _ sector off) as (b0 & -> & _); [lia|]. cbn [obind].
  destruct (@index_ok bootenv_error _ sector (off + 1)) as (b1 & -> & _); [lia|]. cbn [obind].
  destruct (@index_ok bootenv_error _ sector (off + 2)) as (b2 & -> & _); [lia|]. cbn [obind].
  destruct (@index_ok bootenv_error _ sector (off + 3)) as (b3 & -> & _); [lia|]. cbn [obind].
  eexists. split; [done|]. unfold fatUUIDRE. apply match_classes_app; [apply hex4_ok|].
  apply match_classes_app; [done|apply hex4_ok].
Qed.

Lemma fat32VolumeLabel_ok sector : exists l, fat32VolumeLabel sector = Ok l.
Proof.
  unfold fat32VolumeLabel, fatBPBMinSize, fatFSTypeOff, fatFSTypeLen, fatVolumeLabelOff, fatVolumeLabelLen.
  destruct (len sector <? 90) eqn:E; [eauto|]. zb. rewrite slice_ok by lia. cbn [obind].
  destruct (negb _); [eauto|]. rewrite slice_ok by lia. cbn [obind]. eauto.
Qed.

(** FAT volumes: decoding any boot sector never panics, and a serial number
it reports is always a UUID in the normal form the marker and the lists use. *)
Theorem fatVolumeInfo_safe (sector : bytes) :
  exists r, fatVolumeInfo sector = Ok r /\
    forall u l, r = Some (u, l) -> fatUUIDRE u = true /\ NormalizeFATUUID u = Ok u.
Proof.
  unfold fatVolumeInfo. unfold fatBPBMinSize at 1.
  destruct (len sector <? 90) eqn:E; [eexists; split; [done|discriminate]|]. zb.
  unfold fatFSTypeOff, fatFSTypeLen, fat32BootSigOff, fat16FSTypeOff, fat16BootSigOff, fat16LabelOff,
    fat32VolIDOff, fat16VolIDOff.
  rewrite slice_ok by lia. cbn [obind].
  destruct (@index_ok bootenv_error _ sector 66) as (s32 & -> & _); [lia|]. cbn [obind].
  destruct (_ && _).
  - destruct (fat32VolumeLabel_ok sector) as [l ->]. cbn [obind].
    destruct (serial_ok sector 67) as (u & -> & Hu); [lia..|]. cbn [obind].
    eexists. split; [done|]. intros ? ? [= <- _]. split; [done|]. by apply Normalize_uuid.
  - rewrite slice_ok by lia. cbn [obind].
    destruct (@index_ok bootenv_error _ sector 38) as (s16 & -> & _); [lia|]. cbn [obind].
    destruct (_ && _); [|eexists; split; [done|discriminate]].
    destruct (serial_ok sector 39) as (u & -> & Hu); [lia..|]. cbn [obind].
    rewrite slice_ok by lia. cbn [obind].
    eexists. split; [done|]. intros ? ? [= <- _]. split; [done|]. by apply Normalize_uuid.
Qed.

(** ** Lemmas: lists and counts *)

(** [i] is in the scan and the only one with its UUID. *)
Definition sole (infos : list ESPInfo) (i : ESPInfo) : Prop :=
  i ∈ infos /\ len (countUUIDs infos (eUUID i)) = 1.

Lemma infoByUUID_Some infos u i : infoByUUID infos u = Some i -> i ∈ infos /\ eUUID i = u.
Proof.
  unfold infoByUUID. intros H. apply find_some in H as [H1 H2]. zb. split; [by apply list_elem_of_In|done].
Qed.

Lemma count_nonempty infos i : i ∈ infos -> 1 <= len (countUUIDs infos (eUUID i)).
Proof.
  intros Hi. unfold countUUIDs. assert (i ∈ List.filter (fun j => beq (eUUID j) (eUUID i)) infos) as H.
  { apply list_elem_of_In, filter_In. split; [by apply list_elem_of_In|apply beq_refl]. }
  destruct (List.filter _ _); [by apply not_elem_of_nil in H|]. cbn [fmap list_fmap].
  rewrite len_cons. unfold len. lia.
Qed.

Definition present_uuid (infos : list ESPInfo) (u : bytes) : bool := negb (len (countUUIDs infos u) =? 0).

Lemma list_loop_spec infos lst missing members found miss :
  list_loop infos lst missing members = Ok (found, miss) ->
  exists f m, found = members ++ f /\ miss = missing ++ m /\
    Forall (sole infos) f /\ eUUID <$> f = List.filter (present_uuid infos) lst /\
    m = List.filter (fun u => negb (present_uuid infos u)) lst.
Proof.
  revert missing members. induction lst as [|u lst IH]; cbn [list_loop List.filter]; intros missing members H.
  - injection H as <- <-. exists [], []. rewrite !app_nil_r. repeat split; constructor.
  - destruct (countUUIDs infos u) as [|d [|d' ds]] eqn:Ec; [| |done].
    + apply IH in H as (f & m & -> & -> & Hf & Hu & ->). assert (present_uuid infos u = false) as -> by (unfold present_uuid; by rewrite Ec).
      exists f, (u :: List.filter (fun u => negb (present_uuid infos u)) lst).
      rewrite <-app_assoc. done.
    + destruct (infoByUUID infos u) as [i|] eqn:Ei; [|done].
      apply IH in H as (f & m & -> & -> & Hf & Hu & ->). assert (present_uuid infos u = true) as -> by (unfold present_uuid; by rewrite Ec).
      apply infoByUUID_Some in Ei as [Hin <-].
      exists (i :: f), (List.filter (fun u => negb (present_uuid infos u)) lst).
      rewrite <-app_assoc. split_and!; [done|done| |by cbn; rewrite Hu|done].
      constructor; [|done]. split; [done|]. by rewrite Ec.
Qed.

Lemma orderMembers_perm ms p r : orderMembers ms p r ≡ₚ ms.
Proof. apply sort_stable_perm. Qed.

(** A relation the comparison decides orders the sorted list. *)
Lemma sort_stable_rel {A} (less : A -> A -> bool) (R : A -> A -> Prop) l :
  Transitive R -> (forall x y, less y x = true -> R y x) -> (forall x y, less y x = false -> R x y) ->
  StronglySorted R (sort_stable less l).
Proof.
  intros HR Ht Hf. induction l as [|x l IHl]; cbn [sort_stable foldr]; [constructor|].
  fold (sort_stable less l). revert IHl. generalize (sort_stable less l) as s.
  induction 1 as [|y t Ht' IH Hy]; cbn; [repeat constructor|].
  destruct (less y x) eqn:E.
  - constructor; [done|]. rewrite insert_stable_perm. constructor; [by apply Ht|done].
  - constructor; [by constructor|]. constructor; [by apply Hf|].
    eapply Forall_impl; [exact Hy|]. intros z Hz. etransitivity; [by apply Hf|done].
Qed.

(** Newest first. *)
Definition newer (a b : HostMember) : Prop := eGeneration (hm_info b) <= eGeneration (hm_info a).

Lemma orderMembers_newest ms p r : StronglySorted newer (orderMembers ms p r).
Proof.
  apply sort_stable_rel.
  - intros a b c. unfold newer. lia.
  - intros x y. unfold member_less, newer.
    destruct (Z.eqb_spec (eGeneration (hm_info y)) (eGeneration (hm_info x))) as [->|]; cbn [negb]; [lia|].
    intros H. zb. lia.
  - intros x y. unfold member_less, newer.
    destruct (Z.eqb_spec (eGeneration (hm_info y)) (eGeneration (hm_info x))) as [->|]; cbn [negb]; [lia|].
    intros H. zb. lia.
Qed.

(** ** What every selection guarantees *)

Record sound (infos : list ESPInfo) (hs : HostSet) : Prop := mkSound {
  s_some : hsMembers hs <> [];
  s_sole : Forall (fun m => sole infos (hm_info m)) (hsMembers hs);
  s_newest : StronglySorted newer (hsMembers hs);
  s_identity : Forall (fun m => ValidMember (hm_info m) = true -> Foreign m = false ->
                 eInstallID (hm_info m) = hsInstallID hs) (hsMembers hs);
  s_marker : Mode hs <> ModeList ->
    Forall (fun m => Foreign m = false /\ CopiedMarker (hm_info m) = false) (hsMembers hs);
  s_member : Mode hs = ModeMember -> Forall (fun m => ValidMember (hm_info m) = true) (hsMembers hs);
  s_expected : UUIDs hs ⊆ Expected hs;
  s_missing : forall u, u ∈ Missing hs <-> u ∈ Expected hs /\ u ∉ UUIDs hs
}.

Lemma sorted_relabel (f : HostMember -> HostMember) l :
  (forall m, hm_info (f m) = hm_info m) -> StronglySorted newer l -> StronglySorted newer (f <$> l).
Proof.
  intros Hf. induction 1 as [|m l Hl IH Hm]; cbn; constructor; [done|].
  apply Forall_fmap. eapply Forall_impl; [exact Hm|]. intros x. unfold newer. cbn. by rewrite !Hf.
Qed.

Lemma elem_of_lfilter {A} (f : A -> bool) (x : A) l : x ∈ List.filter f l <-> x ∈ l /\ f x = true.
Proof. by rewrite !list_elem_of_In, filter_In. Qed.

Lemma selectList_sound infos lst src p hs : selectList infos lst src p = Ok hs -> sound infos hs.
Proof.
  unfold selectList. intros H. destruct (list_loop infos lst [] []) as [[found miss]| |] eqn:El; [|done..].
  cbn [obind] in H. destruct (len found =? 0) eqn:E0; [done|]. zb. injection H as <-.
  apply list_loop_spec in El as (f & m & Hf & Hm & Hs & Hu & Hmiss). cbn in Hf, Hm. subst f m.
  set (ord := orderMembers _ p _).
  assert (ord ≡ₚ (fun i => mkHostMember i false) <$> found) as Hp by apply orderMembers_perm.
  assert (hm_info <$> ord ≡ₚ found) as Hinf.
  { rewrite Hp, <-list_fmap_compose. by rewrite list_fmap_id. }
  assert (forall g : HostMember -> HostMember, (forall m, hm_info (g m) = hm_info m) ->
    hmUUID <$> (g <$> ord) ≡ₚ List.filter (present_uuid infos) lst) as Huu.
  { intros g Hg. rewrite <-Hu, <-Hinf.
    assert (hmUUID <$> (g <$> ord) = eUUID <$> (hm_info <$> ord)) as ->; [|done].
    rewrite <-!list_fmap_compose. apply list_fmap_ext. intros _ x _. unfold hmUUID. cbn. by rewrite Hg. }
  constructor; cbn [hsMembers Mode hsInstallID Expected Missing]; try done.
  - intros Hn%fmap_nil_inv. rewrite Hn in Hinf. apply Permutation_nil_l in Hinf. by subst.
  - apply Forall_fmap. eapply (Forall_impl (fun m => sole infos (hm_info m))); [|by intros].
    rewrite <-(Forall_fmap hm_info (sole infos)). by rewrite Hinf.
  - apply sorted_relabel; [done|]. apply orderMembers_newest.
  - apply Forall_fmap, Forall_forall. intros x _ Hv Hfo. cbn in *. rewrite Hv in Hfo. cbn in Hfo.
    zb. done.
  - unfold UUIDs. cbn [hsMembers]. rewrite Huu by done. intros u Hin.
    by apply elem_of_lfilter in Hin as [? _].
  - intros u. unfold UUIDs. cbn [hsMembers]. rewrite Huu by done. rewrite Hmiss, !elem_of_lfilter.
    destruct (present_uuid infos u); naive_solver.
Qed.

Lemma selectLegacy_sound infos ig hs : selectLegacy infos ig = Ok hs -> sound infos hs.
Proof.
  unfold selectLegacy. intros H.
  assert (forall i, i ∈ legacy_qual infos -> i ∈ List.filter legacy_candidate infos) as Hq.
  { unfold legacy_qual. set (cands := List.filter legacy_candidate infos).
    assert (forall f i, i ∈ List.filter f cands -> i ∈ cands) as Hf by (intros f i [? _]%elem_of_lfilter; done).
    pose proof (Hf (fun i => negb (MemberErr i))) as Hf1. pose proof (Hf MemberErr) as Hf2.
    destruct (List.filter (fun i => negb (MemberErr i)) cands); [|done].
    destruct (List.filter MemberErr cands) as [|b [|]]; [done..|]. intros i Hi. by apply not_elem_of_nil in Hi. }
  destruct (legacy_qual infos) as [|i [|i' ql]]; [done| |].
  - destruct (1 <? _) eqn:E1; [done|]. zb. destruct (beq (ConfigList i) []); cbn [negb] in H.
    + injection H as <-. specialize (Hq i ltac:(by left)). apply elem_of_lfilter in Hq as [Hin Hc].
      unfold legacy_candidate in Hc. zb.
      destruct (eMember i) eqn:Em; [done|].
      assert (ValidMember i = false /\ CopiedMarker i = false) as [Hv Hcp]
        by (unfold ValidMember, CopiedMarker; by rewrite Em).
      pose proof (count_nonempty infos i Hin).
      constructor; cbn [hsMembers Mode hsInstallID Expected Missing]; try done.
      * repeat constructor; cbn; [done|lia].
      * repeat constructor.
      * repeat constructor; cbn; congruence.
      * repeat constructor; cbn; congruence.
      * intros u. cbn. split; [intros Hu; by apply not_elem_of_nil in Hu|]. intros [? ?]. done.
    + destruct (ParseUUIDList _); cbn [owrap obind] in H; [|done..]. by eapply selectList_sound.
  - destruct (agreed_list _ _ _) as [lst agree]. destruct (_ && _); [|done].
    destruct (ParseUUIDList lst); [|done..]. by eapply selectList_sound.
Qed.

Lemma group_elem infos id i : i ∈ group infos id <-> i ∈ infos /\ ValidMember i = true /\ eInstallID i = id.
Proof. unfold group. rewrite elem_of_lfilter, andb_true_iff, beq_true. done. Qed.

Lemma valid_not_copied i : ValidMember i = true -> CopiedMarker i = false.
Proof.
  unfold ValidMember, CopiedMarker. destruct (eMember i); [|done]. rewrite andb_true_iff.
  intros [_ ->]. by rewrite andb_false_r.
Qed.

Lemma selectMember_sound infos ig p id hs : selectMember infos ig p id = Ok hs -> sound infos hs.
Proof.
  unfold selectMember. intros H. set (g := group infos id) in *.
  destruct (List.find _ g) eqn:Ef; [done|].
  assert (Forall (sole infos) g) as Hsole.
  { apply Forall_forall. intros i Hi. pose proof Hi as Hg. apply group_elem in Hg as (Hin & _).
    split; [done|]. pose proof (count_nonempty infos i Hin).
    apply list_elem_of_In in Hi. pose proof (find_none _ _ Ef i Hi) as Hn. cbn in Hn. zb. lia. }
  set (ord := orderMembers _ p _) in *.
  assert (ord ≡ₚ (fun i => mkHostMember i false) <$> g) as Hp by apply orderMembers_perm.
  assert (hm_info <$> ord ≡ₚ g) as Hinf.
  { rewrite Hp, <-list_fmap_compose. by rewrite list_fmap_id. }
  assert (StronglySorted newer ord) as Hsort by apply orderMembers_newest.
  assert (Forall (fun m => hm_info m ∈ g /\ Foreign m = false) ord) as Hall.
  { rewrite Hp. apply Forall_fmap, Forall_forall. done. }
  destruct ord as [|best rest] eqn:Eo; [done|].
  destruct (beq (ConfigList _) []); cbn [negb] in H.
  2: { destruct (ParseUUIDList _); cbn [owrap obind] in H; [|done..]. by eapply selectList_sound. }
  injection H as <-. rewrite <-Eo in *.
  assert (hmUUID <$> ord ≡ₚ eUUID <$> g) as Huu.
  { rewrite <-Hinf, <-list_fmap_compose. done. }
  constructor; cbn [hsMembers Mode hsInstallID Expected Missing].
  - by rewrite Eo.
  - rewrite <-(Forall_fmap hm_info (sole infos)). by rewrite Hinf.
  - done.
  - eapply Forall_impl; [exact Hall|]. intros m [(_ & _ & Hid)%group_elem _] _ _. done.
  - intros _. eapply Forall_impl; [exact Hall|]. intros m [(_ & Hv & _)%group_elem Hf].
    split; [done|by apply valid_not_copied].
  - intros _. eapply Forall_impl; [exact Hall|]. by intros m [(_ & Hv & _)%group_elem _].
  - intros u. unfold UUIDs. cbn [hsMembers]. rewrite Huu, sort_strings_perm, elem_of_remove_dups.
    intros Hu. apply elem_of_app. by right.
  - intros u. unfold UUIDs. cbn [hsMembers]. rewrite Huu, !sort_strings_perm, elem_of_lfilter.
    by rewrite negb_true_iff, bool_decide_eq_false.
Qed.

Lemma SelectHost_inv infos opts hs : SelectHost infos opts = Ok hs -> sound infos hs.
Proof.
  unfold SelectHost. intros H. destruct (0 <? len (opt_List opts)); [by eapply selectList_sound|].
  destruct (group_ids infos) as [|first others]; [by eapply selectLegacy_sound|].
  destruct (_ && stick_rule _ _ _); [by eapply selectLegacy_sound|].
  destruct (marked_primary infos (PrimaryUUID opts)) as [q|].
  - destruct (1 <? _); [done|]. by eapply selectMember_sound.
  - destruct others; [|done]. by eapply selectMember_sound.
Qed.

(** ** Ignored ESPs *)

Lemma sole_unique infos i j : sole infos i -> j ∈ infos -> eUUID j = eUUID i -> j = i.
Proof.
  intros [Hi Hc] Hj He. unfold countUUIDs, len in Hc. rewrite length_fmap in Hc.
  assert (forall x, x ∈ infos -> eUUID x = eUUID i -> x ∈ List.filter (fun x => beq (eUUID x) (eUUID i)) infos) as Hf.
  { intros x Hx E. apply elem_of_lfilter. split; [done|]. rewrite E. apply beq_refl. }
  pose proof (Hf i Hi eq_refl) as H1. pose proof (Hf j Hj He) as H2.
  destruct (List.filter _ infos) as [|a [|b l]]; cbn in Hc; [lia| |lia]. apply list_elem_of_singleton in H1, H2. congruence.
Qed.

Lemma sole_found infos i : sole infos i -> infoByUUID infos (eUUID i) = Some i.
Proof.
  intros Hs. pose proof Hs as [Hi _]. unfold infoByUUID. destruct (List.find _ infos) as [j|] eqn:Ej.
  - apply find_some in Ej as [Hj Hb]. apply beq_true in Hb. f_equal. eapply sole_unique; [done|by apply list_elem_of_In|done].
  - apply list_elem_of_In in Hi. pose proof (find_none _ _ Ej i Hi) as Hn. cbn in Hn. by rewrite beq_refl in Hn.
Qed.

(** An ignored ESP that is not [i] is told apart by its UUID. *)
Definition apart (infos : list ESPInfo) (hs : HostSet) : Prop :=
  forall ig m, ig ∈ hsIgnored hs -> m ∈ hsMembers hs -> eUUID (ig_info ig) <> hmUUID m.

Lemma selectList_apart infos lst src p hs : selectList infos lst src p = Ok hs -> apart infos hs.
Proof.
  intros H. pose proof (selectList_sound _ _ _ _ _ H) as [_ _ _ _ _ _ Hx _]. revert H Hx. unfold selectList.
  destruct (list_loop infos lst [] []) as [[found miss]| |]; [|done..]. cbn [obind]. destruct (len found =? 0); [done|].
  intros [= <-] Hx ig m Hig Hm. cbn [hsIgnored hsMembers Expected] in *. apply list_elem_of_fmap in Hig as (i & -> & Hi).
  apply elem_of_lfilter in Hi as [_ Hb]. apply andb_true_iff in Hb as [Hb _]. apply negb_true_iff, bool_decide_eq_false in Hb.
  cbn. intros E. apply Hb. rewrite E. apply Hx. unfold UUIDs. cbn [hsMembers]. by apply list_elem_of_fmap_2.
Qed.

Lemma first_ignored_elem infos ig :
  ig ∈ first_ignored infos -> ig_info ig ∈ infos /\ ValidMember (ig_info ig) = false /\ (eMember (ig_info ig) <> None \/ MemberErr (ig_info ig) = true).
Proof.
  unfold first_ignored. rewrite list_elem_of_omap. intros (i & Hi & E). destruct (ValidMember i) eqn:Ev; [done|].
  destruct (CopiedMarker i) eqn:Ec; [injection E as <-; split_and!; [done|done|]; left|
    destruct (MemberErr i) eqn:Ee; [injection E as <-; split_and!; [done|done|by right]|done]].
  unfold CopiedMarker in Ec. cbn. by destruct (eMember i).
Qed.

Lemma selectLegacy_apart infos ig hs :
  (forall x, x ∈ ig -> ig_info x ∈ infos /\ (eMember (ig_info x) <> None \/ MemberErr (ig_info x) = true)) ->
  selectLegacy infos ig = Ok hs -> apart infos hs.
Proof.
  intros Hig H. unfold selectLegacy in H. destruct (legacy_qual infos) as [|i [|j l]] eqn:Eq; [done| |].
  - destruct (1 <? _) eqn:Ec; [done|]. destruct (negb (beq (ConfigList i) [])).
    { destruct (ParseUUIDList _); cbn [owrap obind] in H; [|done..]. by eapply selectList_apart. }
    injection H as <-. intros x m Hx Hm. cbn [hsIgnored hsMembers] in *. apply list_elem_of_singleton in Hm as ->. cbn.
    assert (i ∈ legacy_qual infos) as Hq by (rewrite Eq; by left).
    unfold legacy_qual in Hq, Eq. unfold legacy_ignored in Hx. set (cands := List.filter legacy_candidate infos) in *.
    assert (forall q, q ∈ cands -> q ∈ infos /\ eMember q = None) as Hc.
    { intros q Hq'. subst cands. apply elem_of_lfilter in Hq' as [Hin Hb]. split; [done|]. unfold legacy_candidate in Hb.
      apply andb_true_iff in Hb as [_ Hb]. by destruct (eMember q). }
    destruct (List.filter (fun i => negb (MemberErr i)) cands) as [|q0 qs] eqn:E0.
    + destruct (List.filter MemberErr cands) as [|b [|b' bs]] eqn:Eb; [done| |done]. injection Eq as ->.
      apply elem_of_lfilter in Hx as [_ Hb]. intros E. rewrite E, beq_refl in Hb. done.
    + assert (i ∈ List.filter (fun i => negb (MemberErr i)) cands) as Hi by (rewrite E0; destruct (List.filter MemberErr cands) as [|? [|]]; done).
      apply elem_of_lfilter in Hi as [Hi He]. destruct (Hc _ Hi) as [Hin Hmem]. apply negb_true_iff in He.
      assert (x ∈ ig) as Hx' by (destruct (List.filter MemberErr cands) as [|? [|]]; done). destruct (Hig _ Hx') as [Hxi Hxm].
      intros E. assert (ig_info x = i) as Es; [|rewrite Es in Hxm; by destruct Hxm; congruence].
      eapply sole_unique; [|done|done]. split; [done|]. pose proof (count_nonempty infos i Hin). zb. lia.
  - destruct (agreed_list _ _ _) as [lst agree]. destruct (_ && _); [|done].
    destruct (ParseUUIDList lst); [|done..]. by eapply selectList_apart.
Qed.

Lemma selectMember_apart infos p id hs : selectMember infos (first_ignored infos) p id = Ok hs -> apart infos hs.
Proof.
  intros H. pose proof (selectMember_sound _ _ _ _ _ H) as [_ Hs _ _ _ _ _ _]. unfold selectMember in H. set (g := group infos id) in *.
  destruct (List.find _ g) eqn:Ef; [done|]. set (ord := orderMembers _ p _) in *.
  assert (ord ≡ₚ (fun i => mkHostMember i false) <$> g) as Hp by apply orderMembers_perm.
  destruct ord as [|best rest] eqn:Eo; [done|]. destruct (negb (beq (ConfigList _) [])).
  { destruct (ParseUUIDList _); cbn [owrap obind] in H; [|done..]. by eapply selectList_apart. }
  injection H as <-. intros x m Hx Hm E. cbn [hsIgnored hsMembers] in *. rewrite Forall_forall in Hs. pose proof (Hs _ Hm) as Hsm.
  rewrite Hp in Hm. apply list_elem_of_fmap in Hm as (i & -> & Hi). cbn in *. unfold hmUUID in E. cbn in E.
  apply elem_of_app in Hx as [Hx|Hx].
  - apply first_ignored_elem in Hx as (Hin & Hv & _). pose proof (sole_unique _ _ _ Hsm Hin E) as Es. rewrite Es in Hv.
    apply group_elem in Hi as (_ & Hv' & _). congruence.
  - apply list_elem_of_omap in Hx as (j & _ & Hj). assert (eUUID j ∈ eUUID <$> g) as Hjg.
    { assert (ig_info x = j) as <- by (repeat case_match; try done; by injection Hj as <-). rewrite E. by apply list_elem_of_fmap_2. }
    rewrite bool_decide_true in Hj by done. done.
Qed.

(** No ignored ESP has the UUID of a member. *)
Lemma SelectHost_apart infos opts hs : SelectHost infos opts = Ok hs -> apart infos hs.
Proof.
  unfold SelectHost. intros H. destruct (0 <? len (opt_List opts)); [by eapply selectList_apart|].
  assert (forall x, x ∈ first_ignored infos -> ig_info x ∈ infos /\ (eMember (ig_info x) <> None \/ MemberErr (ig_info x) = true)) as Hf.
  { intros x Hx. by apply first_ignored_elem in Hx as (? & _ & ?). }
  destruct (group_ids infos) as [|first others]; [by eapply selectLegacy_apart|].
  destruct (_ && stick_rule _ _ _).
  { eapply selectLegacy_apart; [|exact H]. intros x Hx. apply elem_of_app in Hx as [Hx|Hx]; [by apply Hf|].
    apply list_elem_of_fmap in Hx as (i & -> & Hi). apply group_elem in Hi as (Hi & Hv & _). cbn. split; [done|left].
    unfold ValidMember in Hv. by destruct (eMember i). }
  destruct (marked_primary infos (PrimaryUUID opts)) as [q|].
  - destruct (1 <? _); [done|]. by eapply selectMember_apart.
  - destruct others; [|done]. by eapply selectMember_apart.
Qed.

(** ** The selection never panics *)

Lemma ParseUUIDList_safe v : safe (ParseUUIDList v).
Proof.
  unfold ParseUUIDList. destruct (beq _ []); [done|]. generalize (@nil bytes) at 2 as out. generalize (@nil bytes) as seen.
  induction (split x2c v) as [|p ps IH]; intros seen out; cbn [parse_uuids]; [done|].
  unfold NormalizeFATUUID. destruct (negb _); cbn [obind]; [done|]. destruct (bool_decide _); [done|]. apply IH.
Qed.

Lemma selectList_safe infos lst src p : safe (selectList infos lst src p).
Proof.
  unfold selectList. assert (forall missing members, safe (list_loop infos lst missing members)) as Hl.
  { induction lst as [|u lst IH]; intros missing members; cbn [list_loop]; [done|].
    destruct (countUUIDs infos u) as [|d [|d' ds]] eqn:Ec; [apply IH| |done].
    destruct (infoByUUID infos u) as [i|] eqn:Ei; [apply IH|]. exfalso. unfold countUUIDs in Ec.
    destruct (List.filter (fun i => beq (eUUID i) u) infos) as [|j l] eqn:Ef; [done|].
    assert (In j (List.filter (fun i => beq (eUUID i) u) infos)) as Hj by (rewrite Ef; by left).
    apply filter_In in Hj as [Hj Hb]. pose proof (find_none _ _ Ei j Hj). congruence. }
  specialize (Hl [] []). destruct (list_loop infos lst [] []) as [[found miss]| |]; cbn [obind]; [|done..].
  by destruct (len found =? 0).
Qed.

Lemma selectMember_safe infos ig p id : group infos id <> [] -> safe (selectMember infos ig p id).
Proof.
  intros Hg. unfold selectMember. destruct (List.find _ _); [done|]. set (ord := orderMembers _ p _).
  assert (ord ≡ₚ (fun i => mkHostMember i false) <$> group infos id) as Hp by apply orderMembers_perm.
  destruct ord as [|best rest]; [apply Permutation_nil_l in Hp; by destruct (group infos id)|].
  destruct (negb _); [|done]. pose proof (ParseUUIDList_safe (ConfigList (hm_info best))) as Hl.
  destruct (ParseUUIDList _); cbn [owrap obind]; [apply selectList_safe|done|done].
Qed.

Lemma selectLegacy_safe infos ig : safe (selectLegacy infos ig).
Proof.
  unfold selectLegacy. destruct (legacy_qual infos) as [|i [|j l]]; [done| |].
  - destruct (1 <? _); [done|]. destruct (negb _); [|done]. pose proof (ParseUUIDList_safe (ConfigList i)) as Hl.
    destruct (ParseUUIDList _); cbn [owrap obind]; [apply selectList_safe|done|done].
  - destruct (agreed_list _ _ _) as [lst agree]. destruct (_ && _); [|done]. pose proof (ParseUUIDList_safe lst) as Hl.
    destruct (ParseUUIDList lst); [apply selectList_safe|done|done].
Qed.

Lemma SelectHost_safe infos opts : safe (SelectHost infos opts).
Proof.
  unfold SelectHost. destruct (0 <? _); [apply selectList_safe|]. destruct (group_ids infos) as [|first others] eqn:Eg; [apply selectLegacy_safe|].
  destruct (_ && stick_rule _ _ _); [apply selectLegacy_safe|]. destruct (marked_primary infos _) as [q|] eqn:Eq.
  - destruct (1 <? _); [done|]. apply selectMember_safe. unfold marked_primary in Eq.
    destruct (infoByUUID infos _) as [p|] eqn:Ep; [|done]. destruct (_ && ValidMember p) eqn:Ev; [|done]. injection Eq as <-.
    apply infoByUUID_Some in Ep as [Hp _]. apply andb_true_iff in Ev as [_ Ev].
    assert (p ∈ group infos (eInstallID p)) as Hin by (by apply group_elem). intros E. rewrite E in Hin. by apply elem_of_nil in Hin.
  - destruct others; [|done]. apply selectMember_safe. assert (first ∈ group_ids infos) as Hf by (rewrite Eg; by left).
    unfold group_ids in Hf. apply elem_of_remove_dups, list_elem_of_fmap in Hf as (i & -> & Hi). apply elem_of_lfilter in Hi as [Hi Hv].
    assert (i ∈ group infos (eInstallID i)) as Hin by (by apply group_elem). intros E. rewrite E in Hin. by apply elem_of_nil in Hin.
Qed.

(** ** Independence of the enumeration order *)

(** The order of [orderMembers] on a list where all members have a rank, or
none has: a lexicographic key that ends in the UUID. *)
Definition key_less (primary : bytes) (rk : bytes -> Z) (a b : HostMember) : bool :=
  let ga := eGeneration (hm_info a) in let gb := eGeneration (hm_info b) in
  if negb (ga =? gb) then gb <? ga else
  let pa := beq (hmUUID a) primary in let pb := beq (hmUUID b) primary in
  if negb (Bool.eqb pa pb) then pa else
  if negb (rk (hmUUID a) =? rk (hmUUID b)) then rk (hmUUID a) <? rk (hmUUID b)
  else bytes_ltb (hmUUID a) (hmUUID b).

Definition key_le (primary : bytes) (rk : bytes -> Z) (a b : HostMember) : Prop :=
  key_less primary rk b a = false.

Lemma key_le_trans primary rk : Transitive (key_le primary rk).
Proof.
  intros a b c. unfold key_le, key_less.
  pose proof (bytes_le_trans (hmUUID a) (hmUUID b) (hmUUID c)) as Hb. unfold bytes_le in Hb.
  destruct (Z.eqb_spec (eGeneration (hm_info b)) (eGeneration (hm_info a))),
    (Z.eqb_spec (eGeneration (hm_info c)) (eGeneration (hm_info b))),
    (Z.eqb_spec (eGeneration (hm_info c)) (eGeneration (hm_info a))); cbn [negb];
    rewrite ?Z.ltb_ge; try lia.
  destruct (beq (hmUUID a) primary), (beq (hmUUID b) primary), (beq (hmUUID c) primary); cbn [Bool.eqb negb];
    try done;
  destruct (Z.eqb_spec (rk (hmUUID b)) (rk (hmUUID a))),
    (Z.eqb_spec (rk (hmUUID c)) (rk (hmUUID b))),
    (Z.eqb_spec (rk (hmUUID c)) (rk (hmUUID a))); cbn [negb];
    rewrite ?Z.ltb_ge; try lia; auto.
Qed.

Lemma key_le_uuid primary rk a b : key_le primary rk a b -> key_le primary rk b a -> hmUUID a = hmUUID b.
Proof.
  unfold key_le, key_less.
  destruct (Z.eqb_spec (eGeneration (hm_info b)) (eGeneration (hm_info a))) as [Hg|Hg].
  - rewrite Hg, Z.eqb_refl. cbn [negb].
    destruct (beq (hmUUID a) primary), (beq (hmUUID b) primary); cbn [Bool.eqb negb]; try done;
    (destruct (Z.eqb_spec (rk (hmUUID b)) (rk (hmUUID a))) as [Hr|Hr];
      [rewrite Hr, Z.eqb_refl; cbn [negb]; intros; apply (anti_symm bytes_le); done
      |rewrite (proj2 (Z.eqb_neq (rk (hmUUID a)) _)) by lia; cbn [negb]; rewrite !Z.ltb_ge; lia]).
  - rewrite (proj2 (Z.eqb_neq (eGeneration (hm_info a)) _)) by lia. cbn [negb]. rewrite !Z.ltb_ge. lia.
Qed.

Lemma key_less_asym primary rk a b : key_less primary rk a b = true -> key_less primary rk b a = false.
Proof.
  unfold key_less.
  destruct (Z.eqb_spec (eGeneration (hm_info b)) (eGeneration (hm_info a))) as [Hg|Hg].
  - rewrite Hg, Z.eqb_refl. cbn [negb].
    destruct (beq (hmUUID a) primary), (beq (hmUUID b) primary); cbn [Bool.eqb negb]; try done;
    (destruct (Z.eqb_spec (rk (hmUUID b)) (rk (hmUUID a))) as [Hr|Hr];
      [rewrite Hr, Z.eqb_refl; cbn [negb]; apply bytes_ltb_asym
      |rewrite (proj2 (Z.eqb_neq (rk (hmUUID a)) _)) by lia; cbn [negb]; rewrite Z.ltb_lt, Z.ltb_ge; lia]).
  - rewrite (proj2 (Z.eqb_neq (eGeneration (hm_info a)) _)) by lia. cbn [negb]. rewrite Z.ltb_lt, Z.ltb_ge. lia.
Qed.

Lemma sort_stable_ext {A} (f g : A -> A -> bool) l :
  (forall x y, x ∈ l -> y ∈ l -> f x y = g x y) -> sort_stable f l = sort_stable g l.
Proof.
  induction l as [|x l IH]; intros H; [done|]. cbn [sort_stable foldr].
  fold (sort_stable f l) (sort_stable g l). rewrite IH by (intros; apply H; by right).
  assert (forall y, y ∈ sort_stable g l -> f y x = g y x) as Hx.
  { intros y Hy. rewrite sort_stable_perm in Hy. apply H; [by right|by left]. }
  revert Hx. generalize (sort_stable g l) as s. induction s as [|y s IHs]; intros Hx; cbn; [done|].
  rewrite Hx by (by left). rewrite IHs; [done|]. intros z Hz. apply Hx. by right.
Qed.

(** All ranked, or none. *)
Definition ranked (rank : bytes -> option Z) (us : list bytes) : Prop :=
  (forall u, u ∈ us -> is_Some (rank u)) \/ (forall u, u ∈ us -> rank u = None).

Lemma order_key ms p rank :
  ranked rank (hmUUID <$> ms) ->
  orderMembers ms p rank = sort_stable (key_less p (fun u => default 0 (rank u))) ms.
Proof.
  intros Hr. apply sort_stable_ext. intros x y Hx Hy. unfold member_less, key_less.
  destruct (negb _); [done|]. destruct (negb _); [done|].
  apply (list_elem_of_fmap_2 hmUUID) in Hx, Hy. destruct Hr as [Hr|Hr].
  - destruct (Hr _ Hx) as [rx ->], (Hr _ Hy) as [ry ->]. done.
  - by rewrite !Hr, Z.eqb_refl.
Qed.

Lemma NoDup_key {A B} (f : A -> B) l x y : NoDup (f <$> l) -> x ∈ l -> y ∈ l -> f x = f y -> x = y.
Proof.
  intros Hnd [i Hi]%list_elem_of_lookup [j Hj]%list_elem_of_lookup Hf.
  assert (i = j) as ->; [|congruence].
  eapply (NoDup_lookup (f <$> l)); [done|by rewrite list_lookup_fmap, Hi|].
  rewrite list_lookup_fmap, Hj. cbn. by rewrite Hf.
Qed.

Lemma order_unique ms ms' p rank :
  ms ≡ₚ ms' -> NoDup (hmUUID <$> ms) -> ranked rank (hmUUID <$> ms) ->
  orderMembers ms p rank = orderMembers ms' p rank.
Proof.
  intros Hp Hnd Hr. assert (ranked rank (hmUUID <$> ms')) as Hr'.
  { unfold ranked. by setoid_rewrite <-Hp. }
  rewrite !order_key by done. set (less := key_less _ _).
  apply (StronglySorted_unique_strong (key_le p (fun u => default 0 (rank u)))).
  - intros x y Hx Hy H1 H2. rewrite sort_stable_perm in Hx, Hy. rewrite <-Hp in Hy.
    apply (NoDup_key hmUUID ms); eauto using key_le_uuid.
  - apply sort_stable_sorted; [apply key_le_trans|]. apply key_less_asym.
  - apply sort_stable_sorted; [apply key_le_trans|]. apply key_less_asym.
  - by rewrite !sort_stable_perm.
Qed.

(** Two selections that differ at most in the order of what they ignored. *)
Definition same_set (h h' : HostSet) : Prop :=
  Mode h = Mode h' /\ ListSource h = ListSource h' /\ hsInstallID h = hsInstallID h' /\
  hsMembers h = hsMembers h' /\ Expected h = Expected h' /\ Missing h = Missing h'.

Definition same_result (a b : outcome select_error HostSet) : Prop :=
  match a, b with
  | Ok h, Ok h' => same_set h h'
  | Err _, Err _ => True
  | Panic, Panic => True
  | _, _ => False
  end.

Lemma filter_uuid_short (infos : list ESPInfo) u :
  NoDup (eUUID <$> infos) -> (length (List.filter (fun i => beq (eUUID i) u) infos) <= 1)%nat.
Proof.
  induction infos as [|i l IH]; cbn; intros Hnd; [lia|]. apply NoDup_cons in Hnd as [Hi Hl].
  destruct (beq (eUUID i) u) eqn:E; [|by apply IH]. zb. subst u. cbn.
  assert (List.filter (fun j => beq (eUUID j) (eUUID i)) l = []) as ->; [|cbn; lia].
  clear IH Hl. induction l as [|j l IH]; [done|]. cbn. cbn in Hi. apply not_elem_of_cons in Hi as [H1 H2].
  rewrite (proj2 (beq_false _ _)) by congruence. auto.
Qed.

Section order.
Context (infos infos' : list ESPInfo) (Hp : infos ≡ₚ infos') (Hnd : NoDup (eUUID <$> infos)).

Lemma count_eq u : countUUIDs infos u = countUUIDs infos' u.
Proof.
  unfold countUUIDs. f_equal. pose proof (filter_perm (fun i => beq (eUUID i) u) _ _ Hp) as H.
  pose proof (filter_uuid_short infos u Hnd) as Hs.
  destruct (List.filter _ infos) as [|x [|y l]]; cbn in Hs; [| |lia].
  - by apply Permutation_nil_l in H.
  - by apply Permutation_singleton_l in H.
Qed.

Lemma find_eq u : infoByUUID infos u = infoByUUID infos' u.
Proof.
  destruct (infoByUUID infos u) as [i|] eqn:E1, (infoByUUID infos' u) as [j|] eqn:E2; [| | |done].
  - apply infoByUUID_Some in E1 as [H1 H2], E2 as [H3 H4]. rewrite <-Hp in H3. f_equal.
    apply (NoDup_key eUUID infos); congruence.
  - apply infoByUUID_Some in E1 as [H1 H2]. rewrite Hp in H1. apply list_elem_of_In in H1.
    pose proof (find_none _ _ E2 i H1) as Hn. cbn in Hn. by rewrite H2, beq_refl in Hn.
  - apply infoByUUID_Some in E2 as [H1 H2]. rewrite <-Hp in H1. apply list_elem_of_In in H1.
    pose proof (find_none _ _ E1 j H1) as Hn. cbn in Hn. by rewrite H2, beq_refl in Hn.
Qed.

Lemma list_loop_eq lst missing members :
  list_loop infos lst missing members = list_loop infos' lst missing members.
Proof.
  revert missing members. induction lst as [|u lst IH]; intros missing members; [done|]. cbn [list_loop].
  rewrite count_eq, find_eq. destruct (countUUIDs infos' u) as [|? [|]]; [done| |done].
  by destruct (infoByUUID infos' u).
Qed.

Lemma list_identity_eq lst : list_identity infos lst = list_identity infos' lst.
Proof.
  unfold list_identity. induction lst as [|u lst IH]; [done|]. cbn [omap list_omap].
  rewrite find_eq, count_eq. destruct (infoByUUID infos' u) as [i|]; cbn; [|done].
  by destruct (_ && _).
Qed.

Lemma selectList_order lst src p : same_result (selectList infos lst src p) (selectList infos' lst src p).
Proof.
  unfold selectList. rewrite list_loop_eq, list_identity_eq.
  destruct (list_loop infos' lst [] []) as [[found miss]| |]; cbn [obind]; [|done..].
  destruct (len found =? 0); [done|]. done.
Qed.

Lemma existsb_perm (f : ESPInfo -> bool) l l' : l ≡ₚ l' -> existsb f l = existsb f l'.
Proof.
  induction 1 as [|x l l' H IH|x y l|l l' l'' H1 IH1 H2 IH2]; cbn; [done|by rewrite IH| |congruence].
  by rewrite !orb_assoc, (orb_comm (f y)).
Qed.

Lemma len_perm {A} (l l' : list A) : l ≡ₚ l' -> len l = len l'.
Proof. intros H. unfold len. by rewrite H. Qed.

Lemma sort_uuid_eq l l' : l ≡ₚ l' -> NoDup (eUUID <$> l) -> sort_stable uuid_less l = sort_stable uuid_less l'.
Proof.
  intros Hl Hn. apply (StronglySorted_unique_strong (not_after uuid_less)).
  - intros x y Hx Hy H1 H2. rewrite sort_stable_perm in Hx, Hy. rewrite <-Hl in Hy.
    apply (NoDup_key eUUID l); [done..|]. by apply (anti_symm bytes_le).
  - apply sort_stable_sorted; [|intros ? ?; apply bytes_ltb_asym].
    intros a b c. apply (bytes_le_trans (eUUID a) (eUUID b) (eUUID c)).
  - apply sort_stable_sorted; [|intros ? ?; apply bytes_ltb_asym].
    intros a b c. apply (bytes_le_trans (eUUID a) (eUUID b) (eUUID c)).
  - by rewrite !sort_stable_perm.
Qed.

Lemma NoDup_filter_key (f : ESPInfo -> bool) l : NoDup (eUUID <$> l) -> NoDup (eUUID <$> List.filter f l).
Proof.
  induction l as [|x l IH]; cbn; intros H; [done|]. apply NoDup_cons in H as [Hx Hl].
  destruct (f x); [|auto]. cbn. constructor; [|auto]. intros Hin. apply Hx.
  apply list_elem_of_fmap in Hin as (y & -> & Hy). apply elem_of_lfilter in Hy as [Hy _].
  by apply list_elem_of_fmap_2.
Qed.

Lemma legacy_qual_perm : legacy_qual infos ≡ₚ legacy_qual infos'.
Proof.
  unfold legacy_qual. pose proof (filter_perm legacy_candidate _ _ Hp) as Hc.
  pose proof (filter_perm (fun i => negb (MemberErr i)) _ _ Hc) as Hq.
  pose proof (filter_perm MemberErr _ _ Hc) as Hb.
  destruct (List.filter (fun i => negb (MemberErr i)) (List.filter _ infos)) as [|q ql].
  - apply Permutation_nil_l in Hq. rewrite <-Hq.
    destruct (List.filter MemberErr (List.filter _ infos)) as [|b [|b' bl]].
    + apply Permutation_nil_l in Hb. by rewrite <-Hb.
    + apply Permutation_singleton_l in Hb. by rewrite <-Hb.
    + apply Permutation_length in Hb.
      destruct (List.filter MemberErr (List.filter _ infos')) as [|c [|c' cl]]; done.
  - destruct (List.filter (fun i => negb (MemberErr i)) (List.filter _ infos')) as [|q' ql'] eqn:E; [|done].
    by apply Permutation_nil_r in Hq.
Qed.

Lemma NoDup_legacy : NoDup (eUUID <$> legacy_qual infos).
Proof.
  unfold legacy_qual. destruct (List.filter (fun i => negb (MemberErr i)) _) as [|q l] eqn:E.
  - destruct (List.filter MemberErr _) as [|b [|]]; cbn; [constructor|apply NoDup_singleton|constructor].
  - rewrite <-E. by apply NoDup_filter_key, NoDup_filter_key.
Qed.

Lemma selectLegacy_order ig ig' : same_result (selectLegacy infos ig) (selectLegacy infos' ig').
Proof.
  unfold selectLegacy. pose proof legacy_qual_perm as Hq. pose proof NoDup_legacy as Hn.
  destruct (legacy_qual infos) as [|i [|j l]].
  - apply Permutation_nil_l in Hq. by rewrite <-Hq.
  - apply Permutation_singleton_l in Hq. rewrite <-Hq, <-count_eq.
    destruct (1 <? _); [done|]. destruct (negb _); [|done].
    destruct (ParseUUIDList _); cbn [owrap obind]; [|done..]. apply selectList_order.
  - assert (exists i' j' l', legacy_qual infos' = i' :: j' :: l') as (i' & j' & l' & Hl').
    { apply Permutation_length in Hq. destruct (legacy_qual infos') as [|i' [|j' l']]; try done. eauto. }
    rewrite Hl'. rewrite Hl' in Hq. rewrite (sort_uuid_eq _ _ Hq Hn).
    destruct (agreed_list _ _ _) as [lst agree]. destruct (_ && _); [|done].
    destruct (ParseUUIDList lst); [apply selectList_order|done..].
Qed.

Lemma group_perm id : group infos id ≡ₚ group infos' id.
Proof. by apply filter_perm. Qed.

Lemma stick_rule_eq b id : stick_rule infos b (group infos id) = stick_rule infos' b (group infos' id).
Proof.
  unfold stick_rule. rewrite (existsb_perm _ _ _ (group_perm id)), (existsb_perm _ _ _ Hp).
  by rewrite (len_perm _ _ (group_perm id)).
Qed.

Lemma marked_primary_eq p : marked_primary infos p = marked_primary infos' p.
Proof. unfold marked_primary. by rewrite find_eq. Qed.

Lemma find_dup_none id :
  List.find (fun i => 1 <? len (countUUIDs infos (eUUID i))) (group infos id) = None.
Proof.
  destruct (List.find _ _) as [i|] eqn:E; [|done]. apply find_some in E as [_ E]. zb.
  unfold countUUIDs in E. unfold len in E. rewrite length_fmap in E.
  pose proof (filter_uuid_short infos (eUUID i) Hnd). lia.
Qed.

Lemma group_members_eq p id :
  orderMembers ((fun i => mkHostMember i false) <$> group infos id) p (fun _ => None) =
  orderMembers ((fun i => mkHostMember i false) <$> group infos' id) p (fun _ => None).
Proof.
  apply order_unique; [by rewrite (group_perm id)| |by right].
  rewrite <-list_fmap_compose. by apply NoDup_filter_key.
Qed.

End order.

Lemma selectMember_order infos infos' ig ig' p id :
  infos ≡ₚ infos' -> NoDup (eUUID <$> infos) ->
  same_result (selectMember infos ig p id) (selectMember infos' ig' p id).
Proof.
  intros Hp Hnd. assert (NoDup (eUUID <$> infos')) as Hnd' by (by rewrite <-Hp).
  unfold selectMember. rewrite (find_dup_none infos Hnd), (find_dup_none infos' Hnd').
  rewrite (group_members_eq infos infos' Hp Hnd).
  destruct (orderMembers _ p _) as [|best rest]; [done|].
  destruct (negb _).
  - destruct (ParseUUIDList _); cbn [owrap obind]; [|done..]. by apply selectList_order.
  - assert (eUUID <$> group infos id ≡ₚ eUUID <$> group infos' id) as Hg by (by rewrite (group_perm infos infos' Hp)).
    assert (forall l : list bytes, remove_dups (l ++ (eUUID <$> group infos id))
              ≡ₚ remove_dups (l ++ (eUUID <$> group infos' id))) as Hr.
    { intros l. apply NoDup_Permutation; [apply NoDup_remove_dups..|].
      intros x. rewrite !elem_of_remove_dups, !elem_of_app. by rewrite Hg. }
    cbn [same_result]. unfold same_set. cbn [Mode ListSource hsInstallID hsMembers Expected Missing].
    split_and!; try done.
    + by apply sort_strings_unique.
    + apply sort_strings_unique. rewrite (filter_perm _ _ _ (Hr _)).
      assert (forall l : list bytes, List.filter (fun u => negb (bool_decide (u ∈ eUUID <$> group infos id))) l
        = List.filter (fun u => negb (bool_decide (u ∈ eUUID <$> group infos' id))) l) as ->; [|done].
      intros l. apply List.filter_ext. intros u. f_equal. apply bool_decide_ext. by rewrite Hg.
Qed.

Lemma group_ids_perm infos infos' : infos ≡ₚ infos' -> group_ids infos ≡ₚ group_ids infos'.
Proof.
  intros Hp. unfold group_ids. apply NoDup_Permutation; [apply NoDup_remove_dups..|].
  intros x. rewrite !elem_of_remove_dups. by rewrite (filter_perm ValidMember _ _ Hp).
Qed.

(** C30 - The selection does not depend on device enumeration order: for any two
orders of the same volumes (their UUIDs distinct), either both runs fail or
both give the same mode, install id, members in the same order, expected and
missing lists. Device names, which can swap between boots, play no part. *)
Theorem SelectHost_order (infos infos' : list ESPInfo) (opts : SelectOpts)
  (Hp : infos ≡ₚ infos') (Hnd : NoDup (eUUID <$> infos)) :
  same_result (SelectHost infos opts) (SelectHost infos' opts).
Proof.
  unfold SelectHost. destruct (0 <? len (opt_List opts)); [by apply selectList_order|].
  pose proof (group_ids_perm _ _ Hp) as Hids.
  rewrite <-(marked_primary_eq infos infos' Hp Hnd).
  destruct (group_ids infos) as [|id [|id2 ids]].
  - apply Permutation_nil_l in Hids. rewrite <-Hids. by apply selectLegacy_order.
  - apply Permutation_singleton_l in Hids. rewrite <-Hids. cbn [andb].
    rewrite <-(stick_rule_eq infos infos' Hp).
    destruct (stick_rule _ _ _); [by apply selectLegacy_order|].
    destruct (marked_primary infos (PrimaryUUID opts)) as [q|].
    + rewrite <-(count_eq infos infos' Hp Hnd). destruct (1 <? _); [done|]. by apply selectMember_order.
    + by apply selectMember_order.
  - assert (exists i j l, group_ids infos' = i :: j :: l) as (i & j & l & ->).
    { apply Permutation_length in Hids. destruct (group_ids infos') as [|i [|j l]]; try done. eauto. }
    cbn [andb]. destruct (marked_primary infos (PrimaryUUID opts)) as [q|]; [|done].
    rewrite <-(count_eq infos infos' Hp Hnd). destruct (1 <? _); [done|]. by apply selectMember_order.
Qed.

(** ** Properties *)

(** No clones: every ESP selected is in the scan and is the only device with
its FAT UUID (a dd clone is refused, never picked), and the set is not empty. *)
Theorem SelectHost_sole (infos : list ESPInfo) (opts : SelectOpts) (hs : HostSet)
  (H : SelectHost infos opts = Ok hs) :
  hsMembers hs <> [] /\ Forall (fun m => sole infos (hm_info m)) (hsMembers hs).
Proof. apply SelectHost_inv in H. by destruct H. Qed.

(** Identity: every validly marked member carries the set's install id or is
flagged foreign; outside list mode no member is foreign or has a marker copied
from another ESP, and in member mode every member is validly marked. *)
Theorem SelectHost_identity (infos : list ESPInfo) (opts : SelectOpts) (hs : HostSet)
  (H : SelectHost infos opts = Ok hs) :
  Forall (fun m =>
    (ValidMember (hm_info m) = true -> Foreign m = true \/ eInstallID (hm_info m) = hsInstallID hs) /\
    (Mode hs <> ModeList -> Foreign m = false /\ CopiedMarker (hm_info m) = false) /\
    (Mode hs = ModeMember -> ValidMember (hm_info m) = true)) (hsMembers hs).
Proof.
  apply SelectHost_inv in H as [_ _ _ Hid Hmk Hmem _ _]. apply Forall_forall. intros m Hm.
  rewrite Forall_forall in Hid. split_and!.
  - intros Hv. destruct (Foreign m) eqn:E; [by left|]. right. by apply Hid.
  - intros Hmode. specialize (Hmk Hmode). rewrite Forall_forall in Hmk. by apply Hmk.
  - intros Hmode. specialize (Hmem Hmode). rewrite Forall_forall in Hmem. by apply Hmem.
Qed.

(** Newest first: the members are ordered by falling generation, so the
first one, whose config and keys are used, has the set's highest generation. *)
Theorem SelectHost_newest (infos : list ESPInfo) (opts : SelectOpts) (hs : HostSet)
  (H : SelectHost infos opts = Ok hs) :
  exists best rest, hsMembers hs = best :: rest /\
    Forall (fun m => eGeneration (hm_info m) <= eGeneration (hm_info best)) (hsMembers hs).
Proof.
  apply SelectHost_inv in H as [Hne _ Hs _ _ _ _ _]. destruct (hsMembers hs) as [|best rest]; [done|].
  exists best, rest. split; [done|]. apply StronglySorted_inv in Hs as [_ Hf]. constructor; [lia|done].
Qed.

(** Expected and missing: every present member is expected, and the missing
UUIDs are exactly the expected ones that are not present. *)
Theorem SelectHost_missing (infos : list ESPInfo) (opts : SelectOpts) (hs : HostSet)
  (H : SelectHost infos opts = Ok hs) :
  (forall u, u ∈ UUIDs hs -> u ∈ Expected hs) /\
  (forall u, u ∈ Missing hs <-> u ∈ Expected hs /\ u ∉ UUIDs hs).
Proof. apply SelectHost_inv in H as [_ _ _ _ _ _ Hx Hm]. done. Qed.

(** ** A mirrored host with a foreign stick *)

Definition mirror_member (uuid : bytes) (gen : Z) : Member :=
  mkMember (bs "0123abcd-1111-4222-8333-0123456789ab") gen uuid
    [bs "AAAA-0001"; bs "AAAA-0002"; bs "AAAA-0003"] [] [] [].
Definition mirror_esp (dev uuid : bytes) (gen : Z) : ESPInfo :=
  mkESPInfo (mkFATVolume dev uuid (bs "EFI")) true true (Some (mirror_member uuid gen)) false [] false.
Definition stick : ESPInfo :=
  mkESPInfo (mkFATVolume (bs "/dev/sdc1") (bs "CCCC-0009") (bs "EFI")) true true
    (Some (mkMember (bs "ffffffff-1111-4222-8333-0123456789ab") 99 (bs "CCCC-0009") [] [] [] [])) false [] false.
Definition mirror_infos : list ESPInfo :=
  [mirror_esp (bs "/dev/sda1") (bs "AAAA-0001") 6; stick; mirror_esp (bs "/dev/sdb1") (bs "AAAA-0002") 7].
Definition mirror_opts : SelectOpts := mkSelectOpts [] [] (bs "AAAA-0001").
Definition mirror_set : HostSet :=
  mkHostSet ModeMember SrcNone (bs "0123abcd-1111-4222-8333-0123456789ab")
    [mkHostMember (mirror_esp (bs "/dev/sdb1") (bs "AAAA-0002") 7) false;
     mkHostMember (mirror_esp (bs "/dev/sda1") (bs "AAAA-0001") 6) false]
    [bs "AAAA-0001"; bs "AAAA-0002"; bs "AAAA-0003"] [bs "AAAA-0003"]
    [mkIgnored stick (ROtherInstall (bs "ffffffff-1111-4222-8333-0123456789ab"))].

Lemma mirror_selected : SelectHost mirror_infos mirror_opts = Ok mirror_set.
Proof. vm_compute. reflexivity. Qed.

Lemma SelectHost_sole_witness : Forall (fun m => sole mirror_infos (hm_info m)) (hsMembers mirror_set).
Proof. apply (SelectHost_sole mirror_infos mirror_opts mirror_set mirror_selected). Defined.

Lemma SelectHost_identity_witness :
  Forall (fun m =>
    (ValidMember (hm_info m) = true -> Foreign m = true \/ eInstallID (hm_info m) = hsInstallID mirror_set) /\
    (Mode mirror_set <> ModeList -> Foreign m = false /\ CopiedMarker (hm_info m) = false) /\
    (Mode mirror_set = ModeMember -> ValidMember (hm_info m) = true)) (hsMembers mirror_set).
Proof. apply (SelectHost_identity mirror_infos mirror_opts mirror_set mirror_selected). Defined.

Lemma SelectHost_newest_witness :
  exists best rest, hsMembers mirror_set = best :: rest /\
    Forall (fun m => eGeneration (hm_info m) <= eGeneration (hm_info best)) (hsMembers mirror_set).
Proof. apply (SelectHost_newest mirror_infos mirror_opts mirror_set mirror_selected). Defined.

Lemma SelectHost_missing_witness :
  bs "AAAA-0003" ∈ Missing mirror_set <-> bs "AAAA-0003" ∈ Expected mirror_set /\ bs "AAAA-0003" ∉ UUIDs mirror_set.
Proof. apply (SelectHost_missing mirror_infos mirror_opts mirror_set mirror_selected). Defined.

Lemma SelectHost_order_witness :
  same_result (SelectHost mirror_infos mirror_opts) (SelectHost (rev mirror_infos) mirror_opts).
Proof.
  apply (SelectHost_order mirror_infos (rev mirror_infos) mirror_opts).
  - apply Permutation_rev.
  - apply (bool_decide_unpack _). vm_compute. exact I.
Defined.
