(* ===== verification/Sha256.v ===== *)
(** * SHA-256

The compression function as internal/payloadsum/blksum.go writes it, and the
standard library's [sha256.Sum256] on top of it (FIPS 180-4 padding). *)

From Stdlib Require Import ZArith Lia Strings.Byte.
From stdpp Require Import base list.
From S2P Require Import Prelude GoStrings.
Local Open Scope Z_scope.

(** [bits.RotateLeft32(x, k)]. *)
Definition rotl32 (x k : Z) : Z :=
  let s := k mod 32 in
  Z.lor (u32 (Z.shiftl x s)) (Z.shiftr x (32 - s)).

(** The number a word of hexadecimal digits writes. *)
Definition hex_word (s : bytes) : Z := default 0 (hex_from 0 s).

(** The round constants, written as rows of hexadecimal words. *)
Definition sha256K_rows : list bytes := [
  bs "428a2f98 71374491 b5c0fbcf e9b5dba5 3956c25b 59f111f1 923f82a4 ab1c5ed5";
  bs "d807aa98 12835b01 243185be 550c7dc3 72be5d74 80deb1fe 9bdc06a7 c19bf174";
  bs "e49b69c1 efbe4786 0fc19dc6 240ca1cc 2de92c6f 4a7484aa 5cb0a9dc 76f988da";
  bs "983e5152 a831c66d b00327c8 bf597fc7 c6e00bf3 d5a79147 06ca6351 14292967";
  bs "27b70a85 2e1b2138 4d2c6dfc 53380d13 650a7354 766a0abb 81c2c92e 92722c85";
  bs "a2bfe8a1 a81a664b c24b8b70 c76c51a3 d192e819 d6990624 f40e3585 106aa070";
  bs "19a4c116 1e376c08 2748774c 34b0bcb5 391c0cb3 4ed8aa4a 5b9cca4f 682e6ff3";
  bs "748f82ee 78a5636f 84c87814 8cc70208 90befffa a4506ceb bef9a3f7 c67178f2"].

Definition sha256K : list Z :=
  Eval vm_compute in sha256K_rows ≫= fun row => hex_word <$> split x20 row.

Definition wat (w : list Z) (i : nat) : Z := nth i w 0.

(** The first 16 words of the message schedule. *)
Definition load_words (p : bytes) : list Z :=
  (fun i => be_get (sub p (4 * Z.of_nat i) 4)) <$> seq 0 16.

(** [w[i]] for [i] from 16 to 63. *)
Fixpoint schedule (n : nat) (i : nat) (w : list Z) : list Z :=
  match n with
  | O => w
  | S n =>
      let s0 := Z.lxor (Z.lxor (rotl32 (wat w (i - 15)) (-7)) (rotl32 (wat w (i - 15)) (-18))) (Z.shiftr (wat w (i - 15)) 3) in
      let s1 := Z.lxor (Z.lxor (rotl32 (wat w (i - 2)) (-17)) (rotl32 (wat w (i - 2)) (-19))) (Z.shiftr (wat w (i - 2)) 10) in
      schedule n (S i) (w ++ [u32 (wat w (i - 16) + s0 + wat w (i - 7) + s1)])
  end.

Record state := mkState { sa : Z; sb : Z; sc : Z; sd : Z; se : Z; sf : Z; sg : Z; sh : Z }.

Definition round (s : state) (kw : Z * Z) : state :=
  let '(mkState a b c d e f g hh) := s in
  let t1 := u32 (hh + Z.lxor (Z.lxor (rotl32 e (-6)) (rotl32 e (-11))) (rotl32 e (-25))
                 + Z.lxor (Z.land e f) (Z.land (Z.lxor e 0xffffffff) g) + fst kw + snd kw) in
  let t2 := u32 (Z.lxor (Z.lxor (rotl32 a (-2)) (rotl32 a (-13))) (rotl32 a (-22))
                 + Z.lxor (Z.lxor (Z.land a b) (Z.land a c)) (Z.land b c)) in
  mkState (u32 (t1 + t2)) a b c (u32 (d + t1)) e f g.

(** One 64-byte block. *)
Definition compress (h : state) (p : bytes) : state :=
  let w := schedule 48 16 (load_words p) in
  let r := fold_left round (zip sha256K w) h in
  mkState (u32 (sa h + sa r)) (u32 (sb h + sb r)) (u32 (sc h + sc r)) (u32 (sd h + sd r))
          (u32 (se h + se r)) (u32 (sf h + sf r)) (u32 (sg h + sg r)) (u32 (sh h + sh r)).

(** [for len(p) >= 64 { ...; p = p[64:] }]: the length is the measure. *)
Fixpoint sha256Blocks_fuel (n : nat) (h : state) (p : bytes) : state :=
  match n with
  | O => h
  | S n => if 64 <=? len p then sha256Blocks_fuel n (compress h (take 64 p)) (drop 64 p) else h
  end.

Definition sha256Blocks (h : state) (p : bytes) : state := sha256Blocks_fuel (length p / 64) h p.

Definition sha256_init : state :=
  mkState 0x6a09e667 0xbb67ae85 0x3c6ef372 0xa54ff53a 0x510e527f 0x9b05688c 0x1f83d9ab 0x5be0cd19.

(** The state as 32 bytes, big-endian words. *)
Definition digest (h : state) : bytes :=
  be_put 4 (sa h) ++ be_put 4 (sb h) ++ be_put 4 (sc h) ++ be_put 4 (sd h)
  ++ be_put 4 (se h) ++ be_put 4 (sf h) ++ be_put 4 (sg h) ++ be_put 4 (sh h).

(** The padding: 0x80, zeros to 56 modulo 64, the length in bits. *)
Definition padding (p : bytes) : bytes :=
  [x80] ++ zeros ((55 - len p) mod 64) ++ be_put 8 (u64 (8 * len p)).

Definition Sum256 (p : bytes) : bytes := digest (sha256Blocks sha256_init (p ++ padding p)).

Example sha256_abc :
  hex_encode (Sum256 (bs "abc")) = bs "ba7816bf8f01cfea414140de5dae2223b00361a396177a9cb410ff61f20015ad".
Proof. vm_compute. reflexivity. Qed.

Example sha256_empty :
  hex_encode (Sum256 []) = bs "e3b0c44298fc1c149afbf4c8996fb92427ae41e4649b934ca495991b7852b855".
Proof. vm_compute. reflexivity. Qed.

(** ** Lemmas *)

Lemma length_digest h : length (digest h) = 32%nat.
Proof. unfold digest. by rewrite !length_app, !length_be_put. Qed.

Lemma length_Sum256 p : length (Sum256 p) = 32%nat.
Proof. apply length_digest. Qed.

(** The fuel is exact: more of it changes nothing. *)
Lemma blocks_fuel n h p : (length p / 64 <= n)%nat -> sha256Blocks_fuel n h p = sha256Blocks h p.
Proof.
  unfold sha256Blocks. remember (length p / 64)%nat as m eqn:Hm. revert n h p Hm.
  induction m as [|m IH]; intros n h p Hm Hn; cbn [sha256Blocks_fuel].
  - assert (length p < 64)%nat as Hl by (apply Nat.div_small_iff; lia).
    destruct n; cbn [sha256Blocks_fuel]; [done|].
    by rewrite (proj2 (Z.leb_gt 64 (len p))) by (unfold len; lia).
  - destruct n as [|n]; [lia|]. cbn [sha256Blocks_fuel].
    destruct (64 <=? len p) eqn:E; [|done]. zb. apply IH.
    + rewrite length_drop. unfold len in E.
      replace (length p) with (length p - 64 + 1 * 64)%nat in Hm by lia.
      rewrite Nat.div_add in Hm by lia. lia.
    + lia.
Qed.

Lemma blocks_step h p :
  (64 <= length p)%nat -> sha256Blocks h p = sha256Blocks (compress h (take 64 p)) (drop 64 p).
Proof.
  intros Hl. rewrite <-(blocks_fuel (S (length p)) h p).
  2: { apply Nat.Div0.div_le_upper_bound. lia. }
  cbn [sha256Blocks_fuel]. rewrite (proj2 (Z.leb_le 64 (len p))) by (unfold len; lia).
  apply blocks_fuel. rewrite length_drop.
  apply Nat.Div0.div_le_upper_bound. lia.
Qed.

Lemma blocks_short h p : (length p < 64)%nat -> sha256Blocks h p = h.
Proof. intros Hl. unfold sha256Blocks. by rewrite Nat.div_small. Qed.

(** Chaining: hashing [a ++ b] is hashing [b] from the state after [a], for [a]
a whole number of blocks. *)
Lemma blocks_app n h a b :
  length a = (64 * n)%nat -> sha256Blocks h (a ++ b) = sha256Blocks (sha256Blocks h a) b.
Proof.
  revert h a. induction n as [|n IH]; intros h a Hn.
  - destruct a; [|cbn in Hn; lia]. rewrite (blocks_short h []) by (cbn; lia). done.
  - rewrite (blocks_step h (a ++ b)) by (rewrite length_app; lia).
    rewrite (blocks_step h a) by lia.
    rewrite take_app_le, drop_app_le by lia. apply IH. rewrite length_drop. lia.
Qed.
