(* ===== verification/PayloadSum.v ===== *)
(** * internal/payloadsum: EFI/ALPINE/CHECKSUM

The size and SHA-256 of exactly the bytes the BIOS loader places in RAM: the
manifest's generation, text format and verification. *)

From Stdlib Require Import ZArith Lia Strings.Byte.
From stdpp Require Import base list.
From S2P Require Import Prelude GoStrings Sha256.
Local Open Scope Z_scope.

Definition Header : bytes := bs "alpine-zfsboot payload-sum 1".
Definition MaxBytes : Z := 512.

Record Entry := mkEntry { Size : Z; Offset : Z; SHA256 : bytes }.

Definition ModeOff : bytes := bs "off".
Definition ModeWarn : bytes := bs "warn".
Definition ModeEnforce : bytes := bs "enforce".

Definition ValidMode (m : bytes) : bool := beq m ModeOff || beq m ModeWarn || beq m ModeEnforce.

Record Manifest := mkManifest { Kernel : Entry; Initrd : Entry; Mode : bytes }.

Inductive payloadsum_error :=
| ENotBzImage | EKernelTooSmall (size off : Z) | ETooBig (size : Z) | EMode (m : bytes)
| ETooLong (n : Z) | ENoNewline | EHeader (line : bytes) | ETwice (name : bytes)
| EMalformed (line : bytes) | EMissing
| ESizeMismatch (name : bytes) | EOffsetMismatch (name : bytes) | ESumMismatch (name : bytes)
| EBlkSum (what : bytes) (i : Z).

Definition offSetupSects : Z := 0x1f1.
Definition offBootFlag : Z := 0x1fe.
Definition offHeader : Z := 0x202.

Definition KernelRAMOffset (kernel : bytes) : outcome payloadsum_error Z :=
  if len kernel <? offHeader + 4 then Err ENotBzImage else
  let! flag := le_at 2 kernel offBootFlag in
  let! hdr := slice kernel offHeader (offHeader + 4) in
  if negb (flag =? 0xAA55) || negb (beq hdr (bs "HdrS")) then Err ENotBzImage else
  let! s := index kernel offSetupSects in
  let sects := if b2z s =? 0 then 4 else b2z s in
  let off := u32 ((sects + 1) * 512) in
  if len kernel <=? off then Err (EKernelTooSmall (len kernel) off) else Ok off.

Definition entryFor (data : bytes) (offset : Z) : outcome payloadsum_error Entry :=
  if 0xffffffff <? len data then Err (ETooBig (len data)) else
  let! tail := slice_from data offset in
  Ok (mkEntry (u32 (len data)) offset (Sum256 tail)).

Definition New (kernel initrd mode : bytes) : outcome payloadsum_error Manifest :=
  if negb (ValidMode mode) then Err (EMode mode) else
  let! off := KernelRAMOffset kernel in
  let! k := entryFor kernel off in
  let! i := entryFor initrd 0 in
  Ok (mkManifest k i mode).

Definition entry_line (name : bytes) (e : Entry) : bytes :=
  name ++ bs " " ++ itoa (Size e) ++ bs " " ++ itoa (Offset e) ++ bs " " ++ hex_encode (SHA256 e).

Definition manifest_lines (m : Manifest) : list bytes :=
  let mode := if ValidMode (Mode m) then Mode m else ModeWarn in
  [Header; bs "MODE " ++ mode; entry_line (bs "KERNEL") (Kernel m); entry_line (bs "INITRD") (Initrd m)].

Definition Encode (m : Manifest) : bytes := manifest_lines m ≫= fun l => l ++ [x0a].

Definition Generate (kernel initrd mode : bytes) : outcome payloadsum_error bytes :=
  let! m := New kernel initrd mode in Ok (Encode m).

Definition parseDec (s : bytes) : option Z :=
  if beq s [] || (10 <? len s) || negb (beq (trim_left s digits) []) then None
  else parse_dec s 32.

(** The decoder's loop: the manifest so far, and which files were seen. *)
Record decoding := mkDecoding { d_m : Manifest; haveK : bool; haveI : bool }.

Definition decode_entry (f : list bytes) (line : bytes) : outcome payloadsum_error Entry :=
  match f with
  | [_; f1; f2; f3] =>
      match parseDec f1, parseDec f2, hex_decode f3 with
      | Some size, Some off, Some sum =>
          if negb (len sum =? 32) || negb (beq (to_lower f3) f3) || (size <? off)
          then Err (EMalformed line) else Ok (mkEntry size off sum)
      | _, _, _ => Err (EMalformed line)
      end
  | _ => Err (EMalformed line)
  end.

Definition decode_line (d : decoding) (line : bytes) : outcome payloadsum_error decoding :=
  let f := split x20 line in
  let '(mkDecoding (mkManifest k i mode) hk hi) := d in
  match f with
  | [] => Panic
  | f0 :: rest =>
      if beq f0 (bs "MODE") then
        let mode := match rest with [v] => if ValidMode v then v else ModeWarn | _ => ModeWarn end in
        Ok (mkDecoding (mkManifest k i mode) hk hi)
      else if beq f0 (bs "KERNEL") then
        if hk then Err (ETwice f0) else
        let! e := decode_entry f line in Ok (mkDecoding (mkManifest e i mode) true hi)
      else if beq f0 (bs "INITRD") then
        if hi then Err (ETwice f0) else
        let! e := decode_entry f line in Ok (mkDecoding (mkManifest k e mode) hk true)
      else Ok d
  end.

Fixpoint decode_lines (d : decoding) (lines : list bytes) : outcome payloadsum_error decoding :=
  match lines with
  | [] => Ok d
  | line :: rest => let! d' := decode_line d line in decode_lines d' rest
  end.

Definition zero_Entry : Entry := mkEntry 0 0 (zeros 32).

Definition Decode (raw : bytes) : outcome payloadsum_error Manifest :=
  if MaxBytes <? len raw then Err (ETooLong (len raw)) else
  if len raw =? 0 then Err ENoNewline else
  let! lastb := index raw (len raw - 1) in
  if negb (is_byte x0a lastb) then Err ENoNewline else
  let! body := slice raw 0 (len raw - 1) in
  match split x0a body with
  | [] => Panic
  | first :: rest =>
      if negb (beq first Header) then Err (EHeader first) else
      let! d := decode_lines (mkDecoding (mkManifest zero_Entry zero_Entry ModeWarn) false false) rest in
      if haveK d && haveI d then Ok (d_m d) else Err EMissing
  end.

Definition verify_entry (name : bytes) (want : Entry) (data : bytes) (offset : Z)
  : outcome payloadsum_error (list payloadsum_error) :=
  if negb (len data =? Size want) then Ok [ESizeMismatch name]
  else if negb (offset =? Offset want) then Ok [EOffsetMismatch name]
  else let! tail := slice_from data offset in
       Ok (if negb (beq (Sum256 tail) (SHA256 want)) then [ESumMismatch name] else []).

Definition Verify (m : Manifest) (kernel initrd : bytes)
  : outcome payloadsum_error (list payloadsum_error) :=
  match KernelRAMOffset kernel with
  | Panic => Panic
  | Err e => Ok [e]
  | Ok off =>
      let! ek := verify_entry (bs "KERNEL") (Kernel m) kernel off in
      let! ei := verify_entry (bs "INITRD") (Initrd m) initrd 0 in
      Ok (ek ++ ei)
  end.

(** ** Well-formed manifests *)

Definition wf_Entry (e : Entry) : Prop :=
  0 <= Offset e <= Size e /\ Size e < 2 ^ 32 /\ length (SHA256 e) = 32%nat.

Definition wf_Manifest (m : Manifest) : Prop :=
  wf_Entry (Kernel m) /\ wf_Entry (Initrd m) /\ ValidMode (Mode m) = true.

(** ** Lemmas *)

Lemma trim_left_all s : forallb is_digit s = true -> trim_left s digits = [].
Proof.
  induction s as [|b s IH]; cbn; [done|]. rewrite andb_true_iff. intros [Hb Hs].
  rewrite decide_True; [auto|]. apply (bool_decide_unpack _).
  by destruct b; first [vm_compute in Hb; discriminate|vm_compute; exact I].
Qed.

Lemma parseDec_itoa z : 0 <= z < 2 ^ 32 ->
  parseDec (itoa z) = Some z /\ forallb is_digit (itoa z) = true /\ (length (itoa z) <= 10)%nat.
Proof.
  intros Hz. unfold itoa. rewrite (proj2 (Z.ltb_ge _ _)) by lia.
  destruct (dec_spec z) as (H1 & H2 & H3); [lia|].
  assert (length (dec z) <= 10)%nat as Hl by (apply dec_from_length; [cbn; lia|lia]).
  split_and!; [|done|done]. unfold parseDec.
  rewrite (proj2 (beq_false _ _)) by done. rewrite (proj2 (Z.ltb_ge _ _)) by (unfold len; lia).
  rewrite trim_left_all, beq_refl by done. cbn [orb negb]. by apply parse_dec_dec.
Qed.

Lemma parseDec_range s v : parseDec s = Some v -> 0 <= v < 2 ^ 32.
Proof.
  unfold parseDec. destruct (_ || _); [done|]. unfold parse_dec. destruct s as [|b s]; [done|].
  destruct (forallb is_digit (b :: s)) eqn:E; [|done]. cbn [andb].
  destruct (dec_val (b :: s) <? 2 ^ 32) eqn:El; [|done]. intros [= <-]. zb.
  pose proof (dec_val_bound _ E). lia.
Qed.

Lemma digits_not_elem x s : is_digit x = false -> forallb is_digit s = true -> x ∉ s.
Proof. intros. by eapply forallb_not_elem. Qed.

Lemma lower_hex_not_elem x s : is_lower_hex x = false -> x ∉ hex_encode s.
Proof. intros. eapply forallb_not_elem; [apply hex_encode_digits|done]. Qed.

(** The fields of a written line. *)
Lemma split_entry_line name e :
  wf_Entry e -> x20 ∉ name ->
  split x20 (entry_line name e) = [name; itoa (Size e); itoa (Offset e); hex_encode (SHA256 e)].
Proof.
  intros (Ho & Hs & _) Hn. unfold entry_line. change (bs " ") with [x20]. cbn [app].
  destruct (parseDec_itoa (Size e)) as (_ & Hd1 & _); [lia|].
  destruct (parseDec_itoa (Offset e)) as (_ & Hd2 & _); [lia|].
  rewrite split_app by done. rewrite split_app by (by apply digits_not_elem).
  rewrite split_app by (by apply digits_not_elem). rewrite split_no_sep; [done|].
  by apply lower_hex_not_elem.
Qed.

Lemma decode_entry_line name e :
  wf_Entry e -> x20 ∉ name -> decode_entry (split x20 (entry_line name e)) (entry_line name e) = Ok e.
Proof.
  intros Hw Hn. rewrite split_entry_line by done. destruct Hw as (Ho & Hs & Hl). cbn [decode_entry].
  destruct (parseDec_itoa (Size e)) as (-> & _); [lia|].
  destruct (parseDec_itoa (Offset e)) as (-> & _); [lia|].
  rewrite hex_decode_encode, hex_encode_lower, beq_refl.
  unfold len. rewrite Hl. cbn [Z.of_nat Pos.of_succ_nat Pos.succ Z.eqb Pos.eqb negb orb].
  rewrite (proj2 (Z.ltb_ge _ _)) by lia. by destruct e.
Qed.

Lemma decode_entry_wf f line e : decode_entry f line = Ok e -> wf_Entry e.
Proof.
  unfold decode_entry. intros H. destruct f as [|f0 [|f1 [|f2 [|f3 [|]]]]]; try done.
  destruct (parseDec f1) as [size|] eqn:E1; [|done]. destruct (parseDec f2) as [off|] eqn:E2; [|done].
  destruct (hex_decode f3) as [sum|]; [|done]. destruct (_ || _) eqn:E; [done|]. injection H as <-.
  apply parseDec_range in E1, E2. zb. unfold wf_Entry, len in *. cbn. lia.
Qed.

Lemma no_newline_line name e x :
  wf_Entry e -> x ∉ name -> is_digit x = false -> is_lower_hex x = false -> x <> x20 -> x ∉ entry_line name e.
Proof.
  intros (Ho & Hs & _) Hn Hd Hh Hsp. unfold entry_line. change (bs " ") with [x20].
  destruct (parseDec_itoa (Size e)) as (_ & Hd1 & _); [lia|].
  destruct (parseDec_itoa (Offset e)) as (_ & Hd2 & _); [lia|].
  rewrite !not_elem_of_app. split_and!; try done; try (by apply digits_not_elem);
    try (by apply lower_hex_not_elem); intros Hx%list_elem_of_singleton; congruence.
Qed.

Lemma wf_lines m x :
  wf_Manifest m -> x ∉ Header -> x ∉ bs "MODE offwarnenforceKERNELINITRD" ->
  is_digit x = false -> is_lower_hex x = false -> x <> x20 ->
  Forall (fun l => x ∉ l) (manifest_lines m).
Proof.
  intros (Hk & Hi & Hm) Hh Hw Hd Hx Hs. unfold manifest_lines. rewrite Hm.
  change (bs "MODE offwarnenforceKERNELINITRD") with
    (bs "MODE " ++ bs "off" ++ bs "warn" ++ bs "enforce" ++ bs "KERNEL" ++ bs "INITRD") in Hw.
  rewrite !not_elem_of_app in Hw. destruct Hw as (? & ? & ? & ? & ? & ?).
  repeat constructor; [done| |by apply no_newline_line..].
  rewrite not_elem_of_app. split; [done|].
  unfold ValidMode in Hm. rewrite !orb_true_iff, !beq_true in Hm. destruct Hm as [[->| ->]| ->]; done.
Qed.

Lemma length_entry_line name e :
  wf_Entry e -> (length (entry_line name e) <= length name + 87)%nat.
Proof.
  intros (Ho & Hs & Hl). unfold entry_line. rewrite !length_app, length_hex_encode, Hl.
  destruct (parseDec_itoa (Size e)) as (_ & _ & ?); [lia|].
  destruct (parseDec_itoa (Offset e)) as (_ & _ & ?); [lia|]. cbn. lia.
Qed.

Lemma Encode_short m : wf_Manifest m -> len (Encode m) <= 512.
Proof.
  intros (Hk & Hi & Hm). unfold Encode, manifest_lines. rewrite Hm. cbn [mbind list_bind].
  unfold len. rewrite !length_app.
  pose proof (length_entry_line (bs "KERNEL") _ Hk). pose proof (length_entry_line (bs "INITRD") _ Hi).
  assert (length (Mode m) <= 7)%nat.
  { unfold ValidMode in Hm. rewrite !orb_true_iff, !beq_true in Hm. destruct Hm as [[->| ->]| ->]; cbn; lia. }
  change (length (bs "KERNEL")) with 6%nat in *. change (length (bs "INITRD")) with 6%nat in *.
  change (length Header) with 28%nat. change (length (bs "MODE ")) with 5%nat. cbn [length]. lia.
Qed.

Lemma split_body (ls : list bytes) :
  ls <> [] -> Forall (fun w => x0a ∉ w) ls ->
  exists body, ls ≫= (fun l => l ++ [x0a]) = body ++ [x0a] /\ split x0a body = ls.
Proof.
  intros Hne Hls. exists (join [x0a] ls). split; [|by apply split_join].
  clear Hls. induction ls as [|l ls IH]; [done|]. destruct ls as [|l' ls].
  - cbn. by rewrite app_nil_r.
  - cbn [mbind list_bind]. rewrite join_cons by done. cbn [mbind list_bind] in IH.
    rewrite IH by done. by rewrite <-!app_assoc.
Qed.

Lemma decode_mode k i mode hk hi m :
  ValidMode m = true -> x20 ∉ m ->
  decode_line (mkDecoding (mkManifest k i mode) hk hi) (bs "MODE " ++ m) = Ok (mkDecoding (mkManifest k i m) hk hi).
Proof.
  intros Hm Hs. unfold decode_line. change (bs "MODE " ++ m) with (bs "MODE" ++ x20 :: m).
  rewrite split_app by (apply (bool_decide_unpack _); vm_compute; exact I).
  rewrite split_no_sep by done. change (beq (bs "MODE") (bs "MODE")) with true. cbv iota. by rewrite Hm.
Qed.

Lemma decode_kernel k i mode hi e :
  wf_Entry e ->
  decode_line (mkDecoding (mkManifest k i mode) false hi) (entry_line (bs "KERNEL") e)
  = Ok (mkDecoding (mkManifest e i mode) true hi).
Proof.
  intros He. unfold decode_line.
  assert (x20 ∉ bs "KERNEL") as Hn by (apply (bool_decide_unpack _); vm_compute; exact I).
  pose proof (decode_entry_line (bs "KERNEL") e He Hn) as Hd. rewrite split_entry_line in * by done.
  change (beq (bs "KERNEL") (bs "MODE")) with false. change (beq (bs "KERNEL") (bs "KERNEL")) with true.
  cbv iota. by rewrite Hd.
Qed.

Lemma decode_initrd k i mode hk e :
  wf_Entry e ->
  decode_line (mkDecoding (mkManifest k i mode) hk false) (entry_line (bs "INITRD") e)
  = Ok (mkDecoding (mkManifest k e mode) hk true).
Proof.
  intros He. unfold decode_line.
  assert (x20 ∉ bs "INITRD") as Hn by (apply (bool_decide_unpack _); vm_compute; exact I).
  pose proof (decode_entry_line (bs "INITRD") e He Hn) as Hd. rewrite split_entry_line in * by done.
  change (beq (bs "INITRD") (bs "MODE")) with false. change (beq (bs "INITRD") (bs "KERNEL")) with false.
  change (beq (bs "INITRD") (bs "INITRD")) with true. cbv iota. by rewrite Hd.
Qed.

Lemma checksum_of_Encode m : wf_Manifest m -> Decode (Encode m) = Ok m.
Proof.
  intros Hm. pose proof (Encode_short m Hm) as Hs. unfold Decode, MaxBytes.
  rewrite (proj2 (Z.ltb_ge _ _)) by done.
  destruct (split_body (manifest_lines m)) as (body & Hb & Hsp); [done| |].
  { apply wf_lines; [done|apply (bool_decide_unpack _); vm_compute; exact I..|done|done|done]. }
  fold (Encode m) in Hb. rewrite Hb. rewrite len_app. change (len [x0a]) with 1.
  pose proof (len_nonneg body). rewrite (proj2 (Z.eqb_neq _ _)) by lia.
  replace (len body + 1 - 1) with (len body) by lia.
  destruct (@index_ok payloadsum_error _ (body ++ [x0a]) (len body)) as (b & -> & Hlk).
  { rewrite len_app. change (len [x0a]) with 1. lia. }
  unfold len in Hlk. rewrite Nat2Z.id, lookup_app_r, Nat.sub_diag in Hlk by lia. injection Hlk as <-.
  cbn [obind]. change (negb (is_byte x0a x0a)) with false. cbv iota.
  rewrite slice_ok by (rewrite ?len_app; change (len [x0a]) with 1; lia). cbn [obind].
  rewrite Z.sub_0_r, sub_app_l, sub_full, Hsp by (done || lia).
  destruct m as [k i mode]. destruct Hm as (Hk & Hi & Hmode). cbn [Kernel Initrd Mode] in *.
  unfold manifest_lines. cbn [Mode Kernel Initrd]. rewrite Hmode, beq_refl. cbn [negb decode_lines].
  rewrite decode_mode; [|done|].
  2: { unfold ValidMode in Hmode. rewrite !orb_true_iff, !beq_true in Hmode.
       destruct Hmode as [[->| ->]| ->]; apply (bool_decide_unpack _); vm_compute; exact I. }
  cbn [obind]. rewrite decode_kernel by done. cbn [obind]. rewrite decode_initrd by done. done.
Qed.

Lemma KernelRAMOffset_safe kernel : safe (KernelRAMOffset kernel).
Proof.
  unfold KernelRAMOffset, offHeader, offBootFlag, offSetupSects.
  destruct (len kernel <? 514 + 4) eqn:E; [done|]. zb.
  rewrite le_at_ok by lia. cbn [obind]. rewrite slice_ok by lia. cbn [obind].
  destruct (_ || _); [done|].
  destruct (@index_ok payloadsum_error _ kernel 0x1f1) as (s & -> & _); [lia|]. cbn [obind].
  by destruct (len kernel <=? _).
Qed.

Lemma KernelRAMOffset_range kernel off :
  KernelRAMOffset kernel = Ok off -> 0 <= off < len kernel /\ 1024 <= off <= 131072 /\ off mod 512 = 0.
Proof.
  unfold KernelRAMOffset. intros H. destruct (_ <? _); [done|].
  destruct (le_at _ _ _); cbn [obind] in H; [|done..]. destruct (slice _ _ _); cbn [obind] in H; [|done..].
  destruct (_ || _); [done|]. destruct (index _ _) as [s| |]; cbn [obind] in H; [|done..].
  pose proof (b2z_range s). set (sects := if b2z s =? 0 then 4 else b2z s) in *.
  assert (1 <= sects <= 255) by (unfold sects; destruct (Z.eqb_spec (b2z s) 0); lia).
  unfold u32 in H. rewrite Z.mod_small in H by lia.
  destruct (len kernel <=? _) eqn:E; [done|]. injection H as <-. zb.
  split; [lia|]. split; [lia|]. apply Z.mod_mul. lia.
Qed.

Lemma entryFor_ok data off e :
  entryFor data off = Ok e -> 0 <= off -> off <= len data ->
  len data < 2 ^ 32 /\ e = mkEntry (len data) off (Sum256 (drop (Z.to_nat off) data)).
Proof.
  unfold entryFor. intros H Ho Hl. destruct (_ <? len data) eqn:E; [done|]. zb.
  unfold slice_from in H. rewrite slice_ok in H by lia. cbn [obind] in H. injection H as <-.
  split; [lia|]. unfold u32. rewrite Z.mod_small by (pose proof (len_nonneg data); lia).
  f_equal. f_equal. unfold sub. rewrite take_ge; [done|]. rewrite length_drop. unfold len. lia.
Qed.

Lemma entryFor_wf data off e : entryFor data off = Ok e -> 0 <= off -> off <= len data -> wf_Entry e.
Proof.
  intros H Ho Hl. apply entryFor_ok in H as [Hs ->]; [|done..]. unfold wf_Entry. cbn [Size Offset SHA256].
  split_and!; [done|done|done|apply length_Sum256].
Qed.

Lemma New_inv kernel initrd mode m :
  New kernel initrd mode = Ok m ->
  exists off, KernelRAMOffset kernel = Ok off /\ entryFor kernel off = Ok (Kernel m) /\
    entryFor initrd 0 = Ok (Initrd m) /\ Mode m = mode /\ ValidMode mode = true.
Proof.
  unfold New. intros H. destruct (ValidMode mode); cbn [negb] in H; [|done].
  destruct (KernelRAMOffset kernel) as [off| |]; cbn [obind] in H; [|done..].
  destruct (entryFor kernel off) as [k| |] eqn:Ek; cbn [obind] in H; [|done..].
  destruct (entryFor initrd 0) as [i| |] eqn:Ei; cbn [obind] in H; [|done..].
  injection H as <-. eauto 10.
Qed.

Lemma New_wf kernel initrd mode m : New kernel initrd mode = Ok m -> wf_Manifest m.
Proof.
  intros (off & Ho & Hk & Hi & <- & Hv)%New_inv. apply KernelRAMOffset_range in Ho as [? _].
  split; [eapply entryFor_wf; [exact Hk|lia|lia]|]. split; [|done].
  eapply entryFor_wf; [exact Hi|lia|]. apply len_nonneg.
Qed.

(** ** Properties *)

(** CHECKSUM round trip: a well-formed manifest fits the loader's 512 bytes
and decodes to itself. *)
Theorem checksum_round_trip (m : Manifest) (Hm : wf_Manifest m) :
  len (Encode m) <= MaxBytes /\ Decode (Encode m) = Ok m.
Proof. split; [by apply Encode_short|by apply checksum_of_Encode]. Qed.

Lemma verify_entry_exact name e data off :
  0 <= off <= len data ->
  exists errs, verify_entry name e data off = Ok errs /\
    (errs = [] <-> e = mkEntry (len data) off (Sum256 (drop (Z.to_nat off) data))).
Proof.
  intros Ho. unfold verify_entry. destruct e as [s o h]. cbn [Size Offset SHA256].
  destruct (len data =? s) eqn:E1; cbn [negb]; zb.
  2: { eexists. split; [done|]. split; [done|]. intros [=]; congruence. }
  destruct (off =? o) eqn:E2; cbn [negb]; zb.
  2: { eexists. split; [done|]. split; [done|]. intros [=]; congruence. }
  unfold slice_from. rewrite slice_ok by lia. cbn [obind]. eexists. split; [done|].
  replace (sub data off (len data - off)) with (drop (Z.to_nat off) data).
  2: { unfold sub. rewrite take_ge; [done|]. rewrite length_drop. unfold len. lia. }
  destruct (beq _ h) eqn:E3; cbn [negb]; zb; subst; (split; [|intros [=]]); congruence.
Qed.

(** Verification is exact: for a bootable kernel, [Verify] reports nothing
if and only if the manifest records exactly the size, the loaded offset and the
SHA-256 of the loaded range of both files; it never panics. *)
Theorem Verify_exact (m : Manifest) (kernel initrd : bytes) (off : Z)
  (Hoff : KernelRAMOffset kernel = Ok off) :
  exists errs, Verify m kernel initrd = Ok errs /\
    (errs = [] <->
     Kernel m = mkEntry (len kernel) off (Sum256 (drop (Z.to_nat off) kernel)) /\
     Initrd m = mkEntry (len initrd) 0 (Sum256 initrd)).
Proof.
  unfold Verify. rewrite Hoff. apply KernelRAMOffset_range in Hoff as [Ho _].
  destruct (verify_entry_exact (bs "KERNEL") (Kernel m) kernel off) as (ek & -> & Hk); [lia|].
  destruct (verify_entry_exact (bs "INITRD") (Initrd m) initrd 0) as (ei & -> & Hi).
  { pose proof (len_nonneg initrd). lia. }
  cbn [obind]. eexists. split; [done|]. rewrite app_nil, Hk, Hi. by rewrite drop_0.
Qed.

Lemma generated_verifies (kernel initrd mode raw : bytes) : Generate kernel initrd mode = Ok raw ->
  exists m, New kernel initrd mode = Ok m /\ Decode raw = Ok m /\ wf_Manifest m /\ Mode m = mode /\ Verify m kernel initrd = Ok [].
Proof.
  intros H. unfold Generate in H. destruct (New kernel initrd mode) as [m| |] eqn:En; cbn [obind] in H; [|done..].
  injection H as <-. exists m. split; [done|]. pose proof (New_wf _ _ _ _ En) as Hw.
  apply New_inv in En as (off & Ho & Hk & Hi & Hmode & _).
  split; [by apply checksum_of_Encode|]. split; [done|]. split; [done|].
  pose proof (KernelRAMOffset_range _ _ Ho) as [Hr _]. unfold Verify. rewrite Ho.
  apply entryFor_ok in Hk as [_ Hk]; [|lia..]. apply entryFor_ok in Hi as [_ Hi]; [|lia|apply len_nonneg].
  destruct (verify_entry_exact (bs "KERNEL") (Kernel m) kernel off) as (ek & -> & Hek); [lia|].
  destruct (verify_entry_exact (bs "INITRD") (Initrd m) initrd 0) as (ei & -> & Hei).
  { pose proof (len_nonneg initrd). lia. }
  cbn [obind]. rewrite (proj2 Hek Hk), (proj2 Hei Hi). done.
Qed.

Lemma entryFor_safe data off : 0 <= off <= len data -> safe (entryFor data off).
Proof.
  intros H. unfold entryFor. apply safe_if; intros _; [done|]. apply obind_safe; [|done]. unfold slice_from. apply safe_slice; lia.
Qed.

Lemma New_safe kernel initrd mode : safe (New kernel initrd mode).
Proof.
  unfold New. apply safe_if; intros _; [done|]. apply obind_safe; [apply KernelRAMOffset_safe|]. intros off Ho.
  apply KernelRAMOffset_range in Ho as [? _]. pose proof (len_nonneg initrd).
  apply obind_safe; [apply entryFor_safe; lia|]. intros k _. apply obind_safe; [apply entryFor_safe; lia|done].
Qed.

Lemma Generate_safe kernel initrd mode : safe (Generate kernel initrd mode).
Proof. apply obind_safe; [apply New_safe|done]. Qed.

(** What is generated is accepted: a manifest made for a kernel and initrd is
well formed, reads back from its own text, and verifies against those files. *)
Theorem Generate_Verify (kernel initrd mode raw : bytes) (H : Generate kernel initrd mode = Ok raw) :
  exists m, Decode raw = Ok m /\ wf_Manifest m /\ Mode m = mode /\ Verify m kernel initrd = Ok [].
Proof. destruct (generated_verifies _ _ _ _ H) as (m & _ & Hm). by exists m. Qed.

(** What the decoder has established so far. *)
Definition decoding_ok (d : decoding) : Prop :=
  (haveK d = true -> wf_Entry (Kernel (d_m d))) /\ (haveI d = true -> wf_Entry (Initrd (d_m d))) /\
  ValidMode (Mode (d_m d)) = true.

Lemma checksum_line_ok d line d' : decode_line d line = Ok d' -> decoding_ok d -> decoding_ok d'.
Proof.
  destruct d as [[k i mode] hk hi]. unfold decode_line, decoding_ok.
  cbn [haveK haveI d_m Kernel Initrd Mode]. intros E (H1 & H2 & H3).
  destruct (split x20 line) as [|f0 rest]; [done|].
  destruct (beq f0 (bs "MODE")).
  { injection E as <-. cbn [haveK haveI d_m Kernel Initrd Mode]. split_and!; [done|done|].
    destruct rest as [|v [|]]; try done. by destruct (ValidMode v) eqn:?. }
  destruct (beq f0 (bs "KERNEL")).
  { destruct hk; [done|]. destruct (decode_entry _ line) eqn:Ed; cbn [obind] in E; [|done..].
    injection E as <-. apply decode_entry_wf in Ed. done. }
  destruct (beq f0 (bs "INITRD")); [|by injection E as <-].
  destruct hi; [done|]. destruct (decode_entry _ line) eqn:Ed; cbn [obind] in E; [|done..].
  injection E as <-. apply decode_entry_wf in Ed. done.
Qed.

Lemma checksum_lines_ok lines d d' : decode_lines d lines = Ok d' -> decoding_ok d -> decoding_ok d'.
Proof.
  revert d. induction lines as [|l lines IH]; cbn [decode_lines]; intros d H Hd; [by injection H as <-|].
  destruct (decode_line d l) as [x| |] eqn:E; cbn [obind] in H; [|done..].
  eapply IH; [done|]. by eapply checksum_line_ok.
Qed.

Lemma checksum_decode_safe raw : safe (Decode raw).
Proof.
  unfold Decode. destruct (_ <? _); [done|]. destruct (len raw =? 0) eqn:E0; [done|]. zb.
  pose proof (len_nonneg raw).
  destruct (@index_ok payloadsum_error _ raw (len raw - 1)) as (b & -> & _); [lia|]. cbn [obind].
  destruct (negb _); [done|]. rewrite slice_ok by lia. cbn [obind].
  destruct (split x0a _) as [|first rest] eqn:Es; [by apply split_not_nil in Es|]. destruct (negb _); [done|].
  apply obind_safe; [|intros d _; by destruct (_ && _)].
  generalize (mkDecoding (mkManifest zero_Entry zero_Entry ModeWarn) false false) as d.
  clear Es. induction rest as [|l rest IH]; intros d; [done|]. cbn [decode_lines]. apply obind_safe; [|auto].
  destruct d as [[k i mode] hk hi]. unfold decode_line.
  destruct (split x20 l) as [|f0 fs] eqn:Ef; [by apply split_not_nil in Ef|].
  assert (forall f, safe (decode_entry f l)) as Hde.
  { intros f. unfold decode_entry. destruct f as [|? [|? [|? [|? [|]]]]]; try done.
    repeat case_match; done. }
  destruct (beq f0 _); [done|]. destruct (beq f0 _).
  - destruct hk; [done|]. by apply obind_safe.
  - destruct (beq f0 _); [|done]. destruct hi; [done|]. by apply obind_safe.
Qed.

Lemma checksum_decode_wf raw m : Decode raw = Ok m -> wf_Manifest m.
Proof.
  intros H.
  unfold Decode in H. destruct (_ <? _); [done|]. destruct (len raw =? 0); [done|].
  destruct (index _ _); cbn [obind] in H; [|done..]. destruct (negb _); [done|].
  destruct (slice _ _ _); cbn [obind] in H; [|done..]. destruct (split _ _) as [|first rest]; [done|].
  destruct (negb _); [done|]. destruct (decode_lines _ rest) as [d| |] eqn:Ed; cbn [obind] in H; [|done..].
  destruct (haveK d && haveI d) eqn:Eh; [|done]. injection H as <-. zb.
  apply checksum_lines_ok in Ed as (? & ? & ?); [|done]. unfold wf_Manifest. auto.
Qed.

(** C34 - CHECKSUM decoding is sound: any bytes that decode give 32-bit sizes, an
offset inside the file, 32-byte digests and a valid mode, so re-encoding the
result is a manifest the loader reads the same way; decoding never panics. *)
Theorem checksum_decode_sound (raw : bytes) :
  safe (Decode raw) /\
  forall m, Decode raw = Ok m -> wf_Manifest m /\ Decode (Encode m) = Ok m.
Proof.
  split; [apply checksum_decode_safe|].
  intros m H. apply checksum_decode_wf in H as Hw. split; [done|by apply checksum_of_Encode].
Qed.

(** ** A small kernel *)

Definition sample_kernel : bytes :=
  zeros 497 ++ [x01] ++ zeros 12 ++ [x55; xaa] ++ [xeb; x66] ++ bs "HdrS" ++ zeros 506 ++ bs "protected-mode code".
Definition sample_initrd : bytes := bs "initrd".
Definition sample_manifest : Manifest :=
  mkManifest (mkEntry 1043 1024 (Sum256 (bs "protected-mode code"))) (mkEntry 6 0 (Sum256 sample_initrd)) ModeEnforce.

Lemma sample_manifest_wf : wf_Manifest sample_manifest.
Proof.
  unfold wf_Manifest, wf_Entry. split_and!; try (apply length_Sum256);
    vm_compute; (reflexivity || discriminate).
Qed.

Lemma checksum_round_trip_witness : Decode (Encode sample_manifest) = Ok sample_manifest.
Proof. apply (checksum_round_trip sample_manifest sample_manifest_wf). Defined.

Lemma Verify_exact_witness :
  exists errs, Verify sample_manifest sample_kernel sample_initrd = Ok errs /\
    (errs = [] <->
     Kernel sample_manifest = mkEntry (len sample_kernel) 1024 (Sum256 (drop (Z.to_nat 1024) sample_kernel)) /\
     Initrd sample_manifest = mkEntry (len sample_initrd) 0 (Sum256 sample_initrd)).
Proof. apply (Verify_exact sample_manifest sample_kernel sample_initrd 1024). vm_compute. reflexivity. Defined.

Lemma Generate_Verify_witness :
  exists m, Decode (Encode sample_manifest) = Ok m /\ wf_Manifest m /\ Mode m = ModeEnforce /\
    Verify m sample_kernel sample_initrd = Ok [].
Proof.
  apply (Generate_Verify sample_kernel sample_initrd ModeEnforce (Encode sample_manifest)).
  vm_compute. reflexivity.
Defined.
