(* ===== verification/BlkSum.v ===== *)
(** * internal/payloadsum/blksum.go: EFI/ALPINE/BLKSUM

The per-block table the BIOS loader checks each 64 KiB block against: SHA-256
chaining states, laid out in self-hashed 512-byte sectors. *)

From Stdlib Require Import ZArith Lia Strings.Byte.
From stdpp Require Import base list.
From S2P Require Import Prelude GoStrings Sha256 PayloadSum.
Local Open Scope Z_scope.

Definition BlockSize : Z := 65536.
Definition BlkSumVersion : Z := 1.
Definition EntriesPerSect : Z := 15.
Definition blkSectorSize : Z := 512.
Definition blkHashedPrefix : Z := 480.

Record BlkFile := mkBlkFile {
  bSize : Z; bOffset : Z; Blocks : Z; First : Z; bSHA256 : bytes; Entries : list bytes
}.
Record BlkSum := mkBlkSum { bKernel : BlkFile; bInitrd : BlkFile }.

(** ** The chain *)

(** The loop of [chainEntries] from block [i] with [left] blocks to go. *)
Fixpoint chain_from (left : nat) (i : Z) (h : state) (p : bytes) : list bytes :=
  match left with
  | O => []
  | S O => [Sum256 p]
  | S left' =>
      let h' := sha256Blocks h (sub p (i * BlockSize) BlockSize) in
      digest h' :: chain_from left' (i + 1) h' p
  end.

Definition blocksOf (n : Z) : Z := (n + BlockSize - 1) / BlockSize.

Definition chainEntries (p : bytes) : list bytes :=
  chain_from (Z.to_nat (blocksOf (len p))) 0 sha256_init p.

Definition sectorsFor (entries : Z) : Z := (entries + EntriesPerSect - 1) / EntriesPerSect.

(** ** Writing the table *)

Definition put32 (out : bytes) (off v : Z) : bytes := copy_at out off (le_put 4 v).

(** Byte offset of entry [i] of a table that starts at sector [first]. *)
Definition entry_off (first i : Z) : Z :=
  (first + i / EntriesPerSect) * blkSectorSize + (i mod EntriesPerSect) * 32.

Fixpoint put_entries (out : bytes) (first i : Z) (entries : list bytes) : bytes :=
  match entries with
  | [] => out
  | e :: rest => put_entries (copy_at out (entry_off first i) e) first (i + 1) rest
  end.

Fixpoint hash_sectors (n : nat) (s : Z) (out : bytes) : bytes :=
  match n with
  | O => out
  | S n =>
      let d := Sum256 (sub out (s * blkSectorSize) blkHashedPrefix) in
      hash_sectors n (s + 1) (copy_at out (s * blkSectorSize + blkHashedPrefix) d)
  end.

(** The header sector's fields, in the order they are written. *)
Definition header_writes (ksize koff kn kfirst isize in_ ifirst : Z) (ksum isum : bytes) : list (Z * bytes) :=
  [(0, bs "AZBLKSUM"); (8, le_put 4 BlkSumVersion); (12, le_put 4 BlockSize); (16, le_put 4 EntriesPerSect);
   (20, le_put 4 ksize); (24, le_put 4 koff); (28, le_put 4 kn); (32, le_put 4 kfirst);
   (36, le_put 4 isize); (40, le_put 4 0); (44, le_put 4 in_); (48, le_put 4 ifirst);
   (52, ksum); (84, isum)].

Definition put_all (out : bytes) (ws : list (Z * bytes)) : bytes :=
  fold_left (fun out w => copy_at out (fst w) (snd w)) ws out.

Definition GenerateBlkSum (kernel initrd : bytes) : outcome payloadsum_error bytes :=
  let! koff := KernelRAMOffset kernel in
  if (0xffffffff <? len kernel) || (0xffffffff <? len initrd) then Err (ETooBig 0) else
  let! ktail := slice_from kernel koff in
  let ke := chainEntries ktail in
  let ie := chainEntries initrd in
  let ks := sectorsFor (len ke) in
  let is_ := sectorsFor (len ie) in
  let out := zeros ((1 + ks + is_) * blkSectorSize) in
  let out := put_all out (header_writes (len kernel) koff (len ke) 1 (len initrd) (len ie) (1 + ks)
                            (Sum256 ktail) (Sum256 initrd)) in
  let out := put_entries out 1 0 ke in
  let out := put_entries out (1 + ks) 0 ie in
  Ok (hash_sectors (Z.to_nat (1 + ks + is_)) 0 out).

(** ** Reading it *)

Fixpoint check_sectors (n : nat) (s : Z) (raw : bytes) : outcome payloadsum_error unit :=
  match n with
  | O => Ok tt
  | S n =>
      let! sec := slice raw (s * blkSectorSize) ((s + 1) * blkSectorSize) in
      let! pre := slice sec 0 blkHashedPrefix in
      let! sum := slice_from sec blkHashedPrefix in
      if negb (beq (Sum256 pre) sum) then Err (EBlkSum (bs "sector") s) else check_sectors n (s + 1) raw
  end.

Fixpoint read_entries (n : nat) (k : Z) (raw : bytes) (first : Z) : outcome payloadsum_error (list bytes) :=
  match n with
  | O => Ok []
  | S n =>
      let! t := slice_from raw (entry_off first k) in
      let! rest := read_entries n (k + 1) raw first in
      Ok (copy (zeros 32) t :: rest)
  end.

Definition read_file (raw h : bytes) (i : Z) : outcome payloadsum_error BlkFile :=
  let! size := le_at 4 h (20 + 16 * i) in
  let! off := le_at 4 h (20 + 16 * i + 4) in
  let! blocks := le_at 4 h (20 + 16 * i + 8) in
  let! first := le_at 4 h (20 + 16 * i + 12) in
  let! s := slice_from h (52 + 32 * i) in
  if (size <? off) || (first =? 0) then Err (EBlkSum (bs "descriptor") i) else
  let l := size - off in
  if negb (blocks =? u32 (u32 (l + BlockSize) - 1) / BlockSize) then Err (EBlkSum (bs "blocks") i) else
  let end_ := first + sectorsFor blocks in
  if len raw <? end_ * blkSectorSize then Err (EBlkSum (bs "table") i) else
  let! entries := read_entries (Z.to_nat blocks) 0 raw first in
  Ok (mkBlkFile size off blocks first (copy (zeros 32) s) entries).

Definition DecodeBlkSum (raw : bytes) : outcome payloadsum_error BlkSum :=
  if (len raw <? blkSectorSize) || negb (len raw mod blkSectorSize =? 0) then Err (EBlkSum (bs "length") (len raw)) else
  let! _ := check_sectors (Z.to_nat (len raw / blkSectorSize)) 0 raw in
  let! h := slice raw 0 blkSectorSize in
  let! magic := slice h 0 8 in
  if negb (beq magic (bs "AZBLKSUM")) then Err (EBlkSum (bs "magic") 0) else
  let! v := le_at 4 h 8 in
  if negb (v =? BlkSumVersion) then Err (EBlkSum (bs "version") v) else
  let! blk := le_at 4 h 12 in
  let! eps := le_at 4 h 16 in
  if negb (blk =? BlockSize) || negb (eps =? EntriesPerSect) then Err (EBlkSum (bs "geometry") 0) else
  let! k := read_file raw h 0 in
  let! i := read_file raw h 1 in
  Ok (mkBlkSum k i).

(** The comparison loop: an index past the table's entries panics. *)
Fixpoint compare_entries (name : bytes) (k : Z) (want have : list bytes)
  : outcome payloadsum_error (list payloadsum_error) :=
  match want, have with
  | [], _ => Ok []
  | _ :: _, [] => Panic
  | w :: want', e :: have' =>
      if negb (beq w e) then Ok [EBlkSum name k] else compare_entries name (k + 1) want' have'
  end.

Definition verify_file (name : bytes) (f : BlkFile) (sum : Entry) (data : bytes) (off : Z)
  : outcome payloadsum_error (list payloadsum_error) :=
  if negb (bSize f =? Size sum) || negb (bOffset f =? Offset sum) || negb (beq (bSHA256 f) (SHA256 sum))
  then Ok [EBlkSum (name ++ bs ": stale") 0]
  else if negb (len data =? bSize f) || negb (off =? bOffset f) then Ok [ESizeMismatch name]
  else let! tail := slice_from data off in compare_entries name 0 (chainEntries tail) (Entries f).

Definition VerifyBlkSum (b : BlkSum) (m : Manifest) (kernel initrd : bytes)
  : outcome payloadsum_error (list payloadsum_error) :=
  match KernelRAMOffset kernel with
  | Panic => Panic
  | Err e => Ok [e]
  | Ok koff =>
      let! ek := verify_file (bs "KERNEL") (bKernel b) (Kernel m) kernel koff in
      let! ei := verify_file (bs "INITRD") (bInitrd b) (Initrd m) initrd 0 in
      Ok (ek ++ ei)
  end.

Example blksum_sample :
  match GenerateBlkSum sample_kernel sample_initrd with
  | Ok raw => match DecodeBlkSum raw with
              | Ok b => VerifyBlkSum b sample_manifest sample_kernel sample_initrd
              | _ => Panic
              end
  | _ => Panic
  end = Ok [].
Proof. vm_compute. reflexivity. Qed.

(** ** Lemmas: the chain *)

Lemma blocksOf_spec n : 0 <= n ->
  0 <= blocksOf n /\ n <= blocksOf n * BlockSize < n + BlockSize /\ (blocksOf n = 0 <-> n = 0).
Proof.
  intros Hn. unfold blocksOf, BlockSize. pose proof (Z.div_mod (n + 65536 - 1) 65536 ltac:(lia)).
  pose proof (Z.mod_pos_bound (n + 65536 - 1) 65536 ltac:(lia)). lia.
Qed.

Lemma length_chain_from left i h p : length (chain_from left i h p) = left.
Proof.
  revert i h. induction left as [|[|left] IH]; intros i h; [done|done|].
  cbn [chain_from]. cbn [length]. f_equal. apply IH.
Qed.

Lemma len_chainEntries p : len (chainEntries p) = blocksOf (len p).
Proof.
  unfold chainEntries, len. rewrite length_chain_from.
  pose proof (blocksOf_spec (Z.of_nat (length p)) ltac:(lia)). lia.
Qed.

Lemma chain_from_32 left i h p : Forall (fun e => length e = 32%nat) (chain_from left i h p).
Proof.
  revert i h. induction left as [|[|left] IH]; intros i h; [constructor|repeat constructor; apply length_Sum256|].
  cbn [chain_from]. constructor; [apply length_digest|apply IH].
Qed.

Lemma chainEntries_32 p : Forall (fun e => length e = 32%nat) (chainEntries p).
Proof. apply chain_from_32. Qed.

(** The state after the first [i] blocks. *)
Definition chain_state (p : bytes) (i : nat) : state :=
  sha256Blocks sha256_init (take (i * Z.to_nat BlockSize) p).

Lemma chain_state_step p i :
  (S i * Z.to_nat BlockSize <= length p)%nat ->
  sha256Blocks (chain_state p i) (sub p (Z.of_nat i * BlockSize) BlockSize) = chain_state p (S i).
Proof.
  intros Hl. unfold chain_state. replace (S i * Z.to_nat BlockSize)%nat with
    (i * Z.to_nat BlockSize + Z.to_nat BlockSize)%nat in * by lia.
  rewrite <-(blocks_app (i * 1024)).
  - f_equal. unfold sub. rewrite Z2Nat.inj_mul, Nat2Z.id by (unfold BlockSize; lia).
    rewrite take_take_drop. done.
  - rewrite length_take. unfold BlockSize in *. lia.
Qed.

Lemma chain_from_lookup left i p k e :
  (i + left = Z.to_nat (blocksOf (len p)))%nat ->
  chain_from left (Z.of_nat i) (chain_state p i) p !! k = Some e ->
  e = if decide (S k = left) then Sum256 p else digest (chain_state p (S (i + k))).
Proof.
  revert i k. induction left as [|[|left] IH]; intros i k Hn Hk; [done| |].
  - cbn in Hk. apply list_lookup_singleton_Some in Hk as [-> <-]. done.
  - cbn [chain_from] in Hk.
    assert (S i * Z.to_nat BlockSize <= length p)%nat as Hl.
    { pose proof (blocksOf_spec (len p) (len_nonneg p)). unfold len, BlockSize in *. lia. }
    rewrite chain_state_step in Hk by done. destruct k as [|k]; cbn [lookup list_lookup] in Hk.
    + injection Hk as <-. rewrite decide_False by lia. by rewrite Nat.add_0_r.
    + replace (Z.of_nat i + 1) with (Z.of_nat (S i)) in Hk by lia.
      apply IH in Hk as ->; [|lia]. replace (S i + k)%nat with (i + S k)%nat by lia.
      by repeat case_decide; try lia.
Qed.

Lemma chainEntries_lookup p k e :
  chainEntries p !! k = Some e ->
  e = if decide (S k = length (chainEntries p)) then Sum256 p else digest (chain_state p (S k)).
Proof.
  intros H. unfold chainEntries in *. rewrite length_chain_from.
  change sha256_init with (chain_state p 0) in H. by apply (chain_from_lookup _ 0) in H.
Qed.

(** C33 - The block table is a SHA-256 chain: every entry but the last is the
chaining state after its block, the last is the file's digest, and hashing the
rest of the file from the state of any earlier entry gives that same digest;
so a loader that checks each block as it arrives makes one SHA-256 pass. *)
Theorem chainEntries_chain (p : bytes) (k : nat) (e : bytes)
  (He : chainEntries p !! k = Some e) (Hk : (S k < length (chainEntries p))%nat) :
  e = digest (chain_state p (S k)) /\
  digest (sha256Blocks (chain_state p (S k)) (drop (S k * Z.to_nat BlockSize) (p ++ padding p))) = Sum256 p /\
  last (chainEntries p) = Some (Sum256 p).
Proof.
  split_and!.
  - apply chainEntries_lookup in He. rewrite decide_False in He by lia. done.
  - assert (S k * Z.to_nat BlockSize <= length p)%nat as Hl.
    { pose proof (len_chainEntries p) as Hle. pose proof (blocksOf_spec (len p) (len_nonneg p)).
      unfold len, BlockSize in *. lia. }
    unfold Sum256, chain_state. rewrite <-(blocks_app (S k * 1024)).
    + f_equal. f_equal. rewrite drop_app_le by done. by rewrite app_assoc, take_drop.
    + rewrite length_take. unfold BlockSize in *. lia.
  - rewrite last_lookup. destruct (chainEntries p !! pred (length (chainEntries p))) as [x|] eqn:E.
    + apply chainEntries_lookup in E as ->. by rewrite decide_True by lia.
    + apply lookup_ge_None in E. lia.
Qed.

Lemma two_blocks p : len p = 65537 -> length (chainEntries p) = 2%nat.
Proof. intros Hp. pose proof (len_chainEntries p) as H. rewrite Hp in H. change (blocksOf 65537) with 2 in H. unfold len in H. lia. Qed.

Lemma chainEntries_chain_witness :
  exists e p, len p = 65537 /\ chainEntries p !! 0%nat = Some e /\ e = digest (chain_state p 1).
Proof.
  assert (0 <= 65537) as H0 by lia. pose proof (len_zeros 65537 H0) as Hp.
  generalize dependent (zeros 65537). intros p Hp. pose proof (two_blocks p Hp) as H2.
  destruct (lookup_lt_is_Some_2 (chainEntries p) 0) as [e He]; [rewrite H2; lia|].
  assert (1 < length (chainEntries p))%nat as H1 by (rewrite H2; lia).
  exists e, p. split; [exact Hp|]. split; [exact He|]. exact (proj1 (chainEntries_chain p 0 e He H1)).
Defined.

(** ** Lemmas: reading back what was written *)

Lemma sectorsFor_spec n : 0 <= n ->
  0 <= sectorsFor n /\ n <= sectorsFor n * 15 < n + 15.
Proof.
  intros Hn. unfold sectorsFor, EntriesPerSect. pose proof (Z.div_mod (n + 15 - 1) 15 ltac:(lia)).
  pose proof (Z.mod_pos_bound (n + 15 - 1) 15 ltac:(lia)). lia.
Qed.

(** Where an entry lies: after the earlier ones, inside its sector's prefix. *)
Lemma entry_off_spec first i : 0 <= i ->
  entry_off first i = first * 512 + 32 * (i + i / 15) /\
  (first + i / 15) * 512 <= entry_off first i /\ entry_off first i + 32 <= (first + i / 15) * 512 + 480.
Proof.
  intros Hi. unfold entry_off, EntriesPerSect, blkSectorSize.
  pose proof (Z.div_mod i 15 ltac:(lia)). pose proof (Z.mod_pos_bound i 15 ltac:(lia)). lia.
Qed.

Lemma entry_off_end first i n : 0 <= i < n -> entry_off first i + 32 <= (first + sectorsFor n) * 512.
Proof.
  intros Hi. pose proof (entry_off_spec first i ltac:(lia)) as (_ & _ & H).
  pose proof (sectorsFor_spec n ltac:(lia)).
  assert (i / 15 < sectorsFor n) by (apply Z.div_lt_upper_bound; lia). lia.
Qed.

Lemma entry_off_mono first i j : 0 <= i < j -> entry_off first i + 32 <= entry_off first j.
Proof.
  intros Hij. pose proof (entry_off_spec first i ltac:(lia)) as [-> _].
  pose proof (entry_off_spec first j ltac:(lia)) as [-> _].
  assert (i / 15 <= j / 15) by (apply Z.div_le_mono; lia). lia.
Qed.

Lemma entry_off_ge first i : 0 <= i -> first * 512 <= entry_off first i.
Proof.
  intros Hi. pose proof (entry_off_spec first i Hi) as [-> _].
  assert (0 <= i / 15) by (apply Z.div_pos; lia). lia.
Qed.

Section put_entries.
Context (first : Z) (Hfirst : 0 <= first).

Lemma len_put_entries es out i : len (put_entries out first i es) = len out.
Proof. revert out i. induction es as [|e es IH]; intros out i; [done|]. cbn. by rewrite IH, len_copy_at. Qed.

Lemma put_entries_other es out i lo n :
  0 <= i -> Forall (fun e => length e = 32%nat) es ->
  (first + sectorsFor (i + len es)) * 512 <= len out ->
  0 <= lo -> 0 <= n -> lo + n <= len out ->
  lo + n <= entry_off first i \/ (first + sectorsFor (i + len es)) * 512 <= lo ->
  sub (put_entries out first i es) lo n = sub out lo n.
Proof.
  intros Hi Hes. revert out i Hi. induction Hes as [|e es He Hes IH]; intros out i Hi Hfit Hlo Hn Hin Hd; [done|].
  cbn [put_entries]. rewrite len_cons in *. pose proof (len_nonneg es).
  replace (i + (1 + len es)) with (i + 1 + len es) in * by lia.
  pose proof (entry_off_end first i (i + 1 + len es) ltac:(lia)) as Hend.
  pose proof (entry_off_ge first i Hi). assert (len e = 32) as Hle by (unfold len; lia).
  pose proof (entry_off_mono first i (i + 1) ltac:(lia)).
  rewrite IH; rewrite ?len_copy_at; try done; try lia.
  apply sub_copy_at_other; rewrite ?Hle; lia.
Qed.

Lemma put_entries_read es out i k e :
  0 <= i -> Forall (fun e => length e = 32%nat) es ->
  (first + sectorsFor (i + len es)) * 512 <= len out ->
  es !! k = Some e ->
  sub (put_entries out first i es) (entry_off first (i + Z.of_nat k)) 32 = e.
Proof.
  intros Hi Hes. revert out i k Hi. induction Hes as [|e0 es He0 Hes IH]; intros out i k Hi Hfit Hk; [done|].
  cbn [put_entries]. rewrite len_cons in *. pose proof (len_nonneg es).
  replace (i + (1 + len es)) with (i + 1 + len es) in * by lia.
  pose proof (entry_off_end first i (i + 1 + len es) ltac:(lia)) as Hend.
  pose proof (entry_off_ge first i Hi). assert (len e0 = 32) as Hle by (unfold len; lia).
  destruct k as [|k]; cbn [lookup list_lookup] in Hk.
  - injection Hk as ->. rewrite Z.add_0_r.
    rewrite put_entries_other; rewrite ?len_copy_at; try done; try lia.
    + rewrite <-Hle. apply sub_copy_at_same; lia.
    + left. apply entry_off_mono. lia.
  - replace (i + Z.of_nat (S k)) with (i + 1 + Z.of_nat k) by lia.
    apply IH; [lia|by rewrite len_copy_at|done].
Qed.

End put_entries.

(** Writes at increasing offsets. *)
Fixpoint increasing (lo : Z) (ws : list (Z * bytes)) : Prop :=
  match ws with
  | [] => True
  | (o, w) :: r => lo <= o /\ increasing (o + len w) r
  end.

Fixpoint writes_end (lo : Z) (ws : list (Z * bytes)) : Z :=
  match ws with [] => lo | (o, w) :: r => writes_end (o + len w) r end.

Lemma writes_end_ge lo ws : increasing lo ws -> lo <= writes_end lo ws.
Proof.
  revert lo. induction ws as [|[o w] ws IH]; intros lo; cbn; [lia|]. intros [H1 H2].
  specialize (IH _ H2). pose proof (len_nonneg w). lia.
Qed.

Lemma len_put_all ws out : len (put_all out ws) = len out.
Proof.
  unfold put_all. revert out. induction ws as [|w ws IH]; intros out; [done|]. cbn. by rewrite IH, len_copy_at.
Qed.

Lemma put_all_below ws out b lo n :
  0 <= b -> increasing b ws -> writes_end b ws <= len out -> 0 <= lo -> 0 <= n -> lo + n <= b ->
  sub (put_all out ws) lo n = sub out lo n.
Proof.
  unfold put_all. revert out b. induction ws as [|[o w] ws IH]; intros out b Hb Hinc Hend Hlo Hn Hbl; [done|].
  cbn [fold_left fst snd]. cbn in Hinc, Hend. destruct Hinc as [H1 H2].
  pose proof (len_nonneg w). pose proof (writes_end_ge _ _ H2).
  rewrite (IH _ (o + len w)); rewrite ?len_copy_at; try done; try lia.
  apply sub_copy_at_other; lia.
Qed.

Lemma put_all_read ws out b o w :
  0 <= b -> increasing b ws -> writes_end b ws <= len out -> (o, w) ∈ ws ->
  sub (put_all out ws) o (len w) = w.
Proof.
  unfold put_all. revert out b. induction ws as [|[o' w'] ws IH]; intros out b Hb Hinc Hend Hin;
    [by apply not_elem_of_nil in Hin|].
  cbn [fold_left fst snd]. cbn in Hinc, Hend. destruct Hinc as [H1 H2].
  pose proof (len_nonneg w'). pose proof (writes_end_ge _ _ H2).
  apply elem_of_cons in Hin as [[= -> ->]|Hin].
  - fold (put_all (copy_at out o' w') ws).
    rewrite (put_all_below _ _ (o' + len w')); rewrite ?len_copy_at; try done; try lia.
    apply sub_copy_at_same; lia.
  - apply (IH _ (o' + len w')); rewrite ?len_copy_at; try done; lia.
Qed.

Lemma len_Sum256 p : len (Sum256 p) = 32.
Proof. unfold len. by rewrite length_Sum256. Qed.

Lemma len_hash_sectors n s out : len (hash_sectors n s out) = len out.
Proof. revert s out. induction n as [|n IH]; intros s out; [done|]. cbn [hash_sectors]. by rewrite IH, len_copy_at. Qed.

(** Bytes outside the hash fields are kept: [q] is the sector they are in. *)
Lemma hash_sectors_kept n s out q lo m :
  0 <= s -> (s + Z.of_nat n) * 512 <= len out ->
  0 <= q -> q * 512 <= lo -> 0 <= m -> lo + m <= q * 512 + 480 \/ (lo + m <= q * 512 + 512 /\ q < s) ->
  lo + m <= len out ->
  sub (hash_sectors n s out) lo m = sub out lo m.
Proof.
  intros Hs. revert s Hs out. induction n as [|n IH]; intros s Hs out Hfit Hq Hlo Hm Hd Hin; [done|].
  cbn [hash_sectors]. unfold blkSectorSize, blkHashedPrefix in *.
  rewrite IH; rewrite ?len_copy_at; try done; try lia.
  apply sub_copy_at_other; rewrite ?len_Sum256; lia.
Qed.

Lemma hash_sectors_read n s out t :
  0 <= s -> (s + Z.of_nat n) * 512 <= len out -> s <= t < s + Z.of_nat n ->
  sub (hash_sectors n s out) (t * 512 + 480) 32 = Sum256 (sub out (t * 512) 480).
Proof.
  intros Hs. revert s Hs out. induction n as [|n IH]; intros s Hs out Hfit Ht; [lia|].
  cbn [hash_sectors]. unfold blkSectorSize, blkHashedPrefix in *.
  destruct (Z.eq_dec t s) as [->|Hne].
  - rewrite (hash_sectors_kept _ _ _ s); rewrite ?len_copy_at; try lia.
    rewrite <-(len_Sum256 (sub out (s * 512) 480)) at 1.
    apply sub_copy_at_same; rewrite ?len_Sum256; lia.
  - rewrite IH; rewrite ?len_copy_at; try lia.
    f_equal. apply sub_copy_at_other; rewrite ?len_Sum256; lia.
Qed.

Lemma check_sectors_ok n s raw :
  0 <= s -> (s + Z.of_nat n) * 512 <= len raw ->
  (forall t, s <= t < s + Z.of_nat n -> sub raw (t * 512 + 480) 32 = Sum256 (sub raw (t * 512) 480)) ->
  check_sectors n s raw = Ok tt.
Proof.
  intros Hs. revert s Hs. induction n as [|n IH]; intros s Hs Hfit H; [done|].
  cbn [check_sectors]. unfold blkSectorSize, blkHashedPrefix in *.
  rewrite slice_ok by lia. cbn [obind].
  assert (len (sub raw (s * 512) ((s + 1) * 512 - s * 512)) = 512) as Hl by (rewrite len_sub; lia).
  rewrite slice_ok by lia. cbn [obind]. unfold slice_from. rewrite slice_ok by lia. cbn [obind].
  rewrite Hl, !sub_sub by lia. change (480 - 0) with 480. change (512 - 480) with 32. rewrite Z.add_0_r.
  rewrite H by lia. rewrite beq_refl. cbn [negb]. apply IH; [lia|lia|]. intros t Ht. apply H. lia.
Qed.

Lemma read_entries_ok es k raw first :
  0 <= k -> 0 <= first -> (first + sectorsFor (k + len es)) * 512 <= len raw ->
  Forall (fun e => length e = 32%nat) es ->
  (forall j e, es !! j = Some e -> sub raw (entry_off first (k + Z.of_nat j)) 32 = e) ->
  read_entries (length es) k raw first = Ok es.
Proof.
  intros Hk Hfirst Hfit Hes. revert k Hk Hfit. induction Hes as [|e es He Hes IH]; intros k Hk Hfit H; [done|].
  cbn [length read_entries]. rewrite len_cons in *. pose proof (len_nonneg es).
  replace (k + (1 + len es)) with (k + 1 + len es) in * by lia.
  pose proof (entry_off_end first k (k + 1 + len es) ltac:(lia)).
  pose proof (entry_off_ge first k Hk).
  unfold slice_from. rewrite slice_ok by lia. cbn [obind].
  rewrite IH; [|lia|done|].
  - cbn [obind]. do 2 f_equal. pose proof (H 0%nat e eq_refl) as He0. rewrite Z.add_0_r in He0.
    unfold copy, zeros. rewrite length_replicate, drop_ge, app_nil_r.
    + change (Z.to_nat 32) with 32%nat. rewrite <-He0. unfold sub. rewrite take_take. f_equal.
      unfold len in *. lia.
    + unfold sub. rewrite length_replicate, length_take, length_drop. unfold len in *. lia.
  - intros j e' Hj. replace (k + 1 + Z.of_nat j) with (k + Z.of_nat (S j)) by lia. by apply H.
Qed.

(** A file's descriptor and entries, as the header and table hold them. *)
Lemma read_file_ok raw h i size off first es sum :
  0 <= i <= 1 -> len h = 512 -> 0 <= off <= size -> size < 2 ^ 32 -> size - off <= 2 ^ 32 - BlockSize ->
  len es = blocksOf (size - off) -> 1 <= first < 2 ^ 32 ->
  sub h (20 + 16 * i) 4 = le_put 4 size -> sub h (20 + 16 * i + 4) 4 = le_put 4 off ->
  sub h (20 + 16 * i + 8) 4 = le_put 4 (len es) -> sub h (20 + 16 * i + 12) 4 = le_put 4 first ->
  sub h (52 + 32 * i) 32 = sum -> length sum = 32%nat ->
  (first + sectorsFor (len es)) * 512 <= len raw ->
  Forall (fun e => length e = 32%nat) es ->
  (forall j e, es !! j = Some e -> sub raw (entry_off first (Z.of_nat j)) 32 = e) ->
  read_file raw h i = Ok (mkBlkFile size off (len es) first sum es).
Proof.
  intros Hi Hh Hoff Hsize Hrange Hes Hfirst H1 H2 H3 H4 H5 H6 Hfit H32 Hread. unfold read_file.
  rewrite !le_at_ok by lia. cbn [obind]. rewrite H1, H2, H3, H4, !le_get_put.
  pose proof (blocksOf_spec (size - off) ltac:(lia)) as Hb. unfold BlockSize in *.
  change (256 ^ Z.of_nat 4) with (2 ^ 32). rewrite !Z.mod_small by lia.
  unfold slice_from. rewrite slice_ok by lia. cbn [obind].
  rewrite (proj2 (Z.ltb_ge _ _)), (proj2 (Z.eqb_neq _ _)) by lia. cbn [orb].
  assert (u32 (u32 (size - off + 65536) - 1) / 65536 = blocksOf (size - off)) as ->.
  { unfold blocksOf, BlockSize, u32. destruct (Z.eq_dec (size - off + 65536) (2 ^ 32)) as [Heq|Hne].
    - rewrite Heq, Z_mod_same_full. done.
    - by rewrite (Z.mod_small (size - off + 65536)), Z.mod_small by lia. }
  rewrite Hes, Z.eqb_refl. cbn [negb]. rewrite <-Hes. unfold blkSectorSize.
  rewrite (proj2 (Z.ltb_ge _ _)) by lia. unfold len at 1. rewrite Nat2Z.id.
  rewrite read_entries_ok by (done || lia). cbn [obind]. do 2 f_equal.
  unfold copy, zeros. rewrite length_replicate, drop_ge, app_nil_r.
  - change (Z.to_nat 32) with 32%nat. rewrite <-H5. unfold sub. rewrite take_take. f_equal.
    unfold len in *. lia.
  - unfold sub. rewrite length_replicate, length_take, length_drop. unfold len in *. lia.
Qed.

(** ** The generated table, read back *)

Section generated.
Context (ksize koff isize : Z) (ke ie : list bytes) (ksum isum : bytes).
Let ks := sectorsFor (len ke).
Let is_ := sectorsFor (len ie).
Let ws := header_writes ksize koff (len ke) 1 isize (len ie) (1 + ks) ksum isum.
Let out0 := put_all (zeros ((1 + ks + is_) * blkSectorSize)) ws.
Let out := put_entries (put_entries out0 1 0 ke) (1 + ks) 0 ie.
Let raw := hash_sectors (Z.to_nat (1 + ks + is_)) 0 out.
Context (Hke : Forall (fun e => length e = 32%nat) ke) (Hie : Forall (fun e => length e = 32%nat) ie)
  (Hks : length ksum = 32%nat) (His : length isum = 32%nat).

Local Ltac in_ws := unfold ws, header_writes; repeat first [by left|right].

Lemma gen_bounds : 0 <= ks /\ 0 <= is_.
Proof. split; apply sectorsFor_spec; apply len_nonneg. Qed.

Lemma gen_len : len raw = (1 + ks + is_) * 512 /\ len out = (1 + ks + is_) * 512 /\
  len out0 = (1 + ks + is_) * 512 /\ len (put_entries out0 1 0 ke) = (1 + ks + is_) * 512.
Proof.
  pose proof gen_bounds. unfold raw, out, out0. rewrite len_hash_sectors, !len_put_entries, len_put_all.
  unfold blkSectorSize. rewrite len_zeros by lia. done.
Qed.

Lemma gen_writes : increasing 0 ws /\ writes_end 0 ws = 116.
Proof.
  unfold ws, header_writes. cbn [increasing writes_end]. rewrite !len_le_put.
  change (len (bs "AZBLKSUM")) with 8. unfold len. rewrite Hks, His. repeat split; lia.
Qed.

Lemma gen_header o w : (o, w) ∈ ws -> 0 <= o -> o + len w <= 116 -> sub raw o (len w) = w.
Proof.
  intros Hin Ho Hl. pose proof gen_bounds. pose proof gen_len as (Hr & Hout & Ho0 & Hp).
  pose proof gen_writes as [Hinc Hend]. pose proof (len_nonneg w).
  unfold raw. rewrite (hash_sectors_kept _ _ _ 0) by lia. unfold out.
  pose proof (entry_off_ge 1 0 ltac:(lia)). pose proof (entry_off_ge (1 + ks) 0 ltac:(lia)).
  rewrite put_entries_other; [|try done; try lia..].
  2: { rewrite Hp. fold is_. rewrite Z.add_0_l. fold is_. lia. }
  rewrite put_entries_other; [|try done; try lia..].
  2: { rewrite Ho0, Z.add_0_l. fold ks. lia. }
  unfold out0. apply (put_all_read _ _ 0); [lia|done| |done].
  rewrite Hend. unfold blkSectorSize. rewrite len_zeros by lia. lia.
Qed.

Lemma gen_kernel_entry j e : ke !! j = Some e -> sub raw (entry_off 1 (Z.of_nat j)) 32 = e.
Proof.
  intros Hj. pose proof gen_bounds. pose proof gen_len as (Hr & Hout & Ho0 & Hp).
  pose proof (lookup_lt_Some _ _ _ Hj) as Hlt.
  pose proof (entry_off_end 1 (Z.of_nat j) (len ke) ltac:(unfold len; lia)) as Hend. fold ks in Hend.
  pose proof (entry_off_spec 1 (Z.of_nat j) ltac:(lia)) as (_ & Hlo & Hhi).
  assert (0 <= Z.of_nat j / 15) by (apply Z.div_pos; lia).
  unfold raw. rewrite (hash_sectors_kept _ _ _ (1 + Z.of_nat j / 15)) by lia. unfold out.
  pose proof (entry_off_ge (1 + ks) 0 ltac:(lia)).
  rewrite put_entries_other; [|try done; try lia..].
  2: { rewrite Hp, Z.add_0_l. fold is_. lia. }
  apply (put_entries_read 1 ltac:(lia) ke out0 0 j e); [lia|done| |done].
  rewrite Ho0, Z.add_0_l. fold ks. lia.
Qed.

Lemma gen_initrd_entry j e : ie !! j = Some e -> sub raw (entry_off (1 + ks) (Z.of_nat j)) 32 = e.
Proof.
  intros Hj. pose proof gen_bounds. pose proof gen_len as (Hr & Hout & Ho0 & Hp).
  pose proof (lookup_lt_Some _ _ _ Hj) as Hlt.
  pose proof (entry_off_end (1 + ks) (Z.of_nat j) (len ie) ltac:(unfold len; lia)) as Hend. fold is_ in Hend.
  pose proof (entry_off_spec (1 + ks) (Z.of_nat j) ltac:(lia)) as (_ & Hlo & Hhi).
  assert (0 <= Z.of_nat j / 15) by (apply Z.div_pos; lia).
  unfold raw. rewrite (hash_sectors_kept _ _ _ (1 + ks + Z.of_nat j / 15)) by lia. unfold out.
  apply (put_entries_read (1 + ks) ltac:(lia) ie (put_entries out0 1 0 ke) 0 j e); [lia|done| |done].
  rewrite Hp, Z.add_0_l. fold is_. lia.
Qed.

Lemma gen_sectors : check_sectors (Z.to_nat (len raw / blkSectorSize)) 0 raw = Ok tt.
Proof.
  pose proof gen_bounds. pose proof gen_len as (Hr & Hout & _).
  unfold blkSectorSize. rewrite Hr, Z.div_mul by lia. apply check_sectors_ok; [lia|lia|].
  intros t Ht. unfold raw. rewrite hash_sectors_read by lia.
  by rewrite (hash_sectors_kept _ _ _ t) by lia.
Qed.

Lemma gen_head o w : (o, w) ∈ ws -> 0 <= o -> o + len w <= 116 -> sub (sub raw 0 512) o (len w) = w.
Proof. intros. pose proof (len_nonneg w). rewrite sub_sub by lia. by apply gen_header. Qed.

Lemma gen_head4 o v : (o, le_put 4 v) ∈ ws -> 0 <= o -> o <= 112 -> sub (sub raw 0 512) o 4 = le_put 4 v.
Proof. intros H1 H2 H3. pose proof (gen_head o (le_put 4 v) H1 H2) as H. rewrite len_le_put in H. apply H. lia. Qed.

Context (Hkoff : 0 <= koff <= ksize) (Hks32 : ksize < 2 ^ 32) (Hkr : ksize - koff <= 2 ^ 32 - BlockSize)
  (Hkn : len ke = blocksOf (ksize - koff))
  (His32 : 0 <= isize <= 2 ^ 32 - BlockSize) (Hin_ : len ie = blocksOf isize).

Lemma gen_kfile : read_file raw (sub raw 0 512) 0 = Ok (mkBlkFile ksize koff (len ke) 1 ksum ke).
Proof.
  pose proof gen_bounds. pose proof gen_len as (Hr & _).
  assert (len (sub raw 0 512) = 512) as Hh by (apply len_sub; lia).
  pose proof (sectorsFor_spec (len ke) (len_nonneg ke)) as Hsk. fold ks in Hsk.
  apply read_file_ok; try done; try lia; try (apply gen_head4; [in_ws|lia..]).
  - pose proof (gen_head 52 ksum) as Hg. assert (len ksum = 32) as Hl by (unfold len; by rewrite Hks).
    rewrite Hl in Hg. apply Hg; [in_ws|lia|lia].
  - apply gen_kernel_entry.
Qed.

Lemma gen_ifile : read_file raw (sub raw 0 512) 1 = Ok (mkBlkFile isize 0 (len ie) (1 + ks) isum ie).
Proof.
  pose proof gen_bounds. pose proof gen_len as (Hr & _).
  assert (len (sub raw 0 512) = 512) as Hh by (apply len_sub; lia).
  pose proof (sectorsFor_spec (len ke) (len_nonneg ke)) as Hsk. fold ks in Hsk.
  pose proof (blocksOf_spec (ksize - koff) ltac:(lia)). unfold BlockSize in *.
  apply read_file_ok; rewrite ?Z.sub_0_r; unfold BlockSize; try done; try lia;
    try (apply gen_head4; [in_ws|lia..]).
  - pose proof (gen_head 84 isum) as Hg. assert (len isum = 32) as Hl by (unfold len; by rewrite His).
    rewrite Hl in Hg. apply Hg; [in_ws|lia|lia].
  - apply gen_initrd_entry.
Qed.

Lemma gen_decode :
  DecodeBlkSum raw = Ok (mkBlkSum (mkBlkFile ksize koff (len ke) 1 ksum ke)
                                  (mkBlkFile isize 0 (len ie) (1 + ks) isum ie)).
Proof.
  pose proof gen_bounds. pose proof gen_len as (Hr & _).
  unfold DecodeBlkSum. rewrite gen_sectors. unfold blkSectorSize.
  rewrite Hr, Z.mod_mul, (proj2 (Z.ltb_ge _ _)) by lia. cbn [orb negb Z.eqb obind].
  rewrite slice_ok by lia. cbn [obind]. change (512 - 0) with 512.
  assert (len (sub raw 0 512) = 512) as Hh by (apply len_sub; lia).
  rewrite slice_ok by lia. cbn [obind]. change (8 - 0) with (len (bs "AZBLKSUM")).
  rewrite gen_head by (try in_ws; done). rewrite beq_refl. cbn [negb].
  rewrite !le_at_ok by lia. cbn [obind].
  rewrite (gen_head4 8 BlkSumVersion), (gen_head4 12 BlockSize), (gen_head4 16 EntriesPerSect)
    by (try lia; in_ws).
  rewrite !le_get_put. change (BlkSumVersion mod 256 ^ Z.of_nat 4 =? BlkSumVersion) with true.
  change (BlockSize mod 256 ^ Z.of_nat 4 =? BlockSize) with true.
  change (EntriesPerSect mod 256 ^ Z.of_nat 4 =? EntriesPerSect) with true. cbn [negb orb].
  rewrite gen_kfile. cbn [obind]. by rewrite gen_ifile.
Qed.

End generated.

Lemma Ok_inj {E A} (a b : A) : Ok (E:=E) a = Ok b -> a = b.
Proof. by intros [= ->]. Qed.

Lemma compare_same name k l : compare_entries name k l l = Ok [].
Proof. revert k. induction l as [|e l IH]; intros k; [done|]. cbn [compare_entries]. rewrite beq_refl. apply IH. Qed.

Lemma slice_tail {E} (data : bytes) off :
  0 <= off <= len data -> slice_from (E:=E) data off = Ok (drop (Z.to_nat off) data).
Proof.
  intros H. unfold slice_from. rewrite slice_ok by lia. f_equal. unfold sub. apply take_ge.
  rewrite length_drop. unfold len. lia.
Qed.

(** ** Properties *)

(** The files a BLKSUM can describe: each loaded range at most 4 GiB - 64 KiB. *)
Definition describable (kernel initrd : bytes) (koff : Z) : Prop :=
  len kernel - koff <= 2 ^ 32 - BlockSize /\ len initrd <= 2 ^ 32 - BlockSize.

Lemma GenerateBlkSum_safe kernel initrd : safe (GenerateBlkSum kernel initrd).
Proof.
  unfold GenerateBlkSum. apply obind_safe; [apply KernelRAMOffset_safe|]. intros off Ho.
  apply KernelRAMOffset_range in Ho as [? _]. apply safe_if; intros _; [done|].
  apply obind_safe; [unfold slice_from; apply safe_slice; lia|done].
Qed.

Lemma blksum_generated (kernel initrd raw mode : bytes) (koff : Z) (m : Manifest) :
  KernelRAMOffset kernel = Ok koff -> describable kernel initrd koff ->
  GenerateBlkSum kernel initrd = Ok raw -> New kernel initrd mode = Ok m ->
  exists b, DecodeBlkSum raw = Ok b /\ VerifyBlkSum b m kernel initrd = Ok [].
Proof.
  intros Hoff Hdesc Hgen Hnew.
  destruct Hdesc as [Hk Hi]. apply New_inv in Hnew as (off & Ho & Hek & Hei & _). rewrite Hoff in Ho.
  injection Ho as <-. pose proof (KernelRAMOffset_range _ _ Hoff) as [Hr _]. pose proof (len_nonneg initrd).
  apply entryFor_ok in Hek as [Hk32 Hek]; [|lia..]. apply entryFor_ok in Hei as [Hi32 Hei]; [|lia..].
  unfold GenerateBlkSum in Hgen. rewrite Hoff in Hgen. cbn [obind] in Hgen.
  rewrite !(proj2 (Z.ltb_ge _ _)) in Hgen by lia. cbn [orb] in Hgen.
  rewrite slice_tail in Hgen by lia. cbn [obind] in Hgen. apply Ok_inj in Hgen. subst raw.
  eexists. split.
  - apply gen_decode; [apply chainEntries_32|apply chainEntries_32|apply length_Sum256|apply length_Sum256
      |lia|lia|lia| |lia| ]; [by rewrite len_chainEntries, len_drop by lia|by rewrite len_chainEntries].
  - unfold VerifyBlkSum, verify_file. rewrite Hoff, Hek, Hei.
    cbn [bKernel bInitrd bSize bOffset bSHA256 Entries Size Offset SHA256].
    rewrite drop_0, !Z.eqb_refl, !beq_refl. cbn [negb orb].
    rewrite !slice_tail by lia. cbn [obind]. rewrite drop_0, !compare_same. done.
Qed.

(** BLKSUM round trip: the table generated for a kernel and an initrd passes
its own sector hashes and header checks when decoded, and verifies without a
finding against the CHECKSUM manifest generated for the same files. *)
Theorem blksum_round_trip (kernel initrd raw mode : bytes) (koff : Z) (m : Manifest)
  (Hoff : KernelRAMOffset kernel = Ok koff)
  (Hdesc : describable kernel initrd koff)
  (Hgen : GenerateBlkSum kernel initrd = Ok raw)
  (Hnew : New kernel initrd mode = Ok m) :
  exists b, DecodeBlkSum raw = Ok b /\ VerifyBlkSum b m kernel initrd = Ok [].
Proof. by eapply blksum_generated. Qed.

Lemma blksum_round_trip_witness :
  exists raw b, GenerateBlkSum sample_kernel sample_initrd = Ok raw /\ DecodeBlkSum raw = Ok b /\
    VerifyBlkSum b sample_manifest sample_kernel sample_initrd = Ok [].
Proof.
  assert (is_ok (GenerateBlkSum sample_kernel sample_initrd) = true) as Hok by (vm_compute; reflexivity).
  destruct (GenerateBlkSum sample_kernel sample_initrd) as [raw| |] eqn:Hg; [|discriminate Hok|discriminate Hok].
  destruct (blksum_round_trip sample_kernel sample_initrd raw ModeEnforce 1024 sample_manifest) as (b & Hb).
  - vm_compute. reflexivity.
  - split; vm_compute; discriminate.
  - exact Hg.
  - vm_compute. reflexivity.
  - exists raw, b. split; [reflexivity|exact Hb].
Defined.

Lemma read_entries_safe n k raw first N :
  0 <= k -> 0 <= first -> k + Z.of_nat n <= N -> (first + sectorsFor N) * 512 <= len raw ->
  safe (read_entries n k raw first).
Proof.
  revert k. induction n as [|n IH]; intros k Hk Hf Hn Hfit; [done|]. cbn [read_entries].
  pose proof (entry_off_end first k N ltac:(lia)). pose proof (entry_off_ge first k Hk).
  rewrite slice_tail by lia. cbn [obind]. apply obind_safe; [|done]. apply IH; lia.
Qed.

Lemma le_at_safe n h off : 0 <= off -> 0 <= n -> off + n <= len h -> exists v, le_at (E:=payloadsum_error) n h off = Ok v /\ 0 <= v.
Proof.
  intros. rewrite le_at_ok by lia. eexists. split; [done|]. apply le_get_range.
Qed.

Lemma read_file_safe raw h i : 0 <= i <= 1 -> len h = 512 -> safe (read_file raw h i).
Proof.
  intros Hi Hh. unfold read_file.
  destruct (le_at_safe 4 h (20 + 16 * i)) as (size & -> & ?); [lia..|]. cbn [obind].
  destruct (le_at_safe 4 h (20 + 16 * i + 4)) as (off & -> & ?); [lia..|]. cbn [obind].
  destruct (le_at_safe 4 h (20 + 16 * i + 8)) as (blocks & -> & ?); [lia..|]. cbn [obind].
  destruct (le_at_safe 4 h (20 + 16 * i + 12)) as (first & -> & ?); [lia..|]. cbn [obind].
  rewrite slice_tail by lia. cbn [obind]. destruct (_ || _); [done|]. destruct (negb _); [done|].
  destruct (len raw <? _) eqn:E; [done|]. zb. unfold blkSectorSize in E.
  apply obind_safe; [|done]. apply (read_entries_safe _ _ _ _ blocks); lia.
Qed.

Lemma check_sectors_safe n s raw :
  0 <= s -> (s + Z.of_nat n) * 512 <= len raw -> safe (check_sectors n s raw).
Proof.
  revert s. induction n as [|n IH]; intros s Hs Hfit; [done|]. cbn [check_sectors].
  unfold blkSectorSize, blkHashedPrefix. rewrite slice_ok by lia. cbn [obind].
  assert (len (sub raw (s * 512) ((s + 1) * 512 - s * 512)) = 512) as Hl by (rewrite len_sub; lia).
  rewrite slice_ok by lia. cbn [obind]. rewrite slice_tail by lia. cbn [obind].
  destruct (negb _); [done|]. apply IH; lia.
Qed.

(** BLKSUM decoding never panics: for any bytes, every table access stays
inside the file, whatever counts and sector numbers the header claims. *)
Theorem DecodeBlkSum_safe (raw : bytes) : safe (DecodeBlkSum raw).
Proof.
  unfold DecodeBlkSum, blkSectorSize. destruct (_ || _) eqn:E; [done|]. zb.
  apply obind_safe.
  { apply check_sectors_safe; [lia|]. pose proof (Z.div_mod (len raw) 512 ltac:(lia)).
    rewrite Z2Nat.id by (apply Z.div_pos; lia). lia. }
  intros _ _. rewrite slice_ok by lia. cbn [obind].
  assert (len (sub raw 0 (512 - 0)) = 512) as Hl by (apply len_sub; lia).
  rewrite slice_ok by lia. cbn [obind]. destruct (negb _); [done|].
  rewrite le_at_ok by lia. cbn [obind]. destruct (negb _); [done|].
  rewrite !le_at_ok by lia. cbn [obind]. destruct (_ || _); [done|].
  apply obind_safe; [by apply read_file_safe|]. intros k _.
  apply obind_safe; [by apply read_file_safe|]. done.
Qed.

(** A header-only BLKSUM for an initrd of 2^32 - 1 bytes and no blocks. *)
Definition wrapping_blksum : bytes :=
  hash_sectors 1 0 (put_all (zeros 512)
    (header_writes 1024 1024 0 1 (2 ^ 32 - 1) 0 1 (zeros 32) (zeros 32))).

(** The block count wraps near 4 GiB: the 32-bit addition in the count check
makes 0 the only count accepted for a loaded range within 65535 bytes of 4 GiB,
while [chainEntries] makes 65536 entries for it, so such a file's own table is
refused; and a table that claims 0 blocks for it is accepted, after which
comparing it with the file indexes past its entries and panics. *)
Theorem blksum_count_wraps (l : Z) (Hl : 2 ^ 32 - BlockSize < l < 2 ^ 32) :
  u32 (u32 (l + BlockSize) - 1) / BlockSize = 0 /\ blocksOf l = 65536 /\
  forall name f sum (data : bytes),
    len data = l -> bSize f = l -> bOffset f = 0 -> Entries f = [] ->
    Size sum = l -> Offset sum = 0 -> SHA256 sum = bSHA256 f ->
    verify_file name f sum data 0 = Panic.
Proof.
  unfold BlockSize in Hl. assert (blocksOf l = 65536) as Hb.
  { pose proof (blocksOf_spec l ltac:(lia)). unfold BlockSize in *. lia. }
  split_and!; [|done|].
  - unfold u32, BlockSize. replace ((l + 65536) mod 2 ^ 32) with (l + 65536 - 2 ^ 32).
    + rewrite Z.mod_small by lia. apply Z.div_small. lia.
    + rewrite <-(Z.mod_add _ (-1)) by lia. symmetry. apply Z.mod_small. lia.
  - intros name f sum data Hd H1 H2 H3 H4 H5 H6. unfold verify_file.
    rewrite H1, H2, H3, H4, H5, H6, Hd, !Z.eqb_refl, beq_refl. cbn [negb orb].
    rewrite slice_tail by lia. cbn [obind].
    pose proof (len_chainEntries (drop (Z.to_nat 0) data)) as Hc. rewrite drop_0, Hd, Hb in Hc.
    rewrite drop_0. destruct (chainEntries data); [discriminate Hc|done].
Qed.

Lemma blksum_count_wraps_witness :
  blocksOf (2 ^ 32 - 1) = 65536 /\
  exists b, DecodeBlkSum wrapping_blksum = Ok b /\ bSize (bInitrd b) = 2 ^ 32 - 1 /\ Entries (bInitrd b) = [].
Proof.
  split.
  - apply (blksum_count_wraps (2 ^ 32 - 1)). split; vm_compute; reflexivity.
  - eexists. vm_compute. split; [reflexivity|]. split; reflexivity.
Defined.
