(* ===== verification/BiosBoot.v ===== *)
(** * internal/biosboot: stage1 and stage2 on the raw disk

The two fixed-placement BIOS artifacts: writing, verifying and reading them,
the stage2 header rules stage1 applies (stagecompat.go), and the sector-size
check (sectorsize.go). *)

From Stdlib Require Import ZArith Lia Strings.Byte.
From stdpp Require Import base list gmap.
From S2P Require Import Prelude GoStrings Layout Device PartTable ExtentCheck World.
Local Open Scope Z_scope.

Definition stage2_offset : Z := Stage2LBA * SectorSize.

(** ** Comparing regions *)

Inductive difference :=
| DiffAt (i : Z) (got want : byte)
| DiffLength (got want : Z)
| DiffNone.

Fixpoint first_diff_from (i : Z) (got want : bytes) : option difference :=
  match got, want with
  | g :: got', w :: want' => if decide (g = w) then first_diff_from (i + 1) got' want' else Some (DiffAt i g w)
  | _, _ => None
  end.

Definition firstDiff (got want : bytes) : difference :=
  match first_diff_from 0 got want with
  | Some d => d
  | None => if negb (len got =? len want) then DiffLength (len got) (len want) else DiffNone
  end.

(** The read-back test of [verifyStage2At] on the region it read. *)
Definition check_region (region want : bytes) : outcome ioerr unit :=
  let! front := slice region 0 (len want) in
  if negb (beq front want) then Err (EMismatch (bs "stage2 content")) else
  let! pad := slice_from region (len want) in
  if forallb (is_byte x00) pad then Ok tt else Err (EMismatch (bs "stage2 padding")).

Section disk.
Context {O : Oracle}.

(** [bootenv.CheckStage2ExtentFree(disk)] on the disk as it is now: one point
of failure for its reads. *)
Definition gate (disk : bytes) : io unit := fun w =>
  match sys OpGate (fun w => (CheckStage2ExtentFree (plain <$> disks w !! disk), w)) w with
  | (Ok (Ok _), w') => (Ok tt, w')
  | (Ok (Err _), w') => (Err (ERefused (bs "stage2 extent")), w')
  | (Ok Panic, w') => (Panic, w')
  | (Err e, w') => (Err e, w')
  | (Panic, w') => (Panic, w')
  end.

(** [os.Open] / [os.OpenFile] of the device. *)
Definition openDisk (disk : bytes) : io unit := fun w =>
  match sys OpOpen (fun w => (disks w !! disk, w)) w with
  | (Ok (Some _), w') => (Ok tt, w')
  | (Ok None, w') => (Err ENotExist, w')
  | (Err e, w') => (Err e, w')
  | (Panic, w') => (Panic, w')
  end.

Definition readRegion (disk : bytes) (offset length : Z) : io bytes :=
  run openDisk disk then readDisk disk offset length.

(** The writers return the previous content also when they fail after having
read it: [None] is a nil slice. *)
Definition wresult : Type := option bytes * outcome ioerr unit.

(** [if _, err := c(); err != nil { return prev, err }] *)
Definition guard {A} (prev : option bytes) (c : io A) (k : A -> io wresult) : io wresult :=
  do r := attempt c in
  match r with
  | Ok a => k a
  | Err e => ret (prev, Err e)
  | Panic => lift Panic
  end.

Definition WriteStage1 (disk stage1 : bytes) : io wresult :=
  if negb (len stage1 =? Stage1Bytes) then ret (None, Err (ERefused (bs "stage1 size"))) else
  guard None (gate disk) (fun _ =>
  guard None (openDisk disk) (fun _ =>
  guard None (readDisk disk 0 Stage1Bytes) (fun previous =>
  guard (Some previous) (writeDisk disk 0 stage1) (fun _ =>
  guard (Some previous) (plain_call OpSync) (fun _ =>
  ret (Some previous, Ok tt)))))).

Definition VerifyStage1 (disk want : bytes) : io unit :=
  if negb (len want =? Stage1Bytes) then throw (ERefused (bs "stage1 size")) else
  do got := readRegion disk 0 Stage1Bytes in
  if beq got want then ret tt else throw (EMismatch (bs "stage1")).

Definition verifyStage2At (disk : bytes) (offset : Z) (want : bytes) : io unit :=
  do region := readDisk disk offset Stage2Bytes in lift (check_region region want).

(** stage2 followed by zero padding: [copy(make([]byte, Stage2Bytes), stage2)]. *)
Definition stage2_region (stage2 : bytes) : bytes := copy (zeros Stage2Bytes) stage2.

Definition WriteStage2 (disk stage2 : bytes) : io wresult :=
  if Stage2Bytes <? len stage2 then ret (None, Err (ERefused (bs "stage2 size"))) else
  guard None (gate disk) (fun _ =>
  guard None (openDisk disk) (fun _ =>
  guard None (readDisk disk stage2_offset Stage2Bytes) (fun previous =>
  guard (Some previous) (writeDisk disk stage2_offset (stage2_region stage2)) (fun _ =>
  guard (Some previous) (plain_call OpSync) (fun _ =>
  guard (Some previous) (verifyStage2At disk stage2_offset stage2) (fun _ =>
  ret (Some previous, Ok tt))))))).

Definition VerifyStage2 (disk want : bytes) : io unit :=
  if Stage2Bytes <? len want then throw (ERefused (bs "stage2 size")) else
  run openDisk disk then verifyStage2At disk stage2_offset want.

Definition ReadStage1 (disk : bytes) : io bytes := readRegion disk 0 Stage1Bytes.

(** Drop the trailing zero bytes. *)
Definition trim_zeros (region : bytes) : bytes := trim_right region [x00].

Definition ReadStage2 (disk : bytes) : io bytes :=
  do region := readRegion disk stage2_offset Stage2Bytes in ret (trim_zeros region).

End disk.

(** ** The version string *)

Definition stage2VersionPrefix : bytes := bs "alpine-zfsboot by UniDoc, version ".

Inductive version_error := ENoVersion | ENoBuildMarker | EUnterminated.

Definition ExtractStage2Version (stage2Data : bytes) : outcome version_error (bytes * bytes) :=
  match index_of stage2Data stage2VersionPrefix with
  | None => Err ENoVersion
  | Some idx =>
      let! rest := slice_from stage2Data (Z.of_nat idx + len stage2VersionPrefix) in
      match index_of rest (bs ", build=") with
      | None => Err ENoBuildMarker
      | Some buildIdx =>
          let! version := slice rest 0 (Z.of_nat buildIdx) in
          let! afterBuild := slice_from rest (Z.of_nat buildIdx + len (bs ", build=")) in
          match index_any afterBuild [x0a; x00] with
          | None => Err EUnterminated
          | Some end_ =>
              let! buildID := slice afterBuild 0 (Z.of_nat end_) in Ok (version, buildID)
          end
      end
  end.

Example version_sample :
  ExtractStage2Version (zeros 3 ++ bs "alpine-zfsboot by UniDoc, version 0.5.0, build=2024" ++ [x0a] ++ bs "x")
  = Ok (bs "0.5.0", bs "2024").
Proof. vm_compute. reflexivity. Qed.

(** ** Sector size *)

(** [logicalSectorSize]: 512 for a regular file, the ioctl's answer for a device. *)
Definition logicalSectorSize (open stat : bool) (is_device : bool) (blksszget : option Z) : option Z :=
  if negb open then None else if negb stat then None
  else if negb is_device then Some SectorSize else blksszget.

Definition CheckSectorSize (n : option Z) : outcome ioerr unit :=
  match n with
  | None => Err (ERefused (bs "reading the logical sector size"))
  | Some n => if negb (n =? SectorSize) then Err (ERefused (bs "sector size")) else Ok tt
  end.

(** ** stagecompat.go *)

Definition Stage2Magic : Z := 0x325a.
Definition Stage2SumMarker : Z := 0x5331.
Definition stage1MarkerCheck : bytes :=
  [x81; x3e; x04; x00; z2b (Z.land Stage2SumMarker 0xff); z2b (Z.shiftr Stage2SumMarker 8)].

Definition Stage1ChecksSum (stage1 : bytes) : bool := contains stage1 stage1MarkerCheck.

Inductive stage2_error := EStage2Size | ENoMagic | EWords (words : Z) | EChecksum (sum : Z).

(** The loop [for i := 0; i < words; i++ { sum += Uint16(region[2*i:]) }]. *)
Fixpoint word_sum (n : nat) (i sum : Z) (region : bytes) : outcome stage2_error Z :=
  match n with
  | O => Ok sum
  | S n => let! v := le_at 2 region (2 * i) in word_sum n (i + 1) (u16 (sum + v)) region
  end.

Definition CheckStage2 (stage2 : bytes) : outcome stage2_error unit :=
  if (len stage2 <? 4) || (Stage2Bytes <? len stage2) then Err EStage2Size else
  let! magic := le_at 2 stage2 2 in
  if negb (magic =? Stage2Magic) then Err ENoMagic else
  if len stage2 <? 10 then Ok tt else
  let! marker := le_at 2 stage2 4 in
  if negb (marker =? Stage2SumMarker) then Ok tt else
  let region := stage2_region stage2 in
  let! words := le_at 2 region 6 in
  if (words =? 0) || (Stage2Bytes / 2 <? words) then Err (EWords words) else
  let! sum := word_sum (Z.to_nat words) 0 0 region in
  if negb (sum =? 0) then Err (EChecksum sum) else Ok tt.

Definition Stage1Accepts (stage1 stage2 : bytes) : bool :=
  if len stage2 <? 4 then false else
  match le_at (E:=stage2_error) 2 stage2 2 with
  | Ok magic =>
      if negb (magic =? Stage2Magic) then false
      else if negb (Stage1ChecksSum stage1) then true
      else is_ok (CheckStage2 stage2)
  | _ => false
  end.


(** ** The header rules *)

Lemma len_copy {A} (dst src : list A) : len (copy dst src) = len dst.
Proof. unfold len. by rewrite length_copy. Qed.

Lemma len_stage2_region s : len (stage2_region s) = Stage2Bytes.
Proof. unfold stage2_region. rewrite len_copy. by apply len_zeros. Qed.

Lemma stage2_region_app s :
  len s <= Stage2Bytes -> exists pad, stage2_region s = s ++ pad.
Proof.
  intros H. unfold stage2_region. rewrite copy_fits; [eauto|].
  pose proof (len_zeros Stage2Bytes ltac:(done)). unfold len in *. lia.
Qed.

(** Writing the padded region writes what padding it again gives. *)
Lemma stage2_region_full r : len r = Stage2Bytes -> stage2_region r = r.
Proof.
  intros H. pose proof (len_zeros Stage2Bytes ltac:(done)) as Hz. unfold stage2_region, copy, len in *.
  rewrite take_ge by lia. rewrite drop_ge by lia. apply app_nil_r.
Qed.

(** Trimming undoes the padding. *)
Lemma trim_zeros_region s : len s <= Stage2Bytes -> trim_zeros (stage2_region s) = trim_zeros s.
Proof.
  intros H. unfold stage2_region. rewrite copy_fits by (pose proof (len_zeros Stage2Bytes ltac:(done)); unfold len in *; lia).
  unfold zeros. rewrite drop_replicate. generalize (Z.to_nat Stage2Bytes - length s)%nat. intros n.
  unfold trim_zeros, trim_right. f_equal. rewrite rev_app_distr.
  assert (rev (replicate n x00) = replicate n x00) as ->.
  { induction n as [|n IH]; [done|]. cbn [replicate rev]. rewrite IH. symmetry. apply replicate_cons_app. }
  induction n as [|n IH]; [done|]. cbn [replicate app trim_left]. by rewrite decide_True by apply list_elem_of_here.
Qed.

(** A field inside the image reads the same in the padded region. *)
Lemma le_at_region {E} s n off :
  len s <= Stage2Bytes -> 0 <= off -> 0 <= n -> off + n <= len s ->
  le_at (E:=E) n (stage2_region s) off = le_at n s off.
Proof.
  intros Hs Ho Hn Hf. destruct (stage2_region_app s Hs) as [pad ->].
  rewrite !le_at_ok by (rewrite ?len_app; pose proof (len_nonneg pad); lia).
  by rewrite sub_app_l by lia.
Qed.

Lemma ExtractStage2Version_safe d : safe (ExtractStage2Version d).
Proof.
  unfold ExtractStage2Version, slice_from. destruct (index_of d stage2VersionPrefix) as [i|] eqn:E; [|done].
  apply index_of_fits in E. apply obind_safe; [apply safe_slice; unfold len; lia|]. intros rest _.
  destruct (index_of rest (bs ", build=")) as [j|] eqn:Ej; [|done]. apply index_of_fits in Ej.
  apply obind_safe; [apply safe_slice; unfold len; lia|]. intros version _.
  apply obind_safe; [apply safe_slice; unfold len; lia|]. intros after _.
  destruct (index_any after [x0a; x00]) as [k|] eqn:Ek; [|done]. apply index_any_Some in Ek as [Ek _].
  apply obind_safe; [apply safe_slice; unfold len; lia|done].
Qed.

Lemma word_sum_safe n i sum region : 0 <= i -> 2 * (i + Z.of_nat n) <= len region -> safe (word_sum n i sum region).
Proof.
  revert i sum. induction n as [|n IH]; intros i sum Hi Hn; [done|]. cbn [word_sum].
  rewrite le_at_ok by lia. cbn [obind]. apply IH; lia.
Qed.

Lemma CheckStage2_safe stage2 : safe (CheckStage2 stage2).
Proof.
  unfold CheckStage2. destruct (len stage2 <? 4) eqn:E4; [done|]. zb. destruct (Stage2Bytes <? len stage2); [done|].
  cbn [orb]. rewrite le_at_ok by lia. cbn [obind]. apply safe_if; intros _; [done|].
  destruct (len stage2 <? 10) eqn:E10; [done|]. zb. rewrite le_at_ok by lia. cbn [obind].
  apply safe_if; intros _; [done|]. pose proof (len_stage2_region stage2) as Hr. change Stage2Bytes with 32768 in Hr.
  rewrite le_at_ok by lia. cbn [obind].
  apply safe_if; [done|]. intros Hw. zb. apply obind_safe; [|intros s _; by apply safe_if].
  apply word_sum_safe; [lia|]. rewrite Hr. pose proof (le_get_range (sub (stage2_region stage2) 6 2)).
  change (Stage2Bytes / 2) with 16384 in *. lia.
Qed.

Lemma CheckStage2_region s :
  10 <= len s -> CheckStage2 s = Ok tt -> CheckStage2 (stage2_region s) = Ok tt.
Proof.
  intros Hl H. unfold CheckStage2 in *. rewrite len_stage2_region.
  rewrite (stage2_region_full (stage2_region s)) by apply len_stage2_region.
  destruct ((len s <? 4) || (Stage2Bytes <? len s)) eqn:E; [done|]. zb.
  change ((Stage2Bytes <? 4) || (Stage2Bytes <? Stage2Bytes)) with false. cbv iota.
  change (Stage2Bytes <? 10) with false. rewrite (proj2 (Z.ltb_ge (len s) 10)) in H by lia. cbv iota.
  rewrite !le_at_region in H by lia. rewrite !le_at_region by lia. exact H.
Qed.

Lemma Stage1Accepts_checked stage1 s : CheckStage2 s = Ok tt -> Stage1Accepts stage1 s = true.
Proof.
  intros H. unfold Stage1Accepts. rewrite H. unfold CheckStage2 in H.
  destruct ((len s <? 4) || (Stage2Bytes <? len s)) eqn:E; [discriminate H|].
  apply orb_false_iff in E as [-> _].
  destruct (le_at 2 s 2) as [m|?|]; cbn [obind] in H; [|discriminate H|discriminate H].
  destruct (negb (m =? Stage2Magic)); [discriminate H|]. by destruct (negb (Stage1ChecksSum stage1)).
Qed.

(** A stage2 of at least ten bytes that [CheckStage2] passes is accepted,
as the zero-padded region [WriteStage2] leaves on the disk, by every stage1,
whether it knows the length and checksum words or not. *)
Theorem CheckStage2_every_stage1 stage1 stage2 :
  10 <= len stage2 -> CheckStage2 stage2 = Ok tt ->
  Stage1Accepts stage1 (stage2_region stage2) = true.
Proof. intros Hl H. by apply Stage1Accepts_checked, CheckStage2_region. Qed.

(** A stage2 with the checksum header: jump, magic, marker, five words, sum. *)
Definition sample_stage2 : bytes :=
  [xeb; x08; x5a; x32; x31; x53; x05; x00; x85; x71].

Definition sum_stage1 : bytes := stage1MarkerCheck.

Lemma CheckStage2_every_stage1_witness :
  Stage1Accepts sum_stage1 (stage2_region sample_stage2) = true.
Proof. apply (CheckStage2_every_stage1 sum_stage1 sample_stage2); vm_compute; congruence. Defined.

(** A marker in the last bytes of a shorter image. *)
Definition short_stage2 : bytes := [xeb; x08; x5a; x32; x31; x53].

(** An image of fewer than ten bytes that carries the marker passes
[CheckStage2], which then looks at the magic word alone; a stage1 that knows
the marker refuses the same image once it is padded on the disk. *)
Theorem CheckStage2_short_marker :
  CheckStage2 short_stage2 = Ok tt /\
  Stage1Accepts sum_stage1 (stage2_region short_stage2) = false.
Proof. split; vm_compute; reflexivity. Qed.

(** ** What the writers may change

[agree R d d']: the same length, and the same bytes outside [R]. *)
Definition agree (R : Z -> Prop) (d d' : bytes) : Prop :=
  len d' = len d /\ forall i : nat, ~ R (Z.of_nat i) -> d' !! i = d !! i.

Definition stage1_range (i : Z) : Prop := 0 <= i < Stage1Bytes.
Definition stage2_range (i : Z) : Prop := stage2_offset <= i < stage2_offset + Stage2Bytes.
Definition stage_range (i : Z) : Prop := stage1_range i \/ stage2_range i.

#[export] Instance agree_preorder R : PreOrder (agree R).
Proof.
  split; [by intros d|]. intros a b c [L1 H1] [L2 H2]. split; [congruence|].
  intros i Hi. rewrite H2, H1 by done. done.
Qed.

Lemma agree_sub R d d' lo n :
  agree R d d' -> 0 <= lo -> (forall i, lo <= i < lo + n -> ~ R i) -> sub d' lo n = sub d lo n.
Proof.
  intros [_ H] Hlo Hr. apply list_eq. intros i. unfold sub.
  destruct (decide (i < Z.to_nat n)%nat) as [Hi|Hi].
  - rewrite !lookup_take, !decide_True by done. rewrite !lookup_drop. apply H, Hr. lia.
  - rewrite !lookup_take, !decide_False by done. done.
Qed.

Lemma agree_weaken (R R' : Z -> Prop) d d' :
  (forall i, R i -> R' i) -> agree R d d' -> agree R' d d'.
Proof. intros HR [L H]. split; [done|]. intros i Hi. apply H. auto. Qed.

(** A write at [off] changes nothing outside the bytes it covers. *)
Lemma agree_copy_at (R : Z -> Prop) d off data :
  0 <= off -> (forall i, off <= i < off + len data -> R i) -> agree R d (copy_at d off data).
Proof.
  intros Ho HR. split; [apply len_copy_at|]. intros i Hi.
  assert (~ (off <= Z.of_nat i < off + len data)) as Hn by (intros Hc; by apply Hi, HR).
  unfold copy_at, copy, len in *. destruct (decide (i < Z.to_nat off)%nat) as [Hlt|Hge].
  - destruct (decide (i < length d)%nat).
    + rewrite lookup_app_l by (rewrite length_take; lia). by apply lookup_take_lt.
    + rewrite !lookup_ge_None_2; [done|lia|].
      rewrite !length_app, !length_take, !length_drop. lia.
  - destruct (decide (i < length d)%nat).
    + rewrite lookup_app_r by (rewrite length_take; lia).
      rewrite lookup_app_r by (rewrite !length_take, ?length_drop; lia).
      rewrite !lookup_drop. f_equal. rewrite !length_take, !length_drop. lia.
    + rewrite !lookup_ge_None_2; [done|lia|].
      rewrite !length_app, !length_take, !length_drop. lia.
Qed.

(** Writing the old bytes back restores the disk. *)
Lemma agree_restore d d' lo n :
  0 <= lo -> 0 <= n -> lo + n <= len d ->
  agree (fun i => lo <= i < lo + n) d d' -> copy_at d' lo (sub d lo n) = d.
Proof.
  intros Hlo Hn Hf Ha. pose proof Ha as [Hl _].
  assert (len (sub d lo n) = n) as Hs by (apply len_sub; lia).
  rewrite copy_at_fits by lia. rewrite Hs.
  rewrite (agree_sub _ _ _ 0 lo Ha) by lia.
  assert (drop (Z.to_nat (lo + n)) d' = drop (Z.to_nat (lo + n)) d) as ->.
  { apply list_eq. intros i. rewrite !lookup_drop. apply Ha. lia. }
  unfold sub. rewrite drop_0. replace (Z.to_nat (lo + n)) with (Z.to_nat lo + Z.to_nat n)%nat by lia.
  rewrite <-drop_drop, take_drop, take_drop. done.
Qed.

(** The same for the set of disks: only [disk] may change, only inside [R]. *)
Definition media (disk : bytes) (R : Z -> Prop) (a b : diskmap) : Prop :=
  option_Forall2 (agree R) (a !! disk) (b !! disk) /\ forall k, k <> disk -> b !! k = a !! k.

#[export] Instance media_preorder disk R : PreOrder (media disk R).
Proof.
  split; [intros a; split; reflexivity|]. intros a b c [A1 A2] [B1 B2].
  split; [by etransitivity|]. intros k Hk. rewrite B2, A2 by done. done.
Qed.

(** [confined]: no file changed, the disks and every state they went through
differ from the start only on [disk] and inside [R]. *)
Definition confined (disk : bytes) (R : Z -> Prop) (w w' : world) : Prop :=
  files w' = files w /\ media disk R (disks w) (disks w') /\
  (exists hs, history w' = hs ++ history w /\
     Forall (fun s : filemap * diskmap => s.1 = files w /\ media disk R (disks w) s.2) hs) /\
  (clock w <= clock w')%nat.

#[export] Instance confined_preorder disk R : PreOrder (confined disk R).
Proof.
  split.
  - intros w. split_and!; try done. exists []. by split; [|constructor].
  - intros x y z (F1 & D1 & (h1 & E1 & A1) & C1) (F2 & D2 & (h2 & E2 & A2) & C2).
    split_and!; [congruence|by etransitivity| |lia].
    exists (h2 ++ h1). rewrite E2, E1, app_assoc. split; [done|]. apply Forall_app. split; [|done].
    eapply Forall_impl; [exact A2|]. intros s [-> Hm]. split; [done|by etransitivity].
Qed.

Lemma frame_confined disk R w w' : frame w w' -> confined disk R w w'.
Proof.
  intros (F & D & H & C). split_and!; [done| | |done].
  - rewrite D. reflexivity.
  - exists []. rewrite H. by split; [|constructor].
Qed.

Lemma confined_weaken disk (R R' : Z -> Prop) w w' :
  (forall i, R i -> R' i) -> confined disk R w w' -> confined disk R' w w'.
Proof.
  intros HR. assert (forall a b, media disk R a b -> media disk R' a b) as Hm.
  { intros a b [A B]. split; [|done]. destruct A; constructor. by eapply agree_weaken. }
  intros (F & D & (hs & E & A) & C). split_and!; [done|auto| |done].
  exists hs. split; [done|]. eapply Forall_impl; [exact A|]. intros s [? ?]. auto.
Qed.

(** ** The calls on a raw disk *)

Section writers.
Context {O : Oracle}.

Lemma guard_inv {A} prev (c : io A) k w r w' :
  guard prev c k w = (r, w') ->
  (exists a x, c w = (Ok a, x) /\ k a x = (r, w')) \/
  (exists e, c w = (Err e, w') /\ r = Ok (prev, Err e)) \/ (c w = (Panic, w') /\ r = Panic).
Proof.
  unfold guard, bind, attempt. destruct (c w) as [[a|e|] x]; cbn; intros H.
  - left. eauto.
  - right; left. injection H as <- <-. eauto.
  - right; right. injection H as <- <-. eauto.
Qed.

Lemma gate_spec disk w r w' :
  gate disk w = (r, w') ->
  frame w w' /\ (clock w < clock w')%nat /\
  (r = Ok tt \/ (exists e, r = Err e) /\ failed w w' \/
   CheckStage2ExtentFree (plain <$> disks w !! disk) <> Ok tt).
Proof.
  unfold gate, sys. destruct (fault (clock w)) eqn:E.
  - intros [= <- <-]. split_and!; [apply frame_tick|cbn; lia|].
    right; left. split; [eauto|]. eapply failed_here; [done|cbn; lia].
  - cbn [disks tick]. destruct (CheckStage2ExtentFree (plain <$> disks w !! disk)) as [[]|e|] eqn:Eg;
      intros [= <- <-]; (split_and!; [apply frame_tick|cbn; lia|]); [by left|by right; right|by right; right].
Qed.

Lemma openDisk_spec disk w r w' :
  openDisk disk w = (r, w') ->
  frame w w' /\ (clock w < clock w')%nat /\
  (r = Ok tt \/ (exists e, r = Err e) /\ (failed w w' \/ disks w !! disk = None)).
Proof.
  unfold openDisk, sys. destruct (fault (clock w)) eqn:E.
  - intros [= <- <-]. split_and!; [apply frame_tick|cbn; lia|].
    right. split; [eauto|]. left. eapply failed_here; [done|cbn; lia].
  - cbn [disks tick]. destruct (disks w !! disk) eqn:Ed;
      intros [= <- <-]; (split_and!; [apply frame_tick|cbn; lia|]); [by left|right; eauto].
Qed.

Lemma readDisk_spec disk off n d w r w' :
  disks w !! disk = Some d -> readDisk disk off n w = (r, w') ->
  frame w w' /\ (clock w < clock w')%nat /\
  (r = Ok (sub d off n) /\ 0 <= off /\ off + n <= len d \/
   (exists e, r = Err e) /\ (failed w w' \/ ~ (0 <= off /\ off + n <= len d))).
Proof.
  intros Hd. unfold readDisk, sys. destruct (fault (clock w)) eqn:E.
  - intros [= <- <-]. split_and!; [apply frame_tick|cbn; lia|].
    right. split; [eauto|]. left. eapply failed_here; [done|cbn; lia].
  - cbn [disks tick]. rewrite Hd. cbn. unfold read_at. cbn [content plain unreadable].
    destruct ((0 <=? off) && (off + n <=? len d)) eqn:Er; cbn;
      intros [= <- <-]; (split_and!; [apply frame_tick|cbn; lia|]).
    + zb. by left.
    + right. split; [eauto|]. right. intros [? ?].
      rewrite !(proj2 (Z.leb_le _ _)) in Er by lia. done.
Qed.

Lemma readDisk_frame disk off n w r w' : readDisk disk off n w = (r, w') -> frame w w'.
Proof.
  unfold readDisk, sys. destruct (fault (clock w)) eqn:E.
  - intros [= <- <-]. apply frame_tick.
  - destruct (d ← disks (tick w) !! disk; read_at (plain d) off n); intros [= <- <-]; apply frame_tick.
Qed.

Lemma confined_write disk (R : Z -> Prop) w d d' :
  disks w !! disk = Some d -> agree R d d' ->
  confined disk R w (set_disks (<[disk := d']> (disks w)) (tick w)).
Proof.
  intros Hd Ha. assert (media disk R (disks w) (<[disk := d']> (disks w))) as Hm.
  { split; [rewrite Hd, lookup_insert_eq; by constructor|]. intros k Hk. by rewrite lookup_insert_ne. }
  split_and!; [done|done| |cbn; lia].
  exists [(files w, <[disk := d']> (disks w))]. split; [done|]. by apply Forall_singleton.
Qed.

Lemma writeDisk_confined disk (R : Z -> Prop) off data w r w' :
  0 <= off -> (forall i, off <= i < off + len data -> R i) ->
  writeDisk disk off data w = (r, w') -> confined disk R w w'.
Proof.
  intros Ho HR. unfold writeDisk. destruct (disks w !! disk) as [d|] eqn:Hd.
  - destruct (fault (clock w)) as [k|]; intros [= <- <-]; (apply (confined_write _ _ _ d); [done|]);
      apply agree_copy_at; try done.
    intros i Hi. apply HR. unfold len in *. rewrite length_take in Hi. lia.
  - intros [= <- <-]. apply frame_confined, frame_tick.
Qed.

Lemma writeDisk_spec disk off data d w r w' :
  disks w !! disk = Some d -> 0 <= off -> writeDisk disk off data w = (r, w') ->
  exists d', disks w' = <[disk := d']> (disks w) /\ (clock w < clock w')%nat /\
    history w' = (files w, disks w') :: history w /\ files w' = files w /\
    agree (fun i => off <= i < off + len data) d d' /\
    (r = Ok tt /\ d' = copy_at d off data \/ (exists e, r = Err e) /\ failed w w').
Proof.
  intros Hd Ho. unfold writeDisk. rewrite Hd. destruct (fault (clock w)) as [k|] eqn:E; intros [= <- <-].
  - exists (copy_at d off (take k data)). cbn [disks set_disks clock tick history files]. split_and!; try (done || lia).
    + apply agree_copy_at; [done|]. intros i Hi. unfold len in *. rewrite length_take in Hi. lia.
    + right. split; [eauto|]. eapply failed_here; [done|cbn; lia].
  - exists (copy_at d off data). cbn [disks set_disks clock tick history files]. split_and!; try (done || lia); [|by left].
    by apply agree_copy_at.
Qed.

(** The rest of a writer after its size check: gate, open, read the old bytes,
write, sync, and [verify]. *)
Definition replace (disk : bytes) (off : Z) (data : bytes) (verify : io unit) : io wresult :=
  guard None (gate disk) (fun _ =>
  guard None (openDisk disk) (fun _ =>
  guard None (readDisk disk off (len data)) (fun previous =>
  guard (Some previous) (writeDisk disk off data) (fun _ =>
  guard (Some previous) (plain_call OpSync) (fun _ =>
  guard (Some previous) verify (fun _ => ret (Some previous, Ok tt))))))).

Lemma replace_confined disk (R : Z -> Prop) off data verify w r w' :
  0 <= off -> (forall i, off <= i < off + len data -> R i) ->
  (forall w r w', verify w = (r, w') -> frame w w') ->
  replace disk off data verify w = (r, w') -> confined disk R w w'.
Proof.
  intros Ho HR Hv H. unfold replace in H.
  apply guard_inv in H as [(a1 & x1 & E1 & H)|[(e & E1 & ->)|[E1 ->]]];
    apply gate_spec in E1 as (F1 & _); apply (frame_confined disk R) in F1; [|done|done].
  apply guard_inv in H as [(a2 & x2 & E2 & H)|[(e & E2 & ->)|[E2 ->]]];
    apply openDisk_spec in E2 as (F2 & _); apply (frame_confined disk R) in F2; [|by etransitivity..].
  apply guard_inv in H as [(a3 & x3 & E3 & H)|[(e & E3 & ->)|[E3 ->]]];
    apply readDisk_frame, (frame_confined disk R) in E3; [|by do 2 (etransitivity; [eassumption|])..].
  apply guard_inv in H as [(a4 & x4 & E4 & H)|[(e & E4 & ->)|[E4 ->]]];
    apply (writeDisk_confined _ R) in E4; try done; [|by do 3 (etransitivity; [eassumption|])..].
  apply guard_inv in H as [(a5 & x5 & E5 & H)|[(e & E5 & ->)|[E5 ->]]];
    apply plain_call_spec in E5 as (F5 & _); apply (frame_confined disk R) in F5;
    [|by do 4 (etransitivity; [eassumption|])..].
  apply guard_inv in H as [(a6 & x6 & E6 & H)|[(e & E6 & ->)|[E6 ->]]];
    apply Hv, (frame_confined disk R) in E6;
    [injection H as <- <-| |]; by do 5 (etransitivity; [eassumption|]).
Qed.

(** How [replace] ends on a disk whose gate passes: nothing changed and a call
failed; or the old content is returned and the range holds the new content, or
a call failed and only that range may differ. *)
Definition replaced_at (disk : bytes) (off : Z) (data d : bytes) (w : world) (r : outcome ioerr wresult) (w' : world) : Prop :=
  (exists e, r = Ok (None, Err e)) /\ frame w w' /\ failed w w' \/
  exists d' rr, r = Ok (Some (sub d off (len data)), rr) /\
    disks w' = <[disk := d']> (disks w) /\ files w' = files w /\ (clock w <= clock w')%nat /\
    history w' = (files w, disks w') :: history w /\
    agree (fun i => off <= i < off + len data) d d' /\
    (rr = Ok tt /\ d' = copy_at d off data \/ (exists e, rr = Err e) /\ failed w w').

(** A call that leaves the media alone and fails only by a fault. *)
Definition quiet {A} (c : io A) (P : A -> Prop) (w : world) : Prop :=
  forall r w', c w = (r, w') ->
    frame w w' /\ ((exists a, r = Ok a /\ P a) \/ (exists e, r = Err e) /\ failed w w').

Lemma quiet_guard {A} prev (c : io A) k P w r w' :
  quiet c P w -> guard prev c k w = (r, w') ->
  (exists a x, P a /\ frame w x /\ k a x = (r, w')) \/
  (exists e, r = Ok (prev, Err e)) /\ frame w w' /\ failed w w'.
Proof.
  intros Hq H. apply guard_inv in H as [(a & x & E & H)|[(e & E & ->)|[E ->]]];
    apply Hq in E as [F [(a' & Ha & HP)|[(e' & He) Hf]]]; try discriminate.
  - injection Ha as <-. left. eauto.
  - right. eauto.
Qed.

Lemma quiet_gate disk d w :
  disks w !! disk = Some d -> CheckStage2ExtentFree (Some (plain d)) = Ok tt ->
  quiet (gate disk) (fun _ => True) w.
Proof.
  intros Hd Hg r w' H. apply gate_spec in H as (F & _ & H). rewrite Hd in H.
  split; [done|]. destruct H as [->|[H|H]]; [left; eauto|by right|done].
Qed.

Lemma quiet_open disk d w : disks w !! disk = Some d -> quiet (openDisk disk) (fun _ => True) w.
Proof.
  intros Hd r w' H. apply openDisk_spec in H as (F & _ & H). rewrite Hd in H.
  split; [done|]. destruct H as [->|[H [H'|H']]]; [left; eauto|by right|done].
Qed.

Lemma quiet_read disk off n d w :
  disks w !! disk = Some d -> 0 <= off -> off + n <= len d ->
  quiet (readDisk disk off n) (fun c => c = sub d off n) w.
Proof.
  intros Hd Ho Hn r w' H. apply (readDisk_spec _ _ _ _ _ _ _ Hd) in H as (F & _ & H).
  split; [done|]. destruct H as [[-> _]|[H [H'|H']]]; [left; eauto|by right|tauto].
Qed.

Lemma quiet_call op w : quiet (plain_call op) (fun _ => True) w.
Proof.
  intros r w' H. apply plain_call_spec in H as (F & _ & H).
  split; [done|]. destruct H as [->|[-> H]]; [left|right]; eauto.
Qed.

(** Calls that only look end as a write that ended: the state is the same and
a failure is a fault. *)
Lemma replaced_later disk off data d w x r w' rr :
  replaced_at disk off data d w (Ok (Some (sub d off (len data)), Ok tt)) x ->
  frame x w' -> r = Ok (Some (sub d off (len data)), rr) ->
  rr = Ok tt \/ (exists e, rr = Err e) /\ failed x w' ->
  replaced_at disk off data d w r w'.
Proof.
  intros [[(e & He) _]|(d' & r0 & Hr & D & F & C & Hh & A & B)] (Ff & Fd & Fh & Fc) Hrr Hres; [discriminate He|].
  injection Hr as <-. destruct B as [[_ B]|[(e & He) _]]; [|discriminate He].
  right. exists d', rr. split_and!; try (congruence || lia || done).
  destruct Hres as [->|[He Hf]]; [by left|]. right. split; [done|]. by eapply failed_r.
Qed.

Lemma replace_spec disk off data verify d w r w' :
  disks w !! disk = Some d -> CheckStage2ExtentFree (Some (plain d)) = Ok tt ->
  0 <= off -> off + len data <= len d ->
  (forall x, disks x !! disk = Some (copy_at d off data) -> quiet verify (fun _ => True) x) ->
  replace disk off data verify w = (r, w') -> replaced_at disk off data d w r w'.
Proof.
  intros Hd Hg Ho Hf Hv H. unfold replace in H.
  apply (quiet_guard _ _ _ _ _ _ _ (quiet_gate _ _ _ Hd Hg)) in H as [(a1 & x1 & _ & F1 & H)|?]; [|by left].
  assert (disks x1 !! disk = Some d) as Hd1 by (destruct F1 as (_ & -> & _); done).
  apply (quiet_guard _ _ _ _ _ _ _ (quiet_open _ _ _ Hd1)) in H as [(a2 & x2 & _ & F2 & H)|(He & F & Hx)].
  2: { left. split_and!; [done|by etransitivity|]. eapply failed_r; [apply F1|done]. }
  assert (frame w x2) as F02 by (by etransitivity).
  assert (disks x2 !! disk = Some d) as Hd2 by (destruct F02 as (_ & -> & _); done).
  apply (quiet_guard _ _ _ _ _ _ _ (quiet_read _ _ _ _ _ Hd2 Ho Hf)) in H as [(a3 & x3 & -> & F3 & H)|(He & F & Hx)].
  2: { left. split_and!; [done|by etransitivity|]. eapply failed_r; [apply F02|done]. }
  assert (frame w x3) as F03 by (by etransitivity).
  assert (disks x3 !! disk = Some d) as Hd3 by (destruct F03 as (_ & -> & _); done).
  destruct F03 as (Gf & Gd & Gh & Gc).
  apply guard_inv in H as [(a4 & x4 & E4 & H)|[(e & E4 & ->)|[E4 ->]]];
    apply (writeDisk_spec _ _ _ _ _ _ _ Hd3 Ho) in E4 as (d' & D & C & Hh & Fi & A & B).
  3: { exfalso. destruct B as [[B _]|[(e & B) _]]; discriminate B. }
  2: { destruct B as [[B _]|[_ B]]; [discriminate B|]. right. exists d', (Err e).
       rewrite D, Gd, Hh, Gh, Fi, Gf. rewrite D, Gd.
       split_and!; try (done || lia). right. split; [eauto|]. by eapply failed_r. }
  destruct B as [[_ B]|[(e & B) _]]; [|discriminate B].
  assert (replaced_at disk off data d w (Ok (Some (sub d off (len data)), Ok tt)) x4) as HR.
  { right. exists d', (Ok tt). rewrite D, Gd, Hh, Gh, Fi, Gf. rewrite D, Gd. split_and!; try (done || lia). by left. }
  apply (quiet_guard _ _ _ _ _ _ _ (quiet_call _ _)) in H as [(a5 & x5 & _ & F5 & H)|((e & He) & F & Hx)].
  2: { eapply replaced_later; [exact HR|done|exact He|]. right; eauto. }
  assert (disks x5 !! disk = Some (copy_at d off data)) as Hd5.
  { destruct F5 as (_ & -> & _). by rewrite D, lookup_insert_eq, B. }
  apply (quiet_guard _ _ _ _ _ _ _ (Hv _ Hd5)) in H as [(a6 & x6 & _ & F6 & H)|((e & He) & F & Hx)].
  - injection H as <- <-. eapply replaced_later; [exact HR|by etransitivity|done|by left].
  - eapply replaced_later; [exact HR|by etransitivity|exact He|]. right. split; [eauto|].
    eapply failed_r; [apply F5|done].
Qed.

(** The read-back test accepts the region the writer wrote. *)
Lemma forallb_replicate {A} (f : A -> bool) n x : f x = true -> forallb f (replicate n x) = true.
Proof. intros H. induction n as [|n IH]; cbn; [done|]. by rewrite H, IH. Qed.

Lemma check_region_written s :
  len s <= Stage2Bytes -> check_region (stage2_region s) s = Ok tt.
Proof.
  intros Hs. unfold check_region. pose proof (len_nonneg s).
  pose proof (len_stage2_region s) as Hl.
  assert (exists n, stage2_region s = s ++ replicate n x00) as [n Hr].
  { unfold stage2_region. rewrite copy_fits.
    - unfold zeros. rewrite drop_replicate. eauto.
    - pose proof (len_zeros Stage2Bytes ltac:(done)). unfold len in *. lia. }
  rewrite slice_ok by lia. cbn [obind]. unfold slice_from. rewrite slice_ok by lia.
  rewrite Z.sub_0_r, Hr. rewrite sub_app_l by lia. rewrite sub_full by done. rewrite beq_refl.
  cbn [obind negb]. cbv iota. rewrite sub_app_r by lia. rewrite Z.sub_diag.
  unfold sub. rewrite drop_0, take_replicate, forallb_replicate; done.
Qed.

Lemma quiet_lift_ok disk off n (f : bytes -> outcome ioerr unit) d w :
  disks w !! disk = Some d -> 0 <= off -> off + n <= len d -> f (sub d off n) = Ok tt ->
  quiet (do c := readDisk disk off n in lift (f c)) (fun _ => True) w.
Proof.
  intros Hd Ho Hn Hf r w' H. io_bind H x E; apply (quiet_read _ _ _ _ _ Hd Ho Hn) in E as [F E].
  - destruct E as [(c & Hc & ->)|[(e & He) _]]; [|discriminate He]. injection Hc as ->.
    unfold lift in H. rewrite Hf in H. injection H as <- <-. split; [done|]. left. eauto.
  - destruct E as [(c & Hc & _)|[_ E]]; [discriminate Hc|]. subst r. split; [done|]. right. eauto.
  - destruct E as [(c & Hc & _)|[(e' & He) _]]; discriminate.
Qed.

Lemma quiet_run {A B} (c : io A) (k : io B) P w :
  quiet c (fun _ => True) w -> (forall x, frame w x -> quiet k P x) -> quiet (run c then k) P w.
Proof.
  intros Hc Hk r w' H. io_bind H x E; apply Hc in E as [F E].
  - apply (Hk _ F) in H as [F' H]. split; [by etransitivity|].
    destruct H as [?|[He Hf]]; [by left|right]. split; [done|]. eapply failed_r; [apply F|done].
  - destruct E as [(? & Hx & _)|[_ E]]; [discriminate Hx|]. subst r. split; [done|]. right. eauto.
  - destruct E as [(? & Hx & _)|[(? & Hx) _]]; discriminate.
Qed.

Lemma quiet_verify2 disk s d w :
  disks w !! disk = Some d -> stage2_offset + Stage2Bytes <= len d -> len s <= Stage2Bytes ->
  sub d stage2_offset Stage2Bytes = stage2_region s ->
  quiet (verifyStage2At disk stage2_offset s) (fun _ => True) w.
Proof.
  intros Hd Hf Hs Hr. apply (quiet_lift_ok _ _ _ (fun region => check_region region s) d); try done.
  rewrite Hr. by apply check_region_written.
Qed.

Lemma WriteStage2_replace disk s :
  len s <= Stage2Bytes ->
  WriteStage2 disk s = replace disk stage2_offset (stage2_region s) (verifyStage2At disk stage2_offset s).
Proof.
  intros Hs. unfold WriteStage2, replace. rewrite len_stage2_region.
  by rewrite (proj2 (Z.ltb_ge _ _) Hs).
Qed.

Lemma WriteStage1_replace disk s :
  len s = Stage1Bytes -> WriteStage1 disk s = replace disk 0 s (ret tt).
Proof. intros Hs. unfold WriteStage1, replace. rewrite Hs. reflexivity. Qed.

Lemma WriteStage2_spec disk s d w r w' :
  disks w !! disk = Some d -> CheckStage2ExtentFree (Some (plain d)) = Ok tt ->
  len s <= Stage2Bytes -> stage2_offset + Stage2Bytes <= len d ->
  WriteStage2 disk s w = (r, w') -> replaced_at disk stage2_offset (stage2_region s) d w r w'.
Proof.
  intros Hd Hg Hs Hf H. rewrite WriteStage2_replace in H by done.
  pose proof (len_stage2_region s) as Hl.
  eapply replace_spec; [exact Hd|exact Hg|done|by rewrite Hl| |exact H].
  intros x Hx. eapply quiet_verify2; [exact Hx|by rewrite len_copy_at|done|].
  rewrite <-Hl at 1. apply sub_copy_at_same; [done|by rewrite Hl].
Qed.

Lemma WriteStage1_spec disk s d w r w' :
  disks w !! disk = Some d -> CheckStage2ExtentFree (Some (plain d)) = Ok tt ->
  len s = Stage1Bytes -> Stage1Bytes <= len d ->
  WriteStage1 disk s w = (r, w') -> replaced_at disk 0 s d w r w'.
Proof.
  intros Hd Hg Hs Hf H. rewrite WriteStage1_replace in H by done.
  eapply replace_spec; [exact Hd|exact Hg|done|lia| |exact H].
  intros x _ r0 x' E. injection E as <- <-. split; [reflexivity|]. left. eauto.
Qed.

Lemma WriteStage2_confined disk s w r w' :
  WriteStage2 disk s w = (r, w') -> confined disk stage2_range w w'.
Proof.
  intros H. destruct (decide (len s <= Stage2Bytes)) as [Hs|Hs].
  - rewrite WriteStage2_replace in H by done. revert H.
    apply replace_confined; [done| |].
    + intros i. by rewrite len_stage2_region.
    + intros x r0 x' E. unfold verifyStage2At in E.
      io_bind E y E'; [injection E as <- <-| |]; by apply readDisk_frame in E'.
  - unfold WriteStage2 in H. rewrite (proj2 (Z.ltb_lt _ _)) in H by lia. by injection H as <- <-.
Qed.

Lemma WriteStage1_confined disk s w r w' :
  WriteStage1 disk s w = (r, w') -> confined disk stage1_range w w'.
Proof.
  intros H. destruct (decide (len s = Stage1Bytes)) as [Hs|Hs].
  - rewrite WriteStage1_replace in H by done. revert H.
    apply replace_confined; [done| |].
    + intros i. by rewrite Hs.
    + intros x r0 x' E. by injection E as <- <-.
  - unfold WriteStage1 in H. rewrite (proj2 (Z.eqb_neq _ _) Hs) in H. by injection H as <- <-.
Qed.

End writers.
