(* ===== verification/Stages.v ===== *)
(** * cmd/tool: writing the stage pair with rollback

[writeBIOSStagesWithRollback] and its helpers of main.go: stage2 first, stage1
last, each verified, and on a failure the previous content put back. *)

From Stdlib Require Import ZArith Lia Strings.Byte.
From stdpp Require Import base list gmap.
From S2P Require Import Prelude GoStrings Layout Device PartTable ExtentCheck World BiosBoot.
Local Open Scope Z_scope.

Definition checkStagePair (stage2 : bytes) (force : bool) : outcome stage2_error unit :=
  match CheckStage2 stage2 with
  | Err e => if force then Ok tt else Err e
  | r => r
  end.

Inductive asset_error := EStage1Asset (size : Z).

(** The boot code region of a release asset, which ships as a full sector. *)
Definition trimStage1Asset (raw : bytes) : outcome asset_error bytes :=
  if len raw =? Stage1Bytes then Ok raw
  else if len raw =? SectorSize then slice raw 0 Stage1Bytes
  else Err (EStage1Asset (len raw)).

Section stages.
Context {O : Oracle}.

(** Best effort: the messages it prints are not modelled, its writes are. *)
Definition rollbackStage1 (disk : bytes) (previous : option bytes) : io unit :=
  match previous with
  | None => ret tt
  | Some p => run WriteStage1 disk p then ret tt
  end.

Definition rollbackStage2 (disk : bytes) (previous : option bytes) : io unit :=
  match previous with
  | None => ret tt
  | Some p => run WriteStage2 disk p then ret tt
  end.

Definition writeBIOSStagesWithRollback (disk stage1 stage2 : bytes) : io unit :=
  do r2 := WriteStage2 disk stage2 in
  match r2 with
  | (_, Panic) => lift Panic
  | (stage2Prev, Err e) =>
      run rollbackStage2 disk stage2Prev then throw (EIn (bs "writing stage2") e)
  | (stage2Prev, Ok _) =>
  do v2 := attempt (VerifyStage2 disk stage2) in
  match v2 with
  | Panic => lift Panic
  | Err e =>
      run rollbackStage2 disk stage2Prev then throw (EIn (bs "verifying stage2 after write") e)
  | Ok _ =>
  do r1 := WriteStage1 disk stage1 in
  match r1 with
  | (_, Panic) => lift Panic
  | (stage1Prev, Err e) =>
      run rollbackStage1 disk stage1Prev then
      run rollbackStage2 disk stage2Prev then throw (EIn (bs "writing stage1") e)
  | (stage1Prev, Ok _) =>
  do v1 := attempt (VerifyStage1 disk stage1) in
  match v1 with
  | Panic => lift Panic
  | Err e =>
      run rollbackStage1 disk stage1Prev then
      run rollbackStage2 disk stage2Prev then throw (EIn (bs "verifying stage1 after write") e)
  | Ok _ => ret tt
  end end end end.

Definition checkUpdateEligible (disk : bytes) : io unit :=
  do existing := wrap (bs "reading current stage2") (ReadStage2 disk) in
  match ExtractStage2Version existing with
  | Ok _ => ret tt
  | Err _ => throw (ERefused (bs "no recognizable stage2"))
  | Panic => lift Panic
  end.

(** ** Confinement: any faults *)

Lemma rollbackStage1_confined disk p w r w' :
  rollbackStage1 disk p w = (r, w') -> confined disk stage_range w w'.
Proof.
  destruct p as [p|]; [|by intros [= <- <-]]. intros H. apply (confined_weaken _ stage1_range); [by left|].
  io_bind H x E; [injection H as <- <-| |]; by apply WriteStage1_confined in E.
Qed.

Lemma rollbackStage2_confined disk p w r w' :
  rollbackStage2 disk p w = (r, w') -> confined disk stage_range w w'.
Proof.
  destruct p as [p|]; [|by intros [= <- <-]]. intros H. apply (confined_weaken _ stage2_range); [by right|].
  io_bind H x E; [injection H as <- <-| |]; by apply WriteStage2_confined in E.
Qed.

Lemma verify_frame disk off n (f : bytes -> outcome ioerr unit) w r w' :
  (do c := readDisk disk off n in lift (f c)) w = (r, w') -> frame w w'.
Proof. intros H. io_bind H x E; [injection H as <- <-| |]; by apply readDisk_frame in E. Qed.

Lemma openDisk_frame disk w r w' : openDisk disk w = (r, w') -> frame w w'.
Proof. intros H. by apply openDisk_spec in H as [? _]. Qed.

Lemma VerifyStage2_frame disk s w r w' : VerifyStage2 disk s w = (r, w') -> frame w w'.
Proof.
  unfold VerifyStage2. destruct (_ <? _); [by intros [= <- <-]|]. intros H.
  io_bind H x E; apply openDisk_frame in E; [|done|done].
  apply (verify_frame _ _ _ (fun region => check_region region s)) in H. by etransitivity.
Qed.

Lemma readRegion_frame disk off n w r w' : readRegion disk off n w = (r, w') -> frame w w'.
Proof.
  intros H. io_bind H x E; apply openDisk_frame in E; [|done|done].
  apply readDisk_frame in H. by etransitivity.
Qed.

Lemma VerifyStage1_frame disk s w r w' : VerifyStage1 disk s w = (r, w') -> frame w w'.
Proof.
  unfold VerifyStage1. destruct (negb _); [by intros [= <- <-]|]. intros H.
  io_bind H x E; apply readRegion_frame in E; [|done|done]. by destruct (beq _ _); injection H as <- <-.
Qed.

(** Computations that keep to the two stage ranges of one disk. *)
Definition keeps_to {A} (disk : bytes) (c : io A) : Prop :=
  forall w, confined disk stage_range w (c w).2.

Lemma keeps_bind {A B} disk (c : io A) (k : A -> io B) :
  keeps_to disk c -> (forall a, keeps_to disk (k a)) -> keeps_to disk (bind c k).
Proof.
  intros Hc Hk w. specialize (Hc w). unfold bind. destruct (c w) as [[a|e|] x]; cbn in *; [|done|done].
  etransitivity; [exact Hc|apply Hk].
Qed.

Lemma keeps_attempt {A} disk (c : io A) : keeps_to disk c -> keeps_to disk (attempt c).
Proof. intros Hc w. specialize (Hc w). unfold attempt. by destruct (c w). Qed.

Lemma keeps_ret {A} disk (a : A) : keeps_to disk (ret a).
Proof. intros w. reflexivity. Qed.

Lemma keeps_throw {A} disk e : keeps_to disk (throw (A:=A) e).
Proof. intros w. reflexivity. Qed.

Lemma keeps_panic {A} disk : keeps_to disk (lift (A:=A) Panic).
Proof. intros w. reflexivity. Qed.

Lemma keeps_stage1 disk s : keeps_to disk (WriteStage1 disk s).
Proof.
  intros w. apply (confined_weaken _ stage1_range); [by left|].
  eapply WriteStage1_confined, surjective_pairing.
Qed.

Lemma keeps_stage2 disk s : keeps_to disk (WriteStage2 disk s).
Proof.
  intros w. apply (confined_weaken _ stage2_range); [by right|].
  eapply WriteStage2_confined, surjective_pairing.
Qed.

Lemma keeps_rollback1 disk p : keeps_to disk (rollbackStage1 disk p).
Proof. intros w. eapply rollbackStage1_confined, surjective_pairing. Qed.

Lemma keeps_rollback2 disk p : keeps_to disk (rollbackStage2 disk p).
Proof. intros w. eapply rollbackStage2_confined, surjective_pairing. Qed.

Lemma keeps_verify1 disk s : keeps_to disk (VerifyStage1 disk s).
Proof. intros w. eapply frame_confined, VerifyStage1_frame, surjective_pairing. Qed.

Lemma keeps_verify2 disk s : keeps_to disk (VerifyStage2 disk s).
Proof. intros w. eapply frame_confined, VerifyStage2_frame, surjective_pairing. Qed.

#[local] Hint Resolve keeps_attempt keeps_ret keeps_throw keeps_panic keeps_stage1 keeps_stage2
  keeps_rollback1 keeps_rollback2 keeps_verify1 keeps_verify2 : core.

Lemma keeps_stages disk stage1 stage2 : keeps_to disk (writeBIOSStagesWithRollback disk stage1 stage2).
Proof.
  unfold writeBIOSStagesWithRollback.
  repeat first [apply keeps_bind; [auto|intros ?] | case_match | progress auto].
Qed.

(** Whatever calls fail and however many, the disk and every state it
went through differ from the start only in stage1's 440 bytes and stage2's 64
sectors: the disk signature, the partition table and the GPT are never
touched, no other disk is, and no file is. *)
Theorem writeBIOSStages_confined disk stage1 stage2 w :
  confined disk stage_range w (writeBIOSStagesWithRollback disk stage1 stage2 w).2.
Proof. apply keeps_stages. Qed.

(** ** Rollback

The rollback writers pass the gate again, on a disk whose stage ranges may
hold anything: a disk is [steady] when the gate's verdict does not depend on
them. *)
Definition steady (d : bytes) : Prop :=
  forall d', agree stage_range d d' -> CheckStage2ExtentFree (Some (plain d')) = Ok tt.

Lemma steady_agree d d' : agree stage_range d d' -> steady d -> steady d'.
Proof. intros Ha Hs x Hx. apply Hs. by etransitivity. Qed.

Lemma steady_gate d : steady d -> CheckStage2ExtentFree (Some (plain d)) = Ok tt.
Proof. intros H. by apply H. Qed.

Lemma agree1 d d' : agree (fun i => 0 <= i < 0 + Stage1Bytes) d d' -> agree stage_range d d'.
Proof. apply agree_weaken. intros i Hi. left. unfold stage1_range. lia. Qed.

Lemma agree2 d d' :
  agree (fun i => stage2_offset <= i < stage2_offset + Stage2Bytes) d d' -> agree stage_range d d'.
Proof. apply agree_weaken. intros i Hi. by right. Qed.

Lemma old_content (d : bytes) lo n :
  0 <= lo -> 0 <= n -> lo + n <= len d -> exists p, len p = n /\ p = sub d lo n.
Proof. intros. exists (sub d lo n). split; [by apply len_sub|done]. Qed.

Lemma rollbackStage1_some disk p : rollbackStage1 disk (Some p) = (run WriteStage1 disk p then ret tt).
Proof. done. Qed.

Lemma rollbackStage2_some disk p : rollbackStage2 disk (Some p) = (run WriteStage2 disk p then ret tt).
Proof. done. Qed.

Lemma restore2 disk d d' w r w' :
  calm (clock w) -> disks w !! disk = Some d' -> steady d ->
  stage2_offset + Stage2Bytes <= len d ->
  agree (fun i => stage2_offset <= i < stage2_offset + Stage2Bytes) d d' ->
  rollbackStage2 disk (Some (sub d stage2_offset Stage2Bytes)) w = (r, w') ->
  r = Ok tt /\ disks w' = <[disk := d]> (disks w) /\ (clock w <= clock w')%nat.
Proof.
  intros Hc Hd Hs Hf Ha H.
  destruct (old_content d stage2_offset Stage2Bytes) as (p & Hp & Hpd); [done|done|done|].
  rewrite <-Hpd, rollbackStage2_some in H.
  assert (forall r x, WriteStage2 disk p w = (r, x) -> r = Ok (Some (sub d' stage2_offset (len (stage2_region p))), Ok tt) /\
            disks x = <[disk := d]> (disks w) /\ (clock w <= clock x)%nat) as HW.
  { intros r0 x E. apply (WriteStage2_spec _ _ d') in E; [|done|by apply Hs, agree2|lia|destruct Ha as [-> _]; lia].
    destruct E as [(_ & _ & E)|(d'' & rr & -> & D & _ & C & _ & _ & [[-> ->]|[_ E]])];
      try (exfalso; by eapply calm_failed).
    split_and!; [done| |done]. rewrite D, stage2_region_full, Hpd by done.
    by rewrite (agree_restore d d' stage2_offset Stage2Bytes). }
  io_bind H x E; apply HW in E as (E & D & C); [|discriminate E|discriminate E].
  injection H as <- <-. done.
Qed.

Lemma restore1 disk d d' w r w' :
  calm (clock w) -> disks w !! disk = Some d' -> steady d -> Stage1Bytes <= len d ->
  agree (fun i => 0 <= i < 0 + Stage1Bytes) d d' ->
  rollbackStage1 disk (Some (sub d 0 Stage1Bytes)) w = (r, w') ->
  r = Ok tt /\ disks w' = <[disk := d]> (disks w) /\ (clock w <= clock w')%nat.
Proof.
  intros Hc Hd Hs Hf Ha H.
  destruct (old_content d 0 Stage1Bytes) as (p & Hp & Hpd); [done|done|lia|].
  rewrite <-Hpd, rollbackStage1_some in H.
  assert (forall r x, WriteStage1 disk p w = (r, x) -> r = Ok (Some (sub d' 0 (len p)), Ok tt) /\
            disks x = <[disk := d]> (disks w) /\ (clock w <= clock x)%nat) as HW.
  { intros r0 x E. apply (WriteStage1_spec _ _ d') in E; [|done|by apply Hs, agree1|done|destruct Ha as [-> _]; lia].
    destruct E as [(_ & _ & E)|(d'' & rr & -> & D & _ & C & _ & _ & [[-> ->]|[_ E]])];
      try (exfalso; by eapply calm_failed).
    split_and!; [done| |done]. rewrite D, Hpd. by rewrite (agree_restore d d' 0 Stage1Bytes). }
  io_bind H x E; apply HW in E as (E & D & C); [|discriminate E|discriminate E].
  injection H as <- <-. done.
Qed.

Lemma quiet_VerifyStage2 disk s d w :
  disks w !! disk = Some d -> stage2_offset + Stage2Bytes <= len d -> len s <= Stage2Bytes ->
  sub d stage2_offset Stage2Bytes = stage2_region s ->
  quiet (VerifyStage2 disk s) (fun _ => True) w.
Proof.
  intros Hd Hf Hs Hr. unfold VerifyStage2. rewrite (proj2 (Z.ltb_ge _ _) Hs).
  apply quiet_run; [by eapply quiet_open|]. intros x (_ & D & _).
  eapply quiet_verify2; [rewrite D; exact Hd|done|done|done].
Qed.

Lemma quiet_VerifyStage1 disk s d w :
  disks w !! disk = Some d -> len s = Stage1Bytes -> Stage1Bytes <= len d ->
  sub d 0 Stage1Bytes = s -> quiet (VerifyStage1 disk s) (fun _ => True) w.
Proof.
  intros Hd Hs Hf Hr. unfold VerifyStage1. rewrite (proj2 (Z.eqb_eq _ _) Hs). cbn [negb].
  intros r w' H. unfold readRegion in H.
  assert (quiet (run openDisk disk then readDisk disk 0 Stage1Bytes) (fun c => c = s) w) as Hq.
  { apply quiet_run; [by eapply quiet_open|]. intros x (_ & D & _). rewrite <-Hr.
    apply quiet_read; [by rewrite D|done|lia]. }
  io_bind H x E; apply Hq in E as [F E].
  - destruct E as [(c & Hc & ->)|[(e & He) _]]; [|discriminate He]. injection Hc as ->.
    rewrite beq_refl in H. injection H as <- <-. split; [done|left; eauto].
  - destruct E as [(c & Hc & _)|[_ E]]; [discriminate Hc|]. subst r. split; [done|right; eauto].
  - destruct E as [(c & Hc & _)|[(e & He) _]]; discriminate.
Qed.

(** The guarded continuation of a successful write: verify, then go on. *)
Lemma quiet_verified {A B} (c : io A) (back : ioerr -> io B) (k : io B) w r w' :
  quiet c (fun _ => True) w ->
  (do v := attempt c in
   match v with
   | Panic => lift Panic
   | Err e => back e
   | Ok _ => k
   end) w = (r, w') ->
  (exists x, frame w x /\ k x = (r, w')) \/
  (exists e x, frame w x /\ failed w x /\ back e x = (r, w')).
Proof.
  intros Hq H. unfold bind at 1, attempt in H. destruct (c w) as [v x] eqn:E.
  apply Hq in E as [F [(a & -> & _)|[(e & ->) Hf]]]; [left|right]; eauto.
Qed.

(** The disk with both stages in place. *)
Definition with_stages (stage1 stage2 d : bytes) : bytes :=
  copy_at (copy_at d stage2_offset (stage2_region stage2)) 0 stage1.

Lemma undo2 {A} disk d d' e w r w' :
  calm (clock w) -> disks w !! disk = Some d' -> steady d ->
  stage2_offset + Stage2Bytes <= len d ->
  agree (fun i => stage2_offset <= i < stage2_offset + Stage2Bytes) d d' ->
  (run rollbackStage2 disk (Some (sub d stage2_offset Stage2Bytes)) then throw (A:=A) e) w = (r, w') ->
  r = Err e /\ disks w' = <[disk := d]> (disks w) /\ (clock w <= clock w')%nat.
Proof.
  intros Hc Hd Hs Hf Ha H. io_bind H x E;
    apply (restore2 _ _ _ _ _ _ Hc Hd Hs Hf Ha) in E as (E & D & C); [|discriminate E|discriminate E].
  by injection H as <- <-.
Qed.

Lemma undo12 {A} disk d d1 d' e w r w' :
  calm (clock w) -> disks w !! disk = Some d' -> steady d ->
  stage2_offset + Stage2Bytes <= len d ->
  agree (fun i => stage2_offset <= i < stage2_offset + Stage2Bytes) d d1 ->
  agree (fun i => 0 <= i < 0 + Stage1Bytes) d1 d' ->
  (run rollbackStage1 disk (Some (sub d1 0 Stage1Bytes)) then
   run rollbackStage2 disk (Some (sub d stage2_offset Stage2Bytes)) then throw (A:=A) e) w = (r, w') ->
  r = Err e /\ disks w' = <[disk := d]> (disks w) /\ (clock w <= clock w')%nat.
Proof.
  intros Hc Hd Hs Hf Ha Hb H.
  assert (Stage1Bytes <= len d1) as Hf1 by (destruct Ha as [-> _]; etransitivity; [|exact Hf]; done).
  assert (steady d1) as Hs1 by (eapply steady_agree; [by apply agree2|done]).
  io_bind H x E; apply (restore1 _ _ _ _ _ _ Hc Hd Hs1 Hf1 Hb) in E as (E & D & C); [|discriminate E|discriminate E].
  apply (undo2 _ _ d1) in H as (-> & D' & C'); try done.
  - split_and!; [done| |lia]. by rewrite D', D, insert_insert_eq.
  - by eapply calm_le.
  - by rewrite D, lookup_insert_eq.
Qed.

Lemma rollback1_none {A} disk (k : io A) : (run rollbackStage1 disk None then k) = k.
Proof. done. Qed.

Lemma rollback2_none {A} disk (k : io A) : (run rollbackStage2 disk None then k) = k.
Proof. done. Qed.

Lemma insert_back (m m' : diskmap) disk d d' :
  m !! disk = Some d -> m' = <[disk := d']> m -> <[disk := d]> m' = m.
Proof. intros Hd ->. rewrite insert_insert_eq. by apply insert_id. Qed.

(** How the run ends: both stages written, or the disks as they were. *)
Definition all_or_nothing (disk stage1 stage2 d : bytes) (w : world) (r : outcome ioerr unit) (w' : world) : Prop :=
  r = Ok tt /\ disks w' = <[disk := with_stages stage1 stage2 d]> (disks w) /\
    history w' = (files w, disks w')
      :: (files w, <[disk := copy_at d stage2_offset (stage2_region stage2)]> (disks w)) :: history w \/
  (exists e, r = Err e) /\ failed w w' /\ disks w' = disks w.

Lemma stage1_step disk stage1 stage2 d w x r w' :
  one_fault -> disks w !! disk = Some d -> steady d ->
  stage2_offset + Stage2Bytes <= len d -> len stage1 = Stage1Bytes ->
  disks x = <[disk := copy_at d stage2_offset (stage2_region stage2)]> (disks w) ->
  files x = files w -> history x = (files w, disks x) :: history w -> (clock w <= clock x)%nat ->
  (do r1 := WriteStage1 disk stage1 in
   match r1 with
   | (_, Panic) => lift Panic
   | (stage1Prev, Err e) =>
      run rollbackStage1 disk stage1Prev then
      run rollbackStage2 disk (Some (sub d stage2_offset Stage2Bytes)) then throw (EIn (bs "writing stage1") e)
   | (stage1Prev, Ok _) =>
      do v1 := attempt (VerifyStage1 disk stage1) in
      match v1 with
      | Panic => lift Panic
      | Err e =>
          run rollbackStage1 disk stage1Prev then
          run rollbackStage2 disk (Some (sub d stage2_offset Stage2Bytes)) then
          throw (EIn (bs "verifying stage1 after write") e)
      | Ok _ => ret tt
      end
   end) x = (r, w') ->
  all_or_nothing disk stage1 stage2 d w r w'.
Proof.
  intros H1 Hd Hs Hf Hl1 D F Hh C H.
  remember (copy_at d stage2_offset (stage2_region stage2)) as d2 eqn:E2.
  assert (agree (fun i => stage2_offset <= i < stage2_offset + Stage2Bytes) d d2) as Ha.
  { rewrite E2. apply agree_copy_at; [done|]. by rewrite len_stage2_region. }
  assert (len d2 = len d) as Hl2 by apply Ha.
  assert (Stage1Bytes <= len d2) as Hf1 by (rewrite Hl2; etransitivity; [|exact Hf]; done).
  assert (disks x !! disk = Some d2) as Hdx by (by rewrite D, lookup_insert_eq).
  unfold bind at 1 in H. destruct (WriteStage1 disk stage1 x) as [r1 y] eqn:E1.
  apply (WriteStage1_spec _ _ d2) in E1; [|done|by apply Hs, agree2|done|done].
  unfold replaced_at in E1. rewrite Hl1 in E1.
  destruct E1 as [((e & ->) & Fr & Hfail)|(d' & rr & -> & Dy & Fy & Cy & Hy & Ay & [[-> ->]|[(e & ->) Hfail]])]; cbv iota in H.
  - (* nothing of stage1 written *)
    assert (failed w y) as Hw by (eapply failed_r; [exact C|done]).
    rewrite rollback1_none in H. destruct Fr as (_ & Dy & _ & Cy).
    apply (undo2 _ _ d2) in H as (-> & D' & C'); [|by eapply failed_calm|by rewrite Dy|done|done|done].
    right. split_and!; [eauto|by eapply failed_l|]. rewrite D', Dy. by eapply insert_back.
  - (* stage1 written *)
    assert (disks y !! disk = Some (copy_at d2 0 stage1)) as Hdy by (by rewrite Dy, lookup_insert_eq).
    apply (quiet_verified (VerifyStage1 disk stage1)) in H as [(z & Fz & H)|(e & z & Fz & Hfail & H)].
    + injection H as <- <-. destruct Fz as (_ & Dz & Hz & _). left. rewrite Hz, Hy, Hh, Dz, Dy, F, D.
      split_and!; [done| |by rewrite E2]. by rewrite insert_insert_eq, E2.
    + assert (failed w z) as Hw by (eapply failed_r; [|done]; lia).
      destruct Fz as (_ & Dz & _ & Cz).
      apply (undo12 _ _ d2 (copy_at d2 0 stage1)) in H as (-> & D' & C');
        [|by eapply failed_calm|by rewrite Dz|done|done|done|done].
      right. split_and!; [eauto|by eapply failed_l|]. rewrite D', Dz, Dy.
      eapply insert_back; [done|]. by rewrite D, insert_insert_eq.
    + eapply quiet_VerifyStage1; [exact Hdy|done|by rewrite len_copy_at|].
      rewrite <-Hl1. apply sub_copy_at_same; [done|lia].
  - (* a torn write of stage1 *)
    assert (failed w y) as Hw by (eapply failed_r; [exact C|done]).
    apply (undo12 _ _ d2 d') in H as (-> & D' & C');
      [|by eapply failed_calm|by rewrite Dy, lookup_insert_eq|done|done|done|done].
    right. split_and!; [eauto|by eapply failed_l|]. rewrite D', Dy.
    eapply insert_back; [done|]. by rewrite D, insert_insert_eq.
Qed.

Lemma writeBIOSStages_ends disk stage1 stage2 d w r w' :
  one_fault -> disks w !! disk = Some d -> steady d ->
  stage2_offset + Stage2Bytes <= len d -> len stage1 = Stage1Bytes -> len stage2 <= Stage2Bytes ->
  writeBIOSStagesWithRollback disk stage1 stage2 w = (r, w') ->
  all_or_nothing disk stage1 stage2 d w r w'.
Proof.
  intros H1 Hd Hs Hf Hl1 Hl2 H. unfold writeBIOSStagesWithRollback in H.
  unfold bind at 1 in H. destruct (WriteStage2 disk stage2 w) as [r2 x] eqn:E2.
  apply (WriteStage2_spec _ _ d) in E2; [|done|by apply steady_gate|done|done].
  unfold replaced_at in E2. rewrite len_stage2_region in E2.
  destruct E2 as [((e & ->) & Fr & Hfail)|(d' & rr & -> & Dx & Fx & Cx & Hx & Ax & [[-> ->]|[(e & ->) Hfail]])]; cbv iota in H.
  - rewrite rollback2_none in H. injection H as <- <-. right. destruct Fr as (_ & D & _). eauto.
  - apply (quiet_verified (VerifyStage2 disk stage2)) in H as [(y & Fy & H)|(e & y & Fy & Hfail & H)].
    + destruct Fy as (Fyf & Fyd & Fyh & Fyc).
      apply (stage1_step disk stage1 stage2 d w y r w'); try assumption; (congruence || lia).
    + assert (failed w y) as Hw by (eapply failed_r; [|done]; lia).
      destruct Fy as (_ & Dy & _ & Cy).
      apply (undo2 _ _ (copy_at d stage2_offset (stage2_region stage2))) in H as (-> & D' & C');
        [|by eapply failed_calm|by rewrite Dy, Dx, lookup_insert_eq|done|done|done].
      right. split_and!; [eauto|by eapply failed_l|]. rewrite D'. eapply insert_back; [done|]. by rewrite Dy.
    + eapply quiet_VerifyStage2; [by rewrite Dx, lookup_insert_eq|by rewrite len_copy_at|done|].
      rewrite <-(len_stage2_region stage2) at 1.
      apply sub_copy_at_same; [done|by rewrite len_stage2_region].
  - apply (undo2 _ _ d') in H as (-> & D' & C');
      [|by eapply failed_calm|by rewrite Dx, lookup_insert_eq|done|done|done].
    right. split_and!; [eauto|by eapply failed_l|]. rewrite D'. by eapply insert_back.
Qed.

(** C26 - With at most one failing call, at whatever point and however torn the
write it interrupts, the run either succeeds and the disk holds exactly the new
stage pair, or it reports an error and every disk is bit for bit what it was
before. The disk must be one whose partition-table verdict does not depend on
its boot code ([steady], see [gpt_steady]). *)
Theorem writeBIOSStages_all_or_nothing disk stage1 stage2 d w r w' :
  one_fault -> disks w !! disk = Some d -> steady d ->
  stage2_offset + Stage2Bytes <= len d -> len stage1 = Stage1Bytes -> len stage2 <= Stage2Bytes ->
  writeBIOSStagesWithRollback disk stage1 stage2 w = (r, w') ->
  (r = Ok tt /\ disks w' = <[disk := with_stages stage1 stage2 d]> (disks w)) \/
  ((exists e, r = Err e) /\ disks w' = disks w).
Proof.
  intros H1 Hd Hs Hf Hl1 Hl2 H.
  destruct (writeBIOSStages_ends _ _ _ _ _ _ _ H1 Hd Hs Hf Hl1 Hl2 H) as [(-> & D & _)|(He & _ & D)]; auto.
Qed.

(** The stage pair a disk boots with. *)
Definition boots (d : bytes) : bool :=
  Stage1Accepts (sub d 0 Stage1Bytes) (sub d stage2_offset Stage2Bytes).

Lemma boots_stage2 d stage2 :
  stage2_offset + Stage2Bytes <= len d -> 10 <= len stage2 -> CheckStage2 stage2 = Ok tt ->
  sub d stage2_offset Stage2Bytes = stage2_region stage2 -> boots d = true.
Proof.
  intros Hf Hl Hc Hr. unfold boots. rewrite Hr. by apply Stage1Accepts_checked, CheckStage2_region.
Qed.

Lemma region_after_stage2 stage2 d :
  stage2_offset + Stage2Bytes <= len d ->
  sub (copy_at d stage2_offset (stage2_region stage2)) stage2_offset Stage2Bytes = stage2_region stage2.
Proof.
  intros Hf. rewrite <-(len_stage2_region stage2) at 1. apply sub_copy_at_same; [done|by rewrite len_stage2_region].
Qed.

Lemma region_with_stages stage1 stage2 d :
  stage2_offset + Stage2Bytes <= len d -> len stage1 = Stage1Bytes ->
  sub (with_stages stage1 stage2 d) stage2_offset Stage2Bytes = stage2_region stage2.
Proof.
  intros Hf Hl1. unfold with_stages. rewrite sub_copy_at_other; [by apply region_after_stage2|done| |done|done| |].
  - rewrite len_copy_at, Hl1. etransitivity; [|exact Hf]. done.
  - by rewrite len_copy_at.
  - right. by rewrite Hl1.
Qed.

(** C27 - When no call fails, the run succeeds, and between its disk writes the
disk always boots: the state between the two writes (old stage1, new stage2) and
the one after them hold a stage2 that the stage1 next to it accepts. Given a disk
whose partition-table verdict does not depend on its boot code, and a stage2 of
at least ten bytes that passed [checkStagePair]. Each of the two writes counts as
one step here: a machine that stops in the middle of the 32 KiB write of stage2
is left with a torn stage2, as the comment at [WriteStage2] says. *)
Theorem writeBIOSStages_crash_boots disk stage1 stage2 d w r w' :
  calm (clock w) -> one_fault -> disks w !! disk = Some d -> steady d ->
  stage2_offset + Stage2Bytes <= len d -> len stage1 = Stage1Bytes ->
  10 <= len stage2 <= Stage2Bytes -> checkStagePair stage2 false = Ok tt ->
  writeBIOSStagesWithRollback disk stage1 stage2 w = (r, w') ->
  r = Ok tt /\ exists hs, history w' = hs ++ history w /\ hs <> [] /\
    Forall (fun s : filemap * diskmap => exists d', s.2 !! disk = Some d' /\ boots d' = true) hs.
Proof.
  intros Hc H1 Hd Hs Hf Hl1 [Hl2 Hl3] Hp H.
  destruct (writeBIOSStages_ends _ _ _ _ _ _ _ H1 Hd Hs Hf Hl1 Hl3 H) as [(-> & D & Hh)|(_ & Hx & _)];
    [|exfalso; by eapply calm_failed].
  split; [done|]. rewrite D in Hh.
  assert (CheckStage2 stage2 = Ok tt) as Hok.
  { unfold checkStagePair in Hp. by destruct (CheckStage2 stage2) as [[]|e|]. }
  eexists [_; _]. split; [exact Hh|]. split; [done|].
  constructor; [|constructor; [|constructor]]; (eexists; split; [apply lookup_insert_eq|]).
  - eapply boots_stage2; [by unfold with_stages; rewrite !len_copy_at|exact Hl2|done|by apply region_with_stages].
  - eapply boots_stage2; [by rewrite len_copy_at|exact Hl2|done|by apply region_after_stage2].
Qed.

End stages.

(** ** Which disks are steady *)

Lemma agree_read d d' off n :
  agree stage_range d d' -> 0 <= off ->
  (forall i, off <= i < off + n -> ~ stage_range i) ->
  read_at (plain d') off n = read_at (plain d) off n.
Proof.
  intros Ha Ho Hr. unfold read_at, plain. cbn [content unreadable].
  destruct Ha as [Hl Ha]. rewrite Hl. destruct (_ && _); [|done].
  by rewrite (agree_sub stage_range d d').
Qed.

Lemma ReadGPTHeader_agree d d' :
  agree stage_range d d' -> ReadGPTHeader (Some (plain d')) = ReadGPTHeader (Some (plain d)).
Proof.
  intros Ha. unfold ReadGPTHeader. rewrite (agree_read d d'); [done|done|done|].
  intros i Hi [H|H]; unfold stage1_range, stage2_range, stage2_offset, Stage1Bytes, Stage2LBA, sectorSize, SectorSize in *; lia.
Qed.

(** A sector outside the stage2 extent and after LBA 0 is outside both ranges. *)
Lemma sector_outside lba i :
  1 <= lba -> ~ (extentStart <= lba <= extentEnd) ->
  lba * 512 <= i < lba * 512 + sectorSize -> ~ stage_range i.
Proof.
  unfold extentStart, extentEnd. intros Hl Hn Hi [H|H];
    unfold stage1_range, stage2_range, stage2_offset, Stage1Bytes, Stage2Bytes, Stage2LBA, Stage2Sectors, sectorSize, SectorSize in *; lia.
Qed.

Lemma steady_gpt d hdr :
  ReadGPTHeader (Some (plain d)) = Ok hdr -> CheckStage2ExtentFree (Some (plain d)) = Ok tt ->
  1 <= PartitionEntryLBA hdr < 2 ^ 53 ->
  NumPartitionEntries hdr + entriesPerSector hdr <= 2 ^ 32 -> steady d.
Proof.
  intros Hh Hok Hp Hc d' Ha.
  pose proof (read_header_num _ _ Hh) as Hn.
  assert (GPTPartitions (Some (plain d')) hdr = GPTPartitions (Some (plain d)) hdr) as HG.
  { unfold GPTPartitions. destruct (_ || _) eqn:Es; [done|]. destruct (_ =? 0); [done|]. zb.
    destruct (totalSectors_array hdr) as [Ht Hb]; [unfold sectorSize in *; lia|lia|done|].
    apply array_entries_ext. intros j Hj. rewrite Ht in Hj.
    rewrite array_offset_small by lia. apply (agree_read d d'); [done|lia|].
    intros i Hi. eapply (sector_outside (PartitionEntryLBA hdr + j)); [lia| |exact Hi].
    eapply array_outside; [exact Hh|exact Hok|lia|lia]. }
  unfold CheckStage2ExtentFree in *. rewrite (ReadGPTHeader_agree d d') by done. rewrite Hh in *.
  unfold checkGPTExtentFree in *. by rewrite HG.
Qed.

(** A GPT disk is steady: when the gate passes on a disk with a valid GPT
header whose array starts at LBA 1 or later, lies below LBA 2^53 and has an
entry count that does not wrap, the gate passes whatever the two boot ranges
hold, so the rollback of the stages is never refused. *)
Theorem gpt_steady d hdr :
  ReadGPTHeader (Some (plain d)) = Ok hdr -> CheckStage2ExtentFree (Some (plain d)) = Ok tt ->
  1 <= PartitionEntryLBA hdr < 2 ^ 53 ->
  NumPartitionEntries hdr + entriesPerSector hdr <= 2 ^ 32 -> steady d.
Proof. apply steady_gpt. Qed.

(** A GPT disk large enough for stage2, and a stage1 of the right size. *)
Definition sample_disk : bytes := content sample_gpt_disk ++ zeros 60000.
Definition sample_stage1 : bytes := stage1MarkerCheck ++ zeros (Stage1Bytes - 6).

Lemma gpt_steady_witness : steady sample_disk.
Proof. apply (gpt_steady sample_disk sample_header); vm_compute; intuition congruence. Defined.

Lemma sample_steady : steady sample_disk.
Proof. apply (steady_gpt sample_disk sample_header); vm_compute; intuition congruence. Qed.

Definition disk_name : bytes := bs "/dev/sda".
Definition sample_world : world := fresh_world ∅ {[disk_name := sample_disk]}.

(** The third call of the run, the write of stage2, fails after 700 bytes. *)
Lemma writeBIOSStages_all_or_nothing_witness :
  let O := fail_at 3 700 in
  let out := writeBIOSStagesWithRollback (O:=O) disk_name sample_stage1 sample_stage2 sample_world in
  (out.1 = Ok tt /\ disks out.2 = <[disk_name := with_stages sample_stage1 sample_stage2 sample_disk]> (disks sample_world)) \/
  ((exists e, out.1 = Err e) /\ disks out.2 = disks sample_world).
Proof.
  intros O out.
  apply (writeBIOSStages_all_or_nothing (O:=O) disk_name sample_stage1 sample_stage2 sample_disk sample_world out.1 out.2).
  - apply fail_at_one.
  - apply lookup_insert_eq.
  - exact sample_steady.
  - vm_compute. discriminate.
  - vm_compute. reflexivity.
  - vm_compute. discriminate.
  - apply surjective_pairing.
Defined.

Lemma writeBIOSStages_crash_boots_witness :
  let O := no_faults in
  let out := writeBIOSStagesWithRollback (O:=O) disk_name sample_stage1 sample_stage2 sample_world in
  out.1 = Ok tt /\ exists hs, history out.2 = hs ++ [] /\ hs <> [] /\
    Forall (fun s : filemap * diskmap => exists d', s.2 !! disk_name = Some d' /\ boots d' = true) hs.
Proof.
  intros O out.
  apply (writeBIOSStages_crash_boots (O:=O) disk_name sample_stage1 sample_stage2 sample_disk sample_world out.1 out.2).
  - apply no_faults_calm.
  - apply no_faults_one.
  - apply lookup_insert_eq.
  - exact sample_steady.
  - vm_compute. discriminate.
  - vm_compute. reflexivity.
  - vm_compute. split; discriminate.
  - vm_compute. reflexivity.
  - apply surjective_pairing.
Defined.
