(* ===== verification/KernelInfo.v ===== *)
(** * internal/kernelinfo: the version of a kernel image

[VersionFromImage] and its parts: the x86 boot-protocol header, the EFI zboot
wrapper (its gzip payload through a parameter, [compress/gzip] being library
code) and the banner scan. *)

From Stdlib Require Import ZArith Lia Strings.Byte.
From stdpp Require Import base list.
From S2P Require Import Prelude GoStrings.
Local Open Scope Z_scope.

Definition offBootFlag : Z := 0x1FE.
Definition offHeaderMagic : Z := 0x202.
Definition offVersion : Z := 0x206.
Definition offKernelVersion : Z := 0x20E.

Inductive kernel_error :=
| ETooShort (n : Z) | ENoBootFlag | ENoHdrS | EProtocol (v : Z) | ENoVersionString
| EPastEnd (off : Z) | ENoTerminator | ENoBanner
| EZbootOffset (off : Z) | EZbootCompType | EZbootUnsupported (t : bytes)
| EGzipOpen | EGzipRead | EZbootTooLarge
| EZboot (e : kernel_error).

(** [uint16(b[off]) | uint16(b[off+1])<<8] *)
Definition u16_at {E} (b : bytes) (off : Z) : outcome E Z :=
  let! lo := index b off in
  let! hi := index b (off + 1) in
  Ok (Z.lor (b2z lo) (Z.shiftl (b2z hi) 8)).

Definition VersionFromBytes (data : bytes) : outcome kernel_error bytes :=
  if len data <? offKernelVersion + 2 then Err (ETooShort (len data)) else
  let! f0 := index data offBootFlag in
  let! f1 := index data (offBootFlag + 1) in
  if negb (bool_decide (f0 = x55) && bool_decide (f1 = xaa)) then Err ENoBootFlag else
  let! magic := slice data offHeaderMagic (offHeaderMagic + 4) in
  if negb (beq magic (bs "HdrS")) then Err ENoHdrS else
  let! protoVersion := u16_at data offVersion in
  if protoVersion <? 0x0200 then Err (EProtocol protoVersion) else
  let! relOff := u16_at data offKernelVersion in
  if relOff =? 0 then Err ENoVersionString else
  let absOff := relOff + 0x200 in
  if len data <=? absOff then Err (EPastEnd absOff) else
  let! rest := slice_from data absOff in
  match index_byte rest x00 with
  | None => Err ENoTerminator
  | Some nul => slice data absOff (absOff + Z.of_nat nul)
  end.

Definition banner_prefix : bytes := bs "Linux version ".

Definition VersionFromLinuxBanner (data : bytes) : outcome kernel_error bytes :=
  match index_of data banner_prefix with
  | None => Err ENoBanner
  | Some idx =>
      let! rest := slice_from data (Z.of_nat idx) in
      match index_any rest [x0a; x00] with
      | None => Err ENoTerminator
      | Some end_ => slice rest 0 (Z.of_nat end_)
      end
  end.

Definition offZbootDOS : Z := 0.
Definition offZbootType : Z := 4.
Definition offZbootPayload : Z := 8.
Definition offZbootCompType : Z := 24.
Definition maxZbootCompTypeLen : Z := 32.
Definition maxZbootDecompressedSize : Z := 256 * 1024 * 1024.

Definition isZbootImage (data : bytes) : outcome kernel_error bool :=
  if negb (offZbootCompType + 4 <=? len data) then Ok false else
  let! m := index data offZbootDOS in
  let! z := index data (offZbootDOS + 1) in
  if negb (bool_decide (m = x4d) && bool_decide (z = x5a)) then Ok false else
  let! t := slice data offZbootType (offZbootType + 4) in
  Ok (beq t (bs "zimg")).

Definition stripLinuxVersionPrefix (v : bytes) : bytes := trim_prefix v banner_prefix.

Definition ShortVersion (full : bytes) : bytes :=
  match index_byte full x20 with Some i => take i full | None => full end.

Section zboot.

(** [gzip.NewReader] of a stream: [None] when the header is refused, else the
first member's content and whether reading it ends in an error. *)
Context (gzip : bytes -> option (bytes * bool)).

(** [io.ReadAll(io.LimitReader(r, max+1))]: an error of the stream surfaces
only when the limit is not reached first. *)
Definition read_limited (stream : bytes * bool) (max : Z) : option bytes :=
  let '(content, broken) := stream in
  if max + 1 <=? len content then Some (take (Z.to_nat (max + 1)) content)
  else if broken then None else Some content.

Definition unwrapZboot (data : bytes) : outcome kernel_error bytes :=
  let! payloadOff := le_at 4 data offZbootPayload in
  if len data <=? payloadOff then Err (EZbootOffset payloadOff) else
  let! compTypeField := slice data offZbootCompType (Z.min (offZbootCompType + maxZbootCompTypeLen) (len data)) in
  match index_byte compTypeField x00 with
  | None => Err EZbootCompType
  | Some nul =>
      let! compType := slice compTypeField 0 (Z.of_nat nul) in
      if beq compType (bs "gzip") then
        let! payload := slice_from data payloadOff in
        match gzip payload with
        | None => Err EGzipOpen
        | Some r =>
            match read_limited r maxZbootDecompressedSize with
            | None => Err EGzipRead
            | Some out => if maxZbootDecompressedSize <? len out then Err EZbootTooLarge else Ok out
            end
        end
      else Err (EZbootUnsupported compType)
  end.

Definition VersionFromImage (data : bytes) : outcome kernel_error bytes :=
  match VersionFromBytes data with
  | Ok v => Ok v
  | Panic => Panic
  | Err _ =>
      let! zboot := isZbootImage data in
      if zboot then
        let! unwrapped := owrap EZboot (unwrapZboot data) in
        let! v := VersionFromLinuxBanner unwrapped in Ok (stripLinuxVersionPrefix v)
      else
        let! v := VersionFromLinuxBanner data in Ok (stripLinuxVersionPrefix v)
  end.

End zboot.

(** ** Lemmas *)

Lemma u16_at_safe {E} b off : 0 <= off -> off + 2 <= len b -> safe (u16_at (E:=E) b off).
Proof.
  intros Ho Hl. apply obind_safe; [apply safe_index; lia|]. intros lo _.
  apply obind_safe; [apply safe_index; lia|]. by intros hi _.
Qed.

(** Panic-freedom of a sequence of bounded reads: each step's bounds follow
from the length tests before it. *)
Ltac safe_reads :=
  repeat first
    [ apply safe_err | apply safe_ok
    | apply obind_safe; [first [apply safe_index; lia | apply safe_slice; lia | apply u16_at_safe; lia]|intros ? ?]
    | apply safe_if; intros ?; zb ].

Lemma u16_at_range {E} b off v : u16_at (E:=E) b off = Ok v -> 0 <= v.
Proof.
  unfold u16_at. intros H. apply obind_ok_inv in H as (lo & _ & H). apply obind_ok_inv in H as (hi & _ & H).
  injection H as <-. apply Z.lor_nonneg. pose proof (b2z_range lo). pose proof (b2z_range hi).
  split; [lia|]. apply Z.shiftl_nonneg. lia.
Qed.

Lemma VersionFromBytes_safe data : safe (VersionFromBytes data).
Proof.
  unfold VersionFromBytes, offKernelVersion, offBootFlag, offHeaderMagic, offVersion.
  safe_reads.
  match goal with H : u16_at data 526 = Ok ?v |- _ => apply u16_at_range in H end.
  unfold slice_from. apply obind_safe; [apply safe_slice; lia|]. intros rest Hr.
  apply slice_inv in Hr as (_ & _ & _ & _ & Hl).
  destruct (index_byte rest x00) as [nul|] eqn:E; [|done].
  apply index_byte_Some in E as (Hn & _). apply safe_slice; unfold len in *; lia.
Qed.

Lemma VersionFromLinuxBanner_safe data : safe (VersionFromLinuxBanner data).
Proof.
  unfold VersionFromLinuxBanner. destruct (index_of data banner_prefix) as [idx|] eqn:E; [|done].
  apply index_of_bound in E. apply obind_safe; [apply safe_slice; unfold len; lia|].
  intros rest Hr. destruct (index_any rest _) as [e|] eqn:Ee; [|done].
  apply index_any_Some in Ee as [He _]. apply safe_slice; unfold len in *; lia.
Qed.

Lemma isZbootImage_safe data : safe (isZbootImage data).
Proof. unfold isZbootImage, offZbootCompType, offZbootDOS, offZbootType. safe_reads. Qed.

Lemma isZbootImage_len data : isZbootImage data = Ok true -> 28 <= len data.
Proof.
  unfold isZbootImage, offZbootCompType. destruct (24 + 4 <=? len data) eqn:E; cbn [negb]; [|done].
  intros _. zb. lia.
Qed.

Lemma unwrapZboot_safe gzip data : 28 <= len data -> safe (unwrapZboot gzip data).
Proof.
  intros Hl. unfold unwrapZboot, offZbootPayload, offZbootCompType, maxZbootCompTypeLen.
  rewrite le_at_ok by lia. cbn [obind]. pose proof (le_get_range (sub data 8 4)) as Hp.
  apply safe_if; intros Hb; zb; [done|].
  apply obind_safe; [apply safe_slice; lia|]. intros field Hf.
  destruct (index_byte field x00) as [nul|] eqn:E; [|done]. apply index_byte_Some in E as (Hn & _).
  apply obind_safe; [apply safe_slice; unfold len; lia|]. intros ct _.
  apply safe_if; intros _; [|done].
  apply obind_safe; [apply safe_slice; lia|]. intros payload _.
  destruct (gzip payload) as [r|]; [|done]. destruct (read_limited r _) as [out|]; [|done].
  by apply safe_if.
Qed.

(** [VersionFromImage] never panics: for every input, truncated or
hostile, and whatever the gzip reader answers, no index or slice expression of
the three format readers is out of range. *)
Theorem VersionFromImage_never_panics gzip data : safe (VersionFromImage gzip data).
Proof.
  unfold VersionFromImage. pose proof (VersionFromBytes_safe data) as H.
  destruct (VersionFromBytes data) as [v|e|]; [done| |by destruct H]. clear H.
  apply obind_safe; [apply isZbootImage_safe|]. intros [] Hz.
  - apply obind_safe; [apply owrap_safe, unwrapZboot_safe, isZbootImage_len, Hz|].
    intros out _. apply obind_safe; [apply VersionFromLinuxBanner_safe|done].
  - apply obind_safe; [apply VersionFromLinuxBanner_safe|done].
Qed.

Lemma sub_prefix {A} (l : list A) lo n m : 0 <= lo -> 0 <= m <= n -> lo + n <= len l -> sub l lo m = take (Z.to_nat m) (sub l lo n).
Proof. intros. unfold sub. rewrite take_take. f_equal. lia. Qed.

(** The string a successful read returns has no NUL in it. *)
Lemma VersionFromBytes_no_nul data v : VersionFromBytes data = Ok v -> x00 ∉ v.
Proof.
  unfold VersionFromBytes. intros H. go_cases H.
  apply slice_inv in H as (? & ? & ? & -> & Hl). unfold slice_from in *.
  match goal with H : slice data _ (len data) = Ok ?r |- _ => apply slice_inv in H as (? & ? & ? & Hr & Hlr) end.
  match goal with H : index_byte _ _ = Some ?i |- _ => apply index_byte_Some in H as (Hn & Hnot & _) end.
  rewrite Hr in Hnot.
  match goal with |- _ ∉ sub data ?lo ?m =>
    rewrite (sub_prefix data lo (len data - lo)) by lia; replace m with (Z.of_nat n) by lia end.
  by rewrite Nat2Z.id.
Qed.

Example bzimage_version :
  VersionFromBytes (zeros 0x1FE ++ [x55; xaa] ++ zeros 2 ++ bs "HdrS" ++ [x0c; x02] ++ zeros 6 ++ [x20; x00]
    ++ zeros 16 ++ bs "6.18.52-0-lts (x)" ++ [x00]) = Ok (bs "6.18.52-0-lts (x)").
Proof. vm_compute. reflexivity. Qed.
