(* ===== verification/InitrdInfo.v ===== *)
(** * internal/initrdinfo: the OpenZFS version inside an initrd

The whole-buffer cpio parser, the streaming one that is really used, and the
bounds on both. The decompressors (compress/gzip, github.com/ulikunitz/xz) and
debug/elf are library code: parameters. *)

From Stdlib Require Import ZArith Lia Strings.Byte.
From stdpp Require Import base list.
From S2P Require Import Prelude GoStrings.
Local Open Scope Z_scope.

Definition maxDecompressedSize : Z := 512 * 1024 * 1024.
Definition cpioHeaderSize : Z := 110.

Inductive initrd_error :=
| EGzip | EXz | EZstd | EStream | EBound
| ETruncated (pos : Z) | EMagic (magic : bytes) | EHex | EDeclared (n : Z)
| ENoZfsKo | EDecompress (name : bytes) (e : initrd_error)
| EElf | ENoModinfo | EModinfo | ENoVersion
| EFuel.

(** An [io.Reader]: what it delivers, and whether it then fails or ends. *)
Record reader := mkReader { rest : bytes; broken : bool }.

(** [io.LimitedReader] with its remaining budget. *)
Record limited := mkLimited { src : reader; budget : Z }.

(** [readFullBounded]: [n] bytes or an error; running into the budget is told
apart from the end of the stream. *)
Definition readFullBounded (lr : limited) (n : Z) : outcome initrd_error (bytes * limited) :=
  let avail := Z.min (budget lr) (len (rest (src lr))) in
  if n <=? avail then
    Ok (sub (rest (src lr)) 0 n,
        mkLimited (mkReader (drop (Z.to_nat n) (rest (src lr))) (broken (src lr))) (budget lr - n))
  else if budget lr - avail <=? 0 then Err EBound else Err EStream.

(** [discardBounded]: the same, keeping nothing. *)
Definition discardBounded (lr : limited) (n : Z) : outcome initrd_error limited :=
  let avail := Z.min (budget lr) (len (rest (src lr))) in
  if n <=? avail then
    Ok (mkLimited (mkReader (drop (Z.to_nat n) (rest (src lr))) (broken (src lr))) (budget lr - n))
  else if budget lr - avail <=? 0 then Err EBound else Err EStream.

Definition checkDeclaredSize (declared : Z) (lr : limited) : outcome initrd_error unit :=
  if budget lr <? declared then Err (EDeclared declared) else Ok tt.

Definition readAllBounded (r : reader) : outcome initrd_error bytes :=
  if maxDecompressedSize <? len (rest r) then Err EBound
  else if broken r then Err EStream else Ok (rest r).

Definition align4 (n : Z) : Z :=
  let r := Z.rem n 4 in if negb (r =? 0) then n + (4 - r) else n.

Definition hex8 (b : bytes) : outcome initrd_error Z :=
  match parse_hex b 32 with Some v => Ok v | None => Err EHex end.

Record cpioEntry := mkEntry { name : bytes; data : bytes }.

Definition zfsKoSuffixes : list bytes :=
  [bs "/zfs.ko"; bs "/zfs.ko.gz"; bs "/zfs.ko.xz"; bs "/zfs.ko.zst"].

Definition matchesZFSKoSuffix (name : bytes) : bool := existsb (has_suffix name) zfsKoSuffixes.

Definition cpio_magic (m : bytes) : bool := beq m (bs "070701") || beq m (bs "070702").
Definition trailer : bytes := bs "TRAILER!!!".

(** One pass of the whole-buffer parser's loop; [fuel] bounds the passes (a
pass takes a 110-byte header). *)
Fixpoint parse_cpio (fuel : nat) (archive : bytes) (pos : Z) : outcome initrd_error (list cpioEntry) :=
  match fuel with
  | O => Err EFuel
  | S fuel =>
      if len archive <? pos + cpioHeaderSize then Err (ETruncated pos) else
      let! header := slice archive pos (pos + cpioHeaderSize) in
      let! magic := slice header 0 6 in
      if negb (cpio_magic magic) then Err (EMagic magic) else
      let! fs := slice header 54 62 in
      let! filesize := hex8 fs in
      let! ns := slice header 94 102 in
      let! namesize := hex8 ns in
      let nameStart := pos + cpioHeaderSize in
      let nameEnd := nameStart + namesize in
      if len archive <? nameEnd then Err (ETruncated nameStart) else
      let! nm := slice archive nameStart nameEnd in
      let name := trim_right nm [x00] in
      let dataStart := align4 nameEnd in
      let dataEnd := dataStart + filesize in
      if len archive <? dataEnd then Err (ETruncated dataStart) else
      if beq name trailer then Ok [] else
      let! data := slice archive dataStart dataEnd in
      let! entries := parse_cpio fuel archive (align4 dataEnd) in
      Ok (mkEntry name data :: entries)
  end.

Definition parseCPIO (archive : bytes) : outcome initrd_error (list cpioEntry) :=
  parse_cpio (S (length archive)) archive 0.

(** A computation with the lengths it passed to [make], in order. *)
Definition counted (A : Type) : Type := outcome initrd_error A * list Z.

Definition just {A} (c : outcome initrd_error A) : counted A := (c, []).

(** [make([]byte, n)]: a negative length panics. *)
Definition make (n : Z) : counted unit := if n <? 0 then (Panic, []) else (Ok tt, [n]).

Definition cbind {A B} (c : counted A) (k : A -> counted B) : counted B :=
  match c.1 with
  | Ok a => let r := k a in (r.1, c.2 ++ r.2)
  | Err e => (Err e, c.2)
  | Panic => (Panic, c.2)
  end.

Notation "'let+' x := c 'in' k" := (cbind c (fun x => k)) (at level 200, x name, c at level 100, k at level 200, right associativity).
Notation "'let+' ' p := c 'in' k" := (cbind c (fun x => match x with p => k end))
  (at level 200, p strict pattern, c at level 100, k at level 200, right associativity).

Lemma cbind_ok {A B} a (k : A -> counted B) : cbind (just (Ok a)) k = k a.
Proof. unfold cbind. cbn. by destruct (k a). Qed.

Lemma make_result {B} n (k : unit -> counted B) : 0 <= n -> (cbind (make n) k).1 = (k tt).1.
Proof. intros Hn. unfold make. by rewrite (proj2 (Z.ltb_ge _ _)). Qed.

Section decompressors.

(** [gzip.NewReader] and [xz.NewReader]: [None] when they refuse the header. *)
Context (gzip xz : bytes -> option reader).

Definition decompressReader (d : bytes) : outcome initrd_error reader :=
  if has_prefix d [x1f; x8b] then
    match gzip d with Some r => Ok r | None => Err EGzip end
  else if has_prefix d [xfd; x37; x7a; x58; x5a; x00] then
    match xz d with Some r => Ok r | None => Err EXz end
  else if has_prefix d [x28; xb5; x2f; xfd] then Err EZstd
  else Ok (mkReader d false).

Definition decompress (d : bytes) : outcome initrd_error bytes :=
  let! r := decompressReader d in readAllBounded r.

Fixpoint findZFSModule (entries : list cpioEntry) : outcome initrd_error bytes :=
  match entries with
  | [] => Err ENoZfsKo
  | e :: rest =>
      if matchesZFSKoSuffix (name e) then owrap (EDecompress (name e)) (decompress (data e))
      else findZFSModule rest
  end.

(** The streaming parser's loop, with the buffers it allocates. *)
Fixpoint stream_find (fuel : nat) (lr : limited) : counted bytes :=
  match fuel with
  | O => just (Err EFuel)
  | S fuel =>
      let+ ' (hdr, lr) := just (readFullBounded lr cpioHeaderSize) in
      let+ magic := just (slice hdr 0 6) in
      if negb (cpio_magic magic) then just (Err (EMagic magic)) else
      let+ fs := just (slice hdr 54 62) in
      let+ filesize := just (hex8 fs) in
      let+ ns := just (slice hdr 94 102) in
      let+ namesize := just (hex8 ns) in
      let+ _ := just (checkDeclaredSize namesize lr) in
      let+ _ := make namesize in
      let+ ' (nameBuf, lr) := just (readFullBounded lr namesize) in
      let name := trim_right nameBuf [x00] in
      let namePad := align4 (cpioHeaderSize + namesize) - (cpioHeaderSize + namesize) in
      let+ lr := just (if 0 <? namePad then discardBounded lr namePad else Ok lr) in
      if beq name trailer then just (Err ENoZfsKo) else
      if matchesZFSKoSuffix name then
        let+ _ := just (checkDeclaredSize filesize lr) in
        let+ _ := make filesize in
        let+ ' (data, _) := just (readFullBounded lr filesize) in
        just (owrap (EDecompress name) (decompress data))
      else
        let+ lr := just (discardBounded lr (align4 filesize)) in
        stream_find fuel lr
  end.

(** [streamFindZFSModule] with its allocations, and its result alone. *)
Definition stream_search (r : reader) : counted bytes :=
  let+ _ := make cpioHeaderSize in
  stream_find (S (length (rest r))) (mkLimited r (maxDecompressedSize + 1)).

Definition streamFindZFSModule (r : reader) : outcome initrd_error bytes := (stream_search r).1.

(** debug/elf's view of a file: not ELF, no section, unreadable, or content. *)
Inductive elf_section := NotElf | NoSection | BadSection | Section_ (d : bytes).
Context (modinfo : bytes -> elf_section).

Fixpoint version_field (fs : list bytes) : outcome initrd_error bytes :=
  match fs with
  | [] => Err ENoVersion
  | f :: rest =>
      match cut_prefix f (bs "version=") with Some v => Ok v | None => version_field rest end
  end.

Definition modinfoVersion (koData : bytes) : outcome initrd_error bytes :=
  match modinfo koData with
  | NotElf => Err EElf
  | NoSection => Err ENoModinfo
  | BadSection => Err EModinfo
  | Section_ d => version_field (split x00 d)
  end.

Definition ExtractOpenZFSVersionFromBytes (raw : bytes) : outcome initrd_error bytes :=
  let! r := decompressReader raw in
  let! koData := streamFindZFSModule r in
  modinfoVersion koData.

End decompressors.

(** ** Lemmas *)

Lemma align4_bounds n : 0 <= n -> n <= align4 n < n + 4 /\ align4 n mod 4 = 0.
Proof.
  intros Hn. unfold align4. rewrite Z.rem_mod_nonneg by lia.
  pose proof (Z.mod_pos_bound n 4 ltac:(lia)). destruct (n mod 4 =? 0) eqn:E; cbn [negb]; zb; [lia|].
  split; [lia|]. rewrite Z.add_mod, Zminus_mod by lia. rewrite Z.mod_mod, Z_mod_same_full by lia.
  rewrite <-Z.add_mod_idemp_r, Z.sub_0_l by lia.
  pose proof (Z.mod_pos_bound n 4 ltac:(lia)).
  assert (n mod 4 = 1 \/ n mod 4 = 2 \/ n mod 4 = 3) as [->|[->| ->]] by lia; done.
Qed.

Lemma align4_shift p n : p mod 4 = 0 -> 0 <= p -> 0 <= n -> align4 (p + n) = p + align4 n.
Proof.
  intros Hp H0 Hn. unfold align4. rewrite !Z.rem_mod_nonneg by lia.
  assert ((p + n) mod 4 = n mod 4) as -> by (rewrite Z.add_mod, Hp, Z.add_0_l, Z.mod_mod by lia; done).
  destruct (negb _); lia.
Qed.

Lemma hex_from_nonneg s acc v : 0 <= acc -> hex_from acc s = Some v -> 0 <= v.
Proof.
  revert acc. induction s as [|b s IH]; cbn; intros acc Ha H; [by injection H as <-|].
  destruct (hex_val b) as [x|] eqn:E; [|done]. apply IH in H; [done|].
  unfold hex_val, is_digit, in_range in E. repeat case_match; simplify_eq; zb; lia.
Qed.

Lemma hex8_range b v : hex8 b = Ok v -> 0 <= v < 2 ^ 32.
Proof.
  unfold hex8, parse_hex. destruct b as [|c b]; [done|].
  destruct (hex_from 0 (c :: b)) as [x|] eqn:E; [|done]. apply hex_from_nonneg in E; [|lia].
  destruct (x <? 2 ^ 32) eqn:Ex; [|done]. zb. intros [= <-]. lia.
Qed.

(** The stream positioned at offset [p] of an archive. *)
Definition at_pos (archive : bytes) (p : Z) : limited :=
  mkLimited (mkReader (drop (Z.to_nat p) archive) false) (maxDecompressedSize + 1 - p).

Section positions.
Context (archive : bytes) (Hmax : len archive <= maxDecompressedSize).

Lemma readFull_at p n :
  0 <= p -> 0 <= n -> p + n <= len archive ->
  readFullBounded (at_pos archive p) n = Ok (sub archive p n, at_pos archive (p + n)).
Proof.
  intros Hp Hn Hl. unfold readFullBounded, at_pos. cbn [src budget rest broken].
  rewrite len_drop by lia. rewrite (proj2 (Z.leb_le _ _)) by lia.
  rewrite sub_drop by lia. rewrite Z.add_0_r, drop_drop.
  replace (Z.to_nat p + Z.to_nat n)%nat with (Z.to_nat (p + n)) by lia.
  by replace (maxDecompressedSize + 1 - p - n) with (maxDecompressedSize + 1 - (p + n)) by lia.
Qed.

Lemma discard_at p n :
  0 <= p -> 0 <= n -> p + n <= len archive ->
  discardBounded (at_pos archive p) n = Ok (at_pos archive (p + n)).
Proof.
  intros Hp Hn Hl. unfold discardBounded, at_pos. cbn [src budget rest broken].
  rewrite len_drop by lia. rewrite (proj2 (Z.leb_le _ _)) by lia.
  rewrite drop_drop. replace (Z.to_nat p + Z.to_nat n)%nat with (Z.to_nat (p + n)) by lia.
  by replace (maxDecompressedSize + 1 - p - n) with (maxDecompressedSize + 1 - (p + n)) by lia.
Qed.

Lemma declared_at p n : 0 <= p -> p + n <= len archive -> checkDeclaredSize n (at_pos archive p) = Ok tt.
Proof.
  intros Hp Hl. unfold checkDeclaredSize, at_pos. cbn [budget]. by rewrite (proj2 (Z.ltb_ge _ _)) by lia.
Qed.

Lemma pad_at p n :
  0 <= p -> p mod 4 = 0 -> 0 <= n -> align4 (p + (cpioHeaderSize + n)) <= len archive ->
  let pad := align4 (cpioHeaderSize + n) - (cpioHeaderSize + n) in
  (if 0 <? pad then discardBounded (at_pos archive (p + (cpioHeaderSize + n))) pad
   else Ok (at_pos archive (p + (cpioHeaderSize + n)))) = Ok (at_pos archive (align4 (p + (cpioHeaderSize + n)))).
Proof.
  intros Hp Hm Hn Hl pad. unfold cpioHeaderSize in *.
  destruct (align4_bounds (110 + n)) as [Hb _]; [lia|].
  rewrite align4_shift in * by lia.
  destruct (0 <? pad) eqn:E; zb; subst pad.
  - rewrite discard_at by lia. do 2 f_equal. lia.
  - do 2 f_equal. lia.
Qed.

End positions.

(** ** The streaming parser against the whole-buffer one *)

Section agreement.
Context (gzip xz : bytes -> option reader).

(** Fields of a 110-byte header are in range. *)
Lemma header_slice {E} (hdr : bytes) lo hi :
  len hdr = cpioHeaderSize -> 0 <= lo -> lo <= hi -> hi <= 110 -> slice (E:=E) hdr lo hi = Ok (sub hdr lo (hi - lo)).
Proof. intros Hl. unfold cpioHeaderSize in Hl. intros. by apply slice_ok; lia. Qed.

Lemma stream_agrees archive (Hmax : len archive <= maxDecompressedSize) fuel fuel' pos es :
  0 <= pos -> pos mod 4 = 0 -> (fuel <= fuel')%nat ->
  parse_cpio fuel archive pos = Ok es ->
  (stream_find gzip xz fuel' (at_pos archive pos)).1 = findZFSModule gzip xz es.
Proof.
  revert fuel' pos es. induction fuel as [|fuel IH]; intros fuel' pos es Hp Hm Hf H; [done|].
  destruct fuel' as [|fuel']; [lia|]. cbn [parse_cpio] in H. cbn [stream_find].
  destruct (len archive <? pos + cpioHeaderSize) eqn:E1; [done|]. zb.
  rewrite readFull_at by (unfold cpioHeaderSize in *; lia). rewrite cbind_ok.
  rewrite slice_ok in H by (unfold cpioHeaderSize in *; lia). cbn [obind] in H.
  replace (pos + cpioHeaderSize - pos) with cpioHeaderSize in H by lia.
  assert (len (sub archive pos cpioHeaderSize) = cpioHeaderSize) as Hh by (apply len_sub; unfold cpioHeaderSize in *; lia).
  set (hdr := sub archive pos cpioHeaderSize) in *. clearbody hdr.
  rewrite !(header_slice hdr) in H by (done || lia). rewrite !(header_slice hdr) by (done || lia).
  cbn [obind] in H. rewrite !cbind_ok. destruct (negb (cpio_magic _)); [done|].
  destruct (hex8 (sub hdr 54 _)) as [filesize| |] eqn:Ef; cbn [obind] in H; [|done..]. rewrite !cbind_ok.
  destruct (hex8 (sub hdr 94 _)) as [namesize| |] eqn:En; cbn [obind] in H; [|done..]. rewrite !cbind_ok.
  apply hex8_range in Ef, En.
  destruct (len archive <? pos + cpioHeaderSize + namesize) eqn:E2; [done|]. zb.
  rewrite slice_ok in H by (unfold cpioHeaderSize in *; lia). cbn [obind] in H.
  replace (pos + cpioHeaderSize + namesize - (pos + cpioHeaderSize)) with namesize in H by lia.
  rewrite (declared_at archive Hmax) by (unfold cpioHeaderSize in *; lia). rewrite cbind_ok, make_result by lia.
  rewrite readFull_at by (unfold cpioHeaderSize in *; lia). rewrite cbind_ok.
  set (nm := trim_right (sub archive (pos + cpioHeaderSize) namesize) [x00]) in *. clearbody nm.
  rewrite <-Z.add_assoc in *.
  destruct (len archive <? align4 (pos + (cpioHeaderSize + namesize)) + filesize) eqn:E3; [done|]. zb.
  destruct (align4_bounds (pos + (cpioHeaderSize + namesize))) as [Ha Ham]; [unfold cpioHeaderSize in *; lia|].
  rewrite (pad_at archive Hmax) by lia. rewrite cbind_ok.
  set (ds := align4 (pos + (cpioHeaderSize + namesize))) in *. clearbody ds.
  destruct (beq nm trailer); [by injection H as <-|].
  rewrite slice_ok in H by (unfold cpioHeaderSize in *; lia). cbn [obind] in H.
  replace (ds + filesize - ds) with filesize in H by lia.
  destruct (parse_cpio fuel archive (align4 (ds + filesize))) as [es'| |] eqn:Ep; cbn [obind] in H; [|done..].
  injection H as <-. cbn [findZFSModule name data].
  destruct (matchesZFSKoSuffix nm).
  - rewrite (declared_at archive Hmax) by (unfold cpioHeaderSize in *; lia). rewrite cbind_ok, make_result by lia.
    rewrite readFull_at by (unfold cpioHeaderSize in *; lia). by rewrite cbind_ok.
  - assert (align4 (ds + filesize) + 110 <= len archive) as Hnext.
    { destruct fuel; [done|]. cbn [parse_cpio] in Ep. unfold cpioHeaderSize in Ep.
      destruct (len archive <? _) eqn:E4; [done|]. zb. lia. }
    destruct (align4_bounds filesize) as [Hf4 _]; [lia|].
    destruct (align4_bounds (ds + filesize)) as [_ Hm4]; [unfold cpioHeaderSize in *; lia|].
    rewrite align4_shift in * by (unfold cpioHeaderSize in *; lia).
    rewrite (discard_at archive Hmax) by (unfold cpioHeaderSize in *; lia). rewrite cbind_ok.
    apply IH; [unfold cpioHeaderSize in *; lia|done|lia|done].
Qed.

(** C37 - The streaming parser agrees with the reference parser: on every archive
that the whole-buffer parser accepts and that fits the decompression bound,
looking for zfs.ko in the stream gives exactly what looking through the parsed
entries gives, the module's bytes or the error. (On an archive that is cut after
the module the two differ: the stream is not read past the match.) *)
Theorem streamFindZFSModule_agrees archive es :
  parseCPIO archive = Ok es -> len archive <= maxDecompressedSize ->
  streamFindZFSModule gzip xz (mkReader archive false) = findZFSModule gzip xz es.
Proof.
  intros H Hmax. unfold streamFindZFSModule, stream_search. rewrite make_result by done. cbn [rest].
  assert (mkLimited (mkReader archive false) (maxDecompressedSize + 1) = at_pos archive 0) as ->.
  { unfold at_pos. by rewrite Z.sub_0_r. }
  by eapply stream_agrees.
Qed.

Lemma readFull_inv lr n b lr' :
  0 <= n -> readFullBounded lr n = Ok (b, lr') ->
  len b = n /\ rest (src lr') = drop (Z.to_nat n) (rest (src lr)) /\ n <= len (rest (src lr)) /\ budget lr' <= budget lr.
Proof.
  intros Hn. unfold readFullBounded. destruct (n <=? _) eqn:E; [|by destruct (_ <=? 0)]. zb.
  intros [= <- <-]. split_and!; [apply len_sub; lia|done|lia|cbn; lia].
Qed.

Lemma discard_inv lr n lr' :
  0 <= n -> discardBounded lr n = Ok lr' -> rest (src lr') = drop (Z.to_nat n) (rest (src lr)) /\ budget lr' <= budget lr.
Proof. intros Hn. unfold discardBounded. destruct (n <=? _); [|by destruct (_ <=? 0)]. intros [= <-]. cbn. split; [done|lia]. Qed.

Lemma readAll_bound r out : readAllBounded r = Ok out -> len out <= maxDecompressedSize.
Proof.
  unfold readAllBounded. destruct (_ <? _) eqn:E; [done|]. destruct (broken r); [done|]. zb. by intros [= <-].
Qed.

Lemma decompress_bound d out : decompress gzip xz d = Ok out -> len out <= maxDecompressedSize.
Proof. unfold decompress. intros (r & _ & H)%obind_ok_inv. by eapply readAll_bound. Qed.

Lemma readFull_safe lr n : safe (readFullBounded lr n).
Proof. unfold readFullBounded. by repeat (apply safe_if; intros _). Qed.

Lemma discard_safe lr n : safe (discardBounded lr n).
Proof. unfold discardBounded. by repeat (apply safe_if; intros _). Qed.

Lemma decompress_safe d : safe (decompress gzip xz d).
Proof.
  unfold decompress, decompressReader. apply obind_safe.
  - repeat case_match; done.
  - intros r _. unfold readAllBounded. by repeat (apply safe_if; intros _).
Qed.

Lemma hex8_safe b : safe (hex8 b).
Proof. unfold hex8. by destruct (parse_hex b 32). Qed.

(** A search that is over: a module within the bound, or a real error, and no
buffer allocated on the way exceeds the decompression budget. *)
Definition settled (c : counted bytes) : Prop :=
  match c.1 with
  | Ok ko => len ko <= maxDecompressedSize
  | Err e => e <> EFuel
  | Panic => False
  end /\ Forall (fun n => 0 <= n <= maxDecompressedSize + 1) c.2.

Lemma settled_err e : e <> EFuel -> settled (just (Err e)).
Proof. by split. Qed.

Lemma settled_bind {A} (c : outcome initrd_error A) k :
  safe c -> c <> Err EFuel -> (forall a, c = Ok a -> settled (k a)) -> settled (cbind (just c) k).
Proof.
  intros Hs He Hk. destruct c as [a|e|]; [rewrite cbind_ok; by apply Hk|split; [cbn; congruence|done]|by destruct Hs].
Qed.

Lemma settled_make n k : 0 <= n <= maxDecompressedSize + 1 -> settled (k tt) -> settled (cbind (make n) k).
Proof.
  intros Hn [Hr Hl]. unfold make. rewrite (proj2 (Z.ltb_ge _ _)) by lia. split; [done|]. by apply List.Forall_cons.
Qed.

Lemma declared_ok n lr u : checkDeclaredSize n lr = Ok u -> n <= budget lr.
Proof. unfold checkDeclaredSize. destruct (_ <? _) eqn:E; [done|]. zb. done. Qed.

Lemma readFull_fuel lr n : readFullBounded lr n <> Err EFuel.
Proof. unfold readFullBounded. destruct (n <=? _); [done|]. by destruct (_ <=? 0). Qed.

Lemma discard_fuel lr n : discardBounded lr n <> Err EFuel.
Proof. unfold discardBounded. destruct (n <=? _); [done|]. by destruct (_ <=? 0). Qed.

Lemma declared_settles n lr : safe (checkDeclaredSize n lr) /\ checkDeclaredSize n lr <> Err EFuel.
Proof. unfold checkDeclaredSize. by destruct (_ <? _). Qed.

Lemma hex8_fuel b : hex8 b <> Err EFuel.
Proof. unfold hex8. by destruct (parse_hex b 32). Qed.

Lemma stream_find_settled fuel lr :
  (length (rest (src lr)) < fuel)%nat -> budget lr <= maxDecompressedSize + 1 -> settled (stream_find gzip xz fuel lr).
Proof.
  revert lr. induction fuel as [|fuel IH]; intros lr Hf Hb; [lia|]. cbn [stream_find].
  apply settled_bind; [apply readFull_safe|apply readFull_fuel|]. intros [hdr lr1] H1.
  apply readFull_inv in H1 as (Hh & Hr1 & Hl1 & Hb1); [|done]. unfold cpioHeaderSize in Hl1.
  rewrite !(header_slice hdr) by (done || lia). rewrite !cbind_ok.
  destruct (negb (cpio_magic _)); [by apply settled_err|].
  apply settled_bind; [apply hex8_safe|apply hex8_fuel|]. intros filesize Hfs. apply hex8_range in Hfs. rewrite cbind_ok.
  apply settled_bind; [apply hex8_safe|apply hex8_fuel|]. intros namesize Hns. apply hex8_range in Hns.
  apply settled_bind; [apply declared_settles|apply declared_settles|]. intros _ Hd%declared_ok.
  apply settled_make; [lia|].
  apply settled_bind; [apply readFull_safe|apply readFull_fuel|]. intros [nameBuf lr2] H2.
  apply readFull_inv in H2 as (_ & Hr2 & _ & Hb2); [|lia].
  apply settled_bind; [destruct (0 <? _); [apply discard_safe|done]|destruct (0 <? _); [apply discard_fuel|done]|].
  intros lr3 H3.
  assert ((length (rest (src lr3)) <= length (rest (src lr2)))%nat /\ budget lr3 <= budget lr2) as [Hr3 Hb3].
  { destruct (0 <? _) eqn:E; [zb|by injection H3 as <-]. apply discard_inv in H3 as [-> ?]; [|lia]. rewrite length_drop. lia. }
  destruct (beq _ trailer); [by apply settled_err|]. destruct (matchesZFSKoSuffix _).
  - apply settled_bind; [apply declared_settles|apply declared_settles|]. intros _ Hd2%declared_ok.
    apply settled_make; [lia|].
    apply settled_bind; [apply readFull_safe|apply readFull_fuel|]. intros [d lr4] _.
    pose proof (decompress_safe d). destruct (decompress gzip xz d) eqn:E; (split; [|done]); cbn; [by eapply decompress_bound|done|done].
  - apply settled_bind; [apply discard_safe|apply discard_fuel|].
    destruct (align4_bounds filesize) as [Ha _]; [lia|]. intros lr4 H4. apply discard_inv in H4 as [H4 Hb4]; [|lia].
    apply IH; [|lia]. rewrite H4, length_drop. rewrite Hr2, Hr1, !length_drop in Hr3. unfold len in Hl1. change (Z.to_nat cpioHeaderSize) with 110%nat in Hr3. lia.
Qed.

Lemma stream_search_settled r : settled (stream_search gzip xz r).
Proof. apply settled_make; [done|]. apply stream_find_settled; cbn; lia. Qed.

(** C38 - The search of a stream always ends in a verdict, within the memory
bound: whatever the decompressor delivers and whatever sizes the headers
declare, it never panics, never loops for ever (the fuel, one more than the
stream's length, is not used up), every buffer it allocates on the way is at
most the decompression budget (512 MiB and a byte), and a module it returns is
within the decompression bound. *)
Theorem streamFindZFSModule_settles r :
  settled (stream_search gzip xz r) /\ streamFindZFSModule gzip xz r = (stream_search gzip xz r).1.
Proof. split; [apply stream_search_settled|done]. Qed.

Lemma ExtractOpenZFS_safe modinfo raw : safe (ExtractOpenZFSVersionFromBytes gzip xz modinfo raw).
Proof.
  unfold ExtractOpenZFSVersionFromBytes. apply obind_safe; [unfold decompressReader; repeat case_match; done|].
  intros r _. apply obind_safe.
  - destruct (stream_search_settled r) as [H _]. unfold streamFindZFSModule. by destruct (stream_search gzip xz r).1.
  - intros ko _. unfold modinfoVersion. destruct (modinfo ko) as [| | |d]; try done.
    induction (split x00 d) as [|f fs IH]; cbn [version_field]; [done|]. by case_match.
Qed.

End agreement.

(** A two-file archive whose second file is the module. *)
Definition cpio_header (filesize namesize : Z) : bytes :=
  let hex4 (z : Z) := hex_encode (be_put 4 z) in
  bs "070701" ++ replicate 48 x30 ++ hex4 filesize ++ replicate 32 x30 ++ hex4 namesize ++ replicate 8 x30.

Definition pad4 (b : bytes) : bytes := b ++ zeros (align4 (len b) - len b).

Definition cpio_file (nm d : bytes) : bytes :=
  pad4 (cpio_header (len d) (len nm + 1) ++ nm ++ [x00]) ++ pad4 d.

Definition sample_archive : bytes :=
  cpio_file (bs "init") (bs "#!") ++ cpio_file (bs "lib/zfs.ko") (bs "module") ++ cpio_file trailer [].

Lemma streamFindZFSModule_agrees_witness :
  streamFindZFSModule (fun _ => None) (fun _ => None) (mkReader sample_archive false) = Ok (bs "module").
Proof.
  rewrite (streamFindZFSModule_agrees (fun _ => None) (fun _ => None) sample_archive
    [mkEntry (bs "init") (bs "#!"); mkEntry (bs "lib/zfs.ko") (bs "module")]).
  - vm_compute. reflexivity.
  - vm_compute. reflexivity.
  - vm_compute. discriminate.
Defined.

(** A header that declares a name of 4 GiB is refused before anything is
allocated for it. *)
Example stream_search_hostile :
  stream_search (fun _ => None) (fun _ => None) (mkReader (cpio_header 0 (2 ^ 32 - 1)) false)
  = (Err (EDeclared (2 ^ 32 - 1)), [cpioHeaderSize]).
Proof. vm_compute. reflexivity. Qed.

(** The archive cut after the module: the stream finds it, the whole-buffer
parser does not accept the archive. *)
Example stream_search_cut :
  let cut := cpio_file (bs "lib/zfs.ko") (bs "module") in
  streamFindZFSModule (fun _ => None) (fun _ => None) (mkReader cut false) = Ok (bs "module") /\
  parseCPIO cut = Err (ETruncated (len cut)).
Proof. split; vm_compute; reflexivity. Qed.
