(* ===== verification/Metadata.v ===== *)
(** * internal/metadata: the build manifest

EFI/ALPINE/metadata: one key=value per line. Its encoder, its strict decoder,
the hash helpers, and cmd/tool's [deepMetadataFor], [checkMetadataEncodable]
and [tryReadMetadata] on top of it. *)

From Stdlib Require Import ZArith Lia Strings.Byte.
From stdpp Require Import base list gmap.
From S2P Require Import Prelude GoStrings Layout World Sha256 KernelInfo InitrdInfo.
Local Open Scope Z_scope.

Definition Format : Z := 1.

Record Manifest := mkManifest {
  Version : bytes;
  BuildStamp : bytes;
  Arch : bytes;
  Kernel : bytes;
  OpenZFS : bytes;
  KernelSHA256 : bytes;
  InitrdSHA256 : bytes
}.

Definition requiredFields : list bytes :=
  [bs "version"; bs "buildstamp"; bs "arch"; bs "kernel"; bs "openzfs"; bs "kernel_sha256"; bs "initrd_sha256"].

Definition knownFields : list bytes := bs "format" :: requiredFields.

Definition sha256HexPattern (s : bytes) : bool := match_classes (replicate 64 is_lower_hex) s.

Inductive metadata_error :=
| ETrailing (i : nat) | EMalformed (line : bytes) | EUnknownField (k : bytes) | EDuplicate (k : bytes)
| ENoFormat | EFormatNumber (s : bytes) | EFormatVersion (n : Z) | EMissingFields (ks : list bytes)
| EHash (k : bytes).

Definition Encode (m : Manifest) : bytes :=
  bs "format=" ++ itoa Format ++ [x0a]
  ++ bs "version=" ++ Version m ++ [x0a]
  ++ bs "buildstamp=" ++ BuildStamp m ++ [x0a]
  ++ bs "arch=" ++ Arch m ++ [x0a]
  ++ bs "kernel=" ++ Kernel m ++ [x0a]
  ++ bs "openzfs=" ++ OpenZFS m ++ [x0a]
  ++ bs "kernel_sha256=" ++ KernelSHA256 m ++ [x0a]
  ++ bs "initrd_sha256=" ++ InitrdSHA256 m ++ [x0a].

Definition indexNUL (b : bytes) : option nat := index_byte b x00.

(** The text before the NUL padding. *)
Definition strip_padding (raw : bytes) : outcome metadata_error bytes :=
  match indexNUL raw with
  | None => Ok raw
  | Some i => if forallb (is_byte x00) (drop i raw) then Ok (take i raw) else Err (ETrailing i)
  end.

Fixpoint collect (lines : list bytes) (fields : gmap bytes bytes) : outcome metadata_error (gmap bytes bytes) :=
  match lines with
  | [] => Ok fields
  | line :: rest =>
      let line := trim_space line in
      if beq line [] then collect rest fields else
      match cut line x3d with
      | None => Err (EMalformed line)
      | Some (k, v) =>
          if negb (bool_decide (k ∈ knownFields)) then Err (EUnknownField k) else
          match fields !! k with
          | Some _ => Err (EDuplicate k)
          | None => collect rest (<[k := v]> fields)
          end
      end
  end.

(** [fields[k]]: the empty string when absent. *)
Definition get (fields : gmap bytes bytes) (k : bytes) : bytes := default [] (fields !! k).

Definition Decode (raw : bytes) : outcome metadata_error Manifest :=
  let! text := strip_padding raw in
  let! fields := collect (split x0a (trim_right text [x0a])) ∅ in
  match fields !! bs "format" with
  | None => Err ENoFormat
  | Some formatStr =>
      match atoi formatStr with
      | None => Err (EFormatNumber formatStr)
      | Some format =>
          if negb (format =? Format) then Err (EFormatVersion format) else
          let missing := List.filter (fun k => beq (get fields k) []) requiredFields in
          if negb (bool_decide (missing = [])) then Err (EMissingFields missing) else
          if negb (sha256HexPattern (get fields (bs "kernel_sha256"))) then Err (EHash (bs "kernel_sha256")) else
          if negb (sha256HexPattern (get fields (bs "initrd_sha256"))) then Err (EHash (bs "initrd_sha256")) else
          Ok (mkManifest (get fields (bs "version")) (get fields (bs "buildstamp")) (get fields (bs "arch"))
                (get fields (bs "kernel")) (get fields (bs "openzfs")) (get fields (bs "kernel_sha256"))
                (get fields (bs "initrd_sha256")))
      end
  end.

Definition SHA256Hex (d : bytes) : bytes := hex_encode (Sum256 d).
Definition VerifyHash (d want : bytes) : bool := beq (SHA256Hex d) (to_lower want).

(** ** cmd/tool *)

Inductive deep_error := EKernelVersion (e : kernel_error) | EOpenZFSVersion (e : initrd_error).

Section deep.
Context (kgzip : bytes -> option (bytes * bool)) (gzip xz : bytes -> option reader) (modinfo : bytes -> elf_section).

Definition deepMetadataFor (arch version buildStamp kernelBytes initrdBytes : bytes) : outcome deep_error Manifest :=
  let! kv := owrap EKernelVersion (VersionFromImage kgzip kernelBytes) in
  let! zv := owrap EOpenZFSVersion (ExtractOpenZFSVersionFromBytes gzip xz modinfo initrdBytes) in
  Ok (mkManifest version buildStamp arch kv zv (SHA256Hex kernelBytes) (SHA256Hex initrdBytes)).

End deep.

(** Encode, and refuse what would not decode. *)
Definition checkMetadataEncodable (m : Manifest) : outcome metadata_error bytes :=
  let enc := Encode m in
  let! _ := Decode enc in
  Ok enc.

Section files.
Context {O : Oracle}.

Inductive metadata_file := MAbsent | MPresent (m : Manifest) | MBroken (e : metadata_error) | MUnreadable (e : ioerr).

Definition tryReadMetadata (mountpoint : bytes) : io metadata_file :=
  do r := attempt (readFile mountpoint MetadataFile) in
  match r with
  | Err ENotExist => ret MAbsent
  | Err e => ret (MUnreadable e)
  | Panic => lift Panic
  | Ok raw =>
      match Decode raw with
      | Ok m => ret (MPresent m)
      | Err e => ret (MBroken e)
      | Panic => lift Panic
      end
  end.

End files.

(** ** Lemmas *)

Lemma index_byte_None s c : c ∉ s -> index_byte s c = None.
Proof.
  induction s as [|b s IH]; cbn; [done|]. intros [Hb Hs]%not_elem_of_cons.
  rewrite decide_False by congruence. by rewrite IH.
Qed.

(** Plain text in front of a value keeps [TrimSpace] away from it. *)
Lemma trim_space_keyed k v :
  forallb plain_byte k = true -> k <> [] -> trim_space_right v = v -> trim_space (k ++ v) = k ++ v.
Proof.
  intros Hk Hne Hv. unfold trim_space.
  assert (trim_space_left O (k ++ v) = k ++ v) as ->.
  { destruct k as [|b k]; [done|]. cbn [forallb] in Hk. apply andb_true_iff in Hk as [Hb _].
    cbn [app trim_space_left]. rewrite (space_len_plain b (k ++ v)); done. }
  clear Hne. induction k as [|b k IH]; [done|]. cbn [forallb] in Hk. apply andb_true_iff in Hk as [Hb Hk].
  cbn [app trim_space_right all_space]. rewrite (space_len_plain b (k ++ v)) by done. by rewrite IH.
Qed.

Lemma trim_right_newline b c : c <> x0a -> trim_right ((b ++ [c]) ++ [x0a]) [x0a] = b ++ [c].
Proof.
  intros Hc. unfold trim_right. rewrite !rev_app_distr. cbn [rev app trim_left].
  rewrite decide_True by apply list_elem_of_here. rewrite decide_False by (intros ->%list_elem_of_singleton; done).
  cbn [rev]. by rewrite rev_involutive.
Qed.

Lemma lines_join (c : byte) ls : ls <> [] -> (ls ≫= fun l => l ++ [c]) = join [c] ls ++ [c].
Proof.
  induction ls as [|l ls IH]; [done|]. intros _. destruct ls as [|l' ls]; [cbn; by rewrite app_nil_r|].
  rewrite join_cons by done. change ((l :: l' :: ls) ≫= fun l => l ++ [c]) with ((l ++ [c]) ++ ((l' :: ls) ≫= fun l => l ++ [c])).
  rewrite IH by done. by rewrite !app_assoc.
Qed.

Definition kv (p : bytes * bytes) : bytes := p.1 ++ [x3d] ++ p.2.

(** A value that survives a line: no NUL or newline in it, no space after it. *)
Definition wf_value (v : bytes) : Prop := v <> [] /\ x00 ∉ v /\ x0a ∉ v /\ trim_space_right v = v.

Definition wf_Manifest (m : Manifest) : Prop :=
  wf_value (Version m) /\ wf_value (BuildStamp m) /\ wf_value (Arch m) /\ wf_value (Kernel m) /\
  wf_value (OpenZFS m) /\ sha256HexPattern (KernelSHA256 m) = true /\ sha256HexPattern (InitrdSHA256 m) = true.

Definition wf_pair (p : bytes * bytes) : Prop :=
  p.1 ∈ knownFields /\ wf_value p.2.

Lemma known_plain k : k ∈ knownFields -> forallb plain_byte k = true /\ x3d ∉ k /\ k <> [] /\ x00 ∉ k /\ x0a ∉ k.
Proof.
  unfold knownFields, requiredFields. rewrite !elem_of_cons, elem_of_nil.
  intros H. repeat (destruct H as [->|H]; [split_and!; (vm_compute; reflexivity) || (apply (bool_decide_unpack _); vm_compute; exact I) |]). done.
Qed.

Definition fill (ps : list (bytes * bytes)) (fields : gmap bytes bytes) : gmap bytes bytes :=
  fold_left (fun f p => <[p.1 := p.2]> f) ps fields.

Lemma collect_pairs ps fields :
  Forall wf_pair ps -> NoDup ps.*1 -> (forall p, p ∈ ps -> fields !! p.1 = None) ->
  collect (kv <$> ps) fields = Ok (fill ps fields).
Proof.
  intros Hw. revert fields. induction Hw as [|[k v] ps [Hk Hv] Hw IH]; intros fields Hnd Hf; [done|].
  cbn [fmap list_fmap collect fst snd] in *. apply NoDup_cons in Hnd as [Hn Hnd].
  destruct (known_plain k Hk) as (Hp & Heq & Hne & _). destruct Hv as (_ & _ & _ & Ht).
  unfold kv at 1 2 3. cbn [fst snd].
  assert (trim_space (k ++ [x3d] ++ v) = k ++ [x3d] ++ v) as Htr.
  { rewrite app_assoc. apply trim_space_keyed; [|by destruct k|done]. by rewrite forallb_app, Hp. }
  rewrite Htr. assert (beq (k ++ [x3d] ++ v) [] = false) as -> by (apply beq_false; by destruct k).
  change ([x3d] ++ v) with (x3d :: v). rewrite cut_app by done.
  rewrite bool_decide_eq_true_2 by done. cbn [negb].
  assert (fields !! k = None) as -> by (apply (Hf (k, v)), list_elem_of_here). apply IH; [done|].
  intros p Hin. rewrite lookup_insert_ne; [apply Hf; by right|].
  intros ->. apply Hn. apply list_elem_of_fmap. by exists p.
Qed.

Lemma fill_other ps fields k : k ∉ ps.*1 -> fill ps fields !! k = fields !! k.
Proof.
  revert fields. induction ps as [|p ps IH]; intros fields H; [done|]. cbn in *.
  apply not_elem_of_cons in H as [Hk H]. rewrite IH by done. by rewrite lookup_insert_ne.
Qed.

Lemma fill_lookup ps fields k v : NoDup ps.*1 -> (k, v) ∈ ps -> fill ps fields !! k = Some v.
Proof.
  revert fields. induction ps as [|p ps IH]; intros fields Hnd H; [by apply not_elem_of_nil in H|].
  cbn in *. apply NoDup_cons in Hnd as [Hn Hnd]. apply elem_of_cons in H as [<-|H]; [|by apply IH].
  cbn in *. rewrite fill_other by done. apply lookup_insert_eq.
Qed.

Definition manifest_pairs (m : Manifest) : list (bytes * bytes) :=
  [(bs "format", itoa Format); (bs "version", Version m); (bs "buildstamp", BuildStamp m); (bs "arch", Arch m);
   (bs "kernel", Kernel m); (bs "openzfs", OpenZFS m); (bs "kernel_sha256", KernelSHA256 m);
   (bs "initrd_sha256", InitrdSHA256 m)].

Lemma Encode_lines m : Encode m = (kv <$> manifest_pairs m) ≫= fun l => l ++ [x0a].
Proof. unfold Encode, manifest_pairs, kv. cbn. by repeat rewrite <-app_assoc. Qed.

Lemma trim_space_right_plain v : forallb plain_byte v = true -> trim_space_right v = v.
Proof.
  induction v as [|b v IH]; [done|]. cbn [forallb]. intros [Hb Hv]%andb_true_iff.
  cbn [trim_space_right all_space]. rewrite space_len_plain by done. by rewrite IH.
Qed.

Lemma sha256_value v : sha256HexPattern v = true -> wf_value v.
Proof.
  intros H. unfold sha256HexPattern in H. apply match_classes_replicate in H as [Hl H].
  split_and!; [by destruct v| | |].
  - by apply (forallb_not_elem is_lower_hex).
  - by apply (forallb_not_elem is_lower_hex).
  - apply trim_space_right_plain. revert H. apply forallb_impl. by intros [].
Qed.

Lemma manifest_pairs_wf m : wf_Manifest m -> Forall wf_pair (manifest_pairs m).
Proof.
  intros (H1 & H2 & H3 & H4 & H5 & H6%sha256_value & H7%sha256_value).
  assert (wf_value (itoa Format)).
  { split_and!; [done| | |vm_compute; reflexivity]; change (itoa Format) with [x31];
      by intros ?%list_elem_of_singleton. }
  assert (forall k v, bool_decide (k ∈ knownFields) = true -> wf_value v -> wf_pair (k, v)) as Hp.
  { intros k v Hk Hv. split; [by apply bool_decide_eq_true in Hk|done]. }
  unfold manifest_pairs. repeat apply Forall_cons_2; try apply Forall_nil_2; (apply Hp; [vm_compute; reflexivity|done]).
Qed.

Lemma kv_clean p c : wf_pair p -> c ∈ [x00; x0a] -> c ∉ kv p.
Proof.
  intros [Hk (_ & H0 & Ha & _)] Hc. destruct (known_plain _ Hk) as (_ & _ & _ & Hk0 & Hka).
  unfold kv. rewrite !not_elem_of_app, list_elem_of_singleton.
  apply elem_of_cons in Hc as [->|Hc]; [|apply list_elem_of_singleton in Hc as ->]; split_and!; done.
Qed.

Lemma join_snoc (c : byte) ls l : exists b, join [c] (ls ++ [l]) = b ++ l.
Proof.
  induction ls as [|x ls [b IH]]; [by exists []|]. exists (x ++ [c] ++ b).
  change ((x :: ls) ++ [l]) with (x :: (ls ++ [l])). rewrite join_cons by (by destruct ls).
  rewrite IH. by rewrite !app_assoc.
Qed.

(** The text does not end in a newline of its own. *)
Lemma manifest_last m :
  wf_Manifest m -> exists b c, join [x0a] (kv <$> manifest_pairs m) = b ++ [c] /\ c <> x0a.
Proof.
  intros (_ & _ & _ & _ & _ & _ & H7%sha256_value). destruct H7 as (Hne & _ & Hn & _).
  destruct (exists_last Hne) as (v & c & Hv). rewrite Hv in Hn.
  destruct (join_snoc x0a (kv <$> take 7 (manifest_pairs m)) (kv (bs "initrd_sha256", InitrdSHA256 m))) as [b Hb].
  exists (b ++ bs "initrd_sha256" ++ [x3d] ++ v), c. split.
  - rewrite <-!app_assoc, <-Hv. exact Hb.
  - intros ->. apply Hn, elem_of_app. right. by apply list_elem_of_singleton.
Qed.

(** The fields of a text made of well-formed pairs. *)
Lemma Decode_fields m :
  wf_Manifest m ->
  (let! text := strip_padding (Encode m) in collect (split x0a (trim_right text [x0a])) ∅)
  = Ok (fill (manifest_pairs m) ∅) /\ NoDup (manifest_pairs m).*1.
Proof.
  intros Hm. pose proof (manifest_pairs_wf m Hm) as Hw.
  assert (NoDup (manifest_pairs m).*1) as Hnd by (apply (bool_decide_unpack _); vm_compute; exact I).
  split; [|done]. unfold strip_padding, indexNUL. rewrite Encode_lines.
  rewrite index_byte_None.
  2: { intros (l & Hin & Hl)%list_elem_of_bind. apply list_elem_of_fmap in Hl as (p & -> & Hp).
       rewrite Forall_forall in Hw. apply elem_of_app in Hin as [Hin|Hin]; [|by apply list_elem_of_singleton in Hin].
       revert Hin. apply kv_clean; [by apply Hw|]. by left. }
  cbn [obind]. rewrite lines_join by done.
  destruct (manifest_last m Hm) as (b & c & Hb & Hc).
  rewrite Hb, trim_right_newline by done. rewrite <-Hb.
  rewrite split_join; [|done|].
  2: { apply Forall_fmap, (Forall_impl _ _ _ Hw). intros p Hp. apply kv_clean; [done|]. right. by left. }
  apply collect_pairs; [done|done|intros p _; apply lookup_empty].
Qed.

Lemma wf_value_get v : wf_value v -> beq v [] = false.
Proof. intros [H _]. by apply beq_false. Qed.

Lemma Decode_Encode_ok m : wf_Manifest m -> Decode (Encode m) = Ok m.
Proof.
  intros Hm. destruct (Decode_fields m Hm) as [Hf Hnd]. unfold Decode.
  apply obind_ok_inv in Hf as (text & -> & Hf). cbn [obind]. rewrite Hf. cbn [obind].
  assert (forall k v, (k, v) ∈ manifest_pairs m -> fill (manifest_pairs m) ∅ !! k = Some v) as Hl.
  { intros k v. by apply fill_lookup. }
  revert Hl. generalize (fill (manifest_pairs m) ∅). intros f Hl. clear Hf.
  assert (forall k v, (k, v) ∈ manifest_pairs m -> get f k = v) as Hg.
  { intros k v Hin. unfold get. by rewrite (Hl _ _ Hin). }
  rewrite (Hl (bs "format") (itoa Format)) by (apply elem_of_cons; by left).
  change (atoi (itoa Format)) with (Some 1). cbn [Format negb Z.eqb]. 
  unfold requiredFields, manifest_pairs in *. cbn [List.filter].
  rewrite (Hg (bs "version") (Version m)), (Hg (bs "buildstamp") (BuildStamp m)), (Hg (bs "arch") (Arch m)),
    (Hg (bs "kernel") (Kernel m)), (Hg (bs "openzfs") (OpenZFS m)), (Hg (bs "kernel_sha256") (KernelSHA256 m)),
    (Hg (bs "initrd_sha256") (InitrdSHA256 m)) by (rewrite !elem_of_cons; tauto).
  destruct Hm as (H1 & H2 & H3 & H4 & H5 & H6 & H7).
  rewrite !wf_value_get by (done || by apply sha256_value). cbn [negb bool_decide].
  rewrite H6, H7. by destruct m.
Qed.

(** The manifest round-trips: every manifest whose values are non-empty,
free of NUL and newline and not ended by white space, and whose two hashes are
64 lowercase hex digits, decodes from its own encoding to itself. *)
Theorem metadata_round_trip m : wf_Manifest m -> Decode (Encode m) = Ok m.
Proof. apply Decode_Encode_ok. Qed.

Definition sample_metadata : Manifest :=
  mkManifest (bs "0.6.0") (bs "20260101T000000Z") (bs "x86_64") (bs "6.18.52-0-lts (b@h) #1 SMP") (bs "2.3.4-1")
    (hex_encode (Sum256 (bs "kernel"))) (hex_encode (Sum256 (bs "initrd"))).

Lemma metadata_round_trip_witness : Decode (Encode sample_metadata) = Ok sample_metadata.
Proof.
  apply (metadata_round_trip sample_metadata). unfold wf_Manifest, wf_value.
  split_and!; (vm_compute; (reflexivity || discriminate)) || (apply (bool_decide_unpack _); vm_compute; exact I).
Defined.

Lemma SHA256Hex_pattern d : length (Sum256 d) = 32%nat -> sha256HexPattern (SHA256Hex d) = true.
Proof.
  intros H. apply match_classes_replicate. unfold SHA256Hex. rewrite length_hex_encode, H.
  split; [done|apply hex_encode_digits].
Qed.

Lemma Decode_safe raw : safe (Decode raw).
Proof.
  unfold Decode. apply obind_safe; [unfold strip_padding; by repeat case_match|]. intros text _.
  apply obind_safe.
  - generalize (∅ : gmap bytes bytes). induction (split _ _) as [|l ls IH]; intros f; cbn; [done|].
    destruct (beq _ _); [apply IH|]. destruct (cut _ _) as [[k v]|]; [|done].
    destruct (negb _); [done|]. destruct (f !! k); [done|apply IH].
  - intros f _. destruct (f !! bs "format"); [|done]. destruct (atoi _); [|done].
    by repeat (apply safe_if; intros _).
Qed.

Lemma deepMetadata_safe kgzip gzip xz modinfo arch version stamp kernel initrd :
  safe (deepMetadataFor kgzip gzip xz modinfo arch version stamp kernel initrd).
Proof.
  unfold deepMetadataFor. apply obind_safe; [apply owrap_safe, VersionFromImage_never_panics|]. intros kv _.
  apply obind_safe; [apply owrap_safe, ExtractOpenZFS_safe|done].
Qed.

(** What a decoded manifest is guaranteed to be. *)
Lemma Decode_sound raw m :
  Decode raw = Ok m ->
  Forall (fun v => v <> []) [Version m; BuildStamp m; Arch m; Kernel m; OpenZFS m] /\
  sha256HexPattern (KernelSHA256 m) = true /\ sha256HexPattern (InitrdSHA256 m) = true.
Proof.
  unfold Decode. intros (text & _ & H)%obind_ok_inv. apply obind_ok_inv in H as (f & _ & H).
  destruct (f !! bs "format"); [|done]. destruct (atoi _); [|done]. destruct (negb (_ =? _)); [done|].
  destruct (bool_decide_reflect (List.filter (fun k => beq (get f k) []) requiredFields = [])) as [Hm|]; [|done].
  destruct (sha256HexPattern (get f (bs "kernel_sha256"))) eqn:E1; [|done].
  destruct (sha256HexPattern (get f (bs "initrd_sha256"))) eqn:E2; [|done]. cbn [negb] in H. injection H as <-.
  split; [|done]. cbn [Version BuildStamp Arch Kernel OpenZFS].
  assert (forall k, k ∈ requiredFields -> get f k <> []) as Hk.
  { intros k Hk Hx. assert (k ∈ List.filter (fun k => beq (get f k) []) requiredFields) as Hin.
    { apply list_elem_of_In, filter_In. split; [by apply list_elem_of_In|]. by apply beq_true. }
    rewrite Hm in Hin. by apply not_elem_of_nil in Hin. }
  repeat apply Forall_cons_2; try apply Forall_nil_2; apply Hk; apply (bool_decide_unpack _); vm_compute; exact I.
Qed.
