(* ===== verification/Payload.v ===== *)
(** * cmd/tool: one boot generation on an ESP

[writePayloadWithRollback] of main.go: KERNEL, INITRD, CMDLINE, metadata,
BLKSUM and CHECKSUM as one unit, with the ordering of CHECKSUM, the backup
taken first and the rollback on any failure. *)

From Stdlib Require Import ZArith Lia Strings.Byte.
From stdpp Require Import base list gmap.
From S2P Require Import Prelude GoStrings Layout World EspConfig PayloadSum BlkSum InitrdInfo Metadata BiosBoot.
Local Open Scope Z_scope.

Record payloadBackup := mkBackup {
  b_kernel : option bytes; b_initrd : option bytes; b_cmdline : option bytes;
  b_metadata : option bytes; b_payloadSum : option bytes; b_blkSum : option bytes
}.

Section payload.
Context {O : Oracle}.

(** One file of the backup: nil only when it is proved absent. *)
Definition backup_file (mountpoint rel : bytes) : io (option bytes) :=
  do r := attempt (readFile mountpoint rel) in
  match r with
  | Ok content => ret (Some content)
  | Err ENotExist => ret None
  | Err e => throw (EIn rel e)
  | Panic => lift Panic
  end.

Definition backupPayload (mountpoint : bytes) : io payloadBackup :=
  do kernel := backup_file mountpoint KernelFile in
  do initrd := backup_file mountpoint InitrdFile in
  do cmdline := backup_file mountpoint CmdlineFile in
  do metadata := backup_file mountpoint MetadataFile in
  do payloadSum := backup_file mountpoint PayloadSumFile in
  do blkSum := backup_file mountpoint BlkSumFile in
  ret (mkBackup kernel initrd cmdline metadata payloadSum blkSum).

(** The closure [restore], returning whether it left [ok] as it was. *)
Definition restore (mountpoint rel : bytes) (want : option bytes) : io bool :=
  match want with
  | None =>
      do r := attempt (removeFile mountpoint rel) in
      match r with
      | Ok _ | Err ENotExist => ret true
      | Err _ => ret false
      | Panic => lift Panic
      end
  | Some c =>
      do r := attempt (WriteFile mountpoint rel c) in
      match r with
      | Ok _ => ret true
      | Err _ => ret false
      | Panic => lift Panic
      end
  end.

Definition rollbackPayload (mountpoint : bytes) (backup : payloadBackup) : io unit :=
  do ok1 := restore mountpoint PayloadSumFile None in
  do ok2 := restore mountpoint BlkSumFile None in
  do ok3 := restore mountpoint KernelFile (b_kernel backup) in
  do ok4 := restore mountpoint InitrdFile (b_initrd backup) in
  do ok5 := restore mountpoint CmdlineFile (b_cmdline backup) in
  do ok6 := restore mountpoint MetadataFile (b_metadata backup) in
  let ok := ok1 && ok2 && ok3 && ok4 && ok5 && ok6 in
  do ok := (match b_blkSum backup with
            | Some c => if ok then restore mountpoint BlkSumFile (Some c) else ret ok
            | None => ret ok
            end) in
  match b_payloadSum backup with
  | Some c => if ok then run restore mountpoint PayloadSumFile (Some c) then ret tt else ret tt
  | None => ret tt
  end.

(** [if err := c(); err != nil { back(); return fmt.Errorf(ctx, err) }] *)
Definition or_rollback {A} (ctx : bytes) (back : io unit) (c : io A) (k : A -> io unit) : io unit :=
  do r := attempt c in
  match r with
  | Ok a => k a
  | Err e => run back then throw (EIn ctx e)
  | Panic => lift Panic
  end.

(** [os.Remove] where a missing file is not an error. *)
Definition remove_if_present (mountpoint rel : bytes) : io unit :=
  do r := attempt (removeFile mountpoint rel) in
  match r with
  | Ok _ | Err ENotExist => ret tt
  | Err e => throw e
  | Panic => lift Panic
  end.

Section deep.
Context (kgzip : bytes -> option (bytes * bool)) (gzip xz : bytes -> option reader) (modinfo : bytes -> elf_section).

(** The manifest text of a build, or why there is none. *)
Definition metadata_text (arch version buildStamp kernel initrd : bytes) : outcome ioerr bytes :=
  match deepMetadataFor kgzip gzip xz modinfo arch version buildStamp kernel initrd with
  | Ok m =>
      match checkMetadataEncodable m with
      | Ok enc => Ok enc
      | Err _ => Err (ERefused (bs "metadata would not decode"))
      | Panic => Panic
      end
  | Err _ => Err (ERefused (bs "metadata"))
  | Panic => Panic
  end.

Definition writeMetadata (mountpoint arch version buildStamp kernel initrd : bytes) : io unit :=
  do enc := lift (metadata_text arch version buildStamp kernel initrd) in
  WriteFile mountpoint MetadataFile enc.

(** The two manifests, computed before anything is written. *)
Definition payload_sums (arch kernel initrd integrity : bytes) : outcome ioerr (option bytes * option bytes) :=
  if beq arch (bs "x86_64") then
    match Generate kernel initrd integrity with
    | Ok payloadSum =>
        match GenerateBlkSum kernel initrd with
        | Ok blkSum => Ok (Some payloadSum, Some blkSum)
        | Err _ => Err (ERefused BlkSumFile)
        | Panic => Panic
        end
    | Err _ => Err (ERefused PayloadSumFile)
    | Panic => Panic
    end
  else Ok (None, None).

Definition preflightBIOSMetadata (arch version buildStamp kernel initrd : bytes) : outcome ioerr unit :=
  match deepMetadataFor kgzip gzip xz modinfo arch version buildStamp kernel initrd with
  | Ok m =>
      let! _ := (if beq arch (bs "x86_64") then
                   match Generate kernel initrd ModeWarn with
                   | Ok _ => Ok tt
                   | Err _ => Err (ERefused PayloadSumFile)
                   | Panic => Panic
                   end
                 else Ok tt) in
      match checkMetadataEncodable m with
      | Ok _ => Ok tt
      | Err _ => Err (ERefused (bs "metadata would not decode"))
      | Panic => Panic
      end
  | Err _ => Err (ERefused (bs "metadata"))
  | Panic => Panic
  end.

(** One manifest of the last loop: skipped when nil, else written and verified. *)
Definition write_manifest (mountpoint rel : bytes) (back : io unit) (data : option bytes) (k : io unit) : io unit :=
  match data with
  | None => k
  | Some d =>
      or_rollback (bs "writing " ++ rel) back (WriteFile mountpoint rel d) (fun _ =>
      or_rollback (bs "verifying " ++ rel) back (VerifyFile mountpoint rel d) (fun _ => k))
  end.

Definition writePayloadWithRollback (mountpoint arch version buildStamp kernel initrd cmdline integrity : bytes) : io unit :=
  do backup := backupPayload mountpoint in
  do sums := lift (payload_sums arch kernel initrd integrity) in
  let payloadSum := sums.1 in
  let blkSum := sums.2 in
  let back := rollbackPayload mountpoint backup in
  or_rollback (bs "removing the previous CHECKSUM") back (remove_if_present mountpoint PayloadSumFile) (fun _ =>
  or_rollback (bs "removing the previous BLKSUM") back (remove_if_present mountpoint BlkSumFile) (fun _ =>
  or_rollback (bs "writing boot payload") back (WritePayload mountpoint kernel initrd cmdline) (fun _ =>
  or_rollback (bs "verifying boot payload") back (VerifyPayload mountpoint kernel initrd cmdline) (fun _ =>
  or_rollback (bs "metadata manifest") back (writeMetadata mountpoint arch version buildStamp kernel initrd) (fun _ =>
  write_manifest mountpoint BlkSumFile back blkSum
  (write_manifest mountpoint PayloadSumFile back payloadSum (ret tt))))))).

End deep.
End payload.

(** ** One entry of a directory tree *)

Definition put (k : bytes * bytes) (v : option bytes) (f : filemap) : filemap := partial_alter (fun _ => v) k f.

Lemma lookup_put k v f k' : put k v f !! k' = if decide (k = k') then v else f !! k'.
Proof.
  unfold put. case_decide as Hk; [subst; apply lookup_partial_alter_eq|by apply lookup_partial_alter_ne].
Qed.

Lemma lookup_put_eq k v f : put k v f !! k = v.
Proof. rewrite lookup_put. by rewrite decide_True. Qed.

Lemma lookup_put_ne k v f k' : k <> k' -> put k v f !! k' = f !! k'.
Proof. intros H. rewrite lookup_put. by rewrite decide_False. Qed.

Lemma put_insert k c f : put k (Some c) f = <[k := c]> f.
Proof. done. Qed.

Lemma put_delete k f : put k None f = delete k f.
Proof. done. Qed.

Lemma put_same k v f : f !! k = v -> put k v f = f.
Proof. intros H. apply map_eq. intros k'. rewrite lookup_put. case_decide; by subst. Qed.

(** The files of a boot generation on one ESP. *)
Definition gen_names : list bytes :=
  [KernelFile; InitrdFile; CmdlineFile; MetadataFile; PayloadSumFile; BlkSumFile].

Definition elsewhere (mp : bytes) (f0 f : filemap) : Prop :=
  forall k, k ∉ (pair mp <$> gen_names) -> f !! k = f0 !! k.

#[export] Instance elsewhere_preorder mp : PreOrder (elsewhere mp).
Proof. split; [by intros f k|]. intros a b c H1 H2 k Hk. rewrite H2, H1 by done. done. Qed.

Lemma elsewhere_put mp rel v f0 f : rel ∈ gen_names -> elsewhere mp f0 f -> elsewhere mp f0 (put (mp, rel) v f).
Proof.
  intros Hr H k Hk. rewrite lookup_put, decide_False; [by apply H|].
  intros <-. apply Hk, list_elem_of_fmap. eauto.
Qed.

Ltac in_gen := apply (bool_decide_unpack _); vm_compute; exact I.

Lemma path_ne (mp rel rel' : bytes) : rel <> rel' -> (mp, rel) <> (mp, rel').
Proof. congruence. Qed.

(** Two trees that agree elsewhere and on the six names are the same. *)
Lemma gen_eq mp f g :
  elsewhere mp f g -> Forall (fun rel => g !! (mp, rel) = f !! (mp, rel)) gen_names -> g = f.
Proof.
  intros He Hg. apply map_eq. intros k. destruct (decide (k ∈ (pair mp <$> gen_names))) as [Hk|Hk]; [|by apply He].
  apply list_elem_of_fmap in Hk as (rel & -> & Hr). rewrite Forall_forall in Hg. by apply Hg.
Qed.

(** ** Computations that edit the tree *)

Section edits.
Context {O : Oracle}.

(** Every state passed through satisfies [J]; no disk changed. *)
Definition passes (J : filemap -> Prop) (w w' : world) : Prop :=
  disks w' = disks w /\ (clock w <= clock w')%nat /\
  exists hs, history w' = hs ++ history w /\ Forall (fun s : filemap * diskmap => J s.1) hs.

#[export] Instance passes_preorder J : PreOrder (passes J).
Proof.
  split; [intros w; split_and!; [done|done|]; exists []; by split|].
  intros x y z (D1 & C1 & h1 & E1 & F1) (D2 & C2 & h2 & E2 & F2).
  split_and!; [congruence|lia|]. exists (h2 ++ h1). rewrite E2, E1, app_assoc. split; [done|]. by apply Forall_app.
Qed.

Lemma passes_impl (J J' : filemap -> Prop) w w' : (forall f, J f -> J' f) -> passes J w w' -> passes J' w w'.
Proof.
  intros H (D & C & hs & E & F). split_and!; [done|done|]. exists hs. split; [done|].
  eapply Forall_impl; [exact F|]. intros s. apply H.
Qed.

Lemma frame_passes J w w' : frame w w' -> passes J w w'.
Proof. intros (F & D & H & C). split_and!; [done|done|]. exists []. by rewrite H. Qed.

(** The computation turns the tree [f] into [g] or fails by a fault, and in
both cases every state on the way, and the last one, satisfies [J]. *)
Definition does {A : Type} (J : filemap -> Prop) (g : filemap) (c : io A) (w : world) : Prop :=
  forall r w', c w = (r, w') ->
    passes J w w' /\ J (files w') /\
    ((exists a, r = Ok a) /\ files w' = g \/ (exists e, r = Err e) /\ failed w w').

Lemma does_bind {A B : Type} J g h (c : io A) (k : A -> io B) w :
  does J g c w -> (forall a x, files x = g -> J (files x) -> does J h (k a) x) -> does J h (bind c k) w.
Proof.
  intros Hc Hk r w' H. io_bind H x E; apply Hc in E as (P & Jx & R).
  - destruct R as [[_ Hg]|[(e & He) _]]; [|discriminate He].
    apply (Hk _ _ Hg Jx) in H as (P' & J' & R). split_and!; [by etransitivity|done|].
    destruct R as [?|[He Hf]]; [by left|right]. split; [done|]. eapply failed_r; [apply P|done].
  - destruct R as [[(a & Ha) _]|[_ Hf]]; [discriminate Ha|]. subst r. split_and!; [done|done|]. right. eauto.
  - destruct R as [[(a & Ha) _]|[(e & He) _]]; discriminate.
Qed.

Lemma does_ret {A : Type} J (a : A) w : J (files w) -> does J (files w) (ret a) w.
Proof. intros Hj r w' [= <- <-]. split_and!; [reflexivity|done|]. left. eauto. Qed.

Lemma does_wrap {A : Type} J g ctx (c : io A) w : does J g c w -> does J g (wrap ctx c) w.
Proof.
  intros Hc r w' H. apply wrap_inv in H as (r' & E & ->). apply Hc in E as (P & Jx & R). split_and!; [done|done|].
  destruct R as [[(a & ->) ?]|[(e & ->) ?]]; cbn; [left|right]; eauto.
Qed.

(** A computation that only looks and fails only by a fault. *)
Lemma does_quiet {A : Type} (J : filemap -> Prop) (c : io A) P w : J (files w) -> quiet c P w -> does J (files w) c w.
Proof.
  intros Hj Hq r w' H. apply Hq in H as (F & R). split_and!; [by apply frame_passes| |].
  - by destruct F as (-> & _).
  - destruct R as [(a & -> & _)|R]; [left|by right]. split; [eauto|apply F].
Qed.

Lemma does_atomic (J : filemap -> Prop) mp rel c (write : io unit) w :
  (forall r w', write w = (r, w') -> atomic_write mp rel c w r w') ->
  J (files w) -> J (put (mp, rel) (Some c) (files w)) -> does J (put (mp, rel) (Some c) (files w)) write w.
Proof.
  intros Ha J0 J1 r w' H. apply Ha in H. clear Ha.
  assert (replaced mp rel c w w' -> passes J w w' /\ J (files w') /\ files w' = put (mp, rel) (Some c) (files w)) as Hrep.
  { intros (D & F & Hh & C). split_and!; [|by rewrite F|done].
    split_and!; [done|lia|]. exists [(files w', disks w)]. rewrite Hh. split; [done|].
    apply Forall_singleton. cbn. by rewrite F. }
  destruct H as [[-> H]|(Hne & Hnp & Hf & [H|H])].
  - apply Hrep in H as (? & ? & ?). split_and!; eauto.
  - split_and!; [by apply frame_passes|by destruct H as (-> & _)|]. right. split; [|done].
    destruct r as [[]|e|]; [done|eauto|done].
  - apply Hrep in H as (? & ? & ?). split_and!; [done|done|]. right. split; [|done].
    destruct r as [[]|e|]; [done|eauto|done].
Qed.

Lemma does_WriteFile (J : filemap -> Prop) mp rel c w :
  J (files w) -> J (put (mp, rel) (Some c) (files w)) ->
  does J (put (mp, rel) (Some c) (files w)) (WriteFile mp rel c) w.
Proof. apply does_atomic. intros r w'. apply WriteFile_spec. Qed.

Lemma does_remove (J : filemap -> Prop) mp rel w :
  J (files w) -> J (put (mp, rel) None (files w)) ->
  does J (put (mp, rel) None (files w)) (remove_if_present mp rel) w.
Proof.
  intros J0 J1 r w' H. unfold remove_if_present, bind, attempt in H.
  destruct (removeFile mp rel w) as [r0 x] eqn:E. apply removeFile_spec in E as (D & C & E).
  destruct r0 as [u|e|]; [| |done].
  - injection H as <- <-. destruct E as (_ & F & Hh). split_and!.
    + split_and!; [done|lia|]. exists [(files x, disks w)]. rewrite Hh. split; [done|].
      apply Forall_singleton. cbn. by rewrite F.
    + by rewrite F.
    + left. split; [eauto|done].
  - assert (frame w x /\ (e = ENotExist /\ files w !! (mp, rel) = None \/ failed w x)) as [Fr He].
    { destruct e; try (split; [by destruct E|right; by destruct E]). destruct E as [? ?]. auto. }
    assert (J (files x)) as Jx by (by destruct Fr as (-> & _)).
    destruct He as [[-> Hn]|Hf].
    + injection H as <- <-. split_and!; [by apply frame_passes|done|]. left. split; [eauto|].
      rewrite put_same by done. apply Fr.
    + assert (w' = x /\ (r = Ok tt /\ files w !! (mp,rel) = None \/ exists e', r = Err e')) as [-> Hr].
      { destruct e; injection H as <- <-; split; try done; try (right; by eauto). left. by destruct E. }
      split_and!; [by apply frame_passes|done|]. destruct Hr as [[-> Hn]|Hr]; [left|by right].
      split; [eauto|]. rewrite put_same by done. apply Fr.
Qed.

Lemma quiet_VerifyFile mp rel c w :
  files w !! (mp, rel) = Some c -> quiet (VerifyFile mp rel c) (fun _ => True) w.
Proof.
  intros Hc r w' H. unfold VerifyFile in H. io_bind H x E; apply readFile_spec in E as (F & _ & E).
  - rewrite Hc in E. injection E as <-. rewrite beq_refl in H. injection H as <- <-. split; [done|left; eauto].
  - split; [done|]. right. subst r. split; [eauto|]. destruct e; try done. congruence.
  - done.
Qed.

End edits.

(** ** Backup and rollback *)

(** The lookups of a tree built by edits of distinct names. *)
Ltac look :=
  repeat (rewrite lookup_put;
          first [rewrite decide_True by reflexivity | rewrite decide_False by (apply path_ne; in_gen)]).

Definition backup_of (mp : bytes) (f : filemap) (b : payloadBackup) : Prop :=
  b_kernel b = f !! (mp, KernelFile) /\ b_initrd b = f !! (mp, InitrdFile) /\
  b_cmdline b = f !! (mp, CmdlineFile) /\ b_metadata b = f !! (mp, MetadataFile) /\
  b_payloadSum b = f !! (mp, PayloadSumFile) /\ b_blkSum b = f !! (mp, BlkSumFile).

Section rollback.
Context {O : Oracle}.

Lemma quiet_backup_file mp rel w : quiet (backup_file mp rel) (fun v => v = files w !! (mp, rel)) w.
Proof.
  intros r w' H. unfold backup_file, bind, attempt in H.
  destruct (readFile mp rel w) as [r0 x] eqn:E. apply readFile_spec in E as (F & _ & E).
  destruct r0 as [c|e|]; [| |done].
  - injection H as <- <-. split; [done|]. left. rewrite E. eauto.
  - destruct e; injection H as <- <-; (split; [done|]); try (right; eauto; done). left. rewrite E. eauto.
Qed.

Lemma quiet_bind {A B : Type} (c : io A) (k : A -> io B) P Q w :
  quiet c P w -> (forall a x, P a -> frame w x -> quiet (k a) Q x) -> quiet (bind c k) Q w.
Proof.
  intros Hc Hk r w' H. io_bind H x E; apply Hc in E as [F E].
  - destruct E as [(a' & Ha & HP)|[(e & He) _]]; [|discriminate He]. injection Ha as <-.
    apply (Hk _ _ HP F) in H as [F' H]. split; [by etransitivity|].
    destruct H as [?|[He Hf]]; [by left|right]. split; [done|]. eapply failed_r; [apply F|done].
  - destruct E as [(? & Hx & _)|[_ E]]; [discriminate Hx|]. subst r. split; [done|]. right. eauto.
  - destruct E as [(? & Hx & _)|[(? & Hx) _]]; discriminate.
Qed.

Lemma quiet_ret {A : Type} (a : A) (P : A -> Prop) w : P a -> quiet (ret a) P w.
Proof. intros HP r w' [= <- <-]. split; [reflexivity|]. left. eauto. Qed.

Lemma quiet_backup mp w : quiet (backupPayload mp) (backup_of mp (files w)) w.
Proof.
  unfold backupPayload.
  eapply quiet_bind; [apply quiet_backup_file|]; intros v1 x1 -> (F1 & _);
  eapply quiet_bind; [apply quiet_backup_file|]; intros v2 x2 -> (F2 & _);
  eapply quiet_bind; [apply quiet_backup_file|]; intros v3 x3 -> (F3 & _);
  eapply quiet_bind; [apply quiet_backup_file|]; intros v4 x4 -> (F4 & _);
  eapply quiet_bind; [apply quiet_backup_file|]; intros v5 x5 -> (F5 & _);
  eapply quiet_bind; [apply quiet_backup_file|]; intros v6 x6 -> (F6 & _).
  apply quiet_ret. unfold backup_of. cbn. rewrite F5, F4, F3, F2, F1. done.
Qed.

(** In calm weather [restore] does its edit and reports success. *)
Definition lands {A : Type} (J : filemap -> Prop) (a : A) (g : filemap) (c : io A) (w : world) : Prop :=
  forall r w', calm (clock w) -> c w = (r, w') ->
    r = Ok a /\ passes J w w' /\ files w' = g.

Lemma lands_restore (J : filemap -> Prop) mp rel want w :
  J (files w) -> J (put (mp, rel) want (files w)) ->
  lands J true (put (mp, rel) want (files w)) (restore mp rel want) w.
Proof.
  intros J0 J1 r w' Hc H. destruct want as [c|]; unfold restore, bind, attempt in H.
  - destruct (WriteFile mp rel c w) as [r0 x] eqn:E.
    apply (does_WriteFile J _ _ _ _ J0 J1) in E as (P & _ & [[([] & ->) F]|[_ Hf]]); [|exfalso; by eapply calm_failed].
    injection H as <- <-. done.
  - assert (exists r1, remove_if_present mp rel w = (r1, w') /\ (r1 = Ok tt -> r = Ok true)) as (r1 & E & Hr).
    { unfold remove_if_present, bind, attempt. destruct (removeFile mp rel w) as [[u|e|] x];
        [|destruct e|]; injection H as <- <-; eexists; (split; [reflexivity|]); done. }
    apply (does_remove J _ _ _ J0 J1) in E as (P & _ & [[([] & Ha) F]|[_ Hf]]); [|exfalso; by eapply calm_failed].
    split_and!; [by apply Hr|done|done].
Qed.

Lemma lands_bind {A B : Type} J (a : A) (b : B) g h (c : io A) (k : A -> io B) w :
  lands J a g c w -> (forall x, files x = g -> lands J b h (k a) x) -> lands J b h (bind c k) w.
Proof.
  intros Hc Hk r w' Hcalm H. io_bind H x E; apply (Hc _ _ Hcalm) in E as (Er & P & F); simplify_eq.
  apply Hk in H as (-> & P' & F'); [|done|eapply calm_le; [exact Hcalm|apply P]].
  split_and!; [done|by etransitivity|done].
Qed.

Lemma lands_ret {A : Type} J (a : A) w : lands J a (files w) (ret a) w.
Proof. intros r w' _ [= <- <-]. split_and!; done. Qed.

(** The six files put back over the two removed manifests. *)
Definition rolled_back (mp : bytes) (b : payloadBackup) (f : filemap) : filemap :=
  put (mp, MetadataFile) (b_metadata b) (put (mp, CmdlineFile) (b_cmdline b)
    (put (mp, InitrdFile) (b_initrd b) (put (mp, KernelFile) (b_kernel b)
      (put (mp, BlkSumFile) None (put (mp, PayloadSumFile) None f))))).

Lemma rolled_back_blk mp b f :
  rolled_back mp b f !! (mp, BlkSumFile) = None /\ rolled_back mp b f !! (mp, PayloadSumFile) = None.
Proof. unfold rolled_back. split; look; reflexivity. Qed.

Lemma rolled_back_eq mp b f0 f :
  backup_of mp f0 b -> elsewhere mp f0 f ->
  put (mp, PayloadSumFile) (b_payloadSum b) (put (mp, BlkSumFile) (b_blkSum b) (rolled_back mp b f)) = f0.
Proof.
  intros (H1 & H2 & H3 & H4 & H5 & H6) He. apply (gen_eq mp).
  - unfold rolled_back. repeat (apply elsewhere_put; [in_gen|]). done.
  - unfold gen_names, rolled_back. rewrite H1, H2, H3, H4, H5, H6.
    repeat apply Forall_cons_2; try apply Forall_nil_2; look; reflexivity.
Qed.

Lemma rollback_lands (J : filemap -> Prop) mp b f0 w :
  (forall f, f !! (mp, PayloadSumFile) = None -> J f) -> J f0 -> J (files w) ->
  backup_of mp f0 b -> elsewhere mp f0 (files w) -> lands J tt f0 (rollbackPayload mp b) w.
Proof.
  intros HJ J0 Jw Hb He. pose proof (rolled_back_eq mp b f0 (files w) Hb He) as Heq.
  destruct (rolled_back_blk mp b (files w)) as [Hblk Hsum].
  unfold rollbackPayload.
  eapply lands_bind; [apply lands_restore; [done|apply HJ; look; reflexivity]|]; intros x1 E1.
  eapply lands_bind; [apply lands_restore; rewrite E1; apply HJ; look; reflexivity|]; intros x2 E2; rewrite E1 in E2.
  eapply lands_bind; [apply lands_restore; rewrite E2; apply HJ; look; reflexivity|]; intros x3 E3; rewrite E2 in E3.
  eapply lands_bind; [apply lands_restore; rewrite E3; apply HJ; look; reflexivity|]; intros x4 E4; rewrite E3 in E4.
  eapply lands_bind; [apply lands_restore; rewrite E4; apply HJ; look; reflexivity|]; intros x5 E5; rewrite E4 in E5.
  eapply lands_bind; [apply lands_restore; rewrite E5; apply HJ; look; reflexivity|]; intros x6 E6; rewrite E5 in E6.
  cbn [andb]. fold (rolled_back mp b (files w)) in E6. clear E1 E2 E3 E4 E5.
  apply (lands_bind J true tt (put (mp, BlkSumFile) (b_blkSum b) (rolled_back mp b (files w)))).
  - destruct (b_blkSum b) as [c|].
    + rewrite <-E6. apply lands_restore; rewrite E6; apply HJ; [done|]. look. done.
    + rewrite put_same by done. rewrite <-E6. apply lands_ret.
  - intros x7 E7. rewrite <-Heq. destruct (b_payloadSum b) as [c|].
    + apply (lands_bind J true tt f0).
      * rewrite <-Heq, <-E7. apply lands_restore; rewrite E7; [|by rewrite Heq].
        apply HJ. look. done.
      * intros x8 E8. rewrite Heq, <-E8. apply lands_ret.
    + rewrite put_same by (look; done). rewrite <-E7. apply lands_ret.
Qed.

End rollback.

(** ** The whole run *)

(** The tree with a complete new generation in it. *)
Definition new_generation (mp kernel initrd cmdline meta : bytes) (sums : option bytes * option bytes) (f : filemap) : filemap :=
  put (mp, PayloadSumFile) sums.1 (put (mp, BlkSumFile) sums.2 (put (mp, MetadataFile) (Some meta)
    (put (mp, CmdlineFile) (Some cmdline) (put (mp, InitrdFile) (Some initrd) (put (mp, KernelFile) (Some kernel) f))))).

Section whole.
Context {O : Oracle}.
Context (mp : bytes) (f0 new : filemap).

(** What a crash may find: no CHECKSUM, or the old tree, or the new one. *)
Definition crash_state (f : filemap) : Prop :=
  f !! (mp, PayloadSumFile) = None \/ f = f0 \/ f = new.

Definition kept (f : filemap) : Prop := crash_state f /\ elsewhere mp f0 f.

Definition ends (w : world) (r : outcome ioerr unit) (w' : world) : Prop :=
  passes crash_state w w' /\
  (r = Ok tt /\ files w' = new \/ (exists e, r = Err e) /\ failed w w' /\ files w' = f0).

Lemma kept_passes w w' : passes kept w w' -> passes crash_state w w'.
Proof. apply passes_impl. by intros f [? _]. Qed.

Lemma or_rollback_step {A : Type} b g ctx (c : io A) k w0 w r w' :
  one_fault -> backup_of mp f0 b -> passes crash_state w0 w -> does kept g c w ->
  (forall a x r w', files x = g -> kept g -> passes crash_state w0 x -> k a x = (r, w') -> ends w0 r w') ->
  or_rollback ctx (rollbackPayload mp b) c k w = (r, w') -> ends w0 r w'.
Proof.
  intros H1 Hb Hp Hd Hk H. unfold or_rollback, bind at 1, attempt in H.
  destruct (c w) as [v x] eqn:E. apply Hd in E as (P & [Jx Ex] & R).
  assert (passes crash_state w0 x) as Px by (etransitivity; [exact Hp|by apply kept_passes]).
  destruct R as [[(a & ->) F]|[(e & ->) Hf]].
  - apply Hk in H; [done|done|by rewrite <-F|done].
  - assert (failed w0 x) as Hf0 by (eapply failed_r; [apply Hp|done]).
    assert (calm (clock x)) as Hc by (by eapply failed_calm).
    io_bind H y E'; apply (rollback_lands crash_state mp b f0 x) in E' as (Er & Py & Fy); try done;
      try (by left); try (right; by left); simplify_eq.
    injection H as <- <-. split; [by etransitivity|]. right. split_and!; [eauto| |done].
    eapply failed_l; [done|apply Py].
Qed.

End whole.

Section main.
Context {O : Oracle}.
Context (kgzip : bytes -> option (bytes * bool)) (gzip xz : bytes -> option reader) (modinfo : bytes -> elf_section).
Context (mp arch version buildStamp kernel initrd cmdline integrity meta : bytes) (sums : option bytes * option bytes).
Context (Hmeta : metadata_text kgzip gzip xz modinfo arch version buildStamp kernel initrd = Ok meta).
Context (Hsums : payload_sums arch kernel initrd integrity = Ok sums).

Lemma does_WritePayload (J : filemap -> Prop) w :
  let f := files w in
  let g1 := put (mp, KernelFile) (Some kernel) f in
  let g2 := put (mp, InitrdFile) (Some initrd) g1 in
  let g3 := put (mp, CmdlineFile) (Some cmdline) g2 in
  J f -> J g1 -> J g2 -> J g3 -> does J g3 (WritePayload mp kernel initrd cmdline) w.
Proof.
  intros f g1 g2 g3 J0 J1 J2 J3. unfold WritePayload, payload_files. cbn [each fst snd].
  eapply does_bind; [by apply does_wrap, does_WriteFile|]. intros _ x E _. fold f g1 in E.
  eapply does_bind; [apply does_wrap, does_WriteFile; rewrite E; done|]. intros _ y Ey _. rewrite E in Ey. fold g2 in Ey.
  eapply does_bind; [apply does_wrap, does_WriteFile; rewrite Ey; done|]. intros _ z Ez Jz. rewrite Ey in Ez. fold g3 in Ez.
  rewrite <-Ez. by apply does_ret.
Qed.

Lemma quiet_VerifyPayload w :
  files w !! (mp, KernelFile) = Some kernel -> files w !! (mp, InitrdFile) = Some initrd ->
  files w !! (mp, CmdlineFile) = Some cmdline ->
  quiet (VerifyPayload mp kernel initrd cmdline) (fun _ => True) w.
Proof.
  intros H1 H2 H3. unfold VerifyPayload, payload_files. cbn [each fst snd].
  apply quiet_run; [by apply quiet_VerifyFile|]. intros x (Fx & _).
  apply quiet_run; [apply quiet_VerifyFile; by rewrite Fx|]. intros y (Fy & _).
  apply quiet_run; [apply quiet_VerifyFile; by rewrite Fy, Fx|]. intros z (Fz & _). by apply quiet_ret.
Qed.

Lemma does_writeMetadata (J : filemap -> Prop) w :
  J (files w) -> J (put (mp, MetadataFile) (Some meta) (files w)) ->
  does J (put (mp, MetadataFile) (Some meta) (files w))
    (writeMetadata kgzip gzip xz modinfo mp arch version buildStamp kernel initrd) w.
Proof.
  intros J0 J1. unfold writeMetadata. rewrite Hmeta.
  intros r w' H. revert H. exact (does_WriteFile J mp MetadataFile meta w J0 J1 r w').
Qed.

(** One manifest of the last loop: skipped, or written and verified. *)
Lemma write_manifest_step f0 new b rel data k w0 w r w' :
  let g := files w in
  let g' := put (mp, rel) data g in
  one_fault -> backup_of mp f0 b -> passes (crash_state mp f0 new) w0 w ->
  kept mp f0 new g -> kept mp f0 new g' -> g !! (mp, rel) = None ->
  (forall x r w', files x = g' -> passes (crash_state mp f0 new) w0 x -> k x = (r, w') -> ends mp f0 new w0 r w') ->
  write_manifest mp rel (rollbackPayload mp b) data k w = (r, w') -> ends mp f0 new w0 r w'.
Proof.
  intros g g' H1 Hb Hp Kg Kg' Hn Hk H. unfold write_manifest in H. destruct data as [d|].
  - revert H. apply (or_rollback_step _ _ _ b g'); [done|done|done|by apply does_WriteFile|].
    intros _ x r1 w1 Fx _ Px. apply (or_rollback_step _ _ _ b g'); [done|done|done| |].
    + rewrite <-Fx. eapply does_quiet; [by rewrite Fx|]. apply quiet_VerifyFile. rewrite Fx.
      unfold g'. rewrite lookup_put. by rewrite decide_True.
    + intros _ y r2 w2 Fy _ Py. by apply Hk.
  - apply Hk in H; [done| |done]. unfold g'. by rewrite put_same.
Qed.

(** The removed manifests written over are the new generation. *)
Lemma new_generation_eq f :
  put (mp, PayloadSumFile) sums.1 (put (mp, BlkSumFile) sums.2 (put (mp, MetadataFile) (Some meta)
    (put (mp, CmdlineFile) (Some cmdline) (put (mp, InitrdFile) (Some initrd) (put (mp, KernelFile) (Some kernel)
      (put (mp, BlkSumFile) None (put (mp, PayloadSumFile) None f)))))))
  = new_generation mp kernel initrd cmdline meta sums f.
Proof.
  apply (gen_eq mp).
  - unfold new_generation. intros k Hk. rewrite !lookup_put.
    repeat (rewrite decide_False by (intros <-; apply Hk, list_elem_of_fmap; eexists; split; [reflexivity|in_gen])). done.
  - unfold gen_names, new_generation. repeat apply Forall_cons_2; try apply Forall_nil_2; look; reflexivity.
Qed.

Lemma writePayload_ends w r w' :
  one_fault ->
  writePayloadWithRollback kgzip gzip xz modinfo mp arch version buildStamp kernel initrd cmdline integrity w = (r, w') ->
  ends mp (files w) (new_generation mp kernel initrd cmdline meta sums (files w)) w r w'.
Proof.
  intros H1 H. set (f0 := files w). set (new := new_generation mp kernel initrd cmdline meta sums f0).
  unfold writePayloadWithRollback in H.
  assert (forall f, f !! (mp, PayloadSumFile) = None -> elsewhere mp f0 f -> kept mp f0 new f) as K.
  { intros f Hf He. split; [by left|done]. }
  io_bind H x E; apply quiet_backup in E as [F E].
  2: { subst r. destruct E as [(? & Hx & _)|[_ E]]; [discriminate Hx|].
       split; [by apply frame_passes|]. right. split_and!; [eauto|done|apply F]. }
  2: { destruct E as [(? & Hx & _)|[(? & Hx) _]]; discriminate. }
  destruct E as [(b & Hb & Hbk)|[(? & Hx) _]]; [|discriminate Hx]. injection Hb as ->.
  assert (passes (crash_state mp f0 new) w x) as Px by (by apply frame_passes).
  assert (files x = f0) as Fx by apply F. clear F.
  rewrite Hsums in H. change (bind (lift (Ok sums)) ?k x) with (k sums x) in H. cbv beta zeta in H.
  assert (kept mp f0 new f0) as K0 by (split; [right; by left|reflexivity]).
  revert H. apply (or_rollback_step _ _ _ b (put (mp, PayloadSumFile) None f0)); [done|done|done| |].
  { rewrite <-Fx. apply does_remove; rewrite Fx; [done|]. apply K; [look; reflexivity|]. by repeat (apply elsewhere_put; [in_gen|]). }
  intros _ x1 r1 w1 F1 K1 P1.
  apply (or_rollback_step _ _ _ b (put (mp, BlkSumFile) None (files x1))); [done|done|done| |].
  { apply does_remove; rewrite F1; [done|]. apply K; [look; reflexivity|]. by repeat (apply elsewhere_put; [in_gen|]). }
  intros _ x2 r2 w2 F2 K2 P2. rewrite F1 in F2.
  apply (or_rollback_step _ _ _ b (put (mp, CmdlineFile) (Some cmdline) (put (mp, InitrdFile) (Some initrd)
    (put (mp, KernelFile) (Some kernel) (files x2))))); [done|done|done| |].
  { apply does_WritePayload; rewrite F2; (apply K; [look; reflexivity|]; by repeat (apply elsewhere_put; [in_gen|])). }
  intros _ x3 r3 w3 F3 K3 P3. rewrite F2 in F3.
  apply (or_rollback_step _ _ _ b (files x3)); [done|done|done| |].
  { eapply does_quiet; [by rewrite F3, <-F2|]. apply quiet_VerifyPayload; rewrite F3; look; reflexivity. }
  intros _ x4 r4 w4 F4 _ P4. rewrite F3 in F4.
  apply (or_rollback_step _ _ _ b (put (mp, MetadataFile) (Some meta) (files x4))); [done|done|done| |].
  { apply does_writeMetadata; rewrite F4; (apply K; [look; reflexivity|]; by repeat (apply elsewhere_put; [in_gen|])). }
  intros _ x5 r5 w5 F5 K5 P5. rewrite F4 in F5.
  apply (write_manifest_step f0 new b); [done|done|done| | | |].
  { rewrite F5. by rewrite F4 in K5. }
  { rewrite F5. apply K; [look; reflexivity|]. by repeat (apply elsewhere_put; [in_gen|]). }
  { rewrite F5. look. reflexivity. }
  intros x6 r6 w6 F6 P6. rewrite F5 in F6.
  assert (put (mp, PayloadSumFile) sums.1 (files x6) = new) as Hnew by (rewrite F6; apply new_generation_eq).
  apply (write_manifest_step f0 new b); [done|done|done| | | |].
  { rewrite F6. apply K; [look; reflexivity|]. by repeat (apply elsewhere_put; [in_gen|]). }
  { rewrite Hnew. split; [right; by right|]. unfold new, new_generation. by repeat (apply elsewhere_put; [in_gen|]). }
  { rewrite F6. look. reflexivity. }
  intros x7 r7 w7 F7 P7 H. injection H as <- <-. split; [done|]. left. split; [done|]. by rewrite F7.
Qed.

End main.

(** ** Theorems *)

Section theorems.
Context {O : Oracle}.
Context (kgzip : bytes -> option (bytes * bool)) (gzip xz : bytes -> option reader) (modinfo : bytes -> elf_section).

Lemma metadata_text_safe arch version buildStamp kernel initrd :
  safe (metadata_text kgzip gzip xz modinfo arch version buildStamp kernel initrd).
Proof.
  unfold metadata_text.
  pose proof (deepMetadata_safe kgzip gzip xz modinfo arch version buildStamp kernel initrd) as H.
  destruct (deepMetadataFor _ _ _ _ _ _ _ _ _) as [m|e|]; [|done|done].
  unfold checkMetadataEncodable. pose proof (Decode_safe (Encode m)) as Hd. by destruct (Decode (Encode m)).
Qed.

Lemma payload_sums_safe arch kernel initrd integrity : safe (payload_sums arch kernel initrd integrity).
Proof.
  unfold payload_sums. apply safe_if; intros _; [|done].
  pose proof (Generate_safe kernel initrd integrity). destruct (Generate _ _ _); [|done|done].
  pose proof (GenerateBlkSum_safe kernel initrd). by destruct (GenerateBlkSum _ _).
Qed.

Lemma preflight_safe arch version buildStamp kernel initrd :
  safe (preflightBIOSMetadata kgzip gzip xz modinfo arch version buildStamp kernel initrd).
Proof.
  unfold preflightBIOSMetadata. pose proof (deepMetadata_safe kgzip gzip xz modinfo arch version buildStamp kernel initrd).
  destruct (deepMetadataFor _ _ _ _ _ _ _ _ _) as [m|e|]; [|done|done]. apply obind_safe.
  - apply safe_if; intros _; [|done]. pose proof (Generate_safe kernel initrd ModeWarn). by destruct (Generate _ _ _).
  - intros _ _. unfold checkMetadataEncodable. pose proof (Decode_safe (Encode m)). by destruct (Decode (Encode m)).
Qed.

Lemma preflight_text arch version buildStamp kernel initrd :
  preflightBIOSMetadata kgzip gzip xz modinfo arch version buildStamp kernel initrd = Ok tt ->
  exists meta, metadata_text kgzip gzip xz modinfo arch version buildStamp kernel initrd = Ok meta.
Proof.
  unfold preflightBIOSMetadata, metadata_text. intros H.
  destruct (deepMetadataFor _ _ _ _ _ _ _ _ _) as [m|e|]; [|done|done].
  apply obind_ok_inv in H as (u & _ & H). destruct (checkMetadataEncodable m); [eauto|done|done].
Qed.

(** When the manifests cannot be computed, the run ends before any write. *)
Lemma writePayload_refused mp arch version buildStamp kernel initrd cmdline integrity w r w' :
  (forall sums, payload_sums arch kernel initrd integrity <> Ok sums) ->
  writePayloadWithRollback kgzip gzip xz modinfo mp arch version buildStamp kernel initrd cmdline integrity w = (r, w') ->
  r <> Ok tt /\ frame w w'.
Proof.
  intros Hs H. unfold writePayloadWithRollback in H. io_bind H x E; apply quiet_backup in E as [F _].
  - destruct (payload_sums arch kernel initrd integrity) as [s|e|]; [by destruct (Hs s)| |];
      injection H as <- <-; (split; [done|exact F]).
  - by subst r.
  - by subst r.
Qed.

(** C1 - A boot generation is written whole or not at all. After the preflight
passed, with at most one failing call (at any point, the rollback included),
either the run succeeds and the six files are exactly the new generation, with
every other file untouched; or it reports an error, because a call failed or
the manifests could not be computed, and the whole tree is exactly what it was.
No disk changes. *)
Theorem writePayload_all_or_nothing mp arch version buildStamp kernel initrd cmdline integrity w r w' :
  one_fault ->
  preflightBIOSMetadata kgzip gzip xz modinfo arch version buildStamp kernel initrd = Ok tt ->
  writePayloadWithRollback kgzip gzip xz modinfo mp arch version buildStamp kernel initrd cmdline integrity w = (r, w') ->
  disks w' = disks w /\
  ((r = Ok tt /\ exists meta sums,
      metadata_text kgzip gzip xz modinfo arch version buildStamp kernel initrd = Ok meta /\
      payload_sums arch kernel initrd integrity = Ok sums /\
      files w' = new_generation mp kernel initrd cmdline meta sums (files w)) \/
   (r <> Ok tt /\ (failed w w' \/ forall sums, payload_sums arch kernel initrd integrity <> Ok sums) /\
    files w' = files w)).
Proof.
  intros H1 Hp H. destruct (preflight_text _ _ _ _ _ Hp) as [meta Hm].
  destruct (payload_sums arch kernel initrd integrity) as [sums|e|] eqn:Hs.
  - destruct (writePayload_ends _ _ _ _ _ _ _ _ _ _ _ _ _ _ Hm Hs _ _ _ H1 H) as [P [[-> F]|((e & ->) & Hf & F)]];
      (split; [apply P|]); [left|right]; eauto 10.
  - apply writePayload_refused in H as [Hr F]; [|by rewrite Hs]. split; [apply F|]. right. split_and!; [done| |apply F].
    by right.
  - apply writePayload_refused in H as [Hr F]; [|by rewrite Hs]. split; [apply F|]. right. split_and!; [done| |apply F].
    by right.
Qed.

(** C2 - A run that is cut off leaves no CHECKSUM that does not describe the
payload next to it: after the preflight passed and with at most one failing
call, in every state the file system shows between two calls of the run, those
of a rollback included, CHECKSUM is absent, or the whole tree is the old one, or
it is the complete new generation. (What of such a state a power cut would keep
is up to the file system's caches and not part of the model.) *)
Theorem writePayload_crash_consistent mp arch version buildStamp kernel initrd cmdline integrity w r w' :
  one_fault ->
  preflightBIOSMetadata kgzip gzip xz modinfo arch version buildStamp kernel initrd = Ok tt ->
  writePayloadWithRollback kgzip gzip xz modinfo mp arch version buildStamp kernel initrd cmdline integrity w = (r, w') ->
  exists hs, history w' = hs ++ history w /\
    Forall (fun s : filemap * diskmap =>
      s.1 !! (mp, PayloadSumFile) = None \/ s.1 = files w \/
      exists meta sums, metadata_text kgzip gzip xz modinfo arch version buildStamp kernel initrd = Ok meta /\
        payload_sums arch kernel initrd integrity = Ok sums /\
        s.1 = new_generation mp kernel initrd cmdline meta sums (files w)) hs.
Proof.
  intros H1 Hp H. destruct (preflight_text _ _ _ _ _ Hp) as [meta Hm].
  destruct (payload_sums arch kernel initrd integrity) as [sums|e|] eqn:Hs.
  - destruct (writePayload_ends _ _ _ _ _ _ _ _ _ _ _ _ _ _ Hm Hs _ _ _ H1 H) as [(_ & _ & hs & Hh & Hf) _]. exists hs. split; [done|].
    eapply Forall_impl; [exact Hf|]. intros st [?|[?|?]]; eauto 10.
  - apply writePayload_refused in H as [_ (_ & _ & Hh & _)]; [|by rewrite Hs]. exists []. by split.
  - apply writePayload_refused in H as [_ (_ & _ & Hh & _)]; [|by rewrite Hs]. exists []. by split.
Qed.

End theorems.

(** ** A concrete generation *)

Definition boot_kernel : bytes :=
  zeros 497 ++ [x01] ++ zeros 12 ++ [x55; xaa] ++ [xeb; x66] ++ bs "HdrS" ++ [x0c; x02] ++ zeros 6 ++ [x20; x00]
  ++ zeros 16 ++ bs "6.18.52-0-lts (x)" ++ zeros 480 ++ bs "protected-mode code".
Definition boot_modinfo (_ : bytes) : elf_section := Section_ (bs "license=CDDL" ++ [x00] ++ bs "version=2.3.4-1" ++ [x00]).
Definition esp : bytes := bs "/boot/efi".
Definition old_files : filemap :=
  {[(esp, KernelFile) := bs "old kernel"; (esp, InitrdFile) := bs "old initrd"; (esp, CmdlineFile) := bs "old cmdline";
    (esp, PayloadSumFile) := bs "old sum"; (esp, ConfigFile) := bs "config"]}.

Definition boot_metadata : outcome ioerr bytes :=
  metadata_text (fun _ => None) (fun _ => None) (fun _ => None) boot_modinfo (bs "x86_64") (bs "0.6.0")
    (bs "20260101T000000Z") boot_kernel sample_archive.

Lemma boot_preflight :
  preflightBIOSMetadata (fun _ => None) (fun _ => None) (fun _ => None) boot_modinfo (bs "x86_64") (bs "0.6.0")
    (bs "20260101T000000Z") boot_kernel sample_archive = Ok tt.
Proof. vm_compute. reflexivity. Qed.

(** The run on this ESP under an oracle. *)
Definition boot_run (O : Oracle) : outcome ioerr unit * world :=
  writePayloadWithRollback (O:=O) (fun _ => None) (fun _ => None) (fun _ => None) boot_modinfo esp (bs "x86_64") (bs "0.6.0")
    (bs "20260101T000000Z") boot_kernel sample_archive (bs "cmd") ModeWarn (fresh_world old_files ∅).

(** The write of the new initrd fails; the old generation is back. *)
Lemma writePayload_all_or_nothing_witness :
  is_ok (boot_run (fail_at 22 3)).1 = false /\ files (boot_run (fail_at 22 3)).2 = old_files.
Proof.
  assert (is_ok (boot_run (fail_at 22 3)).1 = false) as Hno by (vm_compute; reflexivity).
  split; [exact Hno|].
  destruct (writePayload_all_or_nothing (O:=fail_at 22 3) (fun _ => None) (fun _ => None) (fun _ => None) boot_modinfo esp (bs "x86_64")
    (bs "0.6.0") (bs "20260101T000000Z") boot_kernel sample_archive (bs "cmd") ModeWarn (fresh_world old_files ∅)
    (boot_run (fail_at 22 3)).1 (boot_run (fail_at 22 3)).2) as [_ [[Hok _]|(_ & _ & F)]].
  - apply fail_at_one.
  - exact boot_preflight.
  - apply surjective_pairing.
  - rewrite Hok in Hno. discriminate Hno.
  - exact F.
Defined.

Definition ok_or {E A} (d : A) (c : outcome E A) : A := match c with Ok a => a | _ => d end.

Lemma ok_or_ok {E A : Type} (r : outcome E A) x : is_ok r = true -> r = Ok (ok_or x r).
Proof. by destruct r. Qed.

(** The same run, cut off at any point. *)
Lemma writePayload_crash_consistent_witness :
  exists hs, history (boot_run (fail_at 22 3)).2 = hs ++ [] /\
    Forall (fun s : filemap * diskmap =>
      s.1 !! (esp, PayloadSumFile) = None \/ s.1 = old_files \/
      exists meta sums, boot_metadata = Ok meta /\
        payload_sums (bs "x86_64") boot_kernel sample_archive ModeWarn = Ok sums /\
        s.1 = new_generation esp boot_kernel sample_archive (bs "cmd") meta sums old_files) hs.
Proof.
  apply (writePayload_crash_consistent (O:=fail_at 22 3) (fun _ => None) (fun _ => None) (fun _ => None) boot_modinfo esp (bs "x86_64")
    (bs "0.6.0") (bs "20260101T000000Z") boot_kernel sample_archive (bs "cmd") ModeWarn (fresh_world old_files ∅)
    (boot_run (fail_at 22 3)).1 (boot_run (fail_at 22 3)).2).
  - apply fail_at_one.
  - exact boot_preflight.
  - apply surjective_pairing.
Defined.
