(* ===== verification/NvList.v ===== *)
(** * internal/zfsnative: the nvlist decoder

[DecodeNative] of nvlist.go, which reads what the ZFS kernel module writes into
an ioctl buffer. An [Nvlist] is a Go map; here an association list in which
assigning a name again replaces its value. A [make] with a length from the wire
is a step of its own, which brings the process down when the length is negative
or asks for more memory than there is. *)

From Stdlib Require Import ZArith Lia Strings.Byte.
From stdpp Require Import base list.
From S2P Require Import Prelude GoStrings.
Local Open Scope Z_scope.

Definition nvEncodeNative : Z := 0.
Definition nvBigEndian : Z := 0.
Definition nvpairHdrLen : Z := 16.
Definition nvlistHdrLen : Z := 8.
Definition maxDecodeElems : Z := 2 ^ 20.
Definition maxNVListDepth : Z := 64.

Definition dataTypeBoolean : Z := 1.
Definition dataTypeByte : Z := 2.
Definition dataTypeInt32 : Z := 5.
Definition dataTypeUint32 : Z := 6.
Definition dataTypeInt64 : Z := 7.
Definition dataTypeUint64 : Z := 8.
Definition dataTypeString : Z := 9.
Definition dataTypeByteArray : Z := 10.
Definition dataTypeUint64Array : Z := 16.
Definition dataTypeStringArray : Z := 17.
Definition dataTypeNVList : Z := 19.
Definition dataTypeNVListArray : Z := 20.
Definition dataTypeBooleanValue : Z := 21.
Definition dataTypeUint8Array : Z := 26.

(** [(n + 7) &^ 7] *)
Definition nvAlign8 (n : Z) : Z := Z.ldiff (n + 7) 7.

Inductive Value :=
| VBoolean
| VBool (b : bool)
| VByte (z : Z)
| VByteArray (l : bytes)
| VUint8Array (l : bytes)
| VUint64 (z : Z)
| VInt64 (z : Z)
| VUint32 (z : Z)
| VInt32 (z : Z)
| VString (s : bytes)
| VUint64Array (l : list Z)
| VStringArray (l : list bytes)
| VList (l : list (bytes * Value))
| VListArray (ls : list (list (bytes * Value))).

Definition Nvlist : Type := list (bytes * Value).

Inductive nv_error :=
| EShort | ENotNative (enc : Z) | ETruncatedHeader | ETruncatedAt (pos : Z) | EBadSize (size : Z)
| EBadName (n : Z) | EValueOffset | ENegative | ETooMany | EExceeds | EDepth | EShortValue | ENoNul
| EPastRegion | EUnsupported (typ : Z) | EOutOfFuel.

(** [out[name] = v] *)
Fixpoint assign (out : Nvlist) (name : bytes) (v : Value) : Nvlist :=
  match out with
  | [] => [(name, v)]
  | (k, x) :: t => if decide (k = name) then (k, v) :: t else (k, x) :: assign t name v
  end.

Definition checkElemCount (nelem elemSize available : Z) : outcome nv_error unit :=
  if nelem <? 0 then Err ENegative
  else if maxDecodeElems <? nelem then Err ETooMany
  else if (0 <? elemSize) && (Z.quot available elemSize <? nelem) then Err EExceeds
  else Ok tt.

Definition requireBytes (val : bytes) (n : Z) : outcome nv_error unit :=
  if len val <? n then Err EShortValue else Ok tt.

Definition cstr (b : bytes) : outcome nv_error bytes :=
  match index_byte b x00 with Some i => Ok (take i b) | None => Err ENoNul end.

(** [make([]T, nelem)] for elements of [elemSize] bytes, on a machine that can
still give out [heap] bytes at once: a negative length panics, and a request
beyond the heap is fatal as well (no [recover] helps there). *)
Definition make_slice (heap elemSize nelem : Z) : outcome nv_error unit :=
  if (nelem <? 0) || (heap <? nelem * elemSize) then Panic else Ok tt.

(** Sizes of a uint64, a string header and a map reference. *)
Definition sizeofUint64 : Z := 8.
Definition sizeofString : Z := 16.
Definition sizeofMap : Z := 8.

Section decoder.

(** The memory there is, the stream's byte order and its content. *)
Context (heap : Z) (big : bool) (buf : bytes).

Definition bo_get (w : bytes) : Z := if big then be_get w else le_get w.

(** [bo.UintN(b[off:off+n])] *)
Definition uint_at {E} (n : Z) (b : bytes) (off : Z) : outcome E Z :=
  let! w := slice b off (off + n) in Ok (bo_get w).

Fixpoint uint64_array (n : nat) (i : Z) (val : bytes) : outcome nv_error (list Z) :=
  match n with
  | O => Ok []
  | S n =>
      let! v := uint_at 8 val (i * 8) in
      let! rest := uint64_array n (i + 1) val in
      Ok (v :: rest)
  end.

Fixpoint string_array (n : nat) (off : Z) (val : bytes) : outcome nv_error (list bytes) :=
  match n with
  | O => Ok []
  | S n =>
      if len val <? off then Err EPastRegion else
      let! tail := slice_from val off in
      let! s := cstr tail in
      let! rest := string_array n (off + len s + 1) val in
      Ok (s :: rest)
  end.

Definition decodeScalar (typ nelem : Z) (val : bytes) : outcome nv_error Value :=
  if typ =? dataTypeBoolean then Ok VBoolean
  else if typ =? dataTypeBooleanValue then
    let! _ := requireBytes val 4 in
    let! v := uint_at 4 val 0 in Ok (VBool (negb (v =? 0)))
  else if typ =? dataTypeByte then
    let! _ := requireBytes val 1 in
    let! b := index val 0 in Ok (VByte (b2z b))
  else if typ =? dataTypeByteArray then
    let! _ := checkElemCount nelem 1 (len val) in
    let! _ := make_slice heap 1 nelem in
    let! b := slice val 0 nelem in Ok (VByteArray (copy (zeros nelem) b))
  else if typ =? dataTypeUint8Array then
    let! _ := checkElemCount nelem 1 (len val) in
    let! _ := make_slice heap 1 nelem in
    let! b := slice val 0 nelem in Ok (VUint8Array (copy (zeros nelem) b))
  else if typ =? dataTypeUint64 then
    let! _ := requireBytes val 8 in
    let! v := uint_at 8 val 0 in Ok (VUint64 v)
  else if typ =? dataTypeInt64 then
    let! _ := requireBytes val 8 in
    let! v := uint_at 8 val 0 in Ok (VInt64 (i64 v))
  else if typ =? dataTypeUint32 then
    let! _ := requireBytes val 4 in
    let! v := uint_at 4 val 0 in Ok (VUint32 v)
  else if typ =? dataTypeInt32 then
    let! _ := requireBytes val 4 in
    let! v := uint_at 4 val 0 in Ok (VInt32 (i32 v))
  else if typ =? dataTypeString then
    let! s := cstr val in Ok (VString s)
  else if typ =? dataTypeUint64Array then
    let! _ := checkElemCount nelem 8 (len val) in
    let! _ := make_slice heap sizeofUint64 nelem in
    let! l := uint64_array (Z.to_nat nelem) 0 val in Ok (VUint64Array l)
  else if typ =? dataTypeStringArray then
    let! _ := checkElemCount nelem 8 (len val) in
    let! _ := make_slice heap sizeofString nelem in
    let! l := string_array (Z.to_nat nelem) (nelem * 8) val in Ok (VStringArray l)
  else Err (EUnsupported typ).

(** The part of [decodePair] before its type switch: name, type, element count
and the value's bytes. *)
Definition pair_header (b : bytes) (size : Z) : outcome nv_error (bytes * Z * Z * bytes) :=
  let! nameSz := uint_at 2 b 4 in
  let! ne := uint_at 4 b 8 in
  let nelem := i32 ne in
  let! ty := uint_at 4 b 12 in
  let typ := i32 ty in
  if (nameSz <? 1) || (size <? nvpairHdrLen + nameSz) then Err (EBadName nameSz) else
  let! name := slice b 16 (16 + nameSz - 1) in
  let valOff := nvAlign8 (nvpairHdrLen + nameSz) in
  if size <? valOff then Err EValueOffset else
  let! val := slice b valOff size in
  Ok (name, typ, nelem, val).

(** [n] pair streams one after the other, each decoded by [body]. *)
Fixpoint decode_many (body : Z -> outcome nv_error (Nvlist * Z)) (n : nat) (pos : Z)
  : outcome nv_error (list Nvlist * Z) :=
  match n with
  | O => Ok ([], pos)
  | S n =>
      let! ' (l, pos) := body pos in
      let! ' (ls, pos) := decode_many body n pos in
      Ok (l :: ls, pos)
  end.

(** [decodeBody] with [decodePair] in its loop: the map so far, the position,
and this list's depth. Every recursive call is further on in the buffer. *)
Fixpoint decodeBody (fuel : nat) (depth : Z) (out : Nvlist) (pos : Z) : outcome nv_error (Nvlist * Z) :=
  match fuel with
  | O => Err EOutOfFuel
  | S fuel =>
      if len buf <? pos + 4 then Err (ETruncatedAt pos) else
      let! sz := uint_at 4 buf pos in
      let size := i32 sz in
      if size =? 0 then Ok (out, pos + 4) else
      if (size <? nvpairHdrLen) || (len buf <? pos + size) then Err (EBadSize size) else
      let! b := slice buf pos (pos + size) in
      let! h := pair_header b size in
      let '(name, typ, nelem, val) := h in
      let pos := pos + size in
      if typ =? dataTypeNVList then
        if maxNVListDepth <? depth + 1 then Err EDepth else
        let! ' (l, pos) := decodeBody fuel (depth + 1) [] pos in
        decodeBody fuel depth (assign out name (VList l)) pos
      else if typ =? dataTypeNVListArray then
        let! _ := checkElemCount nelem 4 (len buf - pos) in
        if maxNVListDepth <? depth + 1 then Err EDepth else
        let! _ := make_slice heap sizeofMap nelem in
        let! ' (ls, pos) := decode_many (decodeBody fuel (depth + 1) []) (Z.to_nat nelem) pos in
        decodeBody fuel depth (assign out name (VListArray ls)) pos
      else
        let! v := decodeScalar typ nelem val in
        decodeBody fuel depth (assign out name v) pos
  end.

Definition decodeList (pos : Z) : outcome nv_error Nvlist :=
  if len buf <? pos + nvlistHdrLen then Err ETruncatedHeader else
  let! ' (l, _) := decodeBody (S (length buf)) 0 [] (pos + nvlistHdrLen) in Ok l.

End decoder.

Definition DecodeNative (heap : Z) (b : bytes) : outcome nv_error Nvlist :=
  if len b <? 4 then Err EShort else
  let! enc := index b 0 in
  let! end_ := index b 1 in
  if negb (b2z enc =? nvEncodeNative) then Err (ENotNative (b2z enc)) else
  decodeList heap (b2z end_ =? nvBigEndian) b 4.

(** ** Nesting *)

Definition max_of {A} (f : A -> Z) (l : list A) : Z := fold_right (fun a m => Z.max (f a) m) 0 l.

(** How deep lists are nested inside a value. *)
Fixpoint vdepth (v : Value) : Z :=
  match v with
  | VList l => 1 + max_of (fun p => vdepth (snd p)) l
  | VListArray ls => 1 + max_of (fun l => max_of (fun p => vdepth (snd p)) l) ls
  | _ => 0
  end.

Definition ndepth (l : Nvlist) : Z := max_of (fun p => vdepth (snd p)) l.

Lemma max_of_nonneg {A} (f : A -> Z) l : 0 <= max_of f l.
Proof. induction l as [|a l IH]; [done|]. change (max_of f (a :: l)) with (Z.max (f a) (max_of f l)). lia. Qed.

Lemma ndepth_cons k v l : ndepth ((k, v) :: l) = Z.max (vdepth v) (ndepth l).
Proof. done. Qed.

Lemma ndepth_assign out name v : ndepth (assign out name v) <= Z.max (ndepth out) (vdepth v).
Proof.
  induction out as [|[k x] out IH]; cbn [assign]; [rewrite ndepth_cons; change (ndepth []) with 0; lia|].
  case_decide; rewrite !ndepth_cons; lia.
Qed.

(** ** Lemmas *)

Section decoder_lemmas.
Context (heap : Z) (big : bool) (buf : bytes).

Lemma uint_at_ok {E} n b off : 0 <= off -> 0 <= n -> off + n <= len b -> exists v, uint_at (E:=E) big n b off = Ok v.
Proof. intros. unfold uint_at. rewrite slice_ok by lia. cbn. eauto. Qed.

(** A result that is a value or a clean decode error. *)
Definition clean {A} (r : outcome nv_error A) : Prop :=
  match r with Ok _ => True | Err e => e <> EOutOfFuel | Panic => False end.

Lemma clean_bind {A B} (c : outcome nv_error A) (k : A -> outcome nv_error B) :
  clean c -> (forall a, c = Ok a -> clean (k a)) -> clean (obind c k).
Proof. destruct c; cbn; auto. Qed.

Lemma clean_uint n b off : 0 <= off -> 0 <= n -> off + n <= len b -> clean (uint_at big n b off).
Proof. intros. destruct (@uint_at_ok nv_error n b off) as [v ->]; done. Qed.

Lemma clean_slice {A} (l : list A) lo hi : 0 <= lo -> lo <= hi -> hi <= len l -> clean (slice l lo hi).
Proof. intros. by rewrite slice_ok. Qed.

Lemma clean_elems nelem sz avail : clean (checkElemCount nelem sz avail).
Proof. unfold checkElemCount. by repeat case_match. Qed.

Lemma elems_ok nelem sz avail u :
  0 < sz -> 0 <= avail -> checkElemCount nelem sz avail = Ok u -> 0 <= nelem <= maxDecodeElems /\ nelem * sz <= avail.
Proof.
  intros Hs Ha. unfold checkElemCount. destruct (nelem <? 0) eqn:E1; [done|]. destruct (maxDecodeElems <? nelem) eqn:E2; [done|].
  rewrite (proj2 (Z.ltb_lt 0 sz) Hs). cbn [andb]. destruct (Z.quot avail sz <? nelem) eqn:E3; [done|]. zb. intros _.
  split; [lia|]. rewrite Z.quot_div_nonneg in E3 by lia. pose proof (Z.mul_div_le avail sz Hs). nia.
Qed.

Lemma clean_make elemSize nelem : 0 <= nelem -> nelem * elemSize <= heap -> clean (make_slice heap elemSize nelem).
Proof. intros. unfold make_slice. by rewrite (proj2 (Z.ltb_ge _ _)), (proj2 (Z.ltb_ge _ _)) by lia. Qed.

Lemma clean_require val n : clean (requireBytes val n).
Proof. unfold requireBytes. by case_match. Qed.

Lemma require_ok val n u : requireBytes val n = Ok u -> n <= len val.
Proof. unfold requireBytes. destruct (len val <? n) eqn:E; [done|]. zb. done. Qed.

Lemma clean_cstr b : clean (cstr b).
Proof. unfold cstr. by destruct (index_byte b x00). Qed.

Lemma clean_uint64_array n i val : 0 <= i -> (i + Z.of_nat n) * 8 <= len val -> clean (uint64_array big n i val).
Proof.
  revert i. induction n as [|n IH]; intros i Hi Hl; [done|]. cbn [uint64_array].
  apply clean_bind; [apply clean_uint; lia|]. intros v _. apply clean_bind; [apply IH; lia|done].
Qed.

Lemma clean_string_array n off val : 0 <= off -> clean (string_array n off val).
Proof.
  revert off. induction n as [|n IH]; intros off Ho; [done|]. cbn [string_array].
  destruct (len val <? off) eqn:E; [done|]. zb.
  apply clean_bind; [apply clean_slice; lia|]. intros tail _.
  apply clean_bind; [apply clean_cstr|]. intros s _. pose proof (len_nonneg s).
  apply clean_bind; [apply IH; lia|done].
Qed.

Lemma clean_index (l : bytes) i : 0 <= i < len l -> clean (index l i).
Proof. intros H. destruct (@index_ok nv_error byte l i H) as (b & -> & _). done. Qed.

Lemma decodeScalar_clean typ nelem val : 2 * len val <= heap -> clean (decodeScalar heap big typ nelem val).
Proof.
  intros Hheap. pose proof (len_nonneg val). unfold decodeScalar.
  repeat match goal with
  | |- clean (if ?b then _ else _) => destruct b
  | |- clean (obind (requireBytes _ _) _) =>
      apply clean_bind; [apply clean_require|]; let u := fresh in intros u ?Hr; apply require_ok in Hr
  | |- clean (obind (checkElemCount _ _ _) _) =>
      apply clean_bind; [apply clean_elems|]; let u := fresh in intros u ?He; apply elems_ok in He; [|lia|lia]
  | |- clean (obind (make_slice _ _ _) _) =>
      apply clean_bind; [apply clean_make; unfold sizeofUint64, sizeofString; lia|]; intros ? _
  | |- clean (obind (uint_at _ _ _ _) _) => apply clean_bind; [apply clean_uint; lia|]; intros ? _
  | |- clean (obind (slice _ _ _) _) => apply clean_bind; [apply clean_slice; lia|]; intros ? _
  | |- clean (obind (index _ _) _) => apply clean_bind; [apply clean_index; lia|]; intros ? _
  | |- clean (obind (cstr _) _) => apply clean_bind; [apply clean_cstr|]; intros ? _
  | |- clean (obind (uint64_array _ _ _ _) _) => apply clean_bind; [apply clean_uint64_array; lia|]; intros ? _
  | |- clean (obind (string_array _ _ _) _) => apply clean_bind; [apply clean_string_array; lia|]; intros ? _
  end; done.
Qed.

Lemma decodeScalar_depth typ nelem val v : decodeScalar heap big typ nelem val = Ok v -> vdepth v = 0.
Proof.
  unfold decodeScalar. intros H.
  repeat match type of H with
  | (if ?b then _ else _) = Ok _ => destruct b
  | obind ?c _ = Ok _ => apply obind_ok_inv in H as (? & _ & H)
  end; simplify_eq; done.
Qed.

Lemma align8_nonneg n : 0 <= n -> n <= nvAlign8 n.
Proof.
  intros Hn. unfold nvAlign8. change 7 with (Z.ones 3) at 2.
  rewrite Z.ldiff_ones_r by lia. rewrite Z.shiftl_mul_pow2, Z.shiftr_div_pow2 by lia.
  change (2 ^ 3) with 8. pose proof (Z.div_mod (n + 7) 8 ltac:(lia)). pose proof (Z.mod_pos_bound (n + 7) 8 ltac:(lia)). lia.
Qed.

Lemma bo_get_nonneg w : 0 <= bo_get big w.
Proof. unfold bo_get, be_get. destruct big; apply le_get_range. Qed.

Lemma pair_header_clean b size : len b = size -> nvpairHdrLen <= size -> clean (pair_header big b size).
Proof.
  intros Hl Hs. unfold nvpairHdrLen in *. unfold pair_header, nvpairHdrLen.
  apply clean_bind; [apply clean_uint; lia|]. intros nameSz Hn.
  apply clean_bind; [apply clean_uint; lia|]. intros ne _.
  apply clean_bind; [apply clean_uint; lia|]. intros ty _.
  destruct ((nameSz <? 1) || (size <? 16 + nameSz)) eqn:E; [done|]. zb.
  apply clean_bind; [apply clean_slice; lia|]. intros name _.
  pose proof (align8_nonneg (16 + nameSz) ltac:(lia)).
  destruct (size <? nvAlign8 (16 + nameSz)) eqn:E2; [done|]. zb.
  apply clean_bind; [apply clean_slice; lia|done].
Qed.

Lemma pair_header_val b size name typ nelem val :
  size <= len b -> pair_header big b size = Ok (name, typ, nelem, val) -> len val <= len b.
Proof.
  intros Hs. unfold pair_header. intros (ns & _ & (ne & _ & (ty & _ & H)%obind_ok_inv)%obind_ok_inv)%obind_ok_inv.
  destruct (_ || _); [done|]. apply obind_ok_inv in H as (nm & _ & H). destruct (size <? _); [done|].
  apply obind_ok_inv in H as (v & H & [= _ _ _ <-]). apply slice_inv in H. lia.
Qed.

(** The result of decoding a body at [pos] of a list at depth [depth]. *)
Definition body_ok (depth pos : Z) (r : outcome nv_error (Nvlist * Z)) : Prop :=
  match r with
  | Ok (l, pos') => pos < pos' <= len buf /\ ndepth l + depth <= maxNVListDepth
  | Err e => e <> EOutOfFuel
  | Panic => False
  end.

Definition many_ok (depth pos : Z) (r : outcome nv_error (list Nvlist * Z)) : Prop :=
  match r with
  | Ok (ls, pos') => pos <= pos' <= len buf /\ max_of ndepth ls + depth <= maxNVListDepth
  | Err e => e <> EOutOfFuel
  | Panic => False
  end.

Lemma decode_many_ok body depth n pos :
  depth <= maxNVListDepth -> pos <= len buf ->
  (forall p, pos <= p <= len buf -> body_ok depth p (body p)) ->
  many_ok depth pos (decode_many body n pos).
Proof.
  intros Hd. revert pos. induction n as [|n IH]; intros pos Hp Hb; cbn [decode_many].
  - cbn. lia.
  - pose proof (Hb pos ltac:(lia)) as H. destruct (body pos) as [[l p']|e|]; cbn [obind body_ok] in *; [|done|done].
    destruct H as [H1 H2]. assert (many_ok depth p' (decode_many body n p')) as Hm.
    { apply IH; [lia|]. intros p Hp'. apply Hb. lia. }
    destruct (decode_many body n p') as [[ls p'']|e|]; cbn [obind many_ok] in *; [|done|done].
    change (max_of ndepth (l :: ls)) with (Z.max (ndepth l) (max_of ndepth ls)). lia.
Qed.

Lemma body_bind {A} depth pos (c : outcome nv_error A) k :
  clean c -> (forall a, c = Ok a -> body_ok depth pos (k a)) -> body_ok depth pos (obind c k).
Proof. destruct c; cbn; auto. Qed.

(** Continuing at a later position. *)
Lemma body_later depth pos pos' r : pos <= pos' -> body_ok depth pos' r -> body_ok depth pos r.
Proof. intros Hp. destruct r as [[l p]|e|]; cbn; [lia|done|done]. Qed.

Lemma decodeBody_ok fuel depth out pos :
  2 * len buf <= heap ->
  0 <= depth <= maxNVListDepth -> 0 <= pos <= len buf -> len buf - pos < Z.of_nat fuel ->
  ndepth out + depth <= maxNVListDepth ->
  body_ok depth pos (decodeBody heap big buf fuel depth out pos).
Proof.
  intros Hheap. revert depth out pos. induction fuel as [|fuel IH]; intros depth out pos Hd Hp Hf Ho; [lia|].
  cbn [decodeBody]. destruct (len buf <? pos + 4) eqn:E1; [done|]. zb.
  destruct (@uint_at_ok nv_error 4 buf pos) as [sz ->]; [lia|lia|lia|]. cbn [obind].
  destruct (i32 sz =? 0) eqn:E2; [cbn; lia|].
  destruct ((i32 sz <? nvpairHdrLen) || (len buf <? pos + i32 sz)) eqn:E3; [done|]. zb.
  generalize dependent (i32 sz). clear sz. intros size E2 Hs1 Hs2. unfold nvpairHdrLen in Hs1.
  rewrite slice_ok by lia. cbn [obind].
  apply body_bind; [apply pair_header_clean; [rewrite len_sub; lia|unfold nvpairHdrLen; lia]|].
  intros [[[name typ] nelem] val] Hval. apply pair_header_val in Hval; [|rewrite len_sub; lia].
  rewrite len_sub in Hval by lia.
  assert (forall v p, pos < p <= len buf -> vdepth v + depth <= maxNVListDepth ->
            body_ok depth pos (decodeBody heap big buf fuel depth (assign out name v) p)) as Hnext.
  { intros v p Hp' Hv. apply (body_later depth pos p); [lia|]. apply IH; [lia|lia|lia|].
    pose proof (ndepth_assign out name v). lia. }
  destruct (typ =? dataTypeNVList).
  - destruct (maxNVListDepth <? depth + 1) eqn:E4; [done|]. zb.
    pose proof (IH (depth + 1) [] (pos + size)) as Hb. change (ndepth []) with 0 in Hb.
    specialize (Hb ltac:(lia) ltac:(lia) ltac:(lia) ltac:(lia)).
    destruct (decodeBody heap big buf fuel (depth + 1) [] (pos + size)) as [[l p]|e|]; cbn [obind body_ok] in *; [|done|done].
    apply Hnext; [lia|]. change (vdepth (VList l)) with (1 + ndepth l). lia.
  - destruct (typ =? dataTypeNVListArray).
    + apply body_bind; [apply clean_elems|]. intros u Hu%elems_ok; [|lia|lia].
      destruct (maxNVListDepth <? depth + 1) eqn:E4; [done|]. zb.
      apply body_bind; [apply clean_make; unfold sizeofMap; lia|]. intros _ _.
      pose proof (decode_many_ok (decodeBody heap big buf fuel (depth + 1) []) (depth + 1) (Z.to_nat nelem) (pos + size)) as Hm.
      specialize (Hm ltac:(lia) ltac:(lia)).
      destruct (decode_many _ _ _) as [[ls p]|e|]; cbn [obind many_ok] in *.
      * destruct Hm as [H1 H2]; [intros q Hq; apply IH; change (ndepth []) with 0; lia|].
        apply Hnext; [lia|]. change (vdepth (VListArray ls)) with (1 + max_of ndepth ls). lia.
      * apply Hm. intros q Hq. apply IH; change (ndepth []) with 0; lia.
      * apply Hm. intros q Hq. apply IH; change (ndepth []) with 0; lia.
    + apply body_bind; [apply decodeScalar_clean; lia|]. intros v Hv. apply decodeScalar_depth in Hv.
      apply Hnext; lia.
Qed.

End decoder_lemmas.

Lemma DecodeNative_bounded heap (b : bytes) :
  2 * len b <= heap ->
  match DecodeNative heap b with
  | Ok l => ndepth l <= maxNVListDepth
  | Err e => e <> EOutOfFuel
  | Panic => False
  end.
Proof.
  intros Hheap. unfold DecodeNative. destruct (len b <? 4) eqn:E; [done|]. zb.
  destruct (@index_ok nv_error byte b 0) as (enc & -> & _); [lia|].
  destruct (@index_ok nv_error byte b 1) as (e1 & -> & _); [lia|]. cbn [obind].
  destruct (negb _); [done|]. unfold decodeList, nvlistHdrLen.
  destruct (len b <? 4 + 8) eqn:E2; [done|]. zb.
  pose proof (decodeBody_ok heap (b2z e1 =? nvBigEndian) b (S (length b)) 0 [] (4 + 8) Hheap) as H.
  change (ndepth []) with 0 in H. unfold maxNVListDepth, len in *.
  specialize (H ltac:(lia) ltac:(lia) ltac:(lia) ltac:(lia)).
  destruct (decodeBody _ _ _ _ _ _ _) as [[l p]|e|]; cbn [obind body_ok] in *; [|done|done]. unfold maxNVListDepth in H. lia.
Qed.

(** C39 - The decoder is total and bounded: for every buffer the kernel could
hand back, [DecodeNative] ends (one step of fuel per byte is enough), and either
reports a decode error or returns a list nested at most 64 deep. It never
panics: not on an index or a slice, and not in a [make] with a count off the
wire, which is never negative and never asks for more than twice the bytes of
the buffer, so that a heap of that size is enough for each allocation. *)
Theorem DecodeNative_total heap (b : bytes) (Hheap : 2 * len b <= heap) :
  match DecodeNative heap b with
  | Ok l => ndepth l <= maxNVListDepth
  | Err e => e <> EOutOfFuel
  | Panic => False
  end.
Proof. by apply DecodeNative_bounded. Qed.

(** A pool configuration with a number, a string and a nested list. *)
Definition nv_pair (name : bytes) (typ nelem : Z) (val : bytes) : bytes :=
  let pad := zeros (nvAlign8 (16 + len name + 1) - (16 + len name + 1)) in
  let vpad := zeros (nvAlign8 (len val) - len val) in
  let size := nvAlign8 (16 + len name + 1) + nvAlign8 (len val) in
  le_put 4 size ++ le_put 2 (len name + 1) ++ [x00; x00] ++ le_put 4 nelem ++ le_put 4 typ
  ++ name ++ [x00] ++ pad ++ val ++ vpad.

Definition nv_message (pairs : bytes) : bytes := [x00; x01; x00; x00] ++ zeros 8 ++ pairs ++ zeros 4.

Example nv_sample :
  DecodeNative 1000 (nv_message (nv_pair (bs "txg") dataTypeUint64 1 (le_put 8 77)
    ++ nv_pair (bs "name") dataTypeString 1 (bs "rpool" ++ [x00])
    ++ nv_pair (bs "vdev_tree") dataTypeNVList 1 (zeros 24)
    ++ nv_pair (bs "id") dataTypeInt32 1 (le_put 4 (2 ^ 32 - 5)) ++ zeros 4))
  = Ok [(bs "txg", VUint64 77); (bs "name", VString (bs "rpool")); (bs "vdev_tree", VList [(bs "id", VInt32 (-5))])].
Proof. vm_compute. reflexivity. Qed.

(** An array of lists with an element count of -1, and one of strings with 2^31 - 1. *)
Definition nv_hostile (typ nelem : Z) : bytes := nv_message (nv_pair (bs "children") typ nelem (zeros 24)).

Lemma DecodeNative_total_witness :
  DecodeNative (2 * 80) (nv_hostile dataTypeNVListArray (2 ^ 32 - 1)) = Err ENegative /\
  DecodeNative (2 * 80) (nv_hostile dataTypeStringArray (2 ^ 31 - 1)) = Err ETooMany /\
  DecodeNative (2 * 80) (nv_hostile dataTypeNVListArray (2 ^ 32 - 1)) <> Panic.
Proof.
  split; [vm_compute; reflexivity|]. split; [vm_compute; reflexivity|]. intros H.
  assert (2 * len (nv_hostile dataTypeNVListArray (2 ^ 32 - 1)) <= 2 * 80) as Hl by (vm_compute; discriminate).
  pose proof (DecodeNative_total (2 * 80) _ Hl) as Hd. by rewrite H in Hd.
Defined.
