(* ===== verification/CmdLine.v ===== *)
(** * The kernel command line

internal/cmdline (reading a build's own words), cmd/tool/int13chunk.go and the
command-line helpers of cmd/tool/mirror.go and main.go: every place that reads
or edits the words of CMDLINE. *)

From Stdlib Require Import ZArith Lia Strings.Byte.
From stdpp Require Import base list gmap.
From S2P Require Import Prelude GoStrings Layout World EspConfig PayloadSum.
Local Open Scope Z_scope.

(** ** internal/cmdline *)

Record Info := mkInfo {
  iArch : bytes; iConsole : bytes; iVersion : bytes; iBuildStamp : bytes; iPool : bytes; iTimeout : bytes; iRaw : bytes
}.

(** [if i := strings.IndexByte(s, c); i >= 0 { s = s[:i] }] *)
Definition before (c : byte) (s : bytes) : bytes :=
  match index_byte s c with Some i => take i s | None => s end.

Definition firstLine (raw : bytes) : bytes := before x0a (before x00 raw).

Definition consoleFromCmdline (line : bytes) : bytes :=
  join [x20] (omap (fun tok => cut_prefix tok (bs "console=")) (fields line)).

(** The first of some words that starts with [prefix], without it. *)
Fixpoint first_value (prefix : bytes) (words : list bytes) : option bytes :=
  match words with
  | [] => None
  | w :: t => match cut_prefix w prefix with Some v => Some v | None => first_value prefix t end
  end.

Definition valueOf (line key : bytes) : bytes := default [] (first_value (key ++ bs "=") (fields line)).

Definition ParseText (raw : bytes) : Info :=
  let line := firstLine raw in
  mkInfo [] (consoleFromCmdline line) (valueOf line (bs "alpine-zfsboot.version"))
    (valueOf line (bs "alpine-zfsboot.buildstamp")) (valueOf line (bs "alpine-zfsboot.pool"))
    (valueOf line (bs "alpine-zfsboot.timeout")) line.

Inductive cmdline_error := ENoBuildStamp | EMachine (m : Z) | EInt13Chunk (v : bytes) | ECmdlineLength (n : Z).

(** [parse] returns the information also with its error. *)
Definition parse (arch raw : bytes) : Info * outcome cmdline_error unit :=
  let line := firstLine raw in
  let info := mkInfo arch (consoleFromCmdline line) (valueOf line (bs "alpine-zfsboot.version"))
    (valueOf line (bs "alpine-zfsboot.buildstamp")) (valueOf line (bs "alpine-zfsboot.pool"))
    (valueOf line (bs "alpine-zfsboot.timeout")) line in
  (info, if beq (iBuildStamp info) [] then Err ENoBuildStamp else Ok tt).

Definition archFromMachine (m : Z) : outcome cmdline_error bytes :=
  if m =? 0x8664 then Ok (bs "x86_64")
  else if m =? 0xaa64 then Ok (bs "aarch64")
  else Err (EMachine m).

(** ** int13chunk.go *)

Definition all_digits (v : bytes) : bool := beq (trim_left v digits) [].

Definition parseInt13Chunk (v : bytes) : outcome cmdline_error bytes :=
  if beq v (bs "default") then Ok [] else
  match atoi v with
  | Some n => if (n <? 1) || (Int13ChunkMax <? n) || negb (all_digits v) then Err (EInt13Chunk v) else Ok (itoa n)
  | None => Err (EInt13Chunk v)
  end.

Definition firstCmdlineLine (s : bytes) : bytes := before x0a s.

(** The value and whether stage2 accepts it. *)
Definition cmdlineInt13Chunk (cmd : bytes) : bytes * bool :=
  match first_value (Int13ChunkKey ++ bs "=") (fields (firstCmdlineLine cmd)) with
  | Some v =>
      (v, match atoi v with
          | Some n => (1 <=? n) && (n <=? Int13ChunkMax) && (len v <=? 5) && all_digits v
          | None => false
          end)
  | None => ([], false)
  end.

(** The first line and the rest with its newline. *)
Definition split_first (s : bytes) : bytes * bytes :=
  match index_byte s x0a with Some i => (take i s, drop i s) | None => (s, []) end.

Definition setCmdlineInt13Chunk (raw value : bytes) : bytes :=
  let '(line, rest) := split_first raw in
  let words := List.filter (fun w => negb (has_prefix w (Int13ChunkKey ++ bs "="))) (split x20 line) in
  let line := join [x20] words in
  let line := if negb (beq value []) then trim_right line [x20] ++ bs " " ++ Int13ChunkKey ++ bs "=" ++ value else line in
  line ++ rest.

(** ** mirror.go *)

(** The value of the last such word. *)
Definition cmdlineValue (line key : bytes) : bytes :=
  fold_left (fun v w => match cut_prefix w (key ++ bs "=") with Some x => x | None => v end)
    (fields (firstCmdlineLine line)) [].

Definition setCmdlineWord (raw key value : bytes) : bytes :=
  let '(line, rest) := split_first raw in
  let words := List.filter (fun w => negb (has_prefix w (key ++ bs "="))) (fields line) in
  let words := if negb (beq value []) then words ++ [key ++ bs "=" ++ value] else words in
  join [x20] words ++ rest.

Definition stripMirrorWords (raw : bytes) : bytes :=
  setCmdlineWord (setCmdlineWord raw ESPSelfKey []) ESPUUIDsKey [].

Definition checkCmdlineLength (raw : bytes) : outcome cmdline_error unit :=
  if CmdlineMaxBytes <? len raw then Err (ECmdlineLength (len raw)) else Ok tt.

(** ** main.go *)

Definition cmdlineIntegrity (cmd : bytes) : bytes :=
  match first_value (bs "alpine-zfsboot.integrity=") (fields cmd) with
  | Some v => if ValidMode v then v else []
  | None => []
  end.

Section files.
Context {O : Oracle}.

Definition installedInt13Chunk (mountpoint : bytes) : io bytes :=
  do r := attempt (readFile mountpoint CmdlineFile) in
  match r with
  | Ok raw => let '(v, ok) := cmdlineInt13Chunk raw in ret (if ok then v else [])
  | Err _ => ret []
  | Panic => lift Panic
  end.

Definition lift_cmdline {A} (r : outcome cmdline_error A) : io A :=
  match r with Ok a => ret a | Err _ => throw (ERefused CmdlineFile) | Panic => lift Panic end.

Definition setInt13Chunk (mountpoint value : bytes) : io unit :=
  do raw := wrap CmdlineFile (readFile mountpoint CmdlineFile) in
  let out := setCmdlineInt13Chunk raw value in
  if beq out raw then ret tt else
  run lift_cmdline (checkCmdlineLength out) then
  WriteFile mountpoint CmdlineFile out.

Definition verifyPayloadIgnoringMirrorWords (mountpoint kernel initrd cmdlineBytes : bytes) : io unit :=
  run VerifyFile mountpoint KernelFile kernel then
  run VerifyFile mountpoint InitrdFile initrd then
  do got := wrap CmdlineFile (readFile mountpoint CmdlineFile) in
  if beq (stripMirrorWords got) (stripMirrorWords cmdlineBytes) then ret tt else throw (EMismatch CmdlineFile).

Definition effectiveIntegrity (mountpoint checksumMode : bytes) : io bytes :=
  do r := attempt (readFile mountpoint CmdlineFile) in
  match r with
  | Ok raw => let v := cmdlineIntegrity raw in ret (if beq v [] then checksumMode else v)
  | Err _ => ret checksumMode
  | Panic => lift Panic
  end.

Definition checkBIOSUpToDate (mountpoint newBuildStamp : bytes) : io (bytes * bool) :=
  do r := attempt (readFile mountpoint CmdlineFile) in
  match r with
  | Ok installed =>
      let stamp := iBuildStamp (ParseText installed) in
      if beq stamp [] then ret ([], false) else ret (stamp, negb (bytes_ltb stamp newBuildStamp))
  | Err _ => ret ([], false)
  | Panic => lift Panic
  end.

(** ** The INT 13h transfer cap in status *)

Definition int13FATBatch : Z := 32.

(** The texts of [int13ChunkStatus]. *)
Inductive int13_status :=
| NotConfigurable
| BuildDefault
| InvalidIgnored (v : bytes)
| CappedTo (requested effective : Z)
| InEffect (v : bytes).

(** [strconv.Atoi]'s value, 0 with an error. *)
Definition atoi_value (v : bytes) : Z := default 0 (atoi v).

Definition int13ChunkStatus (cmdlineRaw : bytes) (stage2 : option bytes) : int13_status :=
  let old := match stage2 with Some s2 => negb (contains s2 (Int13ChunkKey ++ bs "=")) | None => false end in
  if old then NotConfigurable else
  let (v, valid) := cmdlineInt13Chunk cmdlineRaw in
  if beq v [] then BuildDefault
  else if negb valid then InvalidIgnored v
  else if int13FATBatch <? atoi_value v then CappedTo (atoi_value v) int13FATBatch
  else InEffect v.

Record biosOpts := mkBiosOpts { o_force : bool; o_integrity : bytes; o_integritySet : bool; o_int13chunk : bytes }.

Definition applyInt13Chunk (cmdlineTxt mountpoint : bytes) (opts : biosOpts) : io bytes :=
  if negb (beq (o_int13chunk opts) []) then
    do v := lift_cmdline (parseInt13Chunk (o_int13chunk opts)) in ret (setCmdlineInt13Chunk cmdlineTxt v)
  else if negb (beq mountpoint []) then
    do v := installedInt13Chunk mountpoint in
    ret (if negb (beq v []) then setCmdlineInt13Chunk cmdlineTxt v else cmdlineTxt)
  else ret cmdlineTxt.

Definition updateIntegrityMode (mountpoint : bytes) (opts : biosOpts) : io bytes :=
  if o_integritySet opts then ret (o_integrity opts) else
  do r := attempt (readFile mountpoint PayloadSumFile) in
  match r with
  | Ok raw =>
      match Decode raw with
      | Ok m => ret (Mode m)
      | Err _ => ret ModeWarn
      | Panic => lift Panic
      end
  | Err _ => ret ModeWarn
  | Panic => lift Panic
  end.

(** [cmdlineEditor]: the CMDLINE for one ESP. [src] is the mountpoint of the
source member when it is another one. *)
Definition cmdlineEditor (explicitList : option (list bytes)) (mountpoint uuid : bytes) (src : option bytes)
    (opts : biosOpts) (c : bytes) : io bytes :=
  do r := attempt (readFile mountpoint CmdlineFile) in
  let installed := match r with Ok b => b | _ => [] end in
  do p := (match src with
           | Some s =>
               if beq installed [] then
                 do r := attempt (readFile s CmdlineFile) in
                 let from := match r with Ok b => b | _ => [] end in
                 let v := cmdlineValue from Int13ChunkKey in
                 ret (from, if beq (o_int13chunk opts) [] && negb (beq v []) then setCmdlineWord c Int13ChunkKey v else c)
               else ret (installed, c)
           | None => ret (installed, c)
           end) in
  let '(from, c) := p in
  let list := match explicitList with Some l => join (bs ",") l | None => cmdlineValue from ESPUUIDsKey end in
  let c := setCmdlineWord c ESPUUIDsKey list in
  let c := setCmdlineWord c ESPSelfKey uuid in
  run lift_cmdline (checkCmdlineLength c) then ret c.

End files.

(** ** Words

A word: no white-space character starts at any position of it. *)
Definition is_word (w : bytes) : Prop := w <> [] /\ forall i, (i < length w)%nat -> space_len (drop i w) = O.

(** A space at the front is decided by the bytes it is made of. *)
Lemma space_len_app x y : space_len x <> O -> space_len (x ++ y) = space_len x.
Proof.
  destruct x as [|a [|b [|c x]]]; cbn [space_len app]; try done.
  - destruct (is_space1 a); done.
  - destruct (is_space1 a); [done|]. destruct (is_space2 a b); done.
Qed.

Lemma space_len_before_space x t : x <> [] -> space_len x = O -> space_len (x ++ x20 :: t) = O.
Proof.
  destruct x as [|a [|b [|c x]]]; [done| | |]; intros _; cbn [space_len app].
  - destruct (is_space1 a); [done|]. intros _.
    assert (is_space2 a x20 = false) as -> by (by destruct a).
    destruct t as [|d t]; [done|]. assert (is_space3 a x20 d = false) as -> by (by destruct a). done.
  - destruct (is_space1 a); [done|]. destruct (is_space2 a b); [done|]. intros _.
    assert (is_space3 a b x20 = false) as ->; [|done].
    unfold is_space3. change (128 <=? b2z x20) with false. cbn [andb orb].
    assert (bool_decide (x20 ∈ [xa8; xa9; xaf]) = false) as -> by (vm_compute; reflexivity).
    change (bool_decide (x20 = x80)) with false. change (bool_decide (x20 = x9f)) with false.
    by rewrite !andb_false_r.
  - done.
Qed.

Lemma word_tail b w : is_word (b :: w) -> w <> [] -> is_word w.
Proof. intros [_ H] Hne. split; [done|]. intros i Hi. apply (H (S i)). cbn. lia. Qed.

(** Reading a word that a space follows, or that ends the text. *)
Lemma fields_from_is_word acc w t :
  is_word w -> fields_from O acc (w ++ x20 :: t) = flush (acc ++ w) ++ fields_from O [] t.
Proof.
  revert acc. induction w as [|b w IH]; intros acc H; [by destruct H|].
  cbn [app fields_from]. pose proof (proj2 H O ltac:(cbn; lia)) as H0. cbn [drop] in H0.
  change (b :: w ++ x20 :: t) with ((b :: w) ++ x20 :: t). rewrite space_len_before_space by done.
  destruct w as [|c w].
  - cbn [app fields_from]. change (space_len (x20 :: t)) with 1%nat. done.
  - rewrite IH by (by eapply word_tail). by rewrite <-app_assoc.
Qed.

Lemma fields_from_last acc w : is_word w -> fields_from O acc w = flush (acc ++ w).
Proof.
  revert acc. induction w as [|b w IH]; intros acc H; [by destruct H|].
  cbn [fields_from]. pose proof (proj2 H O ltac:(cbn; lia)) as H0. cbn [drop] in H0. rewrite H0.
  destruct w as [|c w]; [done|]. rewrite IH by (by eapply word_tail). by rewrite <-app_assoc.
Qed.

Lemma fields_join_words ws : Forall is_word ws -> fields (join [x20] ws) = ws.
Proof.
  unfold fields. induction 1 as [|w ws Hw H IH]; [done|]. destruct ws as [|w' ws].
  - cbn [join]. rewrite fields_from_last by done. cbn [app]. destruct w; [by destruct Hw|done].
  - rewrite join_cons by done. change ([x20] ++ join [x20] (w' :: ws)) with (x20 :: join [x20] (w' :: ws)).
    rewrite fields_from_is_word by done. rewrite IH. destruct w; [by destruct Hw|done].
Qed.

(** The fields of a text are words. *)
Lemma fields_from_words s skip acc :
  (forall i, (i < length acc)%nat -> space_len (drop i (acc ++ s)) = O) -> (skip <> O -> acc = []) ->
  Forall is_word (fields_from skip acc s).
Proof.
  revert skip acc. induction s as [|b s IH]; intros skip acc H Hs.
  - cbn. destruct acc as [|a acc]; [constructor|]. apply Forall_singleton. split; [done|].
    intros i Hi. specialize (H i Hi). by rewrite app_nil_r in H.
  - assert (acc <> [] -> is_word acc) as Hacc.
    { intros Hne. split; [done|]. intros i Hi. specialize (H i Hi).
      destruct (space_len (drop i acc)) eqn:E; [done|]. rewrite drop_app_le in H by lia.
      rewrite space_len_app in H by congruence. congruence. }
    cbn [fields_from]. destruct skip as [|k].
    + destruct (space_len (b :: s)) as [|k] eqn:E.
      * apply IH; [|done]. intros i Hi. rewrite <-app_assoc. cbn [app].
        destruct (decide (i < length acc)%nat) as [Hlt|Hge]; [by apply H|].
        assert (i = length acc) as -> by (rewrite length_app in Hi; cbn in Hi; lia).
        rewrite drop_app_length. exact E.
      * apply Forall_app. split; [|by apply IH; [intros i Hi; cbn in Hi; lia|]].
        destruct acc as [|a acc]; [constructor|]. apply Forall_singleton. by apply Hacc.
    + rewrite (Hs ltac:(done)) in *. apply IH; [intros i Hi; cbn in Hi; lia|done].
Qed.

Lemma fields_words s : Forall is_word (fields s).
Proof. apply fields_from_words; [intros i Hi; cbn in Hi; lia|done]. Qed.

(** No word contains a newline. *)
Lemma word_no_newline w : is_word w -> x0a ∉ w.
Proof.
  intros [_ H] Hin. apply list_elem_of_lookup in Hin as [i Hi].
  pose proof (lookup_lt_Some _ _ _ Hi) as Hlt. specialize (H i Hlt).
  rewrite (drop_S _ _ _ Hi) in H. done.
Qed.

Lemma join_no_newline ws : Forall is_word ws -> x0a ∉ join [x20] ws.
Proof.
  induction 1 as [|w ws Hw H IH]; [apply not_elem_of_nil|]. destruct ws as [|w' ws]; [by apply word_no_newline|].
  rewrite join_cons by done. rewrite !not_elem_of_app. split_and!; [by apply word_no_newline| |done].
  by intros ?%list_elem_of_singleton.
Qed.

(** ** The text as a list of words and a rest *)

Definition rest_shape (rest : bytes) : Prop := rest = [] \/ exists r, rest = x0a :: r.

Definition word_of (key value : bytes) : bytes := key ++ bs "=" ++ value.

Definition edit (key value : bytes) (ws : list bytes) : list bytes :=
  let kept := List.filter (fun w => negb (has_prefix w (key ++ bs "="))) ws in
  if negb (beq value []) then kept ++ [word_of key value] else kept.

(** A value that may be set: nothing, or one that makes a word with its key. *)
Definition settable (key value : bytes) : Prop := value = [] \/ is_word (word_of key value).

Lemma index_byte_absent s c : c ∉ s -> index_byte s c = None.
Proof.
  induction s as [|b s IH]; [done|]. intros [Hb Hs]%not_elem_of_cons. cbn.
  rewrite decide_False by congruence. by rewrite IH.
Qed.

Lemma index_byte_app s c r : c ∉ s -> index_byte (s ++ c :: r) c = Some (length s).
Proof.
  induction s as [|b s IH]; cbn; [by rewrite decide_True|]. intros [Hb Hs]%not_elem_of_cons.
  rewrite decide_False by congruence. by rewrite IH.
Qed.

Lemma split_first_text s rest : x0a ∉ s -> rest_shape rest -> split_first (s ++ rest) = (s, rest).
Proof.
  intros Hs [->|[r ->]]; unfold split_first.
  - rewrite app_nil_r. by rewrite index_byte_absent.
  - rewrite index_byte_app by done. by rewrite take_app_length, drop_app_length.
Qed.

Lemma split_first_cases raw :
  exists line rest, split_first raw = (line, rest) /\ rest_shape rest /\ firstCmdlineLine raw = line.
Proof.
  unfold split_first, firstCmdlineLine, before. destruct (index_byte raw x0a) as [i|] eqn:E.
  - exists (take i raw), (drop i raw). split_and!; [done| |done]. right.
    assert (exists r, drop i raw = x0a :: r) as [r Hr]; [|by eauto].
    revert i E. induction raw as [|b raw IH]; intros i E; [done|]. cbn in E. case_decide as Hb.
    + injection E as <-. subst. cbn. eauto.
    + destruct (index_byte raw x0a) as [j|]; [|done]. injection E as <-. cbn. by apply IH.
  - exists raw, []. split_and!; [done|by left|done].
Qed.

Lemma edit_words key value ws : Forall is_word ws -> settable key value -> Forall is_word (edit key value ws).
Proof.
  intros Hw Hs. unfold edit.
  assert (Forall is_word (List.filter (fun w => negb (has_prefix w (key ++ bs "="))) ws)) as Hk.
  { rewrite Forall_forall in *. intros w Hin. apply Hw. apply list_elem_of_In in Hin. apply filter_In in Hin as [Hin _].
    by apply list_elem_of_In. }
  destruct Hs as [->|Hs]; [done|]. destruct (negb (beq value [])); [|done].
  apply Forall_app. split; [done|]. by apply Forall_singleton.
Qed.

(** The edit on words is the edit on the text. *)
Lemma setCmdlineWord_text ws rest key value :
  Forall is_word ws -> rest_shape rest ->
  setCmdlineWord (join [x20] ws ++ rest) key value = join [x20] (edit key value ws) ++ rest.
Proof.
  intros Hw Hr. unfold setCmdlineWord. rewrite split_first_text by (by apply join_no_newline || done).
  by rewrite fields_join_words.
Qed.

Lemma setCmdlineWord_edit raw key value :
  exists rest, rest_shape rest /\ (split_first raw).2 = rest /\
    setCmdlineWord raw key value = join [x20] (edit key value (fields (firstCmdlineLine raw))) ++ rest.
Proof.
  destruct (split_first_cases raw) as (line & rest & Hs & Hr & Hl). exists rest. unfold setCmdlineWord.
  rewrite Hs, Hl. done.
Qed.

Lemma firstCmdlineLine_text ws rest :
  Forall is_word ws -> rest_shape rest -> firstCmdlineLine (join [x20] ws ++ rest) = join [x20] ws.
Proof.
  intros Hw Hr. pose proof (split_first_text _ _ (join_no_newline _ Hw) Hr) as H.
  destruct (split_first_cases (join [x20] ws ++ rest)) as (l & r & Hs & _ & Hl). rewrite Hl. congruence.
Qed.

(** The last value of a list of words. *)
Definition last_value (key : bytes) (ws : list bytes) : bytes :=
  fold_left (fun v w => match cut_prefix w (key ++ bs "=") with Some x => x | None => v end) ws [].

Lemma last_value_from key ws acc :
  fold_left (fun v w => match cut_prefix w (key ++ bs "=") with Some x => x | None => v end) (List.filter (fun w => negb (has_prefix w (key ++ bs "="))) ws) acc = acc.
Proof.
  revert acc. induction ws as [|w ws IH]; intros acc; [done|]. cbn [List.filter].
  unfold has_prefix at 1. destruct (cut_prefix w (key ++ bs "=")) eqn:E; cbn [negb]; [apply IH|].
  cbn [fold_left]. rewrite E. apply IH.
Qed.

Lemma last_value_edit key value ws : last_value key (edit key value ws) = value.
Proof.
  unfold last_value, edit. destruct (beq value []) eqn:E; cbn [negb]; zb.
  - rewrite last_value_from. congruence.
  - rewrite fold_left_app, last_value_from. cbn [fold_left]. unfold word_of. rewrite app_assoc. by rewrite cut_prefix_app.
Qed.

(** A word carries one key. *)
Lemma one_key key key' w v v' :
  x3d ∉ key -> x3d ∉ key' -> cut_prefix w (key ++ bs "=") = Some v -> cut_prefix w (key' ++ bs "=") = Some v' -> key = key'.
Proof.
  intros Hk Hk' H H'. apply cut_prefix_Some in H, H'. rewrite H, <-!app_assoc in H'. cbn in H'.
  pose proof (cut_app key x3d v Hk) as C. pose proof (cut_app key' x3d v' Hk') as C'. rewrite H' in C. congruence.
Qed.

Lemma last_value_other_from key key' ws acc :
  x3d ∉ key -> x3d ∉ key' -> key <> key' ->
  fold_left (fun v w => match cut_prefix w (key' ++ bs "=") with Some x => x | None => v end) (List.filter (fun w => negb (has_prefix w (key ++ bs "="))) ws) acc
  = fold_left (fun v w => match cut_prefix w (key' ++ bs "=") with Some x => x | None => v end) ws acc.
Proof.
  intros Hk Hk' Hne. revert acc. induction ws as [|w ws IH]; intros acc; [done|]. cbn [List.filter fold_left].
  unfold has_prefix at 1. destruct (cut_prefix w (key ++ bs "=")) as [v|] eqn:E; cbn [negb fold_left]; [|apply IH].
  destruct (cut_prefix w (key' ++ bs "=")) as [v'|] eqn:E'; [|apply IH].
  exfalso. apply Hne. by eapply one_key.
Qed.

Lemma last_value_other key key' value ws :
  x3d ∉ key -> x3d ∉ key' -> key <> key' -> last_value key' (edit key value ws) = last_value key' ws.
Proof.
  intros Hk Hk' Hne. unfold last_value, edit. destruct (negb (beq value [])).
  - rewrite fold_left_app, last_value_other_from by done. cbn [fold_left].
    destruct (cut_prefix (word_of key value) (key' ++ bs "=")) as [v|] eqn:E; [|done].
    exfalso. apply Hne. eapply one_key; [done|done| |exact E]. unfold word_of. rewrite app_assoc. apply cut_prefix_app.
  - by apply last_value_other_from.
Qed.

Lemma setCmdlineWord_other raw key value key' :
  x3d ∉ key -> x3d ∉ key' -> key <> key' -> settable key value ->
  cmdlineValue (setCmdlineWord raw key value) key' = cmdlineValue raw key'.
Proof.
  intros Hk Hk' Hne Hs. destruct (setCmdlineWord_edit raw key value) as (rest & Hr & Hsf & ->).
  pose proof (edit_words key value _ (fields_words (firstCmdlineLine raw)) Hs) as Hw.
  unfold cmdlineValue. rewrite firstCmdlineLine_text, fields_join_words by done. by apply last_value_other.
Qed.

(** Setting a word of CMDLINE does exactly that: afterwards the word's
value is the one that was set (none when it was removed), every other word has
the value it had, and everything after the first line is unchanged. *)
Theorem setCmdlineWord_sets raw key value :
  x3d ∉ key -> settable key value ->
  cmdlineValue (setCmdlineWord raw key value) key = value /\
  (forall key', x3d ∉ key' -> key <> key' -> cmdlineValue (setCmdlineWord raw key value) key' = cmdlineValue raw key') /\
  (split_first (setCmdlineWord raw key value)).2 = (split_first raw).2.
Proof.
  intros Hk Hs. destruct (setCmdlineWord_edit raw key value) as (rest & Hr & Hsf & ->).
  pose proof (edit_words key value _ (fields_words (firstCmdlineLine raw)) Hs) as Hw.
  split_and!.
  - unfold cmdlineValue. rewrite firstCmdlineLine_text, fields_join_words by done. apply last_value_edit.
  - intros key' Hk' Hne. rewrite <-(setCmdlineWord_other raw key value key' Hk Hk' Hne Hs).
    by destruct (setCmdlineWord_edit raw key value) as (? & _ & ? & ->); simplify_eq.
  - by rewrite split_first_text by (by apply join_no_newline || done).
Qed.

(** ** Mirror words *)

Lemma has_prefix_word key value : has_prefix (word_of key value) (key ++ bs "=") = true.
Proof. unfold word_of. rewrite app_assoc. apply has_prefix_app. Qed.

Lemma filter_filter {A} (f g : A -> bool) l : List.filter f (List.filter g l) = List.filter g (List.filter f l).
Proof.
  induction l as [|a l IH]; [done|]. cbn [List.filter].
  destruct (f a) eqn:Ef, (g a) eqn:Eg; cbn [List.filter]; rewrite ?Ef, ?Eg, ?IH; done.
Qed.

Lemma edit_remove_set key value ws : edit key [] (edit key value ws) = edit key [] ws.
Proof.
  unfold edit. change (negb (beq [] [])) with false. cbv iota.
  assert (forall l, List.filter (fun w => negb (has_prefix w (key ++ bs "="))) (List.filter (fun w => negb (has_prefix w (key ++ bs "="))) l)
    = List.filter (fun w => negb (has_prefix w (key ++ bs "="))) l) as Hid.
  { intros l. set (f := fun w => negb (has_prefix w (key ++ bs "="))). induction l as [|a l IH]; [done|].
    cbn [List.filter]. destruct (f a) eqn:E; [|done]. cbn [List.filter]. by rewrite E, IH. }
  destruct (negb (beq value [])); [|apply Hid].
  rewrite List.filter_app, Hid. cbn [List.filter]. rewrite has_prefix_word. cbn. by rewrite app_nil_r.
Qed.

Lemma edit_remove_other key key' value ws :
  x3d ∉ key -> x3d ∉ key' -> key <> key' -> edit key' [] (edit key value ws) = edit key value (edit key' [] ws).
Proof.
  intros Hk Hk' Hne. unfold edit. change (negb (beq [] [])) with false. cbv iota.
  destruct (negb (beq value [])); [|apply filter_filter].
  rewrite List.filter_app, filter_filter. cbn [List.filter].
  assert (has_prefix (word_of key value) (key' ++ bs "=") = false) as ->; [|done].
  unfold has_prefix. destruct (cut_prefix (word_of key value) (key' ++ bs "=")) as [v|] eqn:E; [|done].
  exfalso. apply Hne. eapply one_key; [done|done| |exact E]. unfold word_of. rewrite app_assoc. apply cut_prefix_app.
Qed.

Lemma mirror_keys : x3d ∉ ESPSelfKey /\ x3d ∉ ESPUUIDsKey /\ ESPUUIDsKey <> ESPSelfKey.
Proof. split_and!; apply (bool_decide_unpack _); vm_compute; exact I. Qed.

Lemma stripMirrorWords_text ws rest :
  Forall is_word ws -> rest_shape rest ->
  stripMirrorWords (join [x20] ws ++ rest) = join [x20] (edit ESPUUIDsKey [] (edit ESPSelfKey [] ws)) ++ rest.
Proof.
  intros Hw Hr. unfold stripMirrorWords. rewrite setCmdlineWord_text by done.
  rewrite setCmdlineWord_text; [done| |done]. by apply edit_words; [|left].
Qed.

(** Comparing CMDLINEs without their mirror words ignores exactly what the
editor of one ESP sets: a CMDLINE with that ESP's own list and identity set
compares equal to the CMDLINE it was made from. *)
Theorem stripMirrorWords_ignores raw list uuid :
  settable ESPUUIDsKey list -> settable ESPSelfKey uuid ->
  stripMirrorWords (setCmdlineWord (setCmdlineWord raw ESPUUIDsKey list) ESPSelfKey uuid) = stripMirrorWords raw.
Proof.
  intros Hl Hu. destruct mirror_keys as (K1 & K2 & Kne).
  destruct (setCmdlineWord_edit raw ESPSelfKey []) as (rest & Hr & Hsf & E0).
  destruct (setCmdlineWord_edit raw ESPUUIDsKey list) as (rest' & Hr' & Hsf' & E1).
  assert (rest' = rest) as -> by congruence.
  pose proof (fields_words (firstCmdlineLine raw)) as Hw. set (ws := fields (firstCmdlineLine raw)) in *.
  clearbody ws. assert (Forall is_word (edit ESPUUIDsKey list ws)) as Hw1 by (apply edit_words; assumption).
  assert (Forall is_word (edit ESPSelfKey uuid (edit ESPUUIDsKey list ws))) as Hw2 by (apply edit_words; assumption).
  assert (Forall is_word (edit ESPSelfKey [] ws)) as Hw3 by (apply edit_words; [assumption|by left]).
  rewrite E1, (setCmdlineWord_text _ _ _ _ Hw1 Hr), (stripMirrorWords_text _ _ Hw2 Hr).
  unfold stripMirrorWords. rewrite E0, (setCmdlineWord_text _ _ _ _ Hw3 Hr).
  rewrite edit_remove_set. rewrite (edit_remove_other ESPUUIDsKey ESPSelfKey) by assumption. by rewrite edit_remove_set.
Qed.

Definition sample_cmdline : bytes :=
  bs "console=tty0 alpine-zfsboot.pool=rpool alpine-zfsboot.esp-uuids=AAAA-0001 quiet" ++ [x0a].

Lemma plain_is_word w : forallb plain_byte w = true -> w <> [] -> is_word w.
Proof.
  intros H Hne. split; [done|]. clear Hne. intros i. revert i.
  induction w as [|b w IH]; intros i Hi; [cbn in Hi; lia|]. cbn [forallb] in H. apply andb_true_iff in H as [Hb H].
  destruct i as [|i]; [cbn [drop]; by apply space_len_plain|]. cbn [drop]. apply IH; [done|]. cbn in Hi. lia.
Qed.

Lemma sample_settable_list : settable ESPUUIDsKey (bs "AAAA-0001,BBBB-0002").
Proof. right. apply plain_is_word; [vm_compute; reflexivity|done]. Qed.

Lemma sample_settable_uuid : settable ESPSelfKey (bs "BBBB-0002").
Proof. right. apply plain_is_word; [vm_compute; reflexivity|done]. Qed.

Lemma setCmdlineWord_sets_witness :
  cmdlineValue (setCmdlineWord sample_cmdline ESPSelfKey (bs "BBBB-0002")) ESPSelfKey = bs "BBBB-0002".
Proof.
  apply (setCmdlineWord_sets sample_cmdline ESPSelfKey (bs "BBBB-0002")).
  - apply (bool_decide_unpack _). vm_compute. exact I.
  - exact sample_settable_uuid.
Defined.

Lemma stripMirrorWords_ignores_witness :
  stripMirrorWords (setCmdlineWord (setCmdlineWord sample_cmdline ESPUUIDsKey (bs "AAAA-0001,BBBB-0002")) ESPSelfKey (bs "BBBB-0002"))
  = stripMirrorWords sample_cmdline.
Proof.
  apply (stripMirrorWords_ignores sample_cmdline (bs "AAAA-0001,BBBB-0002") (bs "BBBB-0002")).
  - exact sample_settable_list.
  - exact sample_settable_uuid.
Defined.

(** The int13chunk editor splits at spaces while stage2's rule and
[cmdlineInt13Chunk] split at any white space: a word preceded by a tab is not
removed, it still comes first, and the value that was set has no effect. *)
Theorem setCmdlineInt13Chunk_tab :
  let raw := bs "quiet" ++ [x09] ++ bs "alpine-zfsboot.int13chunk=1" in
  cmdlineInt13Chunk raw = (bs "1", true) /\
  cmdlineInt13Chunk (setCmdlineInt13Chunk raw (bs "16")) = (bs "1", true).
Proof. split; vm_compute; reflexivity. Qed.
