(* ===== verification/UefiBoot.v ===== *)
(** * internal/uefiboot: the UEFI loader

[WriteLoader], [BackupPrevious] and [VerifyLoader] over the media, reading a
build's PE sections (internal/cmdline's [Read] and [ReadSection]), and
cmd/tool's [writeUEFIGenerationWithRollback], which writes loader and metadata
as one unit. The ESP is a FAT volume: it has no hard links, so [os.Link] there
is a call that fails. *)

From Stdlib Require Import ZArith Lia Strings.Byte.
From stdpp Require Import base list gmap.
From S2P Require Import Prelude GoStrings Layout World EspConfig InitrdInfo Metadata BiosBoot Payload CmdLine.
Local Open Scope Z_scope.

Definition LoaderPath (arch : bytes) : outcome ioerr bytes :=
  let name := EFILoaderName arch in
  if beq name [] then Err (ERefused (bs "unsupported arch")) else Ok (EFIBootDir ++ bs "/" ++ name).

Definition previous (path : bytes) : bytes := path ++ bs ".previous".
Definition previous_tmp (path : bytes) : bytes := previous path ++ bs ".tmp".

(** What debug/pe reports of a file: its machine and, per section, the name
and the data ([None] when reading the data fails). *)
Record peFile := mkPE { Machine : Z; Sections : list (bytes * option bytes) }.

Section loader.
Context {O : Oracle}.

(** [os.Link] on FAT. *)
Definition HardLink (mp from to : bytes) : io unit := fun w => (Err (ESys OpLink), tick w).

(** [os.Create]: an empty file under the name. *)
Definition createFile (mp rel : bytes) : io unit :=
  sys OpOpen (fun w => (tt, set_files (<[(mp, rel) := []]> (files w)) w)).

(** [io.Copy] into a created file: a failed copy leaves a prefix. *)
Definition copyInto (mp rel content : bytes) : io unit := fun w =>
  match fault (clock w) with
  | Some k => (Err (ESys OpWrite), set_files (<[(mp, rel) := take k content]> (files w)) (tick w))
  | None => (Ok tt, set_files (<[(mp, rel) := content]> (files w)) (tick w))
  end.

(** [os.Rename] of one file of a directory over another. *)
Definition renameFile (mp from to : bytes) : io unit := fun w =>
  match fault (clock w) with
  | Some _ => (Err (ESys OpRename), tick w)
  | None =>
      match files w !! (mp, from) with
      | None => (Err ENotExist, tick w)
      | Some c => (Ok tt, set_files (<[(mp, to) := c]> (delete (mp, from) (files w))) (tick w))
      end
  end.

Definition copyFile (mp src dst : bytes) : io unit :=
  do content := readFile mp src in
  run createFile mp dst then
  do r := attempt (copyInto mp dst content) in
  match r with
  | Ok _ =>
      do r := attempt (plain_call OpClose) in
      match r with
      | Ok _ => ret tt
      | Err e => run attempt (removeFile mp dst) then throw e
      | Panic => lift Panic
      end
  | Err e => run attempt (removeFile mp dst) then throw e
  | Panic => lift Panic
  end.

Definition BackupPrevious (mp path : bytes) : io bool :=
  let dst := previous path in
  let tmp := previous_tmp path in
  run attempt (removeFile mp tmp) then
  do linked := attempt (HardLink mp path tmp) in
  do copied := (if is_ok linked then ret linked else attempt (copyFile mp path tmp)) in
  if negb (is_ok copied) then run attempt (removeFile mp tmp) then ret false else
  do renamed := attempt (renameFile mp tmp dst) in
  if negb (is_ok renamed) then run attempt (removeFile mp tmp) then ret false else
  ret true.

(** From the temporary file to the directory sync. *)
Definition install_loader (mp rel efi : bytes) : io unit :=
  do tmp := createTemp mp in
  deferred (dropTemp mp tmp)
    (run attempt (plain_call OpStat) then
     run writeTemp mp tmp efi then
     run plain_call OpChmod then
     run plain_call OpSync then
     run plain_call OpClose then
     run renameTemp mp tmp rel then
     run plain_call OpOpenDir then
     plain_call OpSyncDir).

(** [(backedUp bool, err error)]: both values are returned on every path. *)
Definition WriteLoader (mp arch efi : bytes) : io (bool * outcome ioerr unit) :=
  match LoaderPath arch with
  | Ok rel =>
      do r := attempt (plain_call OpMkdirAll) in
      match r with
      | Ok _ =>
          do backedUp := BackupPrevious mp rel in
          do r := attempt (install_loader mp rel efi) in
          ret (backedUp, r)
      | r => ret (false, r)
      end
  | Err e => ret (false, Err e)
  | Panic => lift Panic
  end.

Definition VerifyLoader (mp arch want : bytes) : io unit :=
  do rel := lift (LoaderPath arch) in
  do got := readFile mp rel in
  if negb (len got =? len want) then throw (EMismatch rel) else
  if beq got want then ret tt else throw (EMismatch rel).

Definition CheckArchMatch (local latest : Info) : outcome ioerr unit :=
  if negb (beq (iArch latest) (iArch local)) then Err (ERefused (bs "refusing to install")) else Ok tt.

Section pe.
Context (pe : bytes -> option peFile).

(** [pe.Open] of a file. *)
Definition peOpen (dir path : bytes) : io peFile :=
  do content := readFile dir path in
  match pe content with Some f => ret f | None => throw (ERefused (bs "opening as a PE/EFI file")) end.

(** [f.Section(name)], the first of that name, and its [Data()]. *)
Definition sectionData (f : peFile) (name : bytes) : io bytes :=
  match list_find (fun s : bytes * option bytes => s.1 = name) (Sections f) with
  | None => throw (ERefused (bs "no section"))
  | Some (_, (_, data)) =>
      run plain_call OpReadAt then
      match data with Some d => ret d | None => throw (ERefused (bs "reading section")) end
  end.

Definition ReadSection (dir path name : bytes) : io bytes :=
  do f := peOpen dir path in sectionData f name.

Definition Read (dir path : bytes) : io Info :=
  do f := peOpen dir path in
  do arch := lift_cmdline (archFromMachine (Machine f)) in
  do raw := sectionData f (bs ".cmdline") in
  run lift_cmdline (parse arch raw).2 then
  ret (parse arch raw).1.

Section deep.
Context (kgzip : bytes -> option (bytes * bool)) (gzip xz : bytes -> option reader) (modinfo : bytes -> elf_section).

Definition writeUEFIMetadata (mp arch : bytes) (efiPath : bytes * bytes) (info : Info) : io unit :=
  do kernelBytes := wrap (bs "reading .linux section") (ReadSection efiPath.1 efiPath.2 (bs ".linux")) in
  do initrdBytes := wrap (bs "reading .initrd section") (ReadSection efiPath.1 efiPath.2 (bs ".initrd")) in
  wrap (bs "writing metadata manifest")
    (writeMetadata kgzip gzip xz modinfo mp arch (iVersion info) (iBuildStamp info) kernelBytes initrdBytes).

Record uefiGenerationBackup := mkUefiBackup { u_loader : option bytes; u_metadata : option bytes }.

Definition backupUEFIGeneration (mp loaderRel : bytes) : io uefiGenerationBackup :=
  do loader := backup_file mp loaderRel in
  do meta := backup_file mp MetadataFile in
  ret (mkUefiBackup loader meta).

Definition rollbackUEFIGeneration (mp loaderRel : bytes) (backup : uefiGenerationBackup) : io unit :=
  run restore mp loaderRel (u_loader backup) then
  run restore mp MetadataFile (u_metadata backup) then
  ret tt.

Definition writeUEFIGenerationWithRollback (mp arch efiBytes : bytes) (efiPath : bytes * bytes) (info : Info)
    : io (bool * outcome ioerr unit) :=
  match LoaderPath arch with
  | Ok rel =>
      do r := attempt (backupUEFIGeneration mp rel) in
      match r with
      | Ok backup =>
          let back := rollbackUEFIGeneration mp rel backup in
          do w := WriteLoader mp arch efiBytes in
          let backedUp := w.1 in
          match w.2 with
          | Ok _ =>
              do r := attempt (VerifyLoader mp arch efiBytes) in
              match r with
              | Ok _ =>
                  do r := attempt (writeUEFIMetadata mp arch efiPath info) in
                  match r with
                  | Ok _ => ret (backedUp, Ok tt)
                  | Err e => run back then ret (backedUp, Err e)
                  | Panic => lift Panic
                  end
              | Err e => run back then ret (backedUp, Err e)
              | Panic => lift Panic
              end
          | Err e => run back then ret (backedUp, Err e)
          | Panic => lift Panic
          end
      | Err e => ret (false, Err e)
      | Panic => lift Panic
      end
  | Err e => ret (false, Err e)
  | Panic => lift Panic
  end.

End deep.
End pe.
End loader.

(** ** The names involved *)

Lemma LoaderPath_inv arch rel :
  LoaderPath arch = Ok rel -> rel = bs "EFI/BOOT/BOOTX64.EFI" \/ rel = bs "EFI/BOOT/BOOTAA64.EFI".
Proof.
  unfold LoaderPath, EFILoaderName. destruct (beq arch (bs "x86_64")); [|destruct (beq arch (bs "aarch64"))];
    cbn; intros [= <-]; auto.
Qed.

Lemma loader_names arch rel :
  LoaderPath arch = Ok rel -> NoDup [rel; MetadataFile; previous rel; previous_tmp rel].
Proof. intros [-> | ->]%LoaderPath_inv; apply (bool_decide_unpack _); vm_compute; exact I. Qed.

(** ** Editing one name *)

Section only.
Context {O : Oracle}.

Definition off (K : list (bytes * bytes)) (f g : filemap) : Prop := forall k, k ∉ K -> g !! k = f !! k.

#[export] Instance off_preorder K : PreOrder (off K).
Proof. split; [by intros f k|]. intros f g h H1 H2 k Hk. rewrite H2, H1; done. Qed.

(** Every state from [w] to [w'] differs from [w]'s only at [k]. *)
Definition only (k : bytes * bytes) (w w' : world) : Prop :=
  passes (off [k] (files w)) w w' /\ off [k] (files w) (files w').

#[export] Instance only_preorder k : PreOrder (only k).
Proof.
  split; [intros w; split; reflexivity|]. intros x y z [P1 O1] [P2 O2]. split; [|by etransitivity].
  etransitivity; [exact P1|]. eapply passes_impl; [|exact P2]. intros f Hf. by etransitivity.
Qed.

Lemma frame_only k w w' : frame w w' -> only k w w'.
Proof. intros F. split; [by apply frame_passes|]. destruct F as (-> & _). reflexivity. Qed.

Lemma edit_only k v w w' :
  disks w' = disks w -> files w' = put k v (files w) -> history w' = (files w', disks w) :: history w ->
  (clock w <= clock w')%nat -> only k w w'.
Proof.
  intros D F H C.
  assert (off [k] (files w) (files w')) as Ho.
  { intros k' Hk. rewrite F, lookup_put, decide_False; [done|]. intros ->. apply Hk. by left. }
  split; [|exact Ho]. split_and!; [done|done|]. exists [(files w', disks w)].
  split; [done|]. by apply Forall_singleton.
Qed.

Lemma remove_only mp rel w r w' : removeFile mp rel w = (r, w') -> only (mp, rel) w w'.
Proof.
  intros H. apply removeFile_spec in H as (D & C & H). destruct r as [u|e|]; [| |done].
  - destruct H as (_ & F & Hh). eapply (edit_only _ None); eauto. lia.
  - apply frame_only. destruct e; by destruct H.
Qed.

Lemma attempt_remove_only mp rel w r w' : attempt (removeFile mp rel) w = (r, w') -> only (mp, rel) w w'.
Proof. intros H. apply attempt_inv in H as (r' & H & _). by apply remove_only in H. Qed.

Lemma createFile_only mp rel w r w' : createFile mp rel w = (r, w') -> only (mp, rel) w w'.
Proof.
  unfold createFile, sys. destruct (fault _); intros [= <- <-]; [apply frame_only, frame_tick|].
  eapply (edit_only _ (Some [])); cbn; (done || lia).
Qed.

Lemma copyInto_only mp rel c w r w' :
  copyInto mp rel c w = (r, w') -> only (mp, rel) w w' /\ (r = Ok tt -> files w' !! (mp, rel) = Some c).
Proof.
  unfold copyInto. destruct (fault _) as [n|]; intros [= <- <-];
    (split; [eapply (edit_only _ (Some _)); cbn; (done || lia)|]); [done|].
  intros _. cbn. apply lookup_insert_eq.
Qed.

(** A failed step of [copyFile] removes the copy and reports the error. *)
Lemma remove_throw_only {A : Type} mp rel e w (r : outcome ioerr A) w' :
  (run attempt (removeFile mp rel) then throw e) w = (r, w') -> only (mp, rel) w w' /\ r = Err e.
Proof.
  intros H. io_bind H x E; apply attempt_inv in E as (r' & E & Hr'); try discriminate Hr'.
  injection H as <- <-. split; [by eapply remove_only|done].
Qed.

Lemma copyFile_only mp src dst w r w' :
  (mp, src) <> (mp, dst) -> copyFile mp src dst w = (r, w') ->
  only (mp, dst) w w' /\
  (is_ok r = true -> exists c, files w !! (mp, src) = Some c /\ files w' !! (mp, dst) = Some c).
Proof.
  intros Hne H. unfold copyFile in H.
  io_bind H x E; apply readFile_spec in E as (F & _ & E); [|subst r; by split; [apply frame_only|]|done].
  rename a into c. assert (only (mp, dst) w x) as Ox by (by apply frame_only).
  io_bind H y E1; apply createFile_only in E1 as Oy; [|subst r; by split; [etransitivity|]|subst r; by split; [etransitivity|]].
  io_bind H z E2; apply attempt_inv in E2 as (rc & E2 & Hrc); try discriminate Hrc. injection Hrc as <-.
  apply copyInto_only in E2 as [Oz Hc].
  assert (only (mp, dst) w z) as Owz by (do 2 (etransitivity; [eassumption|]); done).
  destruct a0 as [[]|e|]; [| |injection H as <- <-; by split].
  - io_bind H z' E3; apply attempt_inv in E3 as (rx & E3 & Hrx); try discriminate Hrx. injection Hrx as <-.
    apply plain_call_spec in E3 as (F3 & _ & R3).
    assert (only (mp, dst) w z') as Owz' by (etransitivity; [exact Owz|by apply frame_only]).
    destruct a0 as [[]|e|]; [| |injection H as <- <-; by split].
    + injection H as <- <-. split; [done|]. intros _. exists c. split; [done|].
      destruct F3 as (-> & _). by apply Hc.
    + apply remove_throw_only in H as [Or ->]. split; [by etransitivity|done].
  - apply remove_throw_only in H as [Or ->]. split; [by etransitivity|done].
Qed.

(** A failed step of [BackupPrevious]. *)
Lemma remove_false_only mp rel w r w' :
  (run attempt (removeFile mp rel) then ret false) w = (r, w') -> only (mp, rel) w w' /\ r = Ok false.
Proof.
  intros H. io_bind H x E; apply attempt_inv in E as (r' & E & Hr'); try discriminate Hr'.
  injection H as <- <-. split; [by eapply remove_only|done].
Qed.


(** The previous build's copy: as it was, or a copy of the loader. *)
Definition backup_state (mp rel : bytes) (f g : filemap) : Prop :=
  off [(mp, previous rel); (mp, previous_tmp rel)] f g /\
  (g !! (mp, previous rel) = f !! (mp, previous rel) \/
   g !! (mp, previous rel) = f !! (mp, rel) /\ is_Some (f !! (mp, rel))).

Lemma only_backup mp rel f g :
  previous rel <> previous_tmp rel -> off [(mp, previous_tmp rel)] f g ->
  off [(mp, previous rel); (mp, previous_tmp rel)] f g /\ g !! (mp, previous rel) = f !! (mp, previous rel).
Proof.
  intros Hne H. split.
  - intros k Hk. apply H. rewrite list_elem_of_singleton. intros ->. apply Hk. by right; left.
  - apply H. rewrite list_elem_of_singleton. congruence.
Qed.

Lemma only_states mp rel w w' :
  previous rel <> previous_tmp rel -> only (mp, previous_tmp rel) w w' ->
  passes (backup_state mp rel (files w)) w w' /\ backup_state mp rel (files w) (files w') /\
  files w' !! (mp, previous rel) = files w !! (mp, previous rel).
Proof.
  intros Hne [P Ho]. assert (forall g, off [(mp, previous_tmp rel)] (files w) g -> backup_state mp rel (files w) g) as Hg.
  { intros g Hg. apply (only_backup _ _ _ _ Hne) in Hg as [? ?]. split; [done|by left]. }
  split_and!; [by eapply passes_impl|by apply Hg|]. by apply only_backup.
Qed.

Lemma renameFile_spec mp from to w r w' :
  renameFile mp from to w = (r, w') ->
  is_ok r = false /\ frame w w' \/
  r = Ok tt /\ disks w' = disks w /\ (clock w <= clock w')%nat /\
  exists c, files w !! (mp, from) = Some c /\ files w' = <[(mp, to) := c]> (delete (mp, from) (files w)) /\
    history w' = (files w', disks w) :: history w.
Proof.
  unfold renameFile. destruct (fault _); [intros [= <- <-]; left; split; [done|apply frame_tick]|].
  destruct (files w !! (mp, from)) as [c|] eqn:E; intros [= <- <-].
  - right. cbn. split_and!; [done|done|lia|]. eauto.
  - left. split; [done|apply frame_tick].
Qed.

(** The build the rename puts under [.previous] is a whole copy. *)
Lemma rename_backup mp rel c w x w' :
  rel <> previous rel -> rel <> previous_tmp rel -> previous rel <> previous_tmp rel ->
  only (mp, previous_tmp rel) w x -> files w !! (mp, rel) = Some c ->
  disks w' = disks x -> (clock x <= clock w')%nat ->
  files w' = <[(mp, previous rel) := c]> (delete (mp, previous_tmp rel) (files x)) ->
  history w' = (files w', disks x) :: history x ->
  passes (backup_state mp rel (files w)) w w' /\ backup_state mp rel (files w) (files w') /\
  files w' !! (mp, previous rel) = Some c.
Proof.
  intros H1 H2 H3 Hx Hc D C F Hh.
  assert (backup_state mp rel (files w) (files w')) as Hb.
  { rewrite F. split.
    - intros k Hk. rewrite lookup_insert_ne, lookup_delete_ne; [apply Hx| |].
      + rewrite list_elem_of_singleton. intros ->. apply Hk. by right; left.
      + intros <-. apply Hk. by right; left.
      + intros <-. apply Hk. by left.
    - right. rewrite lookup_insert_eq, Hc. eauto. }
  split_and!; [|exact Hb|rewrite F; apply lookup_insert_eq].
  etransitivity; [by apply only_states|]. split_and!; [done|done|].
  exists [(files w', disks x)]. split; [done|]. by apply Forall_singleton.
Qed.

(** How [BackupPrevious] ends: it reports whether the copy is the loader's. *)
Definition backed_up (mp rel : bytes) (w : world) (r : outcome ioerr bool) (w' : world) : Prop :=
  exists b, r = Ok b /\ passes (backup_state mp rel (files w)) w w' /\ backup_state mp rel (files w) (files w') /\
    files w' !! (mp, previous rel) = (if b : bool then files w !! (mp, rel) else files w !! (mp, previous rel)) /\
    (b = true -> is_Some (files w !! (mp, rel))).

Lemma BackupPrevious_spec mp rel w r w' :
  rel <> previous rel -> rel <> previous_tmp rel -> previous rel <> previous_tmp rel ->
  BackupPrevious mp rel w = (r, w') -> backed_up mp rel w r w'.
Proof.
  intros H1 H2 H3 H. unfold BackupPrevious in H.
  assert (forall x r w', only (mp, previous_tmp rel) w x ->
    (run attempt (removeFile mp (previous_tmp rel)) then ret false) x = (r, w') -> backed_up mp rel w r w') as Hfalse.
  { intros x r0 w0 Ox E. apply remove_false_only in E as [Oy ->]. exists false.
    destruct (only_states mp rel w w0 H3) as (P & B & E); [by etransitivity|]. by split_and!. }
  io_bind H x E; apply attempt_inv in E as (rx & E & Hrx); try discriminate Hrx. apply remove_only in E as Ox.
  io_bind H y E1; apply attempt_inv in E1 as (ry & E1 & Hry); try discriminate Hry. injection Hry as <-.
  injection E1 as <- <-. cbn [is_ok] in H.
  assert (only (mp, previous_tmp rel) w (tick x)) as Oy by (etransitivity; [exact Ox|apply frame_only, frame_tick]).
  io_bind H z E2; apply attempt_inv in E2 as (rz & E2 & Hrz); try discriminate Hrz. injection Hrz as <-.
  apply copyFile_only in E2 as [Oz Hz]; [|congruence].
  assert (only (mp, previous_tmp rel) w z) as Owz by (by etransitivity).
  destruct (is_ok a0); cbn [negb] in H; [|by eapply Hfalse].
  io_bind H v E3; apply attempt_inv in E3 as (rv & E3 & Hrv); try discriminate Hrv. injection Hrv as <-.
  apply renameFile_spec in E3 as [[Hno F]|(-> & D & C & c & Hc & F & Hh)]; cbn [is_ok negb] in H.
  - rewrite Hno in H. eapply Hfalse; [|exact H]. etransitivity; [exact Owz|by apply frame_only].
  - injection H as <- <-. destruct (Hz eq_refl) as (c' & Hs & Hc'). rewrite Hc in Hc'. injection Hc' as <-.
    assert (files w !! (mp, rel) = Some c) as Hl.
    { rewrite <-Hs. symmetry. apply Oy. rewrite list_elem_of_singleton. congruence. }
    destruct (rename_backup mp rel c w z v) as (P & B & HE); try done. exists true.
    split_and!; [done|done|done|by rewrite HE|intros _; eauto].
Qed.

End only.

(** ** The atomic installation of the loader *)

Section install.
Context {O : Oracle}.

Lemma install_loader_spec mp rel efi w r w' :
  install_loader mp rel efi w = (r, w') -> atomic_write mp rel efi w r w'.
Proof.
  unfold install_loader. intros H.
  io_bind H x E; apply createTemp_spec in E as (Hf & _ & [Hok|[Herr Hfl]]); simplify_eq; [|by eapply failed_write].
  eapply atomic_write_frame_l; [done|]. eapply deferred_atomic; [|exact H]. clear. intros r z H.
  io_bind H y E; apply attempt_inv in E as (rc & E & Hrc); simplify_eq. apply plain_call_spec in E as (Hf & _ & _).
  eapply atomic_write_frame_l; [done|]. clear Hf.
  io_bind H v E; apply writeTemp_spec in E as (Hf & _ & [[Hok Ht]|[Herr Hfl]]); simplify_eq; [|by eapply failed_write].
  eapply atomic_write_frame_l; [done|]. clear Hf.
  eapply plain_atomic; [exact H|]. intros z1 H1 _ K1.
  eapply plain_atomic; [exact K1|]. intros z2 H2 _ K2.
  eapply plain_atomic; [exact K2|]. intros z3 H3 _ K3.
  eapply install_tail; [|exact K3]. congruence.
Qed.

End install.

(** ** The whole run *)

Definition asset_section (f : peFile) (name : bytes) : option bytes :=
  match list_find (fun s : bytes * option bytes => s.1 = name) (Sections f) with
  | Some (_, (_, data)) => data
  | None => None
  end.

Section generation.
Context {O : Oracle}.
Context (pe : bytes -> option peFile).
Context (kgzip : bytes -> option (bytes * bool)) (gzip xz : bytes -> option reader) (modinfo : bytes -> elf_section).
Context (mp arch rel efi : bytes) (info : Info) (efiPath : bytes * bytes) (Hrel : LoaderPath arch = Ok rel).

(** The metadata text a build's own file gives, if it can be read. *)
Definition asset_metadata (content : bytes) : option bytes :=
  f ← pe content; kernel ← asset_section f (bs ".linux"); initrd ← asset_section f (bs ".initrd");
  match metadata_text kgzip gzip xz modinfo arch (iVersion info) (iBuildStamp info) kernel initrd with
  | Ok text => Some text
  | _ => None
  end.

Context (f0 : filemap) (c : bytes).

(** What the tree may be at any moment: every name but the four involved as it
was; the previous copy untouched or a whole copy of the old loader; loader and
metadata each the old or the new one. *)
Definition uefi_state (f : filemap) : Prop :=
  off [(mp, rel); (mp, MetadataFile); (mp, previous rel); (mp, previous_tmp rel)] f0 f /\
  (f !! (mp, previous rel) = f0 !! (mp, previous rel) \/
   f !! (mp, previous rel) = f0 !! (mp, rel) /\ is_Some (f0 !! (mp, rel))) /\
  (f !! (mp, rel) = f0 !! (mp, rel) \/ f !! (mp, rel) = Some efi) /\
  (f !! (mp, MetadataFile) = f0 !! (mp, MetadataFile) \/ f !! (mp, MetadataFile) = asset_metadata c).

Lemma names_ne :
  (rel <> MetadataFile /\ rel <> previous rel /\ rel <> previous_tmp rel) /\
  (MetadataFile <> previous rel /\ MetadataFile <> previous_tmp rel) /\ previous rel <> previous_tmp rel.
Proof.
  pose proof (loader_names _ _ Hrel) as H. apply NoDup_cons in H as [H1 H].
  apply NoDup_cons in H as [H2 H]. apply NoDup_cons in H as [H3 _]. set_solver.
Qed.

Lemma uefi_state_start : uefi_state f0.
Proof. split_and!; [reflexivity|by left|by left|by left]. Qed.

Lemma uefi_state_loader v f :
  v = f0 !! (mp, rel) \/ v = Some efi -> uefi_state f -> uefi_state (put (mp, rel) v f).
Proof.
  destruct names_ne as ((N1 & N2 & N3) & _). intros Hv (Ho & Hp & Hl & Hm). unfold uefi_state.
  rewrite lookup_put_eq, !lookup_put_ne by congruence. split_and!; [|done|done|done].
  intros k Hk. rewrite lookup_put_ne; [by apply Ho|]. set_solver.
Qed.

Lemma uefi_state_metadata v f :
  v = f0 !! (mp, MetadataFile) \/ v = asset_metadata c -> uefi_state f -> uefi_state (put (mp, MetadataFile) v f).
Proof.
  destruct names_ne as ((N1 & N2 & N3) & (N4 & N5) & _). intros Hv (Ho & Hp & Hl & Hm). unfold uefi_state.
  rewrite lookup_put_eq, !lookup_put_ne by congruence. split_and!; [|done|done|done].
  intros k Hk. rewrite lookup_put_ne; [by apply Ho|]. set_solver.
Qed.

(** The backup step, from the untouched tree. *)
Lemma uefi_state_backup f : backup_state mp rel f0 f -> uefi_state f.
Proof.
  destruct names_ne as ((N1 & N2 & N3) & (N4 & N5) & _). intros [Ho Hp].
  split_and!; [|done| |]; [|left; apply Ho; set_solver..]. intros k Hk. apply Ho. set_solver.
Qed.

(** How the run ends. *)
Definition uefi_ends (w0 : world) (r : outcome ioerr (bool * outcome ioerr unit)) (w' : world) : Prop :=
  passes uefi_state w0 w' /\ uefi_state (files w') /\
  exists (b : bool) res, r = Ok (b, res) /\
    (b = true -> is_Some (f0 !! (mp, rel)) /\ files w' !! (mp, previous rel) = f0 !! (mp, rel)) /\
    (res = Ok tt /\ is_Some (asset_metadata c) /\ files w' !! (mp, rel) = Some efi /\ files w' !! (mp, MetadataFile) = asset_metadata c \/
     (exists e, res = Err e) /\ (failed w0 w' \/ asset_metadata c = None) /\ files w' !! (mp, rel) = f0 !! (mp, rel) /\
     files w' !! (mp, MetadataFile) = f0 !! (mp, MetadataFile)).

Lemma rollback_restores b w r w' :
  u_loader b = f0 !! (mp, rel) -> u_metadata b = f0 !! (mp, MetadataFile) ->
  calm (clock w) -> uefi_state (files w) ->
  rollbackUEFIGeneration mp rel b w = (r, w') ->
  r = Ok tt /\ passes uefi_state w w' /\
  files w' = put (mp, MetadataFile) (f0 !! (mp, MetadataFile)) (put (mp, rel) (f0 !! (mp, rel)) (files w)).
Proof.
  intros Hl Hm Hc Hs. unfold rollbackUEFIGeneration. rewrite Hl, Hm.
  revert r w' Hc. change (lands uefi_state tt
    (put (mp, MetadataFile) (f0 !! (mp, MetadataFile)) (put (mp, rel) (f0 !! (mp, rel)) (files w)))
    (run restore mp rel (f0 !! (mp, rel)) then run restore mp MetadataFile (f0 !! (mp, MetadataFile)) then ret tt) w).
  eapply lands_bind; [apply lands_restore; [done|apply uefi_state_loader; auto]|]. intros x Ex.
  eapply lands_bind; [apply lands_restore; rewrite Ex; [|apply uefi_state_metadata; [auto|]]; apply uefi_state_loader; auto|].
  intros y Ey. rewrite Ex in Ey. rewrite <-Ey. apply lands_ret.
Qed.

(** A step after which, whatever fails, the tree is in such a state and was
throughout. *)
Definition stays_within {A : Type} (w0 : world) (m : io A) : Prop :=
  forall w r w', passes uefi_state w0 w -> uefi_state (files w) -> m w = (r, w') ->
    passes uefi_state w0 w' /\ uefi_state (files w').

Lemma within_state_bind {A B : Type} w0 (m : io A) (k : A -> io B) :
  stays_within w0 m -> (forall a, stays_within w0 (k a)) -> stays_within w0 (bind m k).
Proof.
  intros Hc Hk w r w' P S H. io_bind H x E; destruct (Hc _ _ _ P S E) as [Px Sx]; [|done|done]. by eapply Hk.
Qed.

Lemma within_state_restore w0 key want :
  (forall f, uefi_state f -> uefi_state (put (mp, key) want f)) -> stays_within w0 (restore mp key want).
Proof.
  intros Hput w r w' P S H. specialize (Hput _ S).
  assert (passes uefi_state w w' /\ uefi_state (files w')) as [? ?]; [|split; [by etransitivity|done]].
  destruct want as [v|]; unfold restore, bind, attempt in H.
  - destruct (WriteFile mp key v w) as [r0 x] eqn:E. apply (does_WriteFile uefi_state _ _ _ _ S Hput) in E as (Px & Sx & _).
    destruct r0; by injection H as <- <-.
  - assert (exists r1, remove_if_present mp key w = (r1, w')) as (r1 & E).
    { unfold remove_if_present, bind, attempt. destruct (removeFile mp key w) as [[u|e|] x]; [|destruct e|]; injection H as <- <-; by eexists. }
    by apply (does_remove uefi_state _ _ _ S Hput) in E as (Px & Sx & _).
Qed.

Lemma within_state_rollback w0 bk :
  u_loader bk = f0 !! (mp, rel) -> u_metadata bk = f0 !! (mp, MetadataFile) -> stays_within w0 (rollbackUEFIGeneration mp rel bk).
Proof.
  intros Hl Hm. unfold rollbackUEFIGeneration. rewrite Hl, Hm.
  apply within_state_bind; [apply within_state_restore; intros; apply uefi_state_loader; auto|]. intros _.
  apply within_state_bind; [apply within_state_restore; intros; apply uefi_state_metadata; auto|]. intros _ w r w' P S [= <- <-]. done.
Qed.

Lemma within_state_undo w0 bk (b : bool) e :
  u_loader bk = f0 !! (mp, rel) -> u_metadata bk = f0 !! (mp, MetadataFile) ->
  stays_within w0 (run rollbackUEFIGeneration mp rel bk then ret (b, Err e) : io (bool * outcome ioerr unit)).
Proof.
  intros Hl Hm. apply within_state_bind; [by apply within_state_rollback|]. intros _ w r w' P S [= <- <-]. done.
Qed.

(** The branch of a failed step. *)
Lemma uefi_fail bk (b : bool) e w0 w r w' :
  u_loader bk = f0 !! (mp, rel) -> u_metadata bk = f0 !! (mp, MetadataFile) ->
  calm (clock w) -> uefi_state (files w) -> passes uefi_state w0 w -> failed w0 w \/ asset_metadata c = None ->
  (b = true -> is_Some (f0 !! (mp, rel)) /\ files w !! (mp, previous rel) = f0 !! (mp, rel)) ->
  (run rollbackUEFIGeneration mp rel bk then ret (b, Err e)) w = (r, w') -> uefi_ends w0 r w'.
Proof.
  destruct names_ne as ((N1 & N2 & N3) & (N4 & N5) & _).
  intros Hl Hm Hc Hs Hp Hbad Hb H. io_bind H x E; apply (rollback_restores _ _ _ _ Hl Hm Hc Hs) in E as (Er & P & F);
    try discriminate Er. injection H as <- <-.
  split_and!; [by etransitivity| |].
  - rewrite F. apply uefi_state_metadata; [by left|]. apply uefi_state_loader; [by left|done].
  - exists b, (Err e). split_and!; [done| |].
    + rewrite F, !lookup_put_ne by congruence. done.
    + right. rewrite F, lookup_put_eq, lookup_put_ne, lookup_put_eq by congruence.
      split_and!; [eauto| |done|done]. destruct Hbad as [Hf|]; [left; eapply failed_l; [exact Hf|apply P]|by right].
Qed.

(** Steps of the run. *)
Lemma WriteLoader_step w r w' :
  files w = f0 -> WriteLoader mp arch efi w = (r, w') ->
  exists b res, r = Ok (b, res) /\ passes uefi_state w w' /\ uefi_state (files w') /\
    (b = true -> is_Some (f0 !! (mp, rel)) /\ files w' !! (mp, previous rel) = f0 !! (mp, rel)) /\
    (res = Ok tt /\ files w' !! (mp, rel) = Some efi /\ files w' !! (mp, MetadataFile) = f0 !! (mp, MetadataFile) \/
     (exists e, res = Err e) /\ failed w w').
Proof.
  destruct names_ne as ((N1 & N2 & N3) & (N4 & N5) & N6). intros Hf H. unfold WriteLoader in H. rewrite Hrel in H.
  io_bind H x E; apply attempt_inv in E as (rx & E & Hrx); try discriminate Hrx. injection Hrx as <-.
  apply plain_call_spec in E as (Fx & _ & [->|[-> Hx]]).
  2: { injection H as <- <-. exists false, (Err (ESys OpMkdirAll)). split_and!; [done|by apply frame_passes| |done|by right; eauto].
       destruct Fx as (-> & _). rewrite Hf. apply uefi_state_start. }
  assert (files x = f0) as Ex by (rewrite <-Hf; apply Fx).
  io_bind H y E; apply BackupPrevious_spec in E as (b & Hb & P & B & Hpv & Hs); try done; try discriminate Hb.
  injection Hb as ->. rewrite Ex in *.
  assert (passes uefi_state w y) as Py.
  { etransitivity; [by apply frame_passes|]. eapply passes_impl; [|exact P]. apply uefi_state_backup. }
  assert (b = true -> is_Some (f0 !! (mp, rel)) /\ files y !! (mp, previous rel) = f0 !! (mp, rel)) as Hbt.
  { intros ->. auto. }
  io_bind H z E; apply attempt_inv in E as (rz & E & Hrz); try discriminate Hrz. injection Hrz as ->.
  injection H as <- <-. set (J := fun f => uefi_state f /\ f !! (mp, previous rel) = files y !! (mp, previous rel)).
  assert (does J (put (mp, rel) (Some efi) (files y)) (install_loader mp rel efi) y) as Hd.
  { apply does_atomic; [intros ? ?; apply install_loader_spec|split; [by apply uefi_state_backup|done]|].
    split; [|by apply lookup_put_ne; congruence]. apply uefi_state_loader; [by right|by apply uefi_state_backup]. }
  apply Hd in E as (Pz & [Jz Hz] & R). exists b, rz. rewrite Hz.
  split_and!; [done| |done|done|].
  - etransitivity; [exact Py|]. eapply passes_impl; [|exact Pz]. by intros f [? _].
  - destruct R as [[([] & ->) F]|[He Hfl]]; [left|right].
    + split_and!; [done| |]; rewrite F; [by rewrite lookup_put_eq|]. rewrite lookup_put_ne by congruence.
      apply B. set_solver.
    + split; [done|]. eapply failed_r; [apply Py|done].
Qed.

Lemma quiet_VerifyLoader w :
  files w !! (mp, rel) = Some efi -> quiet (VerifyLoader mp arch efi) (fun _ => True) w.
Proof.
  intros Hc r w' H. unfold VerifyLoader in H. rewrite Hrel in H. change (bind (lift (Ok rel)) ?k w) with (k rel w) in H.
  io_bind H x E; apply readFile_spec in E as (F & _ & E).
  - rewrite Hc in E. injection E as <-. rewrite Z.eqb_refl, beq_refl in H. injection H as <- <-. split; [done|left; eauto].
  - split; [done|]. right. subst r. split; [eauto|]. destruct e; try done. congruence.
  - done.
Qed.

(** Reading a section of the local build, whose content is [c]. *)
Lemma ReadSection_spec dir path name w r w' :
  files w !! (dir, path) = Some c -> ReadSection pe dir path name w = (r, w') ->
  frame w w' /\
  ((exists f, pe c = Some f /\ exists d, asset_section f name = Some d /\ r = Ok d) \/
   (exists e, r = Err e) /\ (failed w w' \/ (f ← pe c; asset_section f name) = None)).
Proof.
  intros Hc H. unfold ReadSection, peOpen in H. io_bind H x E.
  - io_bind E y E1; apply readFile_spec in E1 as (F & _ & E1); try done.
    rewrite Hc in E1. injection E1 as <-. destruct (pe c) as [f|] eqn:Ep; [|done]. injection E as -> ->.
    unfold sectionData in H. cbn. unfold asset_section. destruct (list_find _ _) as [[i [n data]]|] eqn:El.
    + io_bind H z Ez; apply plain_call_spec in Ez as (Fz & _ & Rz); destruct Rz as [Hz|[Hz Hf]]; try discriminate Hz.
      * destruct data as [d|]; injection H as <- <-; (split; [by etransitivity|]); [left|right; split; [by eexists|by right]].
        exists a. split; [done|]. exists d. by rewrite El.
      * subst r. split; [by etransitivity|]. right. split; [eauto|]. left. eapply failed_r; [apply F|done].
    + injection H as <- <-. split; [done|]. right. split; [by eexists|by right].
  - subst r. io_bind E y E1; apply readFile_spec in E1 as (F & _ & E1); try done.
    + rewrite Hc in E1. injection E1 as <-. destruct (pe c) as [f|]; [done|]. injection E as <- <-. split; [done|].
      right. split; [by eexists|by right].
    + injection Hr as ->. split; [done|]. right. split; [eauto|]. left. destruct e0; try done. congruence.
  - io_bind E y E1; apply readFile_spec in E1 as (F & _ & E1); try done. destruct (pe a); discriminate E.
Qed.

(** A section read before the rest of a function. *)
Lemma section_bind dir path name ctx (k : bytes -> io unit) w r w' :
  files w !! (dir, path) = Some c -> bind (wrap ctx (ReadSection pe dir path name)) k w = (r, w') ->
  (exists f d x, pe c = Some f /\ asset_section f name = Some d /\ frame w x /\ k d x = (r, w')) \/
  (exists e, r = Err e) /\ frame w w' /\ (failed w w' \/ (f ← pe c; asset_section f name) = None).
Proof.
  intros Hc H. io_bind H x E; apply wrap_inv in E as (rx & E & Erx); apply ReadSection_spec in E as (Fx & Rx); try done;
    destruct Rx as [(f & Hf & d & Hd & ->)|[(e' & ->) He]]; try discriminate Erx.
  - injection Erx as ->. left. eauto 10.
  - right. eauto.
Qed.

(** The local build is not a file of the ESP. *)
Context (Hlocal : efiPath.1 <> mp).

Lemma local_kept f : uefi_state f -> f !! efiPath = f0 !! efiPath.
Proof.
  intros (Ho & _). apply Ho. destruct efiPath as [d p]. cbn in Hlocal. intros Hin.
  apply Hlocal. set_solver.
Qed.

(** The metadata step: done, or failed by a call or by the build itself. *)
Lemma metadata_step w r w' :
  f0 !! efiPath = Some c ->
  uefi_state (files w) -> writeUEFIMetadata pe kgzip gzip xz modinfo mp arch efiPath info w = (r, w') ->
  passes uefi_state w w' /\ uefi_state (files w') /\ files w' !! (mp, previous rel) = files w !! (mp, previous rel) /\
  (r = Ok tt /\ files w' !! (mp, rel) = files w !! (mp, rel) /\ files w' !! (mp, MetadataFile) = asset_metadata c /\
     is_Some (asset_metadata c) \/
   (exists e, r = Err e) /\ (failed w w' \/ asset_metadata c = None)).
Proof.
  destruct names_ne as ((N1 & N2 & N3) & (N4 & N5) & N6). intros Hc Hs H.
  assert (forall x, frame w x -> passes uefi_state w x /\ uefi_state (files x) /\
    files x !! (mp, previous rel) = files w !! (mp, previous rel) /\ files x !! (efiPath.1, efiPath.2) = Some c) as Hfr.
  { intros x F. pose proof (frame_passes uefi_state _ _ F). destruct F as (-> & _).
    by rewrite <-surjective_pairing, local_kept. }
  unfold writeUEFIMetadata in H. assert (forall t, t = asset_metadata c -> t = asset_metadata c) as Hmeta by done.
  unfold asset_metadata in Hmeta at 1 |- *. cbv [mbind option_bind] in Hmeta |- *.
  apply section_bind in H as [(f & k & x & Hf & Hk & Fx & H)|(He & F & Hn)]; [| |by apply Hfr].
  2: { destruct (Hfr _ F) as (? & ? & ? & _). split_and!; try done. right. split; [done|].
       destruct Hn as [?|Hn]; [by left|right]. cbv [mbind option_bind] in Hn. destruct (pe c); [by rewrite Hn|done]. }
  apply section_bind in H as [(f' & i & y & Hf' & Hi & Fy & H)|(He & F & Hn)]; [| |by apply Hfr].
  2: { destruct (Hfr w') as (? & ? & ? & _); [by etransitivity|]. split_and!; try done. right. split; [done|].
       destruct Hn as [?|Hn]; [left; eapply failed_r; [apply Fx|done]|right]. cbv [mbind option_bind] in Hn.
       destruct (pe c); [|done]. injection Hf as ->. by rewrite Hk, Hn. }
  rewrite Hf in Hf'. injection Hf' as <-. rewrite Hf, Hk, Hi in Hmeta |- *.
  assert (frame w y) as Fw by (by etransitivity). destruct (Hfr _ Fw) as (Py & Sy & Vy & _).
  apply wrap_inv in H as (rz & H & ->). unfold writeMetadata in H.
  pose proof (metadata_text_safe kgzip gzip xz modinfo arch (iVersion info) (iBuildStamp info) k i) as Hsafe.
  destruct (metadata_text _ _ _ _ _ _ _ k i) as [text|e|]; [|injection H as <- <-; split_and!; try done; right; by eauto|by destruct Hsafe].
  change (WriteFile mp MetadataFile text y = (rz, w')) in H.
  set (J := fun f => uefi_state f /\ f !! (mp, previous rel) = files w !! (mp, previous rel)).
  assert (does J (put (mp, MetadataFile) (Some text) (files y)) (WriteFile mp MetadataFile text) y) as Hd.
  { apply does_WriteFile; [by split|]. split; [apply uefi_state_metadata; [right; by apply Hmeta|done]|].
    rewrite lookup_put_ne by congruence. done. }
  apply Hd in H as (Pz & [Jz Hz] & R).
  split_and!; [etransitivity; [exact Py|eapply passes_impl; [|exact Pz]; by intros ? [? _]]|done|done|].
  destruct R as [[([] & ->) F]|[(e & ->) Hfl]]; [left|right; split; [by eexists|left; eapply failed_r; [apply Fw|done]]].
  rewrite F, lookup_put_eq, lookup_put_ne by congruence. destruct Fw as (-> & _). by eauto.
Qed.

Lemma uefi_run w r w' :
  one_fault -> files w = f0 -> f0 !! efiPath = Some c -> (asset_metadata c = None -> calm (clock w)) ->
  writeUEFIGenerationWithRollback pe kgzip gzip xz modinfo mp arch efi efiPath info w = (r, w') -> uefi_ends w r w'.
Proof.
  intros H1 Hw Hc Hbad H. unfold writeUEFIGenerationWithRollback in H. rewrite Hrel in H.
  assert (quiet (backupUEFIGeneration mp rel)
    (fun b => u_loader b = f0 !! (mp, rel) /\ u_metadata b = f0 !! (mp, MetadataFile)) w) as Hq.
  { unfold backupUEFIGeneration. eapply quiet_bind; [apply quiet_backup_file|]. intros l x -> (Fx & _).
    eapply quiet_bind; [apply quiet_backup_file|]. intros m y -> _. apply quiet_ret. cbn. by rewrite Fx, Hw. }
  io_bind H x E; apply attempt_inv in E as (rx & E & Erx); try discriminate Erx. injection Erx as ->.
  apply Hq in E as [Fx R]. assert (files x = f0) as Ex by (rewrite <-Hw; apply Fx).
  assert (passes uefi_state w x) as Px by (by apply frame_passes).
  destruct R as [(bk & -> & Hl & Hm)|[(e & ->) Hf]].
  2: { injection H as <- <-. split_and!; [done|rewrite Ex; apply uefi_state_start|]. exists false, (Err e). rewrite Ex. split_and!; [done|done|]. right. eauto 10. }
  io_bind H y E; apply (WriteLoader_step _ _ _ Ex) in E as (b & res & Er & Py & Sy & Hb & R); try discriminate Er.
  injection Er as ->. cbn [fst snd] in H. assert (passes uefi_state w y) as Pwy by (by etransitivity).
  destruct R as [(-> & Ly & My)|[(e & ->) Hf]].
  2: { assert (failed w y) by (eapply failed_r; [apply Px|done]).
       eapply (uefi_fail bk b); eauto. by eapply failed_calm. }
  io_bind H z E; apply attempt_inv in E as (rz & E & Erz); try discriminate Erz. injection Erz as ->.
  apply (quiet_VerifyLoader _ Ly) in E as [Fz R].
  assert (passes uefi_state w z) as Pz by (etransitivity; [exact Pwy|by apply frame_passes]).
  assert (files z = files y) as Ez by apply Fz. rewrite <-Ez in Sy, Hb, Ly, My.
  destruct R as [([] & -> & _)|[(e & ->) Hf]].
  2: { assert (failed w z) by (eapply failed_r; [apply Pwy|done]).
       eapply (uefi_fail bk b); eauto. by eapply failed_calm. }
  io_bind H v E; apply attempt_inv in E as (rv & E & Erv); try discriminate Erv. injection Erv as ->.
  apply (metadata_step _ _ _ Hc Sy) in E as (Pv & Sv & Vv & R). rewrite <-Vv in Hb.
  assert (passes uefi_state w v) as Pwv by (by etransitivity).
  destruct R as [(-> & Lv & Mv & Av)|[(e & ->) Hf]].
  - injection H as <- <-. split_and!; [done|done|]. exists b, (Ok tt). split_and!; [done|done|]. left. by rewrite Lv.
  - assert ((failed w v \/ asset_metadata c = None) /\ calm (clock v)) as [Hwhy Hcalm].
    { destruct Hf as [Hf|Hn]; [|split; [by right|eapply calm_le; [by apply Hbad|apply Pwv]]].
      assert (failed w v) by (eapply failed_r; [apply Pz|done]). split; [by left|by eapply failed_calm]. }
    eapply (uefi_fail bk b); eauto.
Qed.

Lemma frame_within w0 w x : frame w x -> passes uefi_state w0 w -> uefi_state (files w) -> passes uefi_state w0 x /\ uefi_state (files x).
Proof.
  intros F P S. split; [etransitivity; [exact P|by apply frame_passes]|]. by destruct F as (-> & _).
Qed.

(** The run under any faults, in the rollback too. *)
Lemma uefi_any w r w' :
  files w = f0 -> f0 !! efiPath = Some c ->
  writeUEFIGenerationWithRollback pe kgzip gzip xz modinfo mp arch efi efiPath info w = (r, w') ->
  passes uefi_state w w' /\ uefi_state (files w').
Proof.
  intros Hw Hc H. unfold writeUEFIGenerationWithRollback in H. rewrite Hrel in H.
  assert (quiet (backupUEFIGeneration mp rel)
    (fun b => u_loader b = f0 !! (mp, rel) /\ u_metadata b = f0 !! (mp, MetadataFile)) w) as Hq.
  { unfold backupUEFIGeneration. eapply quiet_bind; [apply quiet_backup_file|]. intros l x -> (Fx & _).
    eapply quiet_bind; [apply quiet_backup_file|]. intros m y -> _. apply quiet_ret. cbn. by rewrite Fx, Hw. }
  assert (passes uefi_state w w /\ uefi_state (files w)) as [P0 S0] by (split; [reflexivity|rewrite Hw; apply uefi_state_start]).
  apply bind_attempt_inv in H as (rx & x & E & H). apply Hq in E as [Fx R].
  destruct (frame_within _ _ _ Fx P0 S0) as [Px Sx]. assert (files x = f0) as Ex by (rewrite <-Hw; apply Fx).
  destruct R as [(bk & -> & Hl & Hm)|[(e & ->) _]]; [|by injection H as <- <-].
  io_bind H y E; apply (WriteLoader_step _ _ _ Ex) in E as (b & res & Er & Py & Sy & _ & R); try discriminate Er.
  injection Er as ->. cbn [fst snd] in H. assert (passes uefi_state w y) as Pwy by (by etransitivity).
  destruct R as [(-> & Ly & _)|[(e & ->) _]]; [|by eapply (within_state_undo _ bk)].
  apply bind_attempt_inv in H as (rz & z & E & H). apply (quiet_VerifyLoader _ Ly) in E as [Fz _].
  destruct (frame_within _ _ _ Fz Pwy Sy) as [Pz Sz].
  destruct rz as [u|e|]; [|by eapply (within_state_undo _ bk)|by injection H as <- <-].
  apply bind_attempt_inv in H as (rv & v & E & H). apply (metadata_step _ _ _ Hc Sz) in E as (Pv & Sv & _).
  assert (passes uefi_state w v) as Pwv by (by etransitivity).
  destruct rv as [u'|e|]; [by injection H as <- <-|by eapply (within_state_undo _ bk)|by injection H as <- <-].
Qed.

End generation.

(** ** Theorems *)

Section theorems.
Context {O : Oracle}.
Context (pe : bytes -> option peFile).
Context (kgzip : bytes -> option (bytes * bool)) (gzip xz : bytes -> option reader) (modinfo : bytes -> elf_section).

(** C5 - A UEFI generation, loader and metadata, is written whole or not at all.
The build is read from a local file outside the ESP. With at most one failing
call (and none at all when the build's own sections give no metadata), the run either
succeeds with the new loader and the metadata of its own sections in place, or
reports an error, because a call failed or the build has no metadata, with
loader and metadata as they were. It claims a previous copy only when that copy
is the old loader, and leaves every file but the four names involved alone. *)
Theorem writeUEFIGeneration_all_or_nothing mp arch rel efi info efiPath c w r w' :
  one_fault -> LoaderPath arch = Ok rel -> efiPath.1 <> mp -> files w !! efiPath = Some c ->
  (asset_metadata pe kgzip gzip xz modinfo arch info c = None -> calm (clock w)) ->
  writeUEFIGenerationWithRollback pe kgzip gzip xz modinfo mp arch efi efiPath info w = (r, w') ->
  disks w' = disks w /\
  off [(mp, rel); (mp, MetadataFile); (mp, previous rel); (mp, previous_tmp rel)] (files w) (files w') /\
  exists (b : bool) res, r = Ok (b, res) /\
    (b = true -> is_Some (files w !! (mp, rel)) /\ files w' !! (mp, previous rel) = files w !! (mp, rel)) /\
    ((exists meta, res = Ok tt /\ asset_metadata pe kgzip gzip xz modinfo arch info c = Some meta /\
       files w' !! (mp, rel) = Some efi /\ files w' !! (mp, MetadataFile) = Some meta) \/
     (exists e, res = Err e) /\ (failed w w' \/ asset_metadata pe kgzip gzip xz modinfo arch info c = None) /\
     files w' !! (mp, rel) = files w !! (mp, rel) /\ files w' !! (mp, MetadataFile) = files w !! (mp, MetadataFile)).
Proof.
  intros H1 Hrel Hl Hc Hbad H.
  apply (uefi_run pe kgzip gzip xz modinfo mp arch rel efi info efiPath Hrel (files w) c Hl) in H
    as (P & (Ho & _) & b & res & -> & Hb & R); try done.
  split_and!; [apply P|done|]. exists b, res. split_and!; [done|done|].
  destruct R as [(-> & [m Hs] & L & M)|R]; [left|by right]. exists m. by rewrite M.
Qed.

(** C6 - No run, cut off at any point and whatever calls fail, leaves a missing or
partial loader or loses the rollback copy: in every state the file system shows
between two calls, those of a rollback that fails as well included, the loader
is the complete old or the complete new one, and the [.previous] file is what it
was or a whole copy of the old loader. The build is in a local file outside the
ESP. (What of such a state a power cut would keep is up to the file system's
caches and not part of the model; the code does not sync the copy.) *)
Theorem writeUEFIGeneration_crash_safe mp arch rel efi info efiPath c w r w' :
  LoaderPath arch = Ok rel -> efiPath.1 <> mp -> files w !! efiPath = Some c ->
  writeUEFIGenerationWithRollback pe kgzip gzip xz modinfo mp arch efi efiPath info w = (r, w') ->
  exists hs, history w' = hs ++ history w /\
    Forall (fun s : filemap * diskmap =>
      (s.1 !! (mp, rel) = files w !! (mp, rel) \/ s.1 !! (mp, rel) = Some efi) /\
      (s.1 !! (mp, previous rel) = files w !! (mp, previous rel) \/
       s.1 !! (mp, previous rel) = files w !! (mp, rel) /\ is_Some (files w !! (mp, rel)))) hs.
Proof.
  intros Hrel Hl Hc H.
  apply (uefi_any pe kgzip gzip xz modinfo mp arch rel efi info efiPath Hrel (files w) c Hl) in H
    as [(_ & _ & hs & Hh & F) _]; try done.
  exists hs. split; [done|]. eapply Forall_impl; [exact F|]. by intros s (_ & ? & ? & _).
Qed.

End theorems.

(** ** A concrete build *)

Definition sample_efi : bytes := bs "a new loader".
Definition sample_pe (c : bytes) : option peFile :=
  if beq c sample_efi then Some (mkPE 0x8664 [(bs ".linux", Some boot_kernel); (bs ".initrd", Some sample_archive)]) else None.
Definition sample_info : Info := mkInfo (bs "x86_64") [] (bs "0.6.0") (bs "20260101T000000Z") [] [] [].
Definition local_efi : bytes * bytes := (bs "/tmp/work", bs "alpine-zfsboot-x86_64.EFI").
Definition x64 : bytes := bs "EFI/BOOT/BOOTX64.EFI".
Definition uefi_files : filemap :=
  {[(esp, x64) := bs "old loader"; (esp, previous x64) := bs "older loader"; (esp, MetadataFile) := bs "old metadata";
    local_efi := sample_efi]}.

Definition uefi_sample (O : Oracle) : outcome ioerr (bool * outcome ioerr unit) * world :=
  writeUEFIGenerationWithRollback (O:=O) sample_pe (fun _ => None) (fun _ => None) (fun _ => None) boot_modinfo esp (bs "x86_64")
    sample_efi local_efi sample_info (fresh_world uefi_files ∅).

Lemma sample_asset :
  bool_decide (asset_metadata sample_pe (fun _ => None) (fun _ => None) (fun _ => None) boot_modinfo (bs "x86_64")
    sample_info sample_efi = None) = false.
Proof. vm_compute. reflexivity. Qed.

(** The directory sync after the rename fails: the old loader is back. *)
Lemma writeUEFIGeneration_all_or_nothing_witness :
  let res := uefi_sample (fail_at 18 0) in
  match res.1 with Ok (true, Err _) => True | _ => False end /\
  files res.2 !! (esp, x64) = Some (bs "old loader") /\ files res.2 !! (esp, previous x64) = Some (bs "old loader").
Proof.
  intros res.
  assert (match res.1 with Ok (true, Err _) => True | _ => False end) as Hr by (vm_compute; exact I).
  destruct (writeUEFIGeneration_all_or_nothing (O:=fail_at 18 0) sample_pe (fun _ => None) (fun _ => None) (fun _ => None)
    boot_modinfo esp (bs "x86_64") x64 sample_efi sample_info local_efi sample_efi (fresh_world uefi_files ∅) res.1 res.2)
    as (_ & _ & b & e & He & Hb & Hres).
  - apply fail_at_one.
  - vm_compute. reflexivity.
  - discriminate.
  - vm_compute. reflexivity.
  - intros Hn. destruct (bool_decide_eq_false_1 _ sample_asset Hn).
  - apply surjective_pairing.
  - rewrite He in Hr |- *. destruct b, e as [[]|e|]; try (destruct Hr; fail).
    destruct (Hb eq_refl) as [_ Hb'].
    destruct Hres as [(m & Hx & _)|(_ & _ & Hl & _)]; [discriminate Hx|].
    split; [exact I|]. split; [exact (eq_trans Hl eq_refl)|exact (eq_trans Hb' eq_refl)].
Defined.

(** Every call from the nineteenth on fails: the sync after the rename of the
loader, and the whole rollback. *)
Definition broken_from (n : nat) : Oracle := fun k => if (n <=? k)%nat then Some 0%nat else None.

Lemma writeUEFIGeneration_crash_safe_witness :
  let res := uefi_sample (broken_from 18) in
  files res.2 !! (esp, x64) = Some sample_efi /\
  exists hs, history res.2 = hs ++ [] /\
    Forall (fun s : filemap * diskmap =>
      (s.1 !! (esp, x64) = uefi_files !! (esp, x64) \/ s.1 !! (esp, x64) = Some sample_efi) /\
      (s.1 !! (esp, previous x64) = uefi_files !! (esp, previous x64) \/
       s.1 !! (esp, previous x64) = uefi_files !! (esp, x64) /\ is_Some (uefi_files !! (esp, x64)))) hs.
Proof.
  intros res. split; [vm_compute; reflexivity|].
  apply (writeUEFIGeneration_crash_safe (O:=broken_from 18) sample_pe (fun _ => None) (fun _ => None) (fun _ => None)
    boot_modinfo esp (bs "x86_64") x64 sample_efi sample_info local_efi sample_efi (fresh_world uefi_files ∅) res.1 res.2).
  - vm_compute. reflexivity.
  - discriminate.
  - vm_compute. reflexivity.
  - apply surjective_pairing.
Defined.
