(* ===== verification/Verify.v ===== *)
(** * cmd/tool: verify and integrity

The checks of an installed ESP (main.go): metadata against the payload,
CHECKSUM and BLKSUM against the payload, what [--repair] may write, and the
[integrity] command's rewrite of CHECKSUM. Messages printed to the terminal are
left out; the fields of the report the checks fill are kept. *)

From Stdlib Require Import ZArith Lia Strings.Byte.
From stdpp Require Import base list gmap.
From S2P Require Import Prelude GoStrings Layout World EspConfig PayloadSum BlkSum InitrdInfo Metadata BiosBoot Payload CmdLine UefiBoot.
Local Open Scope Z_scope.

Record target := mkTarget {
  t_uefi : bool; t_arch : bytes; t_espDev : bytes; t_disk : bytes; t_mountpoint : bytes
}.

Inductive verify_error :=
| VIo (e : ioerr)
| VMetadata (e : metadata_error)
| VHash (field : bytes)
| VField (field recorded found : bytes)
| VSum (e : payloadsum_error)
| VSize (rel : bytes).

(** The fields of [report] that CHECKSUM's and BLKSUM's checks use. *)
Record sumReport := mkSumReport {
  payloadSumPresent : bool; payloadSumErr : option verify_error; payloadSumMode : bytes;
  payloadSumVerified : bool; payloadSumWarn : bool; blkSumOK : bool
}.

Definition set_verified (r : sumReport) (present verified : bool) : sumReport :=
  mkSumReport present (payloadSumErr r) (payloadSumMode r) verified (payloadSumWarn r) (blkSumOK r).

(** [len(errs) == 0] *)
Definition no_errs {A} (errs : list A) : bool := match errs with [] => true | _ => false end.

Section verify.
Context {O : Oracle}.
Context (pe : bytes -> option peFile).
Context (kgzip : bytes -> option (bytes * bool)) (gzip xz : bytes -> option reader) (modinfo : bytes -> elf_section).

Definition readInstalledKernelInitrd (t : target) : io (bytes * bytes * Info) :=
  if t_uefi t then
    do rel := lift (LoaderPath (t_arch t)) in
    do info := Read pe (t_mountpoint t) rel in
    do kernelBytes := ReadSection pe (t_mountpoint t) rel (bs ".linux") in
    do initrdBytes := ReadSection pe (t_mountpoint t) rel (bs ".initrd") in
    ret (kernelBytes, initrdBytes, info)
  else
    do kernelBytes := readFile (t_mountpoint t) KernelFile in
    do initrdBytes := readFile (t_mountpoint t) InitrdFile in
    do cmdlineBytes := readFile (t_mountpoint t) CmdlineFile in
    ret (kernelBytes, initrdBytes, ParseText cmdlineBytes).

(** [if bad { errs = append(errs, e) }] *)
Definition complain (bad : bool) (e : verify_error) : list verify_error := if bad then [e] else [].

(** The comparison of a manifest with the payload and its own command line. *)
Definition metadata_errors (t : target) (m : Metadata.Manifest) (kernel initrd : bytes) (info : Info) : list verify_error :=
  complain (negb (VerifyHash kernel (KernelSHA256 m))) (VHash (bs "kernel_sha256"))
  ++ complain (negb (VerifyHash initrd (InitrdSHA256 m))) (VHash (bs "initrd_sha256"))
  ++ complain (negb (beq (Version m) (iVersion info))) (VField (bs "version") (Version m) (iVersion info))
  ++ complain (negb (beq (BuildStamp m) (iBuildStamp info))) (VField (bs "buildstamp") (BuildStamp m) (iBuildStamp info))
  ++ complain (negb (beq (Arch m) (t_arch t))) (VField (bs "arch") (Arch m) (t_arch t)).

Definition deep_errors (m fresh : Metadata.Manifest) : list verify_error :=
  complain (negb (beq (Metadata.Kernel fresh) (Metadata.Kernel m))) (VField (bs "kernel") (Metadata.Kernel m) (Metadata.Kernel fresh))
  ++ complain (negb (beq (OpenZFS fresh) (OpenZFS m))) (VField (bs "openzfs") (OpenZFS m) (OpenZFS fresh)).

Definition verifyMetadata (t : target) (deep repair : bool) : io (list verify_error) :=
  do f := tryReadMetadata (t_mountpoint t) in
  match f with
  | MBroken e => ret [VMetadata e]
  | MUnreadable e => ret [VIo e]
  | MAbsent | MPresent _ =>
      do installed := attempt (readInstalledKernelInitrd t) in
      match installed with
      | Err e => ret [VIo e]
      | Panic => lift Panic
      | Ok (kernelBytes, initrdBytes, info) =>
          match f with
          | MPresent m =>
              let errs := metadata_errors t m kernelBytes initrdBytes info in
              if negb (no_errs errs) then ret errs else
              if deep then
                match deepMetadataFor kgzip gzip xz modinfo (t_arch t) (iVersion info) (iBuildStamp info) kernelBytes initrdBytes with
                | Err _ => ret [VIo (ERefused (bs "deep-inspecting"))]
                | Panic => lift Panic
                | Ok fresh => ret (deep_errors m fresh)
                end
              else ret errs
          | _ =>
              if negb repair then ret [] else
              do r := attempt (writeMetadata kgzip gzip xz modinfo (t_mountpoint t) (t_arch t) (iVersion info)
                                 (iBuildStamp info) kernelBytes initrdBytes) in
              match r with Ok _ => ret [] | Err e => ret [VIo e] | Panic => lift Panic end
          end
      end
  end.

(** [os.Stat]: the size of a file, or nothing on any error. *)
Definition statSize (mp rel : bytes) : io (option Z) := fun w =>
  match sys OpStat (fun w => (files w !! (mp, rel), w)) w with
  | (Ok c, w') => (Ok (len <$> c), w')
  | (_, w') => (Ok None, w')
  end.

(** The loop of [inspectPayloadSum]: the first size that differs. *)
Fixpoint check_sizes (mp : bytes) (fs : list (bytes * Z)) : io (option verify_error) :=
  match fs with
  | [] => ret None
  | (rel, want) :: t =>
      do st := statSize mp rel in
      match st with
      | Some n => if negb (n =? want) then ret (Some (VSize rel)) else check_sizes mp t
      | None => check_sizes mp t
      end
  end.

Definition inspectPayloadSum (mp : bytes) : io (bool * bytes * option verify_error) :=
  do raw := attempt (readFile mp PayloadSumFile) in
  match raw with
  | Err ENotExist => ret (false, [], None)
  | Err e => ret (true, [], Some (VIo e))
  | Panic => lift Panic
  | Ok raw =>
      match PayloadSum.Decode raw with
      | Err e => ret (true, [], Some (VSum e))
      | Panic => lift Panic
      | Ok m =>
          do e := check_sizes mp [(KernelFile, Size (PayloadSum.Kernel m)); (InitrdFile, Size (Initrd m))] in
          ret (true, Mode m, e)
      end
  end.

(** [status]'s line for BLKSUM: absent, unreadable, not decodable, or its block counts. *)
Inductive blk_line := BlkAbsent | BlkUnreadable (e : ioerr) | BlkBroken (e : payloadsum_error) | BlkBlocks (kernel initrd : Z).

Definition inspectBlkSum (mp : bytes) : io blk_line :=
  do raw := attempt (readFile mp BlkSumFile) in
  match raw with
  | Err ENotExist => ret BlkAbsent
  | Err e => ret (BlkUnreadable e)
  | Panic => lift Panic
  | Ok raw =>
      match DecodeBlkSum raw with
      | Err e => ret (BlkBroken e)
      | Panic => lift Panic
      | Ok b => ret (BlkBlocks (Blocks (bKernel b)) (Blocks (bInitrd b)))
      end
  end.

(** A [payloadsum] result inside a function that does I/O. *)
Definition sums {A} (r : outcome payloadsum_error A) : io A :=
  match r with Ok a => ret a | Err e => throw (ERefused (bs "payload-sum")) | Panic => lift Panic end.

(** The check of a BLKSUM text. *)
Definition check_blksum (r : sumReport) (raw : bytes) (m : PayloadSum.Manifest) (kernel initrd : bytes)
    : io (sumReport * list verify_error) :=
  match DecodeBlkSum raw with
  | Err e => ret (r, [VSum e])
  | Panic => lift Panic
  | Ok b =>
      match VerifyBlkSum b m kernel initrd with
      | Ok errs =>
          ret (mkSumReport (payloadSumPresent r) (payloadSumErr r) (payloadSumMode r) (payloadSumVerified r)
                 (payloadSumWarn r) (no_errs errs || blkSumOK r), VSum <$> errs)
      | Err e => ret (r, [VSum e])
      | Panic => lift Panic
      end
  end.

Definition verifyBlkSum (t : target) (r : sumReport) (m : PayloadSum.Manifest) (kernel initrd : bytes) (repair : bool)
    : io (sumReport * list verify_error) :=
  do raw := attempt (readFile (t_mountpoint t) BlkSumFile) in
  match raw with
  | Err ENotExist =>
      if negb repair then ret (r, []) else
      do w := attempt (do blk := sums (GenerateBlkSum kernel initrd) in
                       run WriteFile (t_mountpoint t) BlkSumFile blk then ret blk) in
      match w with
      | Ok blk => check_blksum r blk m kernel initrd
      | Err e => ret (r, [VIo e])
      | Panic => lift Panic
      end
  | Err e => ret (r, [VIo e])
  | Panic => lift Panic
  | Ok raw => check_blksum r raw m kernel initrd
  end.

(** The manifests [--repair] writes, BLKSUM first. *)
Definition repair_sums (mp kernel initrd : bytes) : io unit :=
  do raw := sums (Generate kernel initrd ModeWarn) in
  do blk := sums (GenerateBlkSum kernel initrd) in
  run WriteFile mp BlkSumFile blk then
  WriteFile mp PayloadSumFile raw.

Definition verifyPayloadSum (t : target) (r : sumReport) (repair : bool) : io (sumReport * list verify_error) :=
  match payloadSumErr r with
  | Some _ => ret (r, [])
  | None =>
      if negb (payloadSumPresent r) && negb repair then ret (r, []) else
      do installed := attempt (readInstalledKernelInitrd t) in
      match installed with
      | Err e => ret (r, [VIo e])
      | Panic => lift Panic
      | Ok (kernel, initrd, _) =>
          if negb (payloadSumPresent r) then
            do w := attempt (repair_sums (t_mountpoint t) kernel initrd) in
            match w with
            | Ok _ => ret (set_verified r true true, [])
            | Err e => ret (r, [VIo e])
            | Panic => lift Panic
            end
          else
            do raw := attempt (readFile (t_mountpoint t) PayloadSumFile) in
            match raw with
            | Err e => ret (r, [VIo e])
            | Panic => lift Panic
            | Ok raw =>
                match PayloadSum.Decode raw with
                | Err e => ret (r, [VSum e])
                | Panic => lift Panic
                | Ok m =>
                    do res := (match Verify m kernel initrd with
                               | Ok [] => verifyBlkSum t r m kernel initrd repair
                               | Ok errs => ret (r, VSum <$> errs)
                               | Err e => ret (r, [VSum e])
                               | Panic => lift Panic
                               end) in
                    let '(r, errs) := res in
                    let r := mkSumReport (payloadSumPresent r) (payloadSumErr r) (Mode m)
                               (no_errs errs) (payloadSumWarn r) (blkSumOK r) in
                    do eff := effectiveIntegrity (t_mountpoint t) (Mode m) in
                    if negb (no_errs errs) && negb (beq eff ModeEnforce) then
                      ret (mkSumReport (payloadSumPresent r) (payloadSumErr r) (payloadSumMode r) (payloadSumVerified r)
                             true (blkSumOK r), [])
                    else ret (r, errs)
                end
            end
      end
  end.

Definition setIntegrityMode (t : target) (mode : bytes) : io unit :=
  if negb (ValidMode mode) then throw (ERefused (bs "integrity mode")) else
  do raw := attempt (readFile (t_mountpoint t) PayloadSumFile) in
  match raw with
  | Err ENotExist =>
      do installed := wrap PayloadSumFile (readInstalledKernelInitrd t) in
      let '(kernel, initrd, _) := installed in
      do m := sums (New kernel initrd mode) in
      do blk := sums (GenerateBlkSum kernel initrd) in
      run WriteFile (t_mountpoint t) BlkSumFile blk then
      WriteFile (t_mountpoint t) PayloadSumFile (PayloadSum.Encode m)
  | Err e => throw e
  | Panic => lift Panic
  | Ok raw =>
      do m := sums (PayloadSum.Decode raw) in
      WriteFile (t_mountpoint t) PayloadSumFile
        (PayloadSum.Encode (PayloadSum.mkManifest (PayloadSum.Kernel m) (Initrd m) mode))
  end.

End verify.

(** ** What the checks may write *)

Section writes.
Context {O : Oracle}.
Context (pe : bytes -> option peFile).
Context (kgzip : bytes -> option (bytes * bool)) (gzip xz : bytes -> option reader) (modinfo : bytes -> elf_section).

Lemma looks_sectionData f name : looks (sectionData f name).
Proof. unfold sectionData. looking. Qed.
#[local] Hint Resolve looks_sectionData : looks.

Lemma looks_peOpen dir path : looks (peOpen pe dir path).
Proof. unfold peOpen. looking. Qed.
#[local] Hint Resolve looks_peOpen : looks.

Lemma looks_lift_cmdline {A : Type} (r : outcome cmdline_error A) : looks (lift_cmdline r).
Proof. unfold lift_cmdline. looking. Qed.
#[local] Hint Resolve looks_lift_cmdline : looks.

Lemma looks_Read dir path : looks (Read pe dir path).
Proof. unfold Read. looking. Qed.
#[local] Hint Resolve looks_Read : looks.

Lemma looks_installed t : looks (readInstalledKernelInitrd pe t).
Proof. unfold readInstalledKernelInitrd, ReadSection. looking. Qed.

Lemma looks_tryReadMetadata mp : looks (tryReadMetadata mp).
Proof. unfold tryReadMetadata. looking. Qed.

#[local] Hint Resolve looks_installed looks_tryReadMetadata : looks.

(** The payload installed on a target, as the tree has it. *)
Definition installed (t : target) (f : filemap) (kernel initrd : bytes) (info : Info) : Prop :=
  if t_uefi t then
    exists rel c p arch cmd, LoaderPath (t_arch t) = Ok rel /\ f !! (t_mountpoint t, rel) = Some c /\ pe c = Some p /\
      asset_section p (bs ".linux") = Some kernel /\ asset_section p (bs ".initrd") = Some initrd /\
      archFromMachine (Machine p) = Ok arch /\ asset_section p (bs ".cmdline") = Some cmd /\ info = (parse arch cmd).1
  else
    exists cmd, f !! (t_mountpoint t, KernelFile) = Some kernel /\ f !! (t_mountpoint t, InitrdFile) = Some initrd /\
      f !! (t_mountpoint t, CmdlineFile) = Some cmd /\ info = ParseText cmd.

Lemma bind_ok_inv {A B : Type} (c : io A) (k : A -> io B) b w w' :
  bind c k w = (Ok b, w') -> exists a x, c w = (Ok a, x) /\ k a x = (Ok b, w').
Proof. intros H. io_bind H x E; [eauto|discriminate Hr|discriminate Hr]. Qed.

Lemma readFile_ok_inv mp rel c w w' :
  readFile mp rel w = (Ok c, w') -> files w !! (mp, rel) = Some c /\ files w' = files w.
Proof. intros H. apply readFile_spec in H as ((F & _) & _ & H). done. Qed.

Lemma sectionData_ok_inv p name d w w' : sectionData p name w = (Ok d, w') -> asset_section p name = Some d.
Proof.
  unfold sectionData, asset_section. destruct (list_find _ _) as [[i [n [data|]]]|]; intros H.
  - by apply bind_ok_inv in H as (u & x & _ & [= -> _]).
  - by apply bind_ok_inv in H as (u & x & _ & H).
  - discriminate H.
Qed.

Lemma peOpen_ok_inv dir path p w w' :
  peOpen pe dir path w = (Ok p, w') -> exists c, files w !! (dir, path) = Some c /\ pe c = Some p /\ files w' = files w.
Proof.
  intros H. apply bind_ok_inv in H as (c & x & E & H). apply readFile_ok_inv in E as [Ec Ex].
  destruct (pe c) as [p'|] eqn:Ep; [|discriminate H]. injection H as -> <-. eauto.
Qed.

Lemma ReadSection_ok_inv dir path name d w w' :
  ReadSection pe dir path name w = (Ok d, w') ->
  files w' = files w /\ exists c p, files w !! (dir, path) = Some c /\ pe c = Some p /\ asset_section p name = Some d.
Proof.
  intros H. apply bind_ok_inv in H as (p & x & E & H). apply peOpen_ok_inv in E as (c & Hc & Hp & Fx).
  pose proof (looks_sectionData _ _ _ _ _ H) as (F & _). apply sectionData_ok_inv in H. split; [congruence|eauto].
Qed.

Lemma Read_ok_inv dir path info w w' :
  Read pe dir path w = (Ok info, w') ->
  files w' = files w /\ exists c p arch cmd, files w !! (dir, path) = Some c /\ pe c = Some p /\
    archFromMachine (Machine p) = Ok arch /\ asset_section p (bs ".cmdline") = Some cmd /\ info = (parse arch cmd).1.
Proof.
  intros H. apply bind_ok_inv in H as (p & x & E & H). apply peOpen_ok_inv in E as (c & Hc & Hp & Fx).
  apply bind_ok_inv in H as (arch & y & Ea & H).
  destruct (archFromMachine (Machine p)) as [a|e|] eqn:Em; try discriminate Ea. injection Ea as -> <-.
  apply bind_ok_inv in H as (cmd & z & E & H). pose proof (looks_sectionData _ _ _ _ _ E) as (Fz & _).
  apply sectionData_ok_inv in E. apply bind_ok_inv in H as (u & v & Eu & H).
  apply looks_lift_cmdline in Eu as (Fv & _). injection H as <- <-. split; [congruence|eauto 10].
Qed.

Lemma readInstalled_spec t kernel initrd info w w' :
  readInstalledKernelInitrd pe t w = (Ok (kernel, initrd, info), w') -> installed t (files w) kernel initrd info.
Proof.
  unfold readInstalledKernelInitrd, installed. destruct (t_uefi t); intros H.
  - apply bind_ok_inv in H as (rel & x0 & E & H). destruct (LoaderPath (t_arch t)) as [r0|e|]; try discriminate E.
    injection E as -> <-.
    apply bind_ok_inv in H as (i0 & x1 & E & H). apply Read_ok_inv in E as (F1 & c & p & arch & cmd & Hc & Hp & Ha & Hs & Hi).
    apply bind_ok_inv in H as (k0 & x2 & E & H). apply ReadSection_ok_inv in E as (F2 & c2 & p2 & Hc2 & Hp2 & Hs2).
    apply bind_ok_inv in H as (j0 & x3 & E & H). apply ReadSection_ok_inv in E as (F3 & c3 & p3 & Hc3 & Hp3 & Hs3).
    injection H as <- <- <- _. rewrite F1 in F2, Hc2. rewrite F2 in Hc3. simplify_eq. eauto 15.
  - apply bind_ok_inv in H as (k & x & E & H). apply readFile_ok_inv in E as [Hk Fx].
    apply bind_ok_inv in H as (i & y & E & H). apply readFile_ok_inv in E as [Hi Fy].
    apply bind_ok_inv in H as (cmd & z & E & H). apply readFile_ok_inv in E as [Hc Fz].
    injection H as <- <- <- _. rewrite Fy, Fx in Hc. rewrite Fx in Hi. eauto.
Qed.

Lemma tryReadMetadata_spec mp w r w' :
  tryReadMetadata mp w = (r, w') ->
  frame w w' /\
  match r with
  | Ok MAbsent => files w !! (mp, MetadataFile) = None
  | Ok (MPresent m) => exists raw, files w !! (mp, MetadataFile) = Some raw /\ Metadata.Decode raw = Ok m
  | Ok (MBroken e) => exists raw, files w !! (mp, MetadataFile) = Some raw /\ Metadata.Decode raw = Err e
  | Ok (MUnreadable e) => True
  | Err _ | Panic => False
  end.
Proof.
  unfold tryReadMetadata, bind, attempt. destruct (readFile mp MetadataFile w) as [r0 x] eqn:E.
  apply readFile_spec in E as (F & _ & E). destruct r0 as [raw|e|]; [| |done].
  - pose proof (Decode_safe raw). destruct (Metadata.Decode raw) eqn:Ed; intros [= <- <-]; (split; [done|]); eauto.
  - destruct e; intros [= <- <-]; by split.
Qed.

(** [verify --repair] writes metadata only where there is none, and only
metadata that describes what is installed: whatever calls fail, the media are
left alone, or repair was asked for, no manifest was there, and the one file
written is the manifest derived from the installed kernel and initrd. An
existing manifest, matching or not, readable or not, is never replaced. *)
Theorem verifyMetadata_repairs_only_missing t deep repair w r w' :
  verifyMetadata pe kgzip gzip xz modinfo t deep repair w = (r, w') ->
  frame w w' \/
  repair = true /\ files w !! (t_mountpoint t, MetadataFile) = None /\
  exists kernel initrd info text, installed t (files w) kernel initrd info /\
    metadata_text kgzip gzip xz modinfo (t_arch t) (iVersion info) (iBuildStamp info) kernel initrd = Ok text /\
    replaced (t_mountpoint t) MetadataFile text w w'.
Proof.
  intros H. unfold verifyMetadata in H. io_bind H x E; apply tryReadMetadata_spec in E as [Fx Hx]; [|by destruct Hx..].
  assert (forall y, frame x y -> frame w y) as Fw by (intros y Fy; by etransitivity).
  destruct a as [|m|e|e]; [| |injection H as _ <-; by left|injection H as _ <-; by left];
    apply bind_attempt_inv in H as (ry & y & E & H); pose proof (looks_installed t _ _ _ E) as Fy;
    (destruct ry as [[[kernel initrd] info]|e|]; [|injection H as _ <-; left; by auto..]).
  - destruct repair; [|injection H as _ <-; left; by auto]. cbn [negb] in H.
    apply bind_attempt_inv in H as (rz & z & Ez & H).
    assert (w' = z) as -> by (destruct rz; by injection H as _ <-).
    apply readInstalled_spec in E. destruct Fx as (Fxf & Fx'). rewrite Fxf in E.
    unfold writeMetadata in Ez.
    destruct (metadata_text _ _ _ _ _ _ _ _ _) as [text|e|] eqn:Et; [|injection Ez as _ <-; left; by auto..].
    change (WriteFile (t_mountpoint t) MetadataFile text y = (rz, z)) in Ez. apply WriteFile_spec in Ez.
    assert (replaced (t_mountpoint t) MetadataFile text y z -> replaced (t_mountpoint t) MetadataFile text w z) as Hrep
      by (by apply replaced_frame_l, Fw).
    destruct Ez as [[_ Hz]|(_ & _ & _ & [Hz|Hz])]; [right|left|right]; try (etransitivity; [by apply Fw|exact Hz]);
      (split_and!; [done|done|]; exists kernel, initrd, info, text; auto).
  - left. apply Fw. etransitivity; [exact Fy|].
    revert H. repeat case_match; intros [= _ <-]; reflexivity.
Qed.

Lemma complain_nil b e : complain (negb b) e = [] <-> b = true.
Proof. by destruct b. Qed.

Lemma metadata_errors_nil t m kernel initrd info :
  metadata_errors t m kernel initrd info = [] <->
  SHA256Hex kernel = to_lower (KernelSHA256 m) /\ SHA256Hex initrd = to_lower (InitrdSHA256 m) /\
  Version m = iVersion info /\ BuildStamp m = iBuildStamp info /\ Arch m = t_arch t.
Proof. unfold metadata_errors, VerifyHash. rewrite !app_nil, !complain_nil, !beq_true. done. Qed.

Lemma deep_errors_nil m fresh :
  deep_errors m fresh = [] <-> Metadata.Kernel fresh = Metadata.Kernel m /\ OpenZFS fresh = OpenZFS m.
Proof. unfold deep_errors. rewrite !app_nil, !complain_nil, !beq_true. done. Qed.

(** A verification without complaint is one: when [verify] finds no fault
with an existing manifest, whatever calls failed on the way, nothing was
written, the manifest decodes, the installed kernel and initrd have exactly the
recorded SHA-256 digests, its version, build stamp and architecture are those
of the installed build, and with [--deep] so are the kernel and OpenZFS versions
derived from the payload. *)
Theorem verifyMetadata_sound t deep repair raw w w' :
  files w !! (t_mountpoint t, MetadataFile) = Some raw ->
  verifyMetadata pe kgzip gzip xz modinfo t deep repair w = (Ok [], w') ->
  frame w w' /\ exists m kernel initrd info, Metadata.Decode raw = Ok m /\ installed t (files w) kernel initrd info /\
    SHA256Hex kernel = to_lower (KernelSHA256 m) /\ SHA256Hex initrd = to_lower (InitrdSHA256 m) /\
    Version m = iVersion info /\ BuildStamp m = iBuildStamp info /\ Arch m = t_arch t /\
    (deep = true -> exists fresh,
       deepMetadataFor kgzip gzip xz modinfo (t_arch t) (iVersion info) (iBuildStamp info) kernel initrd = Ok fresh /\
       Metadata.Kernel fresh = Metadata.Kernel m /\ OpenZFS fresh = OpenZFS m).
Proof.
  intros Hraw H. unfold verifyMetadata in H. io_bind H x E; apply tryReadMetadata_spec in E as [Fx Hx]; [|by destruct Hx..].
  destruct a as [|m|e|e]; [congruence| |discriminate H|discriminate H].
  destruct Hx as (raw' & Hr' & Hm). rewrite Hraw in Hr'. injection Hr' as <-.
  apply bind_attempt_inv in H as (ry & y & E & H). pose proof (looks_installed t _ _ _ E) as Fy.
  destruct ry as [[[kernel initrd] info]|e|]; [|discriminate H..]. apply readInstalled_spec in E.
  destruct (metadata_errors t m kernel initrd info) as [|e errs] eqn:Ee; [|discriminate H]. cbn [no_errs negb] in H.
  apply metadata_errors_nil in Ee as (H1 & H2 & H3 & H4 & H5). destruct Fx as (Fxf & Fx'). rewrite Fxf in E.
  assert (frame w y) as Fw by (etransitivity; [exact (conj Fxf Fx')|exact Fy]).
  assert (w' = y) as -> by (revert H; clear; unfold ret, lift; repeat case_match; congruence).
  split; [done|]. exists m, kernel, initrd, info. split_and!; try done. intros ->.
  destruct (deepMetadataFor _ _ _ _ _ _ _ _ _) as [fresh|e|]; [|discriminate H..].
  injection H as H. apply deep_errors_nil in H. eauto.
Qed.

End writes.

(** ** After an update *)

Section after.
Context {O : Oracle}.
Context (pe : bytes -> option peFile).
Context (kgzip : bytes -> option (bytes * bool)) (gzip xz : bytes -> option reader) (modinfo : bytes -> elf_section).

(** A BIOS target whose payload is on its tree reads back. *)
Lemma answers_installed t kernel initrd cmd w :
  t_uefi t = false -> files w !! (t_mountpoint t, KernelFile) = Some kernel ->
  files w !! (t_mountpoint t, InitrdFile) = Some initrd -> files w !! (t_mountpoint t, CmdlineFile) = Some cmd ->
  answers (readInstalledKernelInitrd pe t) (kernel, initrd, ParseText cmd) w.
Proof.
  intros Hu Hk Hi Hc. unfold readInstalledKernelInitrd. rewrite Hu.
  eapply answers_bind; [by apply answers_readFile|]. intros x Fx.
  eapply answers_bind; [apply answers_readFile; by rewrite Fx|]. intros y Fy.
  eapply answers_bind; [apply answers_readFile; by rewrite Fy, Fx|]. intros z Fz. apply answers_ret.
Qed.

Lemma answers_metadata t deep repair kernel initrd cmd text m w :
  t_uefi t = false -> files w !! (t_mountpoint t, KernelFile) = Some kernel ->
  files w !! (t_mountpoint t, InitrdFile) = Some initrd -> files w !! (t_mountpoint t, CmdlineFile) = Some cmd ->
  files w !! (t_mountpoint t, MetadataFile) = Some text -> Metadata.Decode text = Ok m ->
  deepMetadataFor kgzip gzip xz modinfo (t_arch t) (iVersion (ParseText cmd)) (iBuildStamp (ParseText cmd)) kernel initrd = Ok m ->
  answers (verifyMetadata pe kgzip gzip xz modinfo t deep repair) [] w.
Proof.
  intros Hu Hk Hi Hc Ht Hm Hd. unfold verifyMetadata.
  assert (metadata_errors t m kernel initrd (ParseText cmd) = []) as Hnil.
  { unfold deepMetadataFor in Hd. apply obind_ok_inv in Hd as (kv & _ & Hd). apply obind_ok_inv in Hd as (zv & _ & Hd).
    injection Hd as <-. apply metadata_errors_nil. cbn [KernelSHA256 InitrdSHA256 Version BuildStamp Arch]. unfold SHA256Hex. by rewrite !hex_encode_lower. }
  assert (deep_errors m m = []) as Hdeep by (by apply deep_errors_nil).
  apply (answers_bind _ _ (MPresent m)).
  { unfold tryReadMetadata. eapply answers_bind; [by apply answers_attempt, answers_readFile|].
    intros x _. cbv beta iota. rewrite Hm. apply answers_ret. }
  intros x Fx. cbv beta iota. eapply answers_bind.
  { apply answers_attempt, (answers_installed t kernel initrd cmd); by rewrite ?Fx. }
  intros y Fy. cbv beta iota. rewrite Hnil. cbn [no_errs negb]. destruct deep; [|apply answers_ret].
  rewrite Hd, Hdeep. apply answers_ret.
Qed.

Lemma answers_statSize mp rel c w : files w !! (mp, rel) = Some c -> answers (statSize mp rel) (Some (len c)) w.
Proof.
  intros Hc C. exists (tick w). split; [|apply frame_tick]. unfold statSize, sys. rewrite (C (clock w)) by done. cbn.
  by rewrite Hc.
Qed.

(** CHECKSUM and BLKSUM of the payload next to them pass the check. *)
Lemma answers_sums t repair kernel initrd cmd sum blk m b w :
  t_uefi t = false -> files w !! (t_mountpoint t, KernelFile) = Some kernel ->
  files w !! (t_mountpoint t, InitrdFile) = Some initrd -> files w !! (t_mountpoint t, CmdlineFile) = Some cmd ->
  files w !! (t_mountpoint t, PayloadSumFile) = Some sum -> files w !! (t_mountpoint t, BlkSumFile) = Some blk ->
  PayloadSum.Decode sum = Ok m -> Verify m kernel initrd = Ok [] ->
  DecodeBlkSum blk = Ok b -> VerifyBlkSum b m kernel initrd = Ok [] ->
  answers (verifyPayloadSum pe t (mkSumReport true None (Mode m) false false false) repair)
    (mkSumReport true None (Mode m) true false true, []) w.
Proof.
  intros Hu Hk Hi Hc Hs Hb Hm Hv Hdb Hvb. unfold verifyPayloadSum. cbn [payloadSumErr payloadSumPresent negb andb].
  eapply answers_bind; [by apply answers_attempt, (answers_installed t kernel initrd cmd)|]. intros x Fx. cbv beta iota.
  eapply answers_bind; [apply answers_attempt, answers_readFile; by rewrite Fx|]. intros y Fy. cbv beta iota.
  rewrite Hm, Hv. eapply answers_bind.
  { unfold verifyBlkSum. eapply answers_bind; [apply answers_attempt, answers_readFile; by rewrite Fy, Fx|].
    intros z _. cbv beta iota. unfold check_blksum. rewrite Hdb, Hvb. apply answers_ret. }
  intros z Fz. cbv beta iota. eapply answers_bind.
  { unfold effectiveIntegrity. eapply answers_bind; [apply answers_attempt, answers_readFile; by rewrite Fz, Fy, Fx|].
    intros v _. cbv beta iota. apply answers_ret. }
  intros v _. cbn [fmap list_fmap no_errs negb andb payloadSumPresent payloadSumErr payloadSumMode payloadSumWarn blkSumOK orb].
  apply answers_ret.
Qed.

Lemma answers_inspect mp kernel initrd sum m w :
  files w !! (mp, KernelFile) = Some kernel -> files w !! (mp, InitrdFile) = Some initrd ->
  files w !! (mp, PayloadSumFile) = Some sum -> PayloadSum.Decode sum = Ok m ->
  Size (PayloadSum.Kernel m) = len kernel -> Size (Initrd m) = len initrd ->
  answers (inspectPayloadSum mp) (true, Mode m, None) w.
Proof.
  intros Hk Hi Hs Hm Sk Si. unfold inspectPayloadSum.
  eapply answers_bind; [by apply answers_attempt, answers_readFile|]. intros x Fx. cbv beta iota. rewrite Hm.
  eapply answers_bind; [|intros y _; apply answers_ret]. cbn [check_sizes].
  eapply answers_bind; [apply answers_statSize; by rewrite Fx|]. intros y Fy. cbv beta iota.
  rewrite Sk, Z.eqb_refl. cbn [negb].
  eapply answers_bind; [apply answers_statSize; by rewrite Fy, Fx|]. intros z Fz. cbv beta iota.
  rewrite Si, Z.eqb_refl. apply answers_ret.
Qed.

Lemma metadata_text_wf arch version stamp kernel initrd md :
  deepMetadataFor kgzip gzip xz modinfo arch version stamp kernel initrd = Ok md -> Metadata.wf_Manifest md ->
  metadata_text kgzip gzip xz modinfo arch version stamp kernel initrd = Ok (Metadata.Encode md).
Proof.
  intros Hd Hw. unfold metadata_text. rewrite Hd. unfold checkMetadataEncodable. by rewrite Decode_Encode_ok.
Qed.

Lemma payload_sums_x86 kernel initrd integrity s :
  payload_sums (bs "x86_64") kernel initrd integrity = Ok s ->
  exists sum blk, s = (Some sum, Some blk) /\ Generate kernel initrd integrity = Ok sum /\ GenerateBlkSum kernel initrd = Ok blk.
Proof.
  unfold payload_sums. rewrite beq_refl. destruct (Generate _ _ _) as [sum|e|]; try discriminate.
  destruct (GenerateBlkSum _ _) as [blk|e|]; try discriminate. intros [= <-]. eauto.
Qed.

Lemma answers_blksum mp blk b w :
  files w !! (mp, BlkSumFile) = Some blk -> DecodeBlkSum blk = Ok b ->
  answers (inspectBlkSum mp) (BlkBlocks (Blocks (bKernel b)) (Blocks (bInitrd b))) w.
Proof.
  intros Hb Hd. unfold inspectBlkSum. eapply answers_bind; [by apply answers_attempt, answers_readFile|].
  intros x _. cbv beta iota. rewrite Hd. apply answers_ret.
Qed.

(** A complete generation of x86_64 files on an ESP passes the checks of its
metadata, its CHECKSUM and its BLKSUM, as long as no read fails: its command
line names the version and build stamp the metadata was made for, the metadata
is well formed and the files fit the block table. *)
Lemma generation_verifies t kernel initrd cmd integrity md koff meta s f0 w :
  t_uefi t = false -> t_arch t = bs "x86_64" ->
  deepMetadataFor kgzip gzip xz modinfo (t_arch t) (iVersion (ParseText cmd)) (iBuildStamp (ParseText cmd)) kernel initrd = Ok md ->
  Metadata.wf_Manifest md -> KernelRAMOffset kernel = Ok koff -> describable kernel initrd koff ->
  metadata_text kgzip gzip xz modinfo (t_arch t) (iVersion (ParseText cmd)) (iBuildStamp (ParseText cmd)) kernel initrd = Ok meta ->
  payload_sums (t_arch t) kernel initrd integrity = Ok s ->
  files w = new_generation (t_mountpoint t) kernel initrd cmd meta s f0 ->
  answers (tryReadMetadata (t_mountpoint t)) (MPresent md) w /\
  answers (inspectPayloadSum (t_mountpoint t)) (true, integrity, None) w /\
  (exists line, answers (inspectBlkSum (t_mountpoint t)) line w) /\
  forall deep repair,
    answers (verifyMetadata pe kgzip gzip xz modinfo t deep repair) [] w /\
    answers (verifyPayloadSum pe t (mkSumReport true None integrity false false false) repair)
      (mkSumReport true None integrity true false true, []) w.
Proof.
  intros Hu Ha Hd Hw Ho Hdesc Ht Hs F. rewrite (metadata_text_wf _ _ _ _ _ _ Hd Hw) in Ht. injection Ht as <-.
  rewrite Ha in Hs. apply payload_sums_x86 in Hs as (sum & blk & -> & Hgen & Hblk).
  destruct (generated_verifies _ _ _ _ Hgen) as (m & Hnew & Hdm & _ & Hmode & Hv).
  destruct (blksum_generated _ _ _ _ _ _ Ho Hdesc Hblk Hnew) as (b & Hdb & Hvb).
  apply New_inv in Hnew as (off & Ho' & Hek & Hei & _). rewrite Ho in Ho'. injection Ho' as <-.
  pose proof (KernelRAMOffset_range _ _ Ho) as [Hr _]. pose proof (len_nonneg initrd).
  apply entryFor_ok in Hek as [_ Hek]; [|lia..]. apply entryFor_ok in Hei as [_ Hei]; [|lia..].
  subst integrity. unfold new_generation in F. cbn [fst snd] in F.
  split_and!; [| | |intros deep repair; split].
  - unfold tryReadMetadata. eapply answers_bind; [apply answers_attempt, answers_readFile; rewrite F; look; reflexivity|].
    intros x _. cbv beta iota. rewrite Decode_Encode_ok by done. apply answers_ret.
  - eapply (answers_inspect _ kernel initrd sum m); rewrite ?F; try (look; reflexivity); [done|by rewrite Hek|by rewrite Hei].
  - eexists. eapply (answers_blksum _ blk b); rewrite ?F; try (look; reflexivity); done.
  - eapply (answers_metadata t deep repair kernel initrd cmd (Metadata.Encode md) md); rewrite ?F; try (look; reflexivity);
      [done|by apply Decode_Encode_ok|done].
  - eapply (answers_sums t repair kernel initrd cmd sum blk m b); rewrite ?F; try (look; reflexivity); done.
Qed.

End after.

(** ** The integrity command *)

Section integrity.
Context {O : Oracle}.
Context (pe : bytes -> option peFile).

(** [integrity] changes the mode of an existing CHECKSUM and nothing else:
whatever calls fail, the tree is untouched and an error is reported, or
CHECKSUM alone is replaced, atomically, by a text that decodes to the same
sizes, offsets and digests in the new mode, so a manifest that does not match
the payload still does not match it. *)
Theorem setIntegrityMode_keeps_sums t mode raw m w r w' :
  files w !! (t_mountpoint t, PayloadSumFile) = Some raw -> PayloadSum.Decode raw = Ok m ->
  setIntegrityMode pe t mode w = (r, w') ->
  r <> Ok tt /\ frame w w' \/
  ValidMode mode = true /\ exists text m', replaced (t_mountpoint t) PayloadSumFile text w w' /\
    PayloadSum.Decode text = Ok m' /\ Mode m' = mode /\
    forall kernel initrd, Verify m' kernel initrd = Verify m kernel initrd.
Proof.
  intros Hraw Hm H. unfold setIntegrityMode in H. destruct (ValidMode mode) eqn:Hv; [|injection H as <- <-; left; by split].
  cbn [negb] in H. apply bind_attempt_inv in H as (rx & x & E & H). apply readFile_spec in E as (Fx & _ & E).
  destruct rx as [raw'|e|]; [|destruct e; try (injection H as <- <-; by left); congruence|done].
  rewrite Hraw in E. injection E as <-. rewrite Hm in H.
  set (m' := PayloadSum.mkManifest (PayloadSum.Kernel m) (Initrd m) mode) in *.
  assert (PayloadSum.Decode (PayloadSum.Encode m') = Ok m') as Hd.
  { apply checksum_of_Encode. destruct (checksum_decode_wf _ _ Hm) as (? & ? & _). by split_and!. }
  change (WriteFile (t_mountpoint t) PayloadSumFile (PayloadSum.Encode m') x = (r, w')) in H. apply WriteFile_spec in H.
  destruct H as [[-> H]|(Hr & _ & _ & [H|H])]; [right|left; split; [done|by etransitivity]|right];
    (split; [done|]; exists (PayloadSum.Encode m'), m'; split; [by eapply replaced_frame_l|]; done).
Qed.

End integrity.

(** ** A concrete target *)

Definition bios_target : target := mkTarget false (bs "x86_64") (bs "/dev/sda1") (bs "/dev/sda") esp.
Definition stamped_cmdline : bytes := bs "console=tty0 alpine-zfsboot.version=0.6.0 alpine-zfsboot.buildstamp=20260101T000000Z".
Definition no_pe (_ : bytes) : option peFile := None.
Definition no_gzip (_ : bytes) : option reader := None.
Definition no_kgzip (_ : bytes) : option (bytes * bool) := None.

Definition stamped_deep : outcome deep_error Metadata.Manifest :=
  deepMetadataFor no_kgzip no_gzip no_gzip boot_modinfo (bs "x86_64") (iVersion (ParseText stamped_cmdline))
    (iBuildStamp (ParseText stamped_cmdline)) boot_kernel sample_archive.
Definition stamped_metadata : Metadata.Manifest :=
  ok_or (Metadata.mkManifest [] [] [] [] [] [] []) stamped_deep.

Lemma stamped_wf : Metadata.wf_Manifest stamped_metadata.
Proof.
  unfold Metadata.wf_Manifest, wf_value. vm_compute.
  repeat split; try discriminate; try (intros H; repeat (apply elem_of_cons in H as [H|H]; [discriminate H|]); by apply not_elem_of_nil in H).
Qed.

(** A mirror of the payload files without metadata, and with it. *)
Definition bare_files : filemap :=
  {[(esp, KernelFile) := boot_kernel; (esp, InitrdFile) := sample_archive; (esp, CmdlineFile) := stamped_cmdline]}.
Definition full_files : filemap := <[(esp, MetadataFile) := Metadata.Encode stamped_metadata]> bare_files.

Definition check_metadata (O : Oracle) (f : filemap) : outcome ioerr (list verify_error) * world :=
  verifyMetadata (O:=O) no_pe no_kgzip no_gzip no_gzip boot_modinfo bios_target true true (fresh_world f ∅).

Lemma verifyMetadata_repairs_only_missing_witness :
  let res := check_metadata no_faults bare_files in
  frame (fresh_world bare_files ∅) res.2 \/
  true = true /\ bare_files !! (esp, MetadataFile) = None /\
  exists kernel initrd info text, installed no_pe bios_target bare_files kernel initrd info /\
    metadata_text no_kgzip no_gzip no_gzip boot_modinfo (bs "x86_64") (iVersion info) (iBuildStamp info) kernel initrd = Ok text /\
    replaced esp MetadataFile text (fresh_world bare_files ∅) res.2.
Proof.
  intros res.
  apply (verifyMetadata_repairs_only_missing (O:=no_faults) no_pe no_kgzip no_gzip no_gzip boot_modinfo bios_target true true
    (fresh_world bare_files ∅) res.1 res.2).
  apply surjective_pairing.
Defined.

Lemma verifyMetadata_sound_witness :
  exists m kernel initrd info, Metadata.Decode (Metadata.Encode stamped_metadata) = Ok m /\
    installed no_pe bios_target full_files kernel initrd info /\
    SHA256Hex kernel = to_lower (KernelSHA256 m) /\ SHA256Hex initrd = to_lower (InitrdSHA256 m).
Proof.
  destruct (verifyMetadata_sound (O:=no_faults) no_pe no_kgzip no_gzip no_gzip boot_modinfo bios_target true true
    (Metadata.Encode stamped_metadata) (fresh_world full_files ∅) (check_metadata no_faults full_files).2)
    as (_ & m & kernel & initrd & info & Hm & Hi & H1 & H2 & _).
  - vm_compute. reflexivity.
  - refine (eq_trans (surjective_pairing _) (f_equal (fun r => (r, (check_metadata no_faults full_files).2)) _)).
    vm_compute. reflexivity.
  - exists m, kernel, initrd, info. exact (conj Hm (conj Hi (conj H1 H2))).
Defined.

Definition sum_files : filemap := {[(esp, PayloadSumFile) := PayloadSum.Encode sample_manifest]}.
Definition set_enforce : outcome ioerr unit * world :=
  setIntegrityMode (O:=no_faults) no_pe bios_target ModeEnforce (fresh_world sum_files ∅).

Lemma setIntegrityMode_keeps_sums_witness :
  set_enforce.1 <> Ok tt /\ frame (fresh_world sum_files ∅) set_enforce.2 \/
  ValidMode ModeEnforce = true /\ exists text m', replaced esp PayloadSumFile text (fresh_world sum_files ∅) set_enforce.2 /\
    PayloadSum.Decode text = Ok m' /\ Mode m' = ModeEnforce /\
    forall kernel initrd, Verify m' kernel initrd = Verify sample_manifest kernel initrd.
Proof.
  apply (setIntegrityMode_keeps_sums (O:=no_faults) no_pe bios_target ModeEnforce (PayloadSum.Encode sample_manifest) sample_manifest
    (fresh_world sum_files ∅) set_enforce.1 set_enforce.2).
  - vm_compute. reflexivity.
  - vm_compute. reflexivity.
  - apply surjective_pairing.
Defined.
