(* ===== verification/Update.v ===== *)
(** * cmd/tool: updating and installing one target

[updateBIOSTarget] and [updateUEFITarget] of main.go, the checks they make
before the first write, and the writing half of [install]. The asset files are
already resolved to local paths (internal/release); the logical sector size of
the disk and the operator's answer to a prompt are arguments. *)

From Stdlib Require Import ZArith Lia Strings.Byte.
From stdpp Require Import base list gmap.
From S2P Require Import Prelude GoStrings Layout World EspConfig PayloadSum BlkSum BiosBoot Stages InitrdInfo Metadata Payload CmdLine UefiBoot Verify.
Local Open Scope Z_scope.

Record biosAssets := mkBiosAssets { a_stage1 : bytes; a_stage2 : bytes; a_kernel : bytes; a_initrd : bytes; a_cmdline : bytes }.
Record uefiAsset := mkUefiAsset { a_path : bytes * bytes; a_bytes : bytes; a_info : Info }.

(** [memberOpts]; an empty [integrityFrom] is the source's empty string. *)
Record memberOpts := mkMemberOpts {
  seed : bool; editCmdline : option (bytes -> io bytes); integrityFrom : bytes
}.

Section update.
Context {O : Oracle}.
Context (pe : bytes -> option peFile).
Context (kgzip : bytes -> option (bytes * bool)) (gzip xz : bytes -> option reader) (modinfo : bytes -> elf_section).

(** [release.BIOSAssets]: the directory and the five local files. *)
Definition loadBIOSAssets (dir stage1 stage2 kernel initrd cmdline : bytes) : io biosAssets :=
  do s1 := readFile dir stage1 in
  do s2 := readFile dir stage2 in
  do k := readFile dir kernel in
  do i := readFile dir initrd in
  do c := readFile dir cmdline in
  match trimStage1Asset s1 with
  | Ok s1 =>
      if Stage2Bytes <? len s2 then throw (ERefused (bs "stage2 exceeds its budget"))
      else ret (mkBiosAssets s1 s2 k i c)
  | Err _ => throw (ERefused (bs "stage1 asset"))
  | Panic => lift Panic
  end.

Definition loadUEFIAsset (dir path : bytes) : io uefiAsset :=
  do b := readFile dir path in
  do info := Read pe dir path in
  ret (mkUefiAsset (dir, path) b info).

(** [return wrote, fmt.Errorf("...: %w", err)] unless the check passes. *)
Definition or_refuse {A} (ctx : bytes) (c : io A) (k : A -> io (bool * outcome ioerr unit)) : io (bool * outcome ioerr unit) :=
  do r := attempt c in
  match r with
  | Ok a => k a
  | Err e => ret (false, Err (EIn ctx e))
  | Panic => lift Panic
  end.

(** [return wrote, c()] *)
Definition settle (wrote : bool) (c : io unit) : io (bool * outcome ioerr unit) :=
  do r := attempt c in
  match r with
  | Ok _ => ret (wrote, Ok tt)
  | Err e => ret (wrote, Err e)
  | Panic => lift Panic
  end.

Definition stage_pair (stage2 : bytes) (force : bool) : io unit :=
  match checkStagePair stage2 force with
  | Ok _ => ret tt
  | Err _ => throw (ERefused (bs "stage2"))
  | Panic => lift Panic
  end.

Definition valid_mode (mode : bytes) : io unit :=
  if negb (ValidMode mode) then throw (ERefused (bs "--integrity")) else ret tt.

(** The settings of an installation that is already up to date. *)
Definition apply_settings (t : target) (opts : biosOpts) : io unit :=
  run (if o_integritySet opts then setIntegrityMode pe t (o_integrity opts) else ret tt) then
  if negb (beq (o_int13chunk opts) []) then
    do v := lift_cmdline (parseInt13Chunk (o_int13chunk opts)) in
    run setInt13Chunk (t_mountpoint t) v then
    run attempt (readFile (t_mountpoint t) CmdlineFile) then ret tt
  else ret tt.

(** The rest of [updateBIOSTarget] once the build is known to replace the
installed one: the remaining checks, the prompt, and the writes. *)
Definition replace_build (t : target) (a : biosAssets) (yes answer : bool) (opts : biosOpts) (mo : memberOpts)
    : io (bool * outcome ioerr unit) :=
  let newCmdline := ParseText (a_cmdline a) in
  or_refuse (bs "refusing to update")
    (lift (preflightBIOSMetadata kgzip gzip xz modinfo (t_arch t) (iVersion newCmdline) (iBuildStamp newCmdline)
             (a_kernel a) (a_initrd a))) (fun _ =>
  or_refuse (bs "refusing to update") (stage_pair (a_stage2 a) (o_force opts)) (fun _ =>
  or_refuse (bs "refusing to update") (valid_mode (o_integrity opts)) (fun _ =>
  or_refuse (bs "refusing to update") (applyInt13Chunk (a_cmdline a) (t_mountpoint t) opts) (fun cmdlineTxt =>
  or_refuse (bs "refusing to update")
    (match editCmdline mo with Some edit => edit cmdlineTxt | None => ret cmdlineTxt end) (fun cmdlineTxt =>
  let from := if beq (integrityFrom mo) [] then t_mountpoint t else integrityFrom mo in
  if negb yes && negb answer then ret (false, Ok tt) else
  or_refuse [] (writeBIOSStagesWithRollback (t_disk t) (a_stage1 a) (a_stage2 a)) (fun _ =>
  do mode := updateIntegrityMode from opts in
  settle true (writePayloadWithRollback kgzip gzip xz modinfo (t_mountpoint t) (t_arch t) (iVersion newCmdline)
                 (iBuildStamp newCmdline) (a_kernel a) (a_initrd a) cmdlineTxt mode))))))).

Definition updateBIOSTarget (sector : bytes -> option Z) (t : target) (a : biosAssets) (yes answer : bool)
    (opts : biosOpts) (mo : memberOpts) : io (bool * outcome ioerr unit) :=
  or_refuse (bs "refusing to update") (lift (CheckSectorSize (sector (t_disk t)))) (fun _ =>
  or_refuse (bs "refusing to update") (gate (t_disk t)) (fun _ =>
  or_refuse [] (if negb (seed mo) then checkUpdateEligible (t_disk t) else ret tt) (fun _ =>
  do u := checkBIOSUpToDate (t_mountpoint t) (iBuildStamp (ParseText (a_cmdline a))) in
  if u.2 && negb (seed mo) then settle false (apply_settings t opts)
  else replace_build t a yes answer opts mo))).

Definition updateUEFITarget (t : target) (a : uefiAsset) (yes answer isSeed : bool) : io (bool * outcome ioerr unit) :=
  or_refuse [] (lift (LoaderPath (t_arch t))) (fun rel =>
  let latest := a_info a in
  let install :=
    do r := writeUEFIGenerationWithRollback pe kgzip gzip xz modinfo (t_mountpoint t) (t_arch t) (a_bytes a) (a_path a) latest in
    match r.2 with Ok _ => ret (true, Ok tt) | res => ret (false, res) end in
  if isSeed then install else
  or_refuse [] (Read pe (t_mountpoint t) rel) (fun local =>
  or_refuse [] (lift (CheckArchMatch local latest)) (fun _ =>
  if negb (bytes_ltb (iBuildStamp local) (iBuildStamp latest)) then ret (false, Ok tt) else
  if negb yes && negb answer then ret (false, Ok tt) else
  install))).

Definition writeConfig (mountpoint : bytes) (cfg : Config) (sshKey hostKey : bytes) : io unit :=
  run WriteConfig mountpoint cfg then
  if beq sshKey [] then ret tt else
  run WriteAuthorizedKeys mountpoint sshKey then
  WriteHostKey mountpoint hostKey.

Definition writeUEFIInstall (arch mountpoint : bytes) (a : uefiAsset) (cfg : Config) (sshKey hostKey : bytes) : io unit :=
  do r := writeUEFIGenerationWithRollback pe kgzip gzip xz modinfo mountpoint arch (a_bytes a) (a_path a) (a_info a) in
  run lift r.2 then
  writeConfig mountpoint cfg sshKey hostKey.

Definition prepareBIOSInstall (arch : bytes) (a : biosAssets) (opts : biosOpts) : io (Info * bytes) :=
  let newCmdline := ParseText (a_cmdline a) in
  run lift (preflightBIOSMetadata kgzip gzip xz modinfo arch (iVersion newCmdline) (iBuildStamp newCmdline)
              (a_kernel a) (a_initrd a)) then
  run stage_pair (a_stage2 a) (o_force opts) then
  run valid_mode (o_integrity opts) then
  do cmdlineTxt := applyInt13Chunk (a_cmdline a) [] opts in
  ret (newCmdline, cmdlineTxt).

Definition writeBIOSInstall (disk arch mountpoint : bytes) (a : biosAssets) (info : Info) (cmdlineTxt : bytes) (opts : biosOpts)
    (cfg : Config) (sshKey hostKey : bytes) : io unit :=
  run writeBIOSStagesWithRollback disk (a_stage1 a) (a_stage2 a) then
  run writePayloadWithRollback kgzip gzip xz modinfo mountpoint arch (iVersion info) (iBuildStamp info)
        (a_kernel a) (a_initrd a) cmdlineTxt (o_integrity opts) then
  writeConfig mountpoint cfg sshKey hostKey.

End update.

(** ** The steps before the first write *)

Section steps.
Context {O : Oracle}.
Context (pe : bytes -> option peFile).

Lemma looks_checkEligible disk : looks (checkUpdateEligible disk).
Proof.
  unfold checkUpdateEligible, ReadStage2. apply looks_bind; [|intros ?; looking].
  apply looks_wrap, looks_bind; [|intros ?; looking]. intros w r w' H. by eapply readRegion_frame.
Qed.

Lemma tame_checkEligible disk : tame (checkUpdateEligible disk).
Proof.
  unfold checkUpdateEligible, ReadStage2, readRegion. apply tame_bind.
  - apply tame_wrap, tame_bind; [|intros ?; taming]. apply tame_bind.
    + intros w w' H. unfold openDisk, sys in H. destruct (fault _); [discriminate H|]. cbn in H.
      by destruct (disks w !! disk).
    + intros _ w w' H. unfold readDisk, sys in H. destruct (fault _); [discriminate H|]. cbn in H.
      by destruct (disks w !! disk ≫= _).
  - intros region. pose proof (ExtractStage2Version_safe region). destruct (ExtractStage2Version region); taming. done.
Qed.

Lemma looks_upToDate mp stamp : looks (checkBIOSUpToDate mp stamp).
Proof. unfold checkBIOSUpToDate. looking. Qed.

Lemma tame_upToDate mp stamp : tame (checkBIOSUpToDate mp stamp).
Proof. unfold checkBIOSUpToDate. taming. Qed.

Lemma looks_stage_pair s force : looks (stage_pair s force).
Proof. unfold stage_pair. looking. Qed.

Lemma tame_stage_pair s force : tame (stage_pair s force).
Proof.
  unfold stage_pair, checkStagePair. pose proof (CheckStage2_safe s).
  destruct (CheckStage2 s); [|destruct force|done]; taming.
Qed.

Lemma looks_valid_mode m : looks (valid_mode m).
Proof. unfold valid_mode. looking. Qed.

Lemma tame_valid_mode m : tame (valid_mode m).
Proof. unfold valid_mode. taming. Qed.

Lemma looks_lift_cmd {A : Type} (r : outcome cmdline_error A) : looks (lift_cmdline r).
Proof. unfold lift_cmdline. looking. Qed.
#[local] Hint Resolve looks_lift_cmd : looks.

Lemma tame_parseInt13 v : tame (lift_cmdline (parseInt13Chunk v)).
Proof. unfold parseInt13Chunk. repeat case_match; unfold lift_cmdline; taming. Qed.
#[local] Hint Resolve tame_parseInt13 : tame.

Lemma looks_applyInt13 c mp opts : looks (applyInt13Chunk c mp opts).
Proof. unfold applyInt13Chunk, installedInt13Chunk. looking. Qed.

Lemma tame_applyInt13 c mp opts : tame (applyInt13Chunk c mp opts).
Proof. unfold applyInt13Chunk, installedInt13Chunk. taming. Qed.

Lemma looks_integrityMode mp opts : looks (updateIntegrityMode mp opts).
Proof. unfold updateIntegrityMode. looking. Qed.

Lemma tame_integrityMode mp opts : tame (updateIntegrityMode mp opts).
Proof.
  unfold updateIntegrityMode. destruct (o_integritySet opts); [taming|].
  apply tame_attempt_bind; [taming| |intros e; taming]. intros raw. pose proof (checksum_decode_safe raw).
  destruct (PayloadSum.Decode raw); [taming|taming|done].
Qed.

(** Computations that change no disk and only the named files. *)
Definition touches {A : Type} (K : list (bytes * bytes)) (c : io A) : Prop :=
  forall w r w', c w = (r, w') -> disks w' = disks w /\ off K (files w) (files w').

Lemma looks_touches {A : Type} K (c : io A) : looks c -> touches K c.
Proof. intros Hc w r w' H. apply Hc in H as (-> & -> & _). split; reflexivity. Qed.

Lemma touches_bind {A B : Type} K (c : io A) (k : A -> io B) : touches K c -> (forall a, touches K (k a)) -> touches K (bind c k).
Proof.
  intros Hc Hk w r w' H. io_bind H x E; apply Hc in E as [D F]; [|done|done].
  apply Hk in H as [D' F']. split; [congruence|by etransitivity].
Qed.

Lemma touches_attempt {A : Type} K (c : io A) : touches K c -> touches K (attempt c).
Proof. intros Hc w r w' H. apply attempt_inv in H as (r' & H & _). by eapply Hc. Qed.

Lemma touches_WriteFile K mp rel c : (mp, rel) ∈ K -> touches K (WriteFile mp rel c).
Proof.
  intros HK w r w' H. apply WriteFile_spec in H.
  assert (frame w w' \/ replaced mp rel c w w') as [(-> & -> & _)|(-> & -> & _)].
  { destruct H as [[_ ?]|(_ & _ & _ & ?)]; auto. }
  - split; reflexivity.
  - split; [done|]. intros k Hk. apply lookup_insert_ne. by intros <-.
Qed.

Definition setting_files (mp : bytes) : list (bytes * bytes) := pair mp <$> [PayloadSumFile; BlkSumFile; CmdlineFile].

Lemma looks_sums {A : Type} (r : outcome payloadsum_error A) : looks (sums r).
Proof. unfold sums. looking. Qed.

Lemma tame_sums {A : Type} (r : outcome payloadsum_error A) : safe r -> tame (sums r).
Proof. unfold sums. destruct r; [taming|taming|done]. Qed.

Lemma touches_setIntegrity t mode : touches (setting_files (t_mountpoint t)) (setIntegrityMode pe t mode).
Proof.
  unfold setIntegrityMode. destruct (negb _); [apply looks_touches; looking|].
  apply touches_bind; [apply looks_touches; looking|]. intros [raw|e|]; [| |apply looks_touches; looking].
  - apply touches_bind; [apply looks_touches, looks_sums|]. intros m. apply touches_WriteFile. set_solver.
  - destruct e; try (apply looks_touches; solve [looking]).
    apply touches_bind; [apply looks_touches, looks_wrap, looks_installed|]. intros [[kernel initrd] info].
    apply touches_bind; [apply looks_touches, looks_sums|]. intros m.
    apply touches_bind; [apply looks_touches, looks_sums|]. intros blk.
    apply touches_bind; [|intros _]; apply touches_WriteFile; set_solver.
Qed.

Lemma touches_setInt13 mp v : touches (setting_files mp) (setInt13Chunk mp v).
Proof.
  unfold setInt13Chunk. apply touches_bind; [apply looks_touches; looking|]. intros raw.
  destruct (beq _ _); [apply looks_touches; looking|]. apply touches_bind; [apply looks_touches; looking|].
  intros _. apply touches_WriteFile. set_solver.
Qed.

Lemma touches_settings t opts : touches (setting_files (t_mountpoint t)) (apply_settings pe t opts).
Proof.
  unfold apply_settings. apply touches_bind; [destruct (o_integritySet opts); [apply touches_setIntegrity|apply looks_touches; looking]|].
  intros _. destruct (negb _); [|apply looks_touches; looking].
  apply touches_bind; [apply looks_touches; looking|]. intros v. apply touches_bind; [apply touches_setInt13|].
  intros _. apply looks_touches. looking.
Qed.

Lemma tame_WriteFile mp rel c : tame (WriteFile mp rel c).
Proof. intros w w' H. apply WriteFile_spec in H as [[H _]|(_ & H & _)]; [discriminate H|done]. Qed.
#[local] Hint Resolve tame_WriteFile : tame.

Lemma tame_archFromMachine m : tame (lift_cmdline (archFromMachine m)).
Proof. unfold archFromMachine. repeat case_match; unfold lift_cmdline; taming. Qed.

Lemma tame_parse arch raw : tame (lift_cmdline (parse arch raw).2).
Proof. unfold parse. cbn [snd]. case_match; unfold lift_cmdline; taming. Qed.

Lemma tame_section f name : tame (sectionData f name).
Proof. unfold sectionData. taming. Qed.
#[local] Hint Resolve tame_archFromMachine tame_parse tame_section : tame.

Lemma tame_loader arch : tame (lift (LoaderPath arch)).
Proof. apply tame_lift. unfold LoaderPath. by apply safe_if. Qed.
#[local] Hint Resolve tame_loader : tame.

Lemma tame_Read dir path : tame (Read pe dir path).
Proof. unfold Read, peOpen. taming. Qed.

Lemma tame_installed t : tame (readInstalledKernelInitrd pe t).
Proof. unfold readInstalledKernelInitrd, ReadSection. pose proof tame_Read. unfold peOpen. taming. Qed.

Lemma tame_settings t opts : tame (apply_settings pe t opts).
Proof.
  unfold apply_settings. apply tame_bind.
  - destruct (o_integritySet opts); [|taming]. unfold setIntegrityMode. destruct (negb _); [taming|].
    apply tame_attempt_bind; [taming| |].
    + intros raw. apply tame_bind; [apply tame_sums, checksum_decode_safe|intros ?; taming].
    + intros e. destruct e; try (solve [taming]).
      apply tame_bind; [apply tame_wrap, tame_installed|]. intros [[kernel initrd] info].
      apply tame_bind; [apply tame_sums, New_safe|]. intros m.
      apply tame_bind; [apply tame_sums, GenerateBlkSum_safe|]. intros blk.
      apply tame_bind; [|intros _]; auto with tame.
  - intros _. destruct (negb _); [|taming]. apply tame_bind; [taming|]. intros v. apply tame_bind; [|intros ?; taming].
    unfold setInt13Chunk. apply tame_bind; [taming|]. intros raw. destruct (beq _ _); [taming|].
    apply tame_bind; [|auto with tame]. unfold checkCmdlineLength. case_match; unfold lift_cmdline; taming.
Qed.

End steps.

(** ** The BIOS update *)

Section bios.
Context {O : Oracle}.
Context (pe : bytes -> option peFile).
Context (kgzip : bytes -> option (bytes * bool)) (gzip xz : bytes -> option reader) (modinfo : bytes -> elf_section).
Context (t : target) (a : biosAssets) (yes answer : bool) (opts : biosOpts) (mo : memberOpts).

Context (sector : bytes -> option Z).

(** The build stamp of the build to install, and the one in an installed CMDLINE. *)
Definition new_stamp : bytes := iBuildStamp (ParseText (a_cmdline a)).
Definition stamp_in (cmdline : bytes) : bytes := iBuildStamp (ParseText cmdline).

(** The read of the installed CMDLINE itself, the call that follows the gate and
the eligibility check, fails. *)
Definition unreadable (w : world) : Prop :=
  exists x y e, bind (gate (t_disk t)) (fun _ => checkUpdateEligible (t_disk t)) w = (Ok tt, x) /\
    readFile (t_mountpoint t) CmdlineFile x = (Err e, y).

(** The build may replace the installed one: a new member, or an installed
build stamp that is unreadable, absent or older. *)
Definition may_replace (w : world) : Prop :=
  seed mo = true \/ unreadable w \/
  forall installed, files w !! (t_mountpoint t, CmdlineFile) = Some installed ->
    stamp_in installed = [] \/ bytes_ltb (stamp_in installed) new_stamp = true.

(** The installed build carries a stamp, and it is not older. *)
Definition not_newer (w : world) : Prop :=
  exists installed, files w !! (t_mountpoint t, CmdlineFile) = Some installed /\
    stamp_in installed <> [] /\ bytes_ltb (stamp_in installed) new_stamp = false.

(** The check [c], made in a state that differs from [w] by nothing, ended the
run with the error [e] in [w']. *)
Definition refused_by {A : Type} (c : io A) (w : world) (e : ioerr) (w' : world) : Prop :=
  exists x, frame w x /\ c x = (Err e, w').

(** Why an update is refused before anything is written: the disk's sector size,
its partition table, its stage2; or, for a build that may replace the installed
one, its metadata, its stage pair, the integrity mode, or what is to become of
the command line. *)
Inductive refusal (w : world) : ioerr -> world -> Prop :=
| BadSector e w' : CheckSectorSize (sector (t_disk t)) = Err e -> refusal w e w'
| BadTable e w' : refused_by (gate (t_disk t)) w e w' -> refusal w e w'
| NotEligible e w' : seed mo = false -> refused_by (checkUpdateEligible (t_disk t)) w e w' -> refusal w e w'
| BadMetadata e w' : may_replace w ->
    preflightBIOSMetadata kgzip gzip xz modinfo (t_arch t) (iVersion (ParseText (a_cmdline a))) new_stamp (a_kernel a) (a_initrd a) = Err e ->
    refusal w e w'
| BadPair e w' : may_replace w -> checkStagePair (a_stage2 a) (o_force opts) <> Ok tt -> refusal w e w'
| BadMode e w' : may_replace w -> ValidMode (o_integrity opts) = false -> refusal w e w'
| BadChunk e w' : may_replace w -> refused_by (applyInt13Chunk (a_cmdline a) (t_mountpoint t) opts) w e w' -> refusal w e w'
| BadEdit edit c e w' : may_replace w -> editCmdline mo = Some edit -> refused_by (edit c) w e w' -> refusal w e w'.

(** Every way [updateBIOSTarget] can end on a disk with content [d]. *)
Inductive bios_outcome (d : bytes) (w : world) : outcome ioerr (bool * outcome ioerr unit) -> world -> Prop :=
| Refused ctx e w' : frame w w' -> refusal w e w' -> bios_outcome d w (Ok (false, Err (EIn ctx e))) w'
| Declined w' : may_replace w -> yes = false -> answer = false -> frame w w' -> bios_outcome d w (Ok (false, Ok tt)) w'
| UpToDate res w' :
    seed mo = false -> not_newer w -> (exists x, frame w x /\ apply_settings pe t opts x = (res, w')) ->
    disks w' = disks w -> off (setting_files (t_mountpoint t)) (files w) (files w') ->
    res <> Panic -> bios_outcome d w (Ok (false, res)) w'
| StagesFailed e w' :
    may_replace w -> failed w w' -> disks w' = disks w -> files w' = files w -> bios_outcome d w (Ok (false, Err e)) w'
| PayloadFailed e w' :
    may_replace w ->
    (failed w w' \/ exists mode e, payload_sums (t_arch t) (a_kernel a) (a_initrd a) mode = Err e) ->
    disks w' = <[t_disk t := with_stages (a_stage1 a) (a_stage2 a) d]> (disks w) -> files w' = files w ->
    bios_outcome d w (Ok (true, Err e)) w'
| Updated cmdline mode meta sums w' :
    may_replace w -> checkStagePair (a_stage2 a) (o_force opts) = Ok tt ->
    metadata_text kgzip gzip xz modinfo (t_arch t) (iVersion (ParseText (a_cmdline a)))
      (iBuildStamp (ParseText (a_cmdline a))) (a_kernel a) (a_initrd a) = Ok meta ->
    payload_sums (t_arch t) (a_kernel a) (a_initrd a) mode = Ok sums ->
    disks w' = <[t_disk t := with_stages (a_stage1 a) (a_stage2 a) d]> (disks w) ->
    files w' = new_generation (t_mountpoint t) (a_kernel a) (a_initrd a) cmdline meta sums (files w) ->
    bios_outcome d w (Ok (true, Ok tt)) w'.

Lemma or_refuse_step {A : Type} ctx (c : io A) k d w0 w r w' :
  looks c -> (forall x, c w <> (Panic, x)) -> frame w0 w ->
  (forall e x, c w = (Err e, x) -> refusal w0 e x) ->
  (forall v x, c w = (Ok v, x) -> frame w0 x -> k v x = (r, w') -> bios_outcome d w0 r w') ->
  or_refuse ctx c k w = (r, w') -> bios_outcome d w0 r w'.
Proof.
  intros Hl Ht F Hr Hk H. apply bind_attempt_inv in H as (rc & x & E & H).
  pose proof (Hl _ _ _ E) as Fwx. assert (frame w0 x) as Fx by (by etransitivity).
  destruct rc as [v|e|]; [by eapply Hk|injection H as <- <-; constructor; auto|by destruct (Ht x)].
Qed.

Lemma looks_gate disk : looks (gate disk).
Proof. intros w r w' H. by apply gate_spec in H as (? & _). Qed.

(** The verdict of [checkBIOSUpToDate], made in a state [x] that differs from
[w] by nothing. *)
Lemma upToDate_verdict w x stamp up y :
  frame w x -> (seed mo = false -> bind (gate (t_disk t)) (fun _ => checkUpdateEligible (t_disk t)) w = (Ok tt, x)) ->
  checkBIOSUpToDate (t_mountpoint t) new_stamp x = (Ok (stamp, up), y) ->
  if up && negb (seed mo) then not_newer w else may_replace w.
Proof.
  intros (Ff & _) Hx H. unfold may_replace, not_newer. rewrite <-Ff.
  apply bind_attempt_inv in H as (rc & z & E & H). pose proof E as E0. apply readFile_spec in E0 as (_ & _ & E0).
  destruct (seed mo); [rewrite andb_false_r; by left|]. rewrite andb_true_r. specialize (Hx eq_refl).
  destruct rc as [inst|e|]; [| |done].
  - cbv zeta in H. unfold stamp_in. destruct (beq (iBuildStamp (ParseText inst)) []) eqn:Eb.
    + injection H as _ <- _. apply beq_true in Eb. right; right. intros i Hi. rewrite E0 in Hi. injection Hi as <-. by left.
    + apply beq_false in Eb. unfold ret in H. destruct up.
      * exists inst. split_and!; [done|done|]. apply negb_true_iff. congruence.
      * right; right. intros i Hi. rewrite E0 in Hi. injection Hi as <-. right. apply negb_false_iff. congruence.
  - injection H as _ <- _. right; left. by exists x, z, e.
Qed.

Context (d : bytes).
Context (Hsteady : steady d) (Hsize : stage2_offset + Stage2Bytes <= len d).
Context (Hs1 : len (a_stage1 a) = Stage1Bytes) (Hs2 : len (a_stage2 a) <= Stage2Bytes).

Lemma gate_no_panic w x : disks w !! t_disk t = Some d -> gate (t_disk t) w <> (Panic, x).
Proof.
  intros Hd H. apply (quiet_gate _ _ _ Hd (steady_gate _ Hsteady)) in H as [_ [(u & Hu & _)|[(e & He) _]]]; discriminate.
Qed.

(** The writing half: stages, then payload. *)
Lemma write_half meta cmdline from w0 w r w' :
  one_fault -> disks w0 !! t_disk t = Some d -> frame w0 w -> may_replace w0 ->
  checkStagePair (a_stage2 a) (o_force opts) = Ok tt ->
  metadata_text kgzip gzip xz modinfo (t_arch t) (iVersion (ParseText (a_cmdline a)))
    (iBuildStamp (ParseText (a_cmdline a))) (a_kernel a) (a_initrd a) = Ok meta ->
  or_refuse [] (writeBIOSStagesWithRollback (t_disk t) (a_stage1 a) (a_stage2 a)) (fun _ =>
    do mode := updateIntegrityMode from opts in
    settle true (writePayloadWithRollback kgzip gzip xz modinfo (t_mountpoint t) (t_arch t) (iVersion (ParseText (a_cmdline a)))
                   (iBuildStamp (ParseText (a_cmdline a))) (a_kernel a) (a_initrd a) cmdline mode)) w = (r, w') ->
  bios_outcome d w0 r w'.
Proof.
  intros H1 Hd F Hmay Hpair Hm H. destruct F as (Ff & Fd & Fh & Fc).
  apply bind_attempt_inv in H as (rc & x & E & H).
  pose proof (keeps_stages (t_disk t) (a_stage1 a) (a_stage2 a) w) as Hk. rewrite E in Hk. destruct Hk as (Fx & _ & _ & Cx). cbn [snd] in Fx, Cx.
  apply (writeBIOSStages_ends _ _ _ d) in E; try done; [|by rewrite Fd].
  destruct E as [(-> & Dx & _)|((e & ->) & Hf & Dx)].
  2: { injection H as <- <-. apply StagesFailed; [done|by eapply failed_r|congruence|congruence]. }
  io_bind H y E; pose proof (looks_integrityMode _ _ _ _ _ E) as (Fy & Dy & _ & Cy);
    [|unfold updateIntegrityMode in E|by apply tame_integrityMode in E].
  2: { exfalso. revert E. clear. destruct (o_integritySet opts); [discriminate|]. intros E.
       apply bind_attempt_inv in E as (rc & z & _ & E). destruct rc as [raw|e0|]; [|discriminate E..].
       destruct (PayloadSum.Decode raw); discriminate E. }
  apply bind_attempt_inv in H as (rz & z & E' & H).
  assert (disks z = disks y /\
    ((exists e, rz = Err e) /\ (failed w0 z \/ exists mode e, payload_sums (t_arch t) (a_kernel a) (a_initrd a) mode = Err e) /\
       files z = files y \/
     rz = Ok tt /\ exists sums, payload_sums (t_arch t) (a_kernel a) (a_initrd a) a0 = Ok sums /\
       files z = new_generation (t_mountpoint t) (a_kernel a) (a_initrd a) cmdline meta sums (files y))) as (Dz & R).
  { pose proof (payload_sums_safe (t_arch t) (a_kernel a) (a_initrd a) a0) as Hsafe.
    destruct (payload_sums (t_arch t) (a_kernel a) (a_initrd a) a0) as [s|e|] eqn:Es; [| |done].
    - destruct (writePayload_ends _ _ _ _ _ _ _ _ _ _ _ _ _ _ Hm Es _ _ _ H1 E') as [P R]. destruct P as (D & C & _).
      split; [done|]. destruct R as [[-> R]|(He & Hf & R)]; [right; eauto|left].
      split_and!; [done| |done]. left. eapply failed_r; [|exact Hf]. lia.
    - assert (exists e', rz = Err e') as He.
      { unfold writePayloadWithRollback in E'. io_bind E' v Ev; [|by eexists|].
        - rewrite Es in E'. injection E' as <- _. by eexists.
        - apply quiet_backup in Ev as [_ [(b & Hb & _)|[(e' & Hb) _]]]; discriminate Hb. }
      apply writePayload_refused in E' as [_ (Ff' & Fd' & _ & Fc')]; [|by rewrite Es]. split; [done|left]. eauto 10. }
  assert (disks z = <[t_disk t := with_stages (a_stage1 a) (a_stage2 a) d]> (disks w0)) as D by congruence.
  destruct R as [((e & ->) & Hwhy & Fz)|(-> & s & Hsum & Fz)]; injection H as <- <-.
  - apply PayloadFailed; [done|done|done|congruence].
  - eapply Updated; [done|done|done|done|done|]. rewrite Fz, Fy, Fx, Ff. reflexivity.
Qed.

Context (Hedit : forall edit c, editCmdline mo = Some edit -> looks (edit c) /\ tame (edit c)).

Lemma replace_build_outcome w0 w r w' :
  one_fault -> disks w0 !! t_disk t = Some d -> frame w0 w -> may_replace w0 ->
  replace_build kgzip gzip xz modinfo t a yes answer opts mo w = (r, w') -> bios_outcome d w0 r w'.
Proof.
  intros H1 Hd F0 Hmay. unfold replace_build. cbv zeta.
  apply or_refuse_step; [looking|intros x; apply tame_lift, preflight_safe|done|intros e x [= E _]; by apply BadMetadata|].
  intros u5 x5 E5 F5. injection E5 as E5 Ex5. destruct u5.
  destruct (preflight_text _ _ _ _ _ _ _ _ _ E5) as [meta Hmeta].
  apply or_refuse_step; [apply looks_stage_pair|intros x; apply tame_stage_pair|done| |].
  { intros e x E. apply BadPair; [done|]. intros Hp. unfold stage_pair in E. rewrite Hp in E. discriminate E. }
  intros u6 x6 E6 F6.
  assert (checkStagePair (a_stage2 a) (o_force opts) = Ok tt) as Hpair.
  { unfold stage_pair in E6. by destruct (checkStagePair _ _) as [[]|e|]. }
  apply or_refuse_step; [apply looks_valid_mode|intros x; apply tame_valid_mode|done| |].
  { intros e x E. apply BadMode; [done|]. unfold valid_mode in E. destruct (ValidMode _); [discriminate E|done]. }
  intros u7 x7 E7 F7.
  apply or_refuse_step; [apply looks_applyInt13|intros x; apply tame_applyInt13|done|intros e x E; apply BadChunk; [done|by exists x7]|].
  intros cmd x8 E8 F8.
  apply or_refuse_step; [| |done| |].
  { destruct (editCmdline mo) as [edit|] eqn:Ee; [by apply (Hedit edit)|looking]. }
  { intros x. destruct (editCmdline mo) as [edit|] eqn:Ee; [by apply (Hedit edit)|apply tame_ret]. }
  { intros e x E. destruct (editCmdline mo) as [edit|] eqn:Ee; [|discriminate E]. eapply BadEdit; [done|done|by exists x8]. }
  intros cmd' x9 E9 F9. destruct (negb yes && negb answer) eqn:Eya.
  { intros [= <- <-]. apply andb_true_iff in Eya as [Ey Ea]. apply negb_true_iff in Ey, Ea. by apply Declined. }
  by eapply write_half.
Qed.

Lemma up_to_date_step w0 w r w' :
  one_fault -> disks w0 !! t_disk t = Some d -> frame w0 w ->
  (seed mo = false -> bind (gate (t_disk t)) (fun _ => checkUpdateEligible (t_disk t)) w0 = (Ok tt, w)) ->
  (do u := checkBIOSUpToDate (t_mountpoint t) (iBuildStamp (ParseText (a_cmdline a))) in
   if u.2 && negb (seed mo) then settle false (apply_settings pe t opts)
   else replace_build kgzip gzip xz modinfo t a yes answer opts mo) w = (r, w') -> bios_outcome d w0 r w'.
Proof.
  intros H1 Hd F0 Hreach H.
  io_bind H x E; pose proof (looks_upToDate _ _ _ _ _ E) as F; [|exfalso|by apply tame_upToDate in E].
  2: { apply bind_attempt_inv in E as (rc & z & _ & E). destruct rc as [i|e0|]; [|discriminate E..].
       cbv zeta in E. destruct (beq _ _); discriminate E. }
  assert (frame w0 x) as Fx by (by etransitivity). destruct a0 as [stamp up]. cbn [snd] in H.
  apply (upToDate_verdict _ _ _ _ _ F0 Hreach) in E.
  destruct (up && negb (seed mo)) eqn:Eup; [|by revert H; apply replace_build_outcome].
  apply andb_true_iff in Eup as [_ Es]. apply negb_true_iff in Es.
  apply bind_attempt_inv in H as (rs & y & Ey & H). pose proof (touches_settings pe t opts _ _ _ Ey) as [Dy Fy].
  pose proof Fx as (Ff & Fd & _). rewrite Ff in Fy.
  destruct rs as [[]|e|]; [| |by apply tame_settings in Ey]; injection H as <- <-;
    (apply UpToDate; [done|done|by exists x|congruence|done|done]).
Qed.

Lemma updateBIOS_all w r w' :
  one_fault -> disks w !! t_disk t = Some d ->
  updateBIOSTarget pe kgzip gzip xz modinfo sector t a yes answer opts mo w = (r, w') ->
  bios_outcome d w r w'.
Proof.
  intros H1 Hd. unfold updateBIOSTarget.
  apply or_refuse_step; [looking|intros x; apply tame_lift; unfold CheckSectorSize; by repeat case_match|reflexivity| |].
  { intros e x [= E _]. by apply BadSector. }
  intros _ x1 [= _ <-] F1. apply or_refuse_step; [apply looks_gate| |done|intros e x E; apply BadTable; by exists w|].
  { intros x. by apply gate_no_panic. }
  intros u2 x2 E2 F2. apply or_refuse_step; [|intros x|done| |].
  { destruct (seed mo); [apply looks_ret|apply looks_checkEligible]. }
  { destruct (seed mo); [apply tame_ret|apply tame_checkEligible]. }
  { intros e x E. destruct (seed mo) eqn:Es; [discriminate E|]. apply NotEligible; [done|]. by exists x2. }
  intros [] x3 E3 F3. apply up_to_date_step; [done|done|done|]. intros Hs. rewrite Hs in E3. unfold bind. by rewrite E2.
Qed.

(** C3 - Every run of a BIOS update ends in one of six ways, each with its
reason. With at most one failing call, on a disk that can hold stage2 and whose
partition table does not depend on its boot code, and with assets of the sizes
loading guarantees: the update is refused, with one of the named checks as the
reason, or declined at the prompt, and nothing at all changed; or the installed
build carries a stamp that is not older, and only the settings were applied,
which touch at most CHECKSUM, BLKSUM and CMDLINE; or writing the stages failed
with a call, and disks and files are as they were; or only the payload failed,
with a call or because its sums cannot be made, and the disk has the new stages
next to the complete old payload; or both are completely written. Only a build
that may replace the installed one gets beyond the first checks (no downgrade):
for a new member, when the read of the installed CMDLINE itself failed, or when
its stamp is absent or older. The run never panics. *)
Theorem updateBIOS_outcomes w r w' :
  one_fault -> disks w !! t_disk t = Some d ->
  updateBIOSTarget pe kgzip gzip xz modinfo sector t a yes answer opts mo w = (r, w') ->
  bios_outcome d w r w'.
Proof. apply updateBIOS_all. Qed.

End bios.

(** The command-line editor of a mirror's member is such an edit. *)
Lemma cmdlineEditor_reads {O : Oracle} list mp uuid src opts c :
  looks (cmdlineEditor list mp uuid src opts c) /\ tame (cmdlineEditor list mp uuid src opts c).
Proof.
  unfold cmdlineEditor. split.
  - apply looks_bind; [looking|]. intros r. apply looks_bind; [looking|]. intros [from c']. cbv zeta.
    apply looks_bind; [unfold lift_cmdline|]; looking.
  - apply tame_bind; [taming|]. intros r. apply tame_bind; [taming|]. intros [from c']. cbv zeta.
    apply tame_bind; [|intros _; taming]. unfold checkCmdlineLength. case_match; unfold lift_cmdline; taming.
Qed.

(** What loading guarantees: a boot sector's worth of stage1, and a stage2 within its budget. *)
Lemma loadBIOSAssets_sizes {O : Oracle} dir s1 s2 k i c a w w' :
  loadBIOSAssets dir s1 s2 k i c w = (Ok a, w') -> len (a_stage1 a) = Stage1Bytes /\ len (a_stage2 a) <= Stage2Bytes.
Proof.
  intros H. do 5 (apply bind_ok_inv in H as (? & ? & _ & H)). unfold trimStage1Asset in H.
  destruct (Stage2Bytes <? len x1) eqn:E2; zb.
  - repeat case_match; discriminate H.
  - destruct (len x =? Stage1Bytes) eqn:E1; [zb; by injection H as <- _|].
    destruct (len x =? SectorSize) eqn:E3; [|discriminate H]. zb.
    rewrite slice_ok in H by (rewrite ?E3; vm_compute; congruence). injection H as <- _. cbn [a_stage1 a_stage2]. split; [|done].
    rewrite Z.sub_0_r. apply len_sub; rewrite ?E3; vm_compute; congruence.
Qed.

(** ** The UEFI update *)

Section uefi.
Context {O : Oracle}.
Context (pe : bytes -> option peFile).
Context (kgzip : bytes -> option (bytes * bool)) (gzip xz : bytes -> option reader) (modinfo : bytes -> elf_section).

(** What the loader on an ESP says about itself. *)
Definition build_info (f : filemap) (mp rel : bytes) (info : Info) : Prop :=
  exists c p arch cmd, f !! (mp, rel) = Some c /\ pe c = Some p /\ archFromMachine (Machine p) = Ok arch /\
    asset_section p (bs ".cmdline") = Some cmd /\ info = (parse arch cmd).1.

(** Why a UEFI update leaves the loader and the metadata alone, with its result:
the write was undone because a call failed or the build has no metadata; the
loader on the ESP cannot be read; it is of another architecture; it is not
older; or the operator declined. *)
Inductive uefi_stays (t : target) (a : uefiAsset) (yes answer isSeed : bool) (rel c : bytes) (w : world) : outcome ioerr unit -> world -> Prop :=
| Undone e w' : failed w w' \/ asset_metadata pe kgzip gzip xz modinfo (t_arch t) (a_info a) c = None ->
    uefi_stays t a yes answer isSeed rel c w (Err e) w'
| NoLoader ctx e w' : isSeed = false -> Read pe (t_mountpoint t) rel w = (Err e, w') ->
    uefi_stays t a yes answer isSeed rel c w (Err (EIn ctx e)) w'
| OtherArch e local w' : isSeed = false -> build_info (files w) (t_mountpoint t) rel local -> iArch (a_info a) <> iArch local ->
    uefi_stays t a yes answer isSeed rel c w (Err e) w'
| NotNewer local w' : isSeed = false -> build_info (files w) (t_mountpoint t) rel local ->
    bytes_ltb (iBuildStamp local) (iBuildStamp (a_info a)) = false ->
    uefi_stays t a yes answer isSeed rel c w (Ok tt) w'
| UDeclined w' : isSeed = false -> yes = false -> answer = false -> uefi_stays t a yes answer isSeed rel c w (Ok tt) w'.

(** The two ends of a UEFI update. *)
Definition uefi_update_ends (t : target) (a : uefiAsset) (yes answer isSeed : bool) (rel c : bytes) (w : world)
    (r : outcome ioerr (bool * outcome ioerr unit)) (w' : world) : Prop :=
  disks w' = disks w /\
  off [(t_mountpoint t, rel); (t_mountpoint t, MetadataFile); (t_mountpoint t, previous rel); (t_mountpoint t, previous_tmp rel)]
    (files w) (files w') /\
  exists (wrote : bool) res, r = Ok (wrote, res) /\
    (wrote = false /\ files w' !! (t_mountpoint t, rel) = files w !! (t_mountpoint t, rel) /\
       files w' !! (t_mountpoint t, MetadataFile) = files w !! (t_mountpoint t, MetadataFile) /\
       uefi_stays t a yes answer isSeed rel c w res w' \/
     wrote = true /\ res = Ok tt /\ files w' !! (t_mountpoint t, rel) = Some (a_bytes a) /\
       files w' !! (t_mountpoint t, MetadataFile) = asset_metadata pe kgzip gzip xz modinfo (t_arch t) (a_info a) c /\
       is_Some (asset_metadata pe kgzip gzip xz modinfo (t_arch t) (a_info a) c) /\
       (isSeed = true \/ exists local, build_info (files w) (t_mountpoint t) rel local /\ iArch (a_info a) = iArch local /\
          bytes_ltb (iBuildStamp local) (iBuildStamp (a_info a)) = true)).

Lemma frame_ends t a yes answer isSeed rel c w res w' :
  frame w w' -> uefi_stays t a yes answer isSeed rel c w res w' -> uefi_update_ends t a yes answer isSeed rel c w (Ok (false, res)) w'.
Proof. intros (F & D & _) Hs. unfold uefi_update_ends. rewrite F, D. split_and!; [done|reflexivity|]. exists false, res. split; [done|by left]. Qed.

(** The installing step, from a state reached by looking. *)
Lemma install_ends t a yes answer isSeed rel c w0 w r w' :
  one_fault -> LoaderPath (t_arch t) = Ok rel -> (a_path a).1 <> t_mountpoint t -> files w0 !! a_path a = Some c ->
  (asset_metadata pe kgzip gzip xz modinfo (t_arch t) (a_info a) c = None -> calm (clock w0)) -> frame w0 w ->
  (isSeed = true \/ exists local, build_info (files w0) (t_mountpoint t) rel local /\ iArch (a_info a) = iArch local /\
     bytes_ltb (iBuildStamp local) (iBuildStamp (a_info a)) = true) ->
  (do r := writeUEFIGenerationWithRollback pe kgzip gzip xz modinfo (t_mountpoint t) (t_arch t) (a_bytes a) (a_path a) (a_info a) in
   match r.2 with Ok _ => ret (true, Ok tt) | res => ret (false, res) end) w = (r, w') ->
  uefi_update_ends t a yes answer isSeed rel c w0 r w'.
Proof.
  intros H1 Hrel Hl Hc Hbad F Hnew H. destruct F as (Ff & Fd & _ & Fc).
  io_bind H x E; apply (uefi_run pe kgzip gzip xz modinfo (t_mountpoint t) (t_arch t) rel (a_bytes a) (a_info a) (a_path a) Hrel (files w0) c Hl)
    in E as (P & (Ho & _) & b & res & Er & _ & R); try done; try discriminate Er;
    try (intros Hn; eapply calm_le; [by apply Hbad|done]).
  injection Er as ->. cbn [snd] in H. destruct P as (D & _ & _).
  destruct R as [(-> & Hs & HL & HM)|((e & ->) & Hwhy & HL & HM)]; injection H as <- <-; (split_and!; [congruence|done|]).
  - exists true, (Ok tt). split; [done|]. right. done.
  - exists false, (Err e). split; [done|]. left. split_and!; [done..|]. apply Undone.
    destruct Hwhy as [Hf|?]; [left; by eapply failed_r|by right].
Qed.

(** C7 - A UEFI update never downgrades, never changes architecture and never
stays behind without a reason. The build is in a local file outside the ESP.
With at most one failing call (and none when the build's own sections give no
metadata) the run reports whether it wrote: if not, loader and metadata are as
they were, and the reason is a failed call, a build without metadata, an ESP
whose loader cannot be read, another architecture, a build that is not newer, or
the operator's no; if so, both are the new build's, and the ESP was a new member
or its own loader names the same architecture and an older build stamp. Nothing
outside the loader's directory entries and the manifest changes. *)
Theorem updateUEFI_no_downgrade t a yes answer isSeed rel c w r w' :
  one_fault -> LoaderPath (t_arch t) = Ok rel -> (a_path a).1 <> t_mountpoint t -> files w !! a_path a = Some c ->
  (asset_metadata pe kgzip gzip xz modinfo (t_arch t) (a_info a) c = None -> calm (clock w)) ->
  updateUEFITarget pe kgzip gzip xz modinfo t a yes answer isSeed w = (r, w') ->
  uefi_update_ends t a yes answer isSeed rel c w r w'.
Proof.
  intros H1 Hrel Hl Hc Hbad H. unfold updateUEFITarget in H. rewrite Hrel in H.
  unfold or_refuse at 1 in H. change (bind (attempt (lift (Ok rel))) ?k w) with (k (Ok rel) w) in H. cbv zeta beta iota in H.
  destruct isSeed.
  - eapply install_ends in H; eauto. reflexivity.
  - apply bind_attempt_inv in H as (rl & x & E & H).
    pose proof (looks_Read pe _ _ _ _ _ E) as Fx.
    destruct rl as [local|e|]; [|injection H as <- <-; apply frame_ends; [done|by apply NoLoader]|by apply tame_Read in E].
    apply Read_ok_inv in E as (_ & c0 & p & arch & cmd & Hc0 & Hp & Ha & Hs & Hi).
    assert (build_info (files w) (t_mountpoint t) rel local) as Hb by (by exists c0, p, arch, cmd).
    unfold CheckArchMatch in H. destruct (beq (iArch (a_info a)) (iArch local)) eqn:Ea; cbn [negb] in H.
    2: { apply beq_false in Ea. injection H as <- <-. apply frame_ends; [done|]. by eapply OtherArch. }
    apply beq_true in Ea. apply bind_attempt_inv in H as (ru & y & E & H). injection E as <- <-.
    destruct (bytes_ltb _ _) eqn:Eb; cbn [negb] in H; [|injection H as <- <-; apply frame_ends; [done|by eapply NotNewer]].
    destruct (negb yes && negb answer) eqn:Eya.
    { injection H as <- <-. apply andb_true_iff in Eya as [Ey En]. apply negb_true_iff in Ey, En. apply frame_ends; [done|by apply UDeclined]. }
    eapply install_ends in H; eauto.
Qed.

End uefi.

(** ** Concrete updates *)

(** A disk with an older build of the program on it, and its ESP. *)
Definition old_stage2 : bytes := sample_stage2 ++ stage2VersionPrefix ++ bs "0.5.0, build=abc" ++ [x0a].
Definition installed_disk : bytes := with_stages sample_stage1 old_stage2 sample_disk.
Definition cmdline_of (stamp : bytes) : bytes := bs "console=tty0 alpine-zfsboot.version=0.5.0 alpine-zfsboot.buildstamp=" ++ stamp.
Definition installed_world (stamp : bytes) : world :=
  fresh_world (<[(esp, CmdlineFile) := cmdline_of stamp]> old_files) {[disk_name := installed_disk]}.

Lemma installed_steady : steady installed_disk.
Proof. apply (steady_gpt installed_disk PartTable.sample_header); vm_compute; intuition congruence. Qed.

Definition sample_assets : biosAssets := mkBiosAssets sample_stage1 sample_stage2 boot_kernel sample_archive stamped_cmdline.
Definition sample_opts : biosOpts := mkBiosOpts false ModeWarn false [].
Definition plain_member : memberOpts := mkMemberOpts false None [].
Definition sample_target : target := mkTarget false (bs "x86_64") (bs "/dev/sda1") disk_name esp.

Definition sample_update (O : Oracle) (stamp : bytes) : outcome ioerr (bool * outcome ioerr unit) * world :=
  updateBIOSTarget (O:=O) no_pe no_kgzip no_gzip no_gzip boot_modinfo (fun _ => Some 512) sample_target sample_assets true false
    sample_opts plain_member (installed_world stamp).

Definition sample_ends (O : Oracle) (stamp : bytes) : Prop :=
  bios_outcome (O:=O) no_pe no_kgzip no_gzip no_gzip boot_modinfo sample_target sample_assets true false sample_opts plain_member
    (fun _ => Some 512) installed_disk (installed_world stamp) (sample_update O stamp).1 (sample_update O stamp).2.

(** An installed member (no new one) with an older build, whose payload write
fails at its thirtieth call, and one with the same build, which is up to date. *)
Lemma updateBIOS_outcomes_witness :
  sample_ends (fail_at 30 5) (bs "20250101T000000Z") /\ sample_ends no_faults (bs "20260101T000000Z") /\
  not_newer sample_target sample_assets (installed_world (bs "20260101T000000Z")) /\
  may_replace (O:=no_faults) sample_target sample_assets plain_member (installed_world (bs "20250101T000000Z")).
Proof.
  split; [|split; [|split]].
  - apply (updateBIOS_outcomes (O:=fail_at 30 5) no_pe no_kgzip no_gzip no_gzip boot_modinfo sample_target sample_assets true false
      sample_opts plain_member (fun _ => Some 512) installed_disk);
      [exact installed_steady|vm_compute; discriminate|vm_compute; reflexivity|vm_compute; discriminate|intros edit c Hx; discriminate Hx
      |apply fail_at_one|apply lookup_insert_eq|apply surjective_pairing].
  - apply (updateBIOS_outcomes (O:=no_faults) no_pe no_kgzip no_gzip no_gzip boot_modinfo sample_target sample_assets true false
      sample_opts plain_member (fun _ => Some 512) installed_disk);
      [exact installed_steady|vm_compute; discriminate|vm_compute; reflexivity|vm_compute; discriminate|intros edit c Hx; discriminate Hx
      |apply no_faults_one|apply lookup_insert_eq|apply surjective_pairing].
  - exists (cmdline_of (bs "20260101T000000Z")). split; [apply lookup_insert_eq|]. split; vm_compute; congruence.
  - right; right. intros i Hi. cbn [files installed_world fresh_world] in Hi. rewrite lookup_insert_eq in Hi. injection Hi as <-.
    right. vm_compute. reflexivity.
Defined.

(** A loader of another build on the ESP. *)
Definition old_efi : bytes := bs "an old loader".
Definition two_pe (c : bytes) : option peFile :=
  if beq c old_efi then Some (mkPE 0x8664 [(bs ".cmdline", Some (cmdline_of (bs "20250101T000000Z")))]) else sample_pe c.
Definition sample_uasset : uefiAsset := mkUefiAsset local_efi sample_efi sample_info.
Definition uefi_target : target := mkTarget true (bs "x86_64") (bs "/dev/sda1") (bs "/dev/sda") esp.
Definition uefi_world : world := fresh_world (<[(esp, x64) := old_efi]> uefi_files) ∅.

Definition sample_uefi_update (O : Oracle) (a : uefiAsset) : outcome ioerr (bool * outcome ioerr unit) * world :=
  updateUEFITarget (O:=O) two_pe no_kgzip no_gzip no_gzip boot_modinfo uefi_target a true false false uefi_world.

(** A build of another architecture. *)
Definition arm_uasset : uefiAsset := mkUefiAsset local_efi sample_efi (mkInfo (bs "aarch64") [] (bs "0.6.0") (bs "20260101T000000Z") [] [] []).

(** On an installed member: the newer build is written, one for another
architecture is not. *)
Lemma updateUEFI_no_downgrade_witness :
  (sample_uefi_update no_faults sample_uasset).1 = Ok (true, Ok tt) /\
  (exists e, (sample_uefi_update no_faults arm_uasset).1 = Ok (false, Err e)) /\
  uefi_update_ends (O:=no_faults) two_pe no_kgzip no_gzip no_gzip boot_modinfo uefi_target sample_uasset true false false x64 sample_efi
    uefi_world (sample_uefi_update no_faults sample_uasset).1 (sample_uefi_update no_faults sample_uasset).2.
Proof.
  split; [vm_compute; reflexivity|]. split; [eexists; vm_compute; reflexivity|].
  apply (updateUEFI_no_downgrade (O:=no_faults) two_pe no_kgzip no_gzip no_gzip boot_modinfo uefi_target sample_uasset true false false x64
    sample_efi).
  - apply no_faults_one.
  - vm_compute. reflexivity.
  - discriminate.
  - vm_compute. reflexivity.
  - intros _. apply no_faults_calm.
  - apply surjective_pairing.
Defined.
