(* ===== verification/Spare.v ===== *)
(** * Confinement of the writers

Which files and disks a computation may change, in every state it goes through
and whatever calls fail. [within F D c] is closed under the monad, so the
confinement of a whole command follows from that of the writers it calls. *)

From Stdlib Require Import ZArith Lia Strings.Byte.
From stdpp Require Import base list gmap.
From S2P Require Import Prelude GoStrings Layout World EspConfig EspMember PayloadSum BiosBoot Stages InitrdInfo Metadata Payload CmdLine UefiBoot Verify Update.
Local Open Scope Z_scope.

Definition media (w : world) : filemap * diskmap := (files w, disks w).

(** [m'] is [m] but for the files in [F] and the disks in [D]. *)
Definition agree (F : bytes * bytes -> Prop) (D : bytes -> Prop) (m m' : filemap * diskmap) : Prop :=
  (forall k, ~ F k -> m'.1 !! k = m.1 !! k) /\ (forall d, ~ D d -> m'.2 !! d = m.2 !! d).

#[export] Instance agree_preorder F D : PreOrder (agree F D).
Proof.
  split; [by intros m; split|]. intros x y z [F1 D1] [F2 D2].
  split; intros k Hk; [by rewrite F2, F1|by rewrite D2, D1].
Qed.

(** The media at the end and in every state between. *)
Definition spares (F : bytes * bytes -> Prop) (D : bytes -> Prop) (w w' : world) : Prop :=
  agree F D (media w) (media w') /\
  exists hs, history w' = hs ++ history w /\ Forall (agree F D (media w)) hs.

#[export] Instance spares_preorder F D : PreOrder (spares F D).
Proof.
  split.
  - intros w. split; [reflexivity|]. exists []. by split.
  - intros x y z [A1 (h1 & E1 & H1)] [A2 (h2 & E2 & H2)]. split; [by etransitivity|].
    exists (h2 ++ h1). rewrite E2, E1, app_assoc. split; [done|]. apply Forall_app. split; [|done].
    eapply Forall_impl; [exact H2|]. intros m Hm. by etransitivity.
Qed.

Lemma agree_mono (F F' : bytes * bytes -> Prop) (D D' : bytes -> Prop) m m' :
  (forall k, F k -> F' k) -> (forall d, D d -> D' d) -> agree F D m m' -> agree F' D' m m'.
Proof. intros HF HD [HA HB]. split; intros k Hk; [apply HA|apply HB]; intros ?; apply Hk; auto. Qed.

Lemma spares_mono (F F' : bytes * bytes -> Prop) (D D' : bytes -> Prop) w w' :
  (forall k, F k -> F' k) -> (forall d, D d -> D' d) -> spares F D w w' -> spares F' D' w w'.
Proof.
  intros HF HD [HA (hs & E & HH)]. split; [by eapply agree_mono|]. exists hs. split; [done|].
  eapply Forall_impl; [exact HH|]. intros m. by apply agree_mono.
Qed.

Lemma frame_spares F D w w' : frame w w' -> spares F D w w'.
Proof.
  intros (Hf & Hd & Hh & _). unfold spares, media. rewrite Hf, Hd. split; [reflexivity|]. exists []. by rewrite Hh.
Qed.

Lemma spares_step F D (w w' : world) :
  agree F D (media w) (media w') -> history w' = media w' :: history w -> spares F D w w'.
Proof. intros HA E. split; [done|]. exists [media w']. by split; [|constructor]. Qed.

Section within.
Context {O : Oracle}.
Context (F : bytes * bytes -> Prop) (D : bytes -> Prop).

Definition within {A : Type} (c : io A) : Prop := forall w r w', c w = (r, w') -> spares F D w w'.

Lemma within_looks {A : Type} (c : io A) : looks c -> within c.
Proof. intros Hc w r w' H. by eapply frame_spares, Hc. Qed.

Lemma within_bind {A B : Type} (c : io A) (k : A -> io B) : within c -> (forall a, within (k a)) -> within (bind c k).
Proof.
  intros Hc Hk w r w' H. io_bind H x E; apply Hc in E; [|done|done]. etransitivity; [exact E|]. by eapply Hk.
Qed.

Lemma within_attempt {A : Type} (c : io A) : within c -> within (attempt c).
Proof. intros Hc w r w' H. apply attempt_inv in H as (r' & H & _). by eapply Hc. Qed.

Lemma within_wrap {A : Type} ctx (c : io A) : within c -> within (wrap ctx c).
Proof. intros Hc w r w' H. apply wrap_inv in H as (r' & H & _). by eapply Hc. Qed.

(** What a computation that returns gives, for the continuation to rely on. *)
Definition gives {A : Type} (P : A -> Prop) (c : io A) : Prop := forall w a w', c w = (Ok a, w') -> P a.

Lemma gives_ret {A : Type} (P : A -> Prop) a : P a -> gives P (ret a).
Proof. by intros H w b w' [= <- <-]. Qed.

Lemma gives_bind {A B : Type} (P : A -> Prop) (Q : B -> Prop) (c : io A) (k : A -> io B) :
  gives P c -> (forall a, P a -> gives Q (k a)) -> gives Q (bind c k).
Proof.
  intros Hc Hk w b w' H. io_bind H x E; [|discriminate Hr..]. eapply Hk; [by eapply Hc|done].
Qed.

Lemma gives_any {A : Type} (c : io A) : gives (fun _ => True) c.
Proof. done. Qed.

Lemma gives_panic {A : Type} (P : A -> Prop) : gives P (lift Panic).
Proof. by intros w a w' [=]. Qed.

Lemma gives_throw {A : Type} (P : A -> Prop) e : gives P (throw e).
Proof. by intros w a w' [=]. Qed.

Lemma within_bind_gives {A B : Type} (P : A -> Prop) (c : io A) (k : A -> io B) :
  gives P c -> within c -> (forall a, P a -> within (k a)) -> within (bind c k).
Proof.
  intros Hg Hc Hk w r w' H. io_bind H x E; pose proof (Hc _ _ _ E); [|done|done].
  etransitivity; [done|]. eapply Hk; [by eapply Hg|done].
Qed.

(** ** The calls *)

Lemma within_file mp rel v (w w' : world) :
  F (mp, rel) -> files w' = partial_alter (fun _ => v) (mp, rel) (files w) -> disks w' = disks w ->
  history w' = media w' :: history w -> spares F D w w'.
Proof.
  intros HF Hf Hd Hh. apply spares_step; [|done]. unfold media. rewrite Hf, Hd. split; [|done].
  intros k Hk. apply lookup_partial_alter_ne. by intros <-.
Qed.

Lemma within_WriteFile mp rel c : F (mp, rel) -> within (WriteFile mp rel c).
Proof.
  intros HF w r w' H. apply WriteFile_spec in H.
  assert (frame w w' \/ replaced mp rel c w w') as [Hf|(Hd & Hf & Hh & _)].
  { destruct H as [[_ ?]|(_ & _ & _ & ?)]; auto. }
  - by apply frame_spares.
  - eapply (within_file mp rel (Some c)); [done|exact Hf|done|]. unfold media. by rewrite Hh, Hd.
Qed.

Lemma within_removeFile mp rel : F (mp, rel) -> within (removeFile mp rel).
Proof.
  intros HF w r w' H. apply removeFile_spec in H as (Hd & _ & H). destruct r as [u|e|]; [| |done].
  - destruct H as (_ & Hf & Hh). eapply (within_file mp rel None); [done|exact Hf|done|]. unfold media. by rewrite Hh, Hd.
  - apply frame_spares. destruct e; tauto.
Qed.

Lemma within_createFile mp rel : F (mp, rel) -> within (createFile mp rel).
Proof.
  intros HF w r w'. unfold createFile, sys. destruct (fault (clock w)).
  - intros [= <- <-]. apply frame_spares, frame_tick.
  - intros [= <- <-]. by eapply (within_file mp rel (Some [])).
Qed.

Lemma within_copyInto mp rel c : F (mp, rel) -> within (copyInto mp rel c).
Proof.
  intros HF w r w'. unfold copyInto. destruct (fault (clock w)) as [k|]; intros [= <- <-].
  - by eapply (within_file mp rel (Some (take k c))).
  - by eapply (within_file mp rel (Some c)).
Qed.

Lemma within_renameFile mp from to : F (mp, from) -> F (mp, to) -> within (renameFile mp from to).
Proof.
  intros H1 H2 w r w'. unfold renameFile. destruct (fault (clock w)); [intros [= <- <-]; apply frame_spares, frame_tick|].
  destruct (files w !! (mp, from)) as [c|]; intros [= <- <-]; [|apply frame_spares, frame_tick].
  apply spares_step; [|done]. split; [|done]. intros k Hk. cbn.
  rewrite lookup_insert_ne, lookup_delete_ne; [done|by intros <-|by intros <-].
Qed.

Lemma within_HardLink mp from to : within (HardLink mp from to).
Proof. intros w r w' [= <- <-]. apply frame_spares, frame_tick. Qed.

(** Calls on temporary files and the deferred removal of one. *)
Definition keeps_media {A : Type} (c : io A) : Prop := forall w r w', c w = (r, w') -> media w' = media w /\ history w' = history w.

Lemma within_keeps {A : Type} (c : io A) : keeps_media c -> within c.
Proof.
  intros Hc w r w' H. apply Hc in H as [Hm Hh]. split; [by rewrite Hm|]. exists []. by rewrite Hh.
Qed.

Lemma within_createTemp mp : within (createTemp mp).
Proof. apply within_keeps. intros w r w'. unfold createTemp, sys. by destruct (fault _); intros [= <- <-]. Qed.

Lemma within_writeTemp mp t c : within (writeTemp mp t c).
Proof. apply within_keeps. intros w r w'. unfold writeTemp. by destruct (fault _); intros [= <- <-]. Qed.

Lemma within_renameTemp mp t rel : F (mp, rel) -> within (renameTemp mp t rel).
Proof.
  intros HF w r w'. unfold renameTemp. destruct (fault _); [intros [= <- <-]; apply frame_spares, frame_tick|].
  destruct (temps w !! (mp, t)) as [c|]; intros [= <- <-]; [|apply frame_spares, frame_tick].
  by eapply (within_file mp rel (Some c)).
Qed.

Lemma within_deferred {A : Type} mp t (c : io A) : within c -> within (deferred (dropTemp mp t) c).
Proof.
  intros Hc w r w'. unfold deferred. destruct (c w) as [r1 x] eqn:E. intros [= <- <-].
  apply Hc in E. etransitivity; [exact E|]. apply frame_spares, frame_dropTemp.
Qed.

Lemma within_writeDisk disk off data : D disk -> within (writeDisk disk off data).
Proof.
  intros HD w r w'. unfold writeDisk. destruct (disks w !! disk) as [d|]; [|intros [= <- <-]; apply frame_spares, frame_tick].
  destruct (fault _); intros [= <- <-]; (apply spares_step; [|done]); (split; [done|]); intros x Hx; cbn;
    apply lookup_insert_ne; by intros <-.
Qed.

End within.

Lemma within_mono {O : Oracle} {A : Type} (F F' : bytes * bytes -> Prop) (D D' : bytes -> Prop) (c : io A) :
  (forall k, F k -> F' k) -> (forall d, D d -> D' d) -> within F D c -> within F' D' c.
Proof. intros HF HD Hc w r w' H. eapply spares_mono; [exact HF|exact HD|]. by eapply Hc. Qed.

Create HintDb within.
#[export] Hint Resolve within_WriteFile within_removeFile within_createFile within_copyInto within_renameFile within_HardLink
  within_createTemp within_writeTemp within_renameTemp within_deferred within_writeDisk : within.

(** Confinement of a computation written in the monad, by its structure. *)
Ltac confining :=
  repeat first
    [ solve [auto with within] | apply within_looks; solve [auto with looks] | apply within_attempt | apply within_wrap
    | apply within_deferred | case_match | apply within_bind; [|intros ?] ].

(** ** The writers of one ESP and its disk *)

(** A name the boot chain and its settings use: anything but the marker. *)
Definition not_marker (rel : bytes) : Prop := rel <> MemberFile.

Lemma not_marker_known rel : bool_decide (rel = MemberFile) = false -> not_marker rel.
Proof. by intros ?%bool_decide_eq_false. Qed.

Lemma loader_not_marker arch rel : LoaderPath arch = Ok rel -> not_marker rel /\ not_marker (previous rel) /\ not_marker (previous_tmp rel).
Proof.
  unfold LoaderPath. destruct (beq _ _); [done|]. intros [= <-]. unfold not_marker, previous_tmp, previous.
  split_and!; intros [=].
Qed.

Section writers.
Context {O : Oracle}.
Context (pe : bytes -> option peFile).
Context (kgzip : bytes -> option (bytes * bool)) (gzip xz : bytes -> option reader) (modinfo : bytes -> elf_section).
Context (F : bytes * bytes -> Prop) (D : bytes -> Prop) (mp disk : bytes).
Context (HF : forall rel, not_marker rel -> F (mp, rel)).

Ltac known := apply HF, not_marker_known; vm_compute; reflexivity.

Lemma within_restore rel want : not_marker rel -> within F D (restore mp rel want).
Proof. intros Hr. unfold restore. pose proof (HF rel Hr). confining. Qed.

Lemma within_rollbackPayload b : within F D (rollbackPayload mp b).
Proof.
  unfold rollbackPayload.
  repeat first [apply within_looks; solve [auto with looks] | apply within_restore; apply not_marker_known; vm_compute; reflexivity
               | case_match | apply within_bind; [|intros ?]].
Qed.

Lemma within_or_rollback {A : Type} ctx back (c : io A) k :
  within F D back -> within F D c -> (forall a, within F D (k a)) -> within F D (or_rollback ctx back c k).
Proof. intros Hb Hc Hk. unfold or_rollback. confining. Qed.

Lemma within_each {A : Type} (fs : list A) f : Forall (fun x => within F D (f x)) fs -> within F D (each fs f).
Proof.
  induction 1; cbn; [apply within_looks, looks_ret|]. apply within_bind; [done|]. by intros _.
Qed.

Lemma within_WritePayload k i c : within F D (WritePayload mp k i c).
Proof.
  apply within_each. unfold payload_files. repeat (apply List.Forall_cons; [apply within_wrap, within_WriteFile; known|]). apply List.Forall_nil.
Qed.

Lemma looks_VerifyFile rel c : looks (VerifyFile mp rel c).
Proof. unfold VerifyFile. looking. Qed.

Lemma looks_each {A : Type} (fs : list A) f : Forall (fun x => looks (f x)) fs -> looks (each fs f).
Proof. induction 1; cbn; [apply looks_ret|]. apply looks_bind; [done|]. by intros _. Qed.

Lemma looks_VerifyPayload k i c : looks (VerifyPayload mp k i c).
Proof. apply looks_each. unfold payload_files. repeat (apply List.Forall_cons; [apply looks_VerifyFile|]). apply List.Forall_nil. Qed.

Lemma within_writeMetadata arch v s k i : within F D (writeMetadata kgzip gzip xz modinfo mp arch v s k i).
Proof.
  unfold writeMetadata. apply within_bind; [apply within_looks, looks_lift|]. intros enc. apply within_WriteFile. known.
Qed.

Lemma within_write_manifest rel back d k :
  not_marker rel -> within F D back -> within F D k -> within F D (write_manifest mp rel back d k).
Proof.
  intros Hr Hb Hk. unfold write_manifest. destruct d; [|done].
  apply within_or_rollback; [done|by apply within_WriteFile, HF|]. intros _.
  apply within_or_rollback; [done|apply within_looks, looks_VerifyFile|]. by intros _.
Qed.

Lemma within_remove_if_present rel : not_marker rel -> within F D (remove_if_present mp rel).
Proof. intros Hr. unfold remove_if_present. pose proof (HF rel Hr). confining. Qed.

Lemma within_writePayload arch v s k i c mode :
  within F D (writePayloadWithRollback kgzip gzip xz modinfo mp arch v s k i c mode).
Proof.
  unfold writePayloadWithRollback. apply within_bind.
  { apply within_looks. unfold backupPayload, backup_file. looking. }
  intros b. pose proof (within_rollbackPayload b). apply within_bind; [apply within_looks, looks_lift|]. intros sums. cbv zeta.
  apply within_or_rollback; [done|apply within_remove_if_present; by apply not_marker_known|]. intros _.
  apply within_or_rollback; [done|apply within_remove_if_present; by apply not_marker_known|]. intros _.
  apply within_or_rollback; [done|apply within_WritePayload|]. intros _.
  apply within_or_rollback; [done|apply within_looks, looks_VerifyPayload|]. intros _.
  apply within_or_rollback; [done|apply within_writeMetadata|]. intros _.
  apply within_write_manifest; [by apply not_marker_known|done|].
  apply within_write_manifest; [by apply not_marker_known|done|]. apply within_looks, looks_ret.
Qed.

(** The stages: only the one disk. *)
Context (HD : D disk).

Lemma within_guard {A : Type} prev (c : io A) k :
  within F D c -> (forall a, within F D (k a)) -> within F D (guard prev c k).
Proof. intros Hc Hk. unfold guard. confining. Qed.

Lemma looks_openDisk d : looks (openDisk d).
Proof. intros w r w' H. by apply openDisk_frame in H. Qed.
Lemma looks_readDisk d o n : looks (readDisk d o n).
Proof. intros w r w' H. by apply readDisk_frame in H. Qed.
#[local] Hint Resolve looks_openDisk looks_readDisk looks_gate : looks.

Lemma within_WriteStage1 s : within F D (WriteStage1 disk s).
Proof.
  unfold WriteStage1. destruct (negb _); [apply within_looks, looks_ret|].
  repeat (apply within_guard; [confining|intros ?]). apply within_looks, looks_ret.
Qed.

Lemma within_WriteStage2 s : within F D (WriteStage2 disk s).
Proof.
  unfold WriteStage2, verifyStage2At. destruct (_ <? _); [apply within_looks, looks_ret|].
  repeat (apply within_guard; [confining|intros ?]). apply within_looks, looks_ret.
Qed.

Lemma within_writeStages s1 s2 : within F D (writeBIOSStagesWithRollback disk s1 s2).
Proof.
  pose proof within_WriteStage1. pose proof within_WriteStage2.
  assert (forall p, within F D (rollbackStage1 disk p)) by (intros p; unfold rollbackStage1; confining).
  assert (forall p, within F D (rollbackStage2 disk p)) by (intros p; unfold rollbackStage2; confining).
  assert (within F D (VerifyStage2 disk s2)) by (apply within_looks; intros w r w' E; by eapply VerifyStage2_frame).
  assert (within F D (VerifyStage1 disk s1)) by (apply within_looks; intros w r w' E; by eapply VerifyStage1_frame).
  unfold writeBIOSStagesWithRollback. confining.
Qed.

(** The UEFI generation. *)
Lemma within_BackupPrevious path :
  not_marker (previous path) -> not_marker (previous_tmp path) -> within F D (BackupPrevious mp path).
Proof.
  intros H1 H2. unfold BackupPrevious, copyFile. pose proof (HF _ H1). pose proof (HF _ H2). confining.
Qed.

Lemma within_WriteLoader arch efi : within F D (WriteLoader mp arch efi).
Proof.
  unfold WriteLoader. destruct (LoaderPath arch) as [rel| |] eqn:E; [|confining..].
  apply loader_not_marker in E as (H0 & H1 & H2). pose proof (HF _ H0).
  assert (within F D (BackupPrevious mp rel)) by (by apply within_BackupPrevious).
  unfold install_loader. confining.
Qed.

Lemma looks_VerifyLoader arch want : looks (VerifyLoader mp arch want).
Proof. unfold VerifyLoader. looking. Qed.

Lemma within_uefiMetadata arch p info : within F D (writeUEFIMetadata pe kgzip gzip xz modinfo mp arch p info).
Proof.
  unfold writeUEFIMetadata, ReadSection, peOpen, sectionData.
  repeat (apply within_bind; [apply within_looks; looking|intros ?]). apply within_wrap, within_writeMetadata.
Qed.

Lemma within_writeUEFI arch efi p info :
  within F D (writeUEFIGenerationWithRollback pe kgzip gzip xz modinfo mp arch efi p info).
Proof.
  unfold writeUEFIGenerationWithRollback. destruct (LoaderPath arch) as [rel| |] eqn:E; [|confining..].
  apply loader_not_marker in E as (H0 & H1 & H2).
  assert (forall b, within F D (rollbackUEFIGeneration mp rel b)).
  { intros b. unfold rollbackUEFIGeneration. pose proof (within_restore rel). 
    apply within_bind; [auto|]. intros _. apply within_bind; [apply within_restore; by apply not_marker_known|].
    intros _. apply within_looks, looks_ret. }
  pose proof within_WriteLoader. pose proof within_uefiMetadata.
  assert (within F D (VerifyLoader mp arch efi)) by (apply within_looks, looks_VerifyLoader).
  assert (within F D (backupUEFIGeneration mp rel)) by (apply within_looks; unfold backupUEFIGeneration, backup_file; looking).
  confining.
Qed.

(** The settings and the whole update of a target. *)
Lemma within_setIntegrity t mode : t_mountpoint t = mp -> within F D (setIntegrityMode pe t mode).
Proof.
  intros Ht. unfold setIntegrityMode. rewrite Ht.
  assert (within F D (wrap PayloadSumFile (readInstalledKernelInitrd pe t))).
  { apply within_wrap, within_looks, looks_installed. }
  assert (forall A (r : outcome payloadsum_error A), within F D (sums r)) by (intros; apply within_looks, looks_sums).
  assert (F (mp, PayloadSumFile)) by known. assert (F (mp, BlkSumFile)) by known.
  confining.
Qed.

Lemma within_setInt13 v : within F D (setInt13Chunk mp v).
Proof.
  unfold setInt13Chunk. assert (F (mp, CmdlineFile)) by known.
  assert (forall A (r : outcome cmdline_error A), within F D (lift_cmdline r)) by (intros; apply within_looks, looks_lift_cmd).
  confining.
Qed.

Lemma within_settings t opts : t_mountpoint t = mp -> within F D (apply_settings pe t opts).
Proof.
  intros Ht. unfold apply_settings. pose proof (within_setIntegrity t (o_integrity opts) Ht). rewrite Ht.
  pose proof within_setInt13.
  assert (forall A (r : outcome cmdline_error A), within F D (lift_cmdline r)) by (intros; apply within_looks, looks_lift_cmd).
  confining.
Qed.

Lemma within_or_refuse {A : Type} ctx (c : io A) k :
  within F D c -> (forall a, within F D (k a)) -> within F D (or_refuse ctx c k).
Proof. intros Hc Hk. unfold or_refuse. confining. Qed.

Lemma within_settle wrote c : within F D c -> within F D (settle wrote c).
Proof. intros Hc. unfold settle. confining. Qed.

Lemma within_updateBIOS sector t a yes answer opts mo :
  t_mountpoint t = mp -> t_disk t = disk ->
  (forall edit c, editCmdline mo = Some edit -> looks (edit c)) ->
  within F D (updateBIOSTarget pe kgzip gzip xz modinfo sector t a yes answer opts mo).
Proof.
  intros Ht Hd He. unfold updateBIOSTarget, replace_build. rewrite Hd.
  pose proof (within_settings t opts Ht) as Hs. rewrite Ht.
  apply within_or_refuse; [apply within_looks, looks_lift|]. intros _.
  apply within_or_refuse; [apply within_looks, looks_gate|]. intros _.
  apply within_or_refuse; [apply within_looks; destruct (negb _); [apply looks_checkEligible|apply looks_ret]|]. intros _.
  apply within_bind; [apply within_looks; unfold checkBIOSUpToDate; looking|]. intros u.
  destruct (u.2 && _); [by apply within_settle|]. cbv zeta.
  apply within_or_refuse; [apply within_looks, looks_lift|]. intros _.
  apply within_or_refuse; [apply within_looks; unfold stage_pair; looking|]. intros _.
  apply within_or_refuse; [apply within_looks; unfold valid_mode; looking|]. intros _.
  apply within_or_refuse; [apply within_looks, looks_applyInt13|]. intros c.
  apply within_or_refuse; [apply within_looks; destruct (editCmdline mo) eqn:E; [by eapply He|apply looks_ret]|]. intros c'.
  destruct (negb yes && _); [apply within_looks, looks_ret|].
  apply within_or_refuse; [apply within_writeStages|]. intros _.
  apply within_bind; [apply within_looks, looks_integrityMode|]. intros m.
  apply within_settle, within_writePayload.
Qed.

Lemma within_updateUEFI t a yes answer isSeed :
  t_mountpoint t = mp -> within F D (updateUEFITarget pe kgzip gzip xz modinfo t a yes answer isSeed).
Proof.
  intros Ht. unfold updateUEFITarget. rewrite Ht. apply within_or_refuse; [apply within_looks, looks_lift|]. intros rel.
  cbv zeta. assert (within F D (do r := writeUEFIGenerationWithRollback pe kgzip gzip xz modinfo mp (t_arch t) (a_bytes a) (a_path a) (a_info a) in
    match r.2 with Ok _ => ret (true, Ok tt) | res => ret (false, res) end)) as Hi.
  { apply within_bind; [apply within_writeUEFI|]. intros [b [u|e|]]; apply within_looks, looks_ret. }
  destruct isSeed; [done|].
  apply within_or_refuse; [apply within_looks, looks_Read|]. intros local.
  apply within_or_refuse; [apply within_looks, looks_lift|]. intros _.
  destruct (negb (bytes_ltb _ _)); [apply within_looks, looks_ret|].
  destruct (negb yes && _); [apply within_looks, looks_ret|]. done.
Qed.

(** The configuration. *)
Lemma within_SetConfigKey key v : within F D (SetConfigKey mp key v).
Proof. unfold SetConfigKey. assert (F (mp, ConfigFile)) by known. confining. Qed.

Lemma within_writeConfig cfg sshKey hostKey : within F D (writeConfig mp cfg sshKey hostKey).
Proof.
  unfold writeConfig, WriteConfig, WriteAuthorizedKeys, WriteHostKey.
  assert (F (mp, ConfigFile)) by known. assert (F (mp, AuthorizedKeysFile)) by known.
  assert (F (mp, SSHHostEd25519KeyFile)) by known. confining.
Qed.

Lemma within_BIOSInstall arch a info c opts cfg sshKey hostKey :
  within F D (writeBIOSInstall kgzip gzip xz modinfo disk arch mp a info c opts cfg sshKey hostKey).
Proof.
  unfold writeBIOSInstall. apply within_bind; [apply within_writeStages|]. intros _.
  apply within_bind; [apply within_writePayload|]. intros _. apply within_writeConfig.
Qed.

Lemma within_UEFIInstall arch a cfg sshKey hostKey :
  within F D (writeUEFIInstall pe kgzip gzip xz modinfo arch mp a cfg sshKey hostKey).
Proof.
  unfold writeUEFIInstall. apply within_bind; [apply within_writeUEFI|]. intros r.
  apply within_bind; [apply within_looks, looks_lift|]. intros _. apply within_writeConfig.
Qed.

End writers.

(** The marker. *)
Lemma within_Member_Write {O : Oracle} (F : bytes * bytes -> Prop) (D : bytes -> Prop) mp m :
  F (mp, MemberFile) -> within F D (EspMember.Write mp m).
Proof. intros HF. unfold EspMember.Write. confining. Qed.

Lemma within_Member_Remove {O : Oracle} (F : bytes * bytes -> Prop) (D : bytes -> Prop) mp :
  F (mp, MemberFile) -> within F D (EspMember.Remove mp).
Proof. intros HF. unfold EspMember.Remove. confining. Qed.
