(* ===== verification/Mirror.v ===== *)
(** * cmd/tool: the set of ESPs of a mirrored boot

The first half of mirror.go: discovering the host's set and mounting its
members, which of them may be written, which one is the source, and the
bookkeeping (expected UUIDs, generations, distinct disks). The package
variables through which mirror.go reaches the system are the fields of
[seams]; a mount is the mountpoint it gives, [None] when it fails. *)

From Stdlib Require Import ZArith Lia Strings.Byte.
From stdpp Require Import base list gmap sorting.
From S2P Require Import Prelude GoStrings Layout World EspConfig EspMember BootEnv EspSet CmdLine Verify.
Local Open Scope Z_scope.

Definition exitFailure : Z := 1.
Definition exitMemberMissing : Z := 3.

Record seams := mkSeams {
  scanESPs : option (list ESPInfo);
  mountESP : bytes -> bool -> option bytes;
  diskOfESP : bytes -> option bytes;
  findMountAtPath : bytes -> option (bytes * bytes);
  volumeUUID : bytes -> option bytes;
  isUEFI : bytes -> bool;
  readProcCmdline : bytes;
  canonicalPath : bytes -> bytes;
  diskHintOf : bytes -> bytes;
  nowUTC : bytes;
  random16 : option bytes;
  envESPUUIDs : bytes;
  detectArch : bytes;
  sectorSize : bytes -> option Z;
  scratchFile : bytes * bytes;
  probeMounted : FATVolume -> bytes -> ESPInfo;
  newHostKey : option bytes;
  answerYes : bool
}.

Record hostOpts := mkHostOpts { espUUIDs : bytes; addESP : bytes; forceAdopt : bool }.

Record member := mkMirrorMember {
  m_target : option target;
  m_info : ESPInfo;
  m_foreign : bool;
  m_added : bool;
  m_mountErr : option ioerr;
  m_diskErr : option ioerr
}.

Definition m_uuid (m : member) : bytes := eUUID (m_info m).

(** Why [m] cannot be read or written; [None] is a nil error. *)
Definition usable (m : member) (write force uefi : bool) : option ioerr :=
  match m_mountErr m with
  | Some e => Some e
  | None =>
      if negb write then None else
      if m_foreign m && negb force then Some (ERefused (bs "its MEMBER marker names another installation")) else
      if negb uefi then m_diskErr m else None
  end.

(** [host]; an empty [explicitList] is the source's nil. *)
Record host := mkHost {
  h_uefi : bool;
  h_arch : bytes;
  h_set : HostSet;
  h_infos : list ESPInfo;
  h_members : list member;
  h_installID : bytes;
  explicitList : list bytes
}.

Definition set_members (h : host) (ms : list member) : host :=
  mkHost (h_uefi h) (h_arch h) (h_set h) (h_infos h) ms (h_installID h) (explicitList h).
Definition set_installID (h : host) (id : bytes) : host :=
  mkHost (h_uefi h) (h_arch h) (h_set h) (h_infos h) (h_members h) id (explicitList h).
Definition set_explicit (h : host) (l : list bytes) : host :=
  mkHost (h_uefi h) (h_arch h) (h_set h) (h_infos h) (h_members h) (h_installID h) l.

Definition in_list_mode (hs : HostSet) : bool := match Mode hs with ModeList => true | _ => false end.
Definition in_legacy_mode (hs : HostSet) : bool := match Mode hs with ModeLegacy => true | _ => false end.

Definition mirrored (h : host) : bool :=
  (1 <? len (h_members h)) || (0 <? len (Missing (h_set h))) || in_list_mode (h_set h).

Definition exitCode (h : host) (failed : bool) : Z :=
  if failed then exitFailure else if 0 <? len (Missing (h_set h)) then exitMemberMissing else 0.

(** The loops over [seen]: the first occurrence of each is kept. *)
Fixpoint keep_first (seen l : list bytes) : list bytes :=
  match l with
  | [] => []
  | u :: t => if bool_decide (u ∈ seen) then keep_first seen t else u :: keep_first (u :: seen) t
  end.

Definition expected (h : host) : list bytes :=
  let out := keep_first [] (Expected (h_set h) ++ (m_uuid <$> h_members h)) in
  if negb (in_list_mode (h_set h)) then sort_strings out else out.

Section discovery.
Context (s : seams).

Definition firmwareOf (root firmware : bytes) : outcome ioerr bool :=
  if beq firmware (bs "uefi") then Ok true
  else if beq firmware (bs "bios") then Ok false
  else if beq firmware [] then Ok (isUEFI s root)
  else Err (ERefused (bs "--firmware")).

Definition from_proc : bytes := bs "/proc/cmdline".

(** The closure [parse] of [resolveList]. *)
Definition parse_list (v src : bytes) : outcome ioerr (list bytes * bytes * bool) :=
  match ParseUUIDList v with
  | Ok l => Ok (l, src, negb (beq src from_proc))
  | Err _ => Err (ERefused src)
  | Panic => Panic
  end.

Definition resolveList (o : hostOpts) (root : bytes) (allowCmdline : bool) : outcome ioerr (list bytes * bytes * bool) :=
  if negb (beq (espUUIDs o) []) then parse_list (espUUIDs o) (bs "--esp-uuids") else
  if negb (beq (envESPUUIDs s) []) then parse_list (envESPUUIDs s) (bs "ALPINE_ZFSBOOT_ESP_UUIDS") else
  let v := cmdlineValue (readProcCmdline s) ESPUUIDsKey in
  if allowCmdline && beq root (bs "/") && negb (beq v []) then parse_list v from_proc
  else Ok ([], [], false).

(** [filepath.Join(root, "boot/efi")], before the cleaning [canonicalPath] does. *)
Definition boot_efi (root : bytes) : bytes := if beq root [] then bs "boot/efi" else root ++ bs "/boot/efi".

Definition primaryUUID (root : bytes) : bytes :=
  let mounted :=
    '(dev, fstype) ← findMountAtPath s (canonicalPath s (boot_efi root));
    if beq fstype (bs "vfat") then volumeUUID s dev else None in
  match mounted with
  | Some u => u
  | None =>
      if beq root (bs "/") then
        match NormalizeFATUUID (cmdlineValue (readProcCmdline s) ESPSelfKey) with Ok u => u | _ => [] end
      else []
  end.

Definition attach (h : host) (info : ESPInfo) (foreign added readonly : bool) : member :=
  let base := DevicePartitionBase (eDev info) in
  let checked := negb (h_uefi h) && (negb (in_legacy_mode (h_set h)) || added) in
  let diskErr := if checked && negb (bool_decide (is_Some (diskOfESP s (eDev info))))
                 then Some (ERefused (bs "disk of the ESP")) else None in
  let disk := if checked then default base (diskOfESP s (eDev info)) else base in
  match mountESP s (eDev info) readonly with
  | None => mkMirrorMember None info foreign added (Some (ERefused (bs "mount"))) diskErr
  | Some mp => mkMirrorMember (Some (mkTarget (h_uefi h) (h_arch h) (eDev info) disk mp)) info foreign added None diskErr
  end.

Definition discoverHost (root firmware : bytes) (readonly : bool) (o : hostOpts) : outcome ioerr host :=
  let! uefi := firmwareOf root firmware in
  let! r := resolveList o root true in
  let '(lst, src, explicit) := r in
  match scanESPs s with
  | None => Err (ERefused (bs "scan"))
  | Some infos =>
      match SelectHost infos (mkSelectOpts lst src (primaryUUID root)) with
      | Panic => Panic
      | Err _ => Err (ERefused (bs "select"))
      | Ok hs =>
          let h := mkHost uefi (detectArch s) hs infos [] (hsInstallID hs) (if explicit then lst else []) in
          Ok (set_members h ((fun hm => attach h (hm_info hm) (Foreign hm) false readonly) <$> hsMembers hs))
      end
  end.

Definition findInfo (h : host) (arg : bytes) : outcome ioerr ESPInfo :=
  match NormalizeFATUUID arg with
  | Panic => Panic
  | Ok u =>
      match List.filter (fun i => beq (eUUID i) u) (h_infos h) with
      | [] => Err (ERefused (bs "no FAT filesystem with the UUID"))
      | [i] => Ok i
      | _ => Err (ERefused (bs "more than one device"))
      end
  | Err _ =>
      let want := canonicalPath s arg in
      match List.find (fun i => beq (eDev i) arg || beq (canonicalPath s (eDev i)) want) (h_infos h) with
      | Some i => Ok i
      | None => Err (ERefused (bs "no FAT filesystem"))
      end
  end.

(** The loop of [addESPs] over the arguments. *)
Fixpoint add_args (o : hostOpts) (h : host) (args : list bytes) : outcome ioerr host :=
  match args with
  | [] => Ok h
  | arg :: rest =>
      let arg := trim_space arg in
      if beq arg [] then add_args o h rest else
      let! info := findInfo h arg in
      if existsb (fun m => beq (m_uuid m) (eUUID info)) (h_members h) then add_args o h rest else
      if ValidMember info && negb (beq (eInstallID info) (h_installID h)) && negb (forceAdopt o)
      then Err (ERefused (bs "MEMBER marker of another installation"))
      else add_args o (set_members h (h_members h ++ [attach h info false true false])) rest
  end.

Definition addESPs (o : hostOpts) (h : host) : outcome ioerr host :=
  if beq (addESP o) [] then Ok h else add_args o h (split x2c (addESP o)).

End discovery.

(** The loop of [checkDistinctDisks]. *)
Fixpoint distinct_disks (seen : list bytes) (ms : list member) : outcome ioerr unit :=
  match ms with
  | [] => Ok tt
  | m :: rest =>
      match m_target m, m_diskErr m with
      | Some t, None =>
          if bool_decide (t_disk t ∈ seen) then Err (ERefused (bs "both on one disk"))
          else distinct_disks (t_disk t :: seen) rest
      | _, _ => distinct_disks seen rest
      end
  end.

Definition checkDistinctDisks (h : host) : outcome ioerr unit :=
  if h_uefi h then Ok tt else distinct_disks [] (h_members h).

Definition m_generation (m : member) : Z := eGeneration (m_info m).

(** A pointer to a member is its position in [members]; the source of a run is
given with it. *)
Definition source_ok (m : member) : bool :=
  match m_target m with Some _ => negb (m_added m) && negb (m_foreign m) | None => false end.

Fixpoint best_from (i : nat) (ms : list member) (best : option (nat * member)) : option (nat * member) :=
  match ms with
  | [] => best
  | m :: rest =>
      let better := match best with None => true | Some (_, b) => m_generation b <? m_generation m end in
      best_from (S i) rest (if source_ok m && better then Some (i, m) else best)
  end.

Definition bestSource (h : host) : option (nat * member) := best_from 0 (h_members h) None.

Definition maxGeneration (h : host) : Z :=
  fold_left (fun g m => if negb (m_foreign m) && (g <? m_generation m) then m_generation m else g) (h_members h) 0.

Definition ensureInstallID (s : seams) (h : host) : outcome ioerr host :=
  if beq (h_installID h) [] then
    match NewInstallID (random16 s) with
    | Ok id => Ok (set_installID h id)
    | Err _ => Err (ERefused (bs "install id"))
    | Panic => Panic
    end
  else Ok h.

(** [strings.EqualFold] is taken on ASCII letters: no other letter folds to one
a FAT UUID can hold. *)
Definition addUUID (lst uuid : bytes) : bytes :=
  if beq lst [] then uuid else
  if existsb (fun u => beq (to_upper (trim_space u)) (to_upper uuid)) (split x2c lst) then lst
  else lst ++ bs "," ++ uuid.

Definition dropUUID (lst uuid : bytes) : bytes :=
  join (bs ",") (List.filter (fun u => negb (beq (to_upper (trim_space u)) (to_upper uuid))) (split x2c lst)).

(** ** The choice of the source *)

(** [m] at position [i] beats the eligible members [P] speaks of. *)
Definition best_of (P : nat -> member -> Prop) (i : nat) (m : member) : Prop :=
  P i m /\ forall j m', P j m' ->
    m_generation m' <= m_generation m /\ (m_generation m' = m_generation m -> (i <= j)%nat).

Lemma best_of_add (P Q : nat -> member -> Prop) i m :
  best_of P i m -> (forall j m', Q j m' <-> P j m') -> best_of Q i m.
Proof. intros [H1 H2] E. split; [by apply E|]. intros j m' H. by apply H2, E. Qed.

(** What [best_from] has found among the members before position [n]. *)
Definition best_so_far (all : list member) (n : nat) (best : option (nat * member)) : Prop :=
  let P := fun i m => (i < n)%nat /\ all !! i = Some m /\ source_ok m = true in
  match best with
  | Some (i, m) => best_of P i m
  | None => forall i m, ~ P i m
  end.

Lemma best_from_spec all n ms best :
  drop n all = ms -> best_so_far all n best -> best_so_far all (n + length ms) (best_from n ms best).
Proof.
  revert n best. induction ms as [|m ms IH]; intros n best Hd Hb; cbn [best_from length].
  { by rewrite Nat.add_0_r. }
  replace (n + S (length ms))%nat with (S n + length ms)%nat by lia. apply IH.
  { change ms with (drop 1 (m :: ms)). rewrite <-Hd, drop_drop. f_equal. lia. }
  assert (all !! n = Some m) as Hn.
  { replace n with (n + 0)%nat by lia. by rewrite <-lookup_drop, Hd. }
  assert (forall j m', (j < S n)%nat /\ all !! j = Some m' /\ source_ok m' = true <->
    ((j < n)%nat /\ all !! j = Some m' /\ source_ok m' = true) \/ (j = n /\ m' = m /\ source_ok m = true)) as Hcase.
  { intros j m'. split.
    - intros (Hj & Hl & Ho). destruct (decide (j = n)) as [->|]; [right|left; split_and!; [lia|done|done]].
      rewrite Hn in Hl. injection Hl as ->. done.
    - intros [(Hj & Hl & Ho)|(-> & -> & Ho)]; split_and!; (done || lia). }
  destruct (source_ok m) eqn:Eo; cbn [andb].
  2: { destruct best as [[i b]|]; cbn in Hb |- *.
    - eapply best_of_add; [exact Hb|]. intros j m'. rewrite Hcase. intuition congruence.
    - intros i b H. apply Hcase in H as [H|(_ & _ & [=])]. by eapply Hb. }
  destruct best as [[i b]|]; cbn in Hb |- *.
  - destruct (m_generation b <? m_generation m) eqn:Eg; zb; cbn.
    + destruct Hb as [_ Hb]. split; [apply Hcase; by right|]. intros j m' H.
      apply Hcase in H as [H|(-> & -> & _)]; [|lia]. apply Hb in H as [H _]. lia.
    + destruct Hb as [Hi Hb]. split; [apply Hcase; by left|]. intros j m' H.
      apply Hcase in H as [H|(-> & -> & _)]; [by apply Hb|]. destruct Hi as (Hi & _). lia.
  - split; [apply Hcase; by right|]. intros j m' H. apply Hcase in H as [H|(-> & -> & _)]; [by destruct (Hb j m')|lia].
Qed.

(** Every eligible member of the host. *)
Definition eligible (h : host) (i : nat) (m : member) : Prop := h_members h !! i = Some m /\ source_ok m = true.

(** The member whose config, keys and settings are spread over the set is an
installed, mounted member of this installation - never one being added, never
one marked for another installation - that no eligible member beats by
generation, the first in host order among equals; there is none exactly when no
member is eligible. *)
Theorem bestSource_newest (h : host) :
  match bestSource h with
  | Some (i, m) => best_of (eligible h) i m
  | None => forall i m, ~ eligible h i m
  end.
Proof.
  pose proof (best_from_spec (h_members h) 0 (h_members h) None eq_refl) as H.
  assert (best_so_far (h_members h) (0 + length (h_members h)) (best_from 0 (h_members h) None)) as Hb.
  { apply H. intros i m (Hi & _). lia. }
  unfold bestSource. unfold best_so_far in Hb.
  assert (forall i m, eligible h i m <-> (i < 0 + length (h_members h))%nat /\ h_members h !! i = Some m /\ source_ok m = true) as E.
  { intros i m. unfold eligible. split; [|tauto]. intros [Hl Ho]. split_and!; [|done|done]. by apply lookup_lt_Some in Hl. }
  destruct (best_from _ _ _) as [[i m]|].
  - by eapply best_of_add.
  - intros i m Hi. apply E in Hi. by eapply Hb.
Qed.

Lemma bestSource_eligible h i m : bestSource h = Some (i, m) -> eligible h i m.
Proof.
  intros E. pose proof (best_from_spec (h_members h) 0 (h_members h) None eq_refl) as H.
  assert (best_so_far (h_members h) (0 + length (h_members h)) (best_from 0 (h_members h) None)) as Hb.
  { apply H. intros j n (Hj & _). lia. }
  unfold bestSource in E. rewrite E in Hb. destruct Hb as [(_ & ? & ?) _]. done.
Qed.

(** ** The bookkeeping *)

Lemma keep_first_elem seen l u : u ∈ keep_first seen l <-> u ∈ l /\ u ∉ seen.
Proof.
  revert seen. induction l as [|x l IH]; intros seen; cbn.
  { split; [by intros ?%elem_of_nil|]. by intros [?%elem_of_nil _]. }
  destruct (bool_decide_reflect (x ∈ seen)) as [Hx|Hx]; rewrite ?elem_of_cons, IH, ?elem_of_cons.
  - split; [tauto|]. intros [[->|]]; tauto.
  - split; [intros [->|]; tauto|]. intros [[->|Hl] Hs]; [by left|]. destruct (decide (u = x)); [by left|right]. tauto.
Qed.

Lemma keep_first_NoDup seen l : NoDup (keep_first seen l).
Proof.
  revert seen. induction l as [|x l IH]; intros seen; cbn; [constructor|].
  case_bool_decide; [apply IH|]. constructor; [|apply IH]. rewrite keep_first_elem. intros [_ []]. by left.
Qed.

(** The disks of the members that have one. *)
Definition disk_of (m : member) : option bytes :=
  match m_target m, m_diskErr m with Some t, None => Some (t_disk t) | _, _ => None end.

Lemma distinct_disks_spec seen ms :
  distinct_disks seen ms = Ok tt <-> NoDup (omap disk_of ms) /\ Forall (fun d => d ∉ seen) (omap disk_of ms).
Proof.
  revert seen. induction ms as [|m ms IH]; intros seen; cbn.
  { split; [intros _; split; constructor|done]. }
  assert (disk_of m = match m_target m, m_diskErr m with Some t, None => Some (t_disk t) | _, _ => None end) as -> by done.
  destruct (m_target m) as [t|], (m_diskErr m); try apply IH.
  rewrite NoDup_cons, Forall_cons. case_bool_decide as Hs; [split; [done|tauto]|].
  rewrite IH. rewrite !Forall_forall. split.
  - intros [H1 H2]. split_and!; [|done|done|].
    + intros Hin. by apply (H2 _ Hin); left.
    + intros d Hd Hds. by apply (H2 _ Hd); right.
  - intros ((H1 & H2) & _ & H3). split; [done|]. intros d Hd [->|Hds]%elem_of_cons; [done|]. by apply (H3 _ Hd).
Qed.

(** The distinct-disk check of a BIOS host passes exactly when no two members
that could take a boot loader are on the same disk: stage1 and stage2 of one
member are never overwritten by another's. *)
Theorem checkDistinctDisks_exact (h : host) :
  checkDistinctDisks h = Ok tt <-> h_uefi h = true \/ NoDup (omap disk_of (h_members h)).
Proof.
  unfold checkDistinctDisks. destruct (h_uefi h); [by split; [left|]|].
  rewrite distinct_disks_spec. split.
  - intros [H _]. by right.
  - intros [[=]|H]. split; [done|]. apply Forall_forall. by intros d _ ?%elem_of_nil.
Qed.

(** ** What discovery gives *)

(** A member is a scanned ESP, mounted where its device was mounted; unless it
is flagged, or [force] was given, its valid marker is this installation's. *)
Record member_ok (s : seams) (force : bool) (h : host) (m : member) : Prop := mkMemberOk {
  mo_scan : m_info m ∈ h_infos h;
  mo_mount : forall t, m_target m = Some t -> mountESP s (eDev (m_info m)) false = Some (t_mountpoint t);
  mo_firmware : forall t, m_target m = Some t -> t_uefi t = h_uefi h;
  mo_err : m_mountErr m = None <-> is_Some (m_target m);
  mo_own : m_foreign m = false -> force = false -> ValidMember (m_info m) = true -> eInstallID (m_info m) = h_installID h
}.

Lemma member_ok_members s force h ms m : member_ok s force (set_members h ms) m <-> member_ok s force h m.
Proof. split; intros []; by constructor. Qed.

Lemma attach_ok s force h info foreign added :
  info ∈ h_infos h ->
  (foreign = false -> force = false -> ValidMember info = true -> eInstallID info = h_installID h) ->
  member_ok s force h (attach s h info foreign added false).
Proof.
  intros Hi Ho. unfold attach. destruct (mountESP s (eDev info) false) eqn:Em;
    (split; cbn; [done|intros t Ht; by simplify_eq|intros t Ht; by simplify_eq| |done]).
  - by split; [eauto|].
  - split; [done|]. by intros [? ?].
Qed.

Lemma attach_uuid s h info foreign added ro : m_info (attach s h info foreign added ro) = info.
Proof. unfold attach. by destruct (mountESP _ _ _). Qed.

Lemma attach_added s h info foreign added ro : m_added (attach s h info foreign added ro) = added.
Proof. unfold attach. by destruct (mountESP _ _ _). Qed.

Lemma attach_foreign s h info foreign added ro : m_foreign (attach s h info foreign added ro) = foreign.
Proof. unfold attach. by destruct (mountESP _ _ _). Qed.

Lemma discoverHost_members s root firmware o h :
  discoverHost s root firmware false o = Ok h -> scanESPs s = Some (h_infos h) /\ Forall (member_ok s false h) (h_members h).
Proof.
  unfold discoverHost. destruct (firmwareOf _ _ _) as [uefi| |]; cbn [obind]; [|done..].
  destruct (resolveList _ _ _ _) as [[[lst src] explicit]| |]; cbn [obind]; [|done..].
  destruct (scanESPs s) as [infos|]; [|done]. destruct (SelectHost _ _) as [hs| |] eqn:Es; [|done..].
  intros [= <-]. split; [done|]. apply SelectHost_inv in Es as [_ Hs _ Hid _ _ _ _]. cbn [h_members set_members].
  apply Forall_fmap, Forall_forall. intros hm Hm. rewrite Forall_forall in Hs, Hid. cbn.
  apply member_ok_members, attach_ok; cbn.
  - by apply Hs.
  - intros Hf _ Hv. by apply Hid.
Qed.

Lemma findInfo_in s h arg i : findInfo s h arg = Ok i -> i ∈ h_infos h.
Proof.
  unfold findInfo. destruct (NormalizeFATUUID arg) as [u|e|]; [| |done].
  - destruct (List.filter _ _) as [|x [|y l]] eqn:E; [done| |done]. intros [= <-].
    assert (In x (List.filter (fun i => beq (eUUID i) u) (h_infos h))) as H by (rewrite E; by left).
    apply filter_In in H as [H _]. by apply list_elem_of_In.
  - destruct (List.find _ _) eqn:E; [|done]. intros [= <-]. apply find_some in E as [E _]. by apply list_elem_of_In.
Qed.

(** The ESPs [addESPs] appends, whatever the members were before. *)
Lemma add_args_new s o h args h' :
  add_args s o h args = Ok h' ->
  exists ms, h' = set_members h (h_members h ++ ms) /\
             Forall (fun m => member_ok s (forceAdopt o) h m /\ m_added m = true /\ m_foreign m = false) ms.
Proof.
  revert h. induction args as [|arg args IH]; intros h H; cbn [add_args] in H.
  { injection H as <-. exists []. rewrite app_nil_r. by destruct h. }
  destruct (beq (trim_space arg) []); [by apply IH|]. destruct (findInfo s h _) as [info| |] eqn:Ef; cbn [obind] in H; [|done..].
  destruct (existsb _ _); [by apply IH|]. destruct (ValidMember info && _ && _) eqn:Ev; [done|].
  apply IH in H as (ms & -> & Hms). exists (attach s h info false true false :: ms). split.
  - unfold set_members. cbn. by rewrite <-app_assoc.
  - constructor.
    + split; [|split; [apply attach_added|apply attach_foreign]]. apply attach_ok; [by eapply findInfo_in|].
      intros _ Hf Hv. rewrite Hv, Hf in Ev. cbn in Ev. rewrite andb_true_r in Ev. apply negb_false_iff in Ev. by apply beq_true.
    + eapply Forall_impl; [exact Hms|]. intros m [Hm Hr]. split; [by eapply member_ok_members|done].
Qed.

Lemma addESPs_new s o h h' :
  addESPs s o h = Ok h' ->
  exists ms, h' = set_members h (h_members h ++ ms) /\
             Forall (fun m => member_ok s (forceAdopt o) h m /\ m_added m = true /\ m_foreign m = false) ms.
Proof.
  unfold addESPs. destruct (beq _ _); [|by apply add_args_new]. intros [= <-]. exists [].
  rewrite app_nil_r. by destruct h.
Qed.

(** A member mounted where the ESP [i] is mounted is [i]: different devices are
mounted at different places. *)
Lemma mounted_at s force h i mp m t :
  (forall d1 d2 mp, mountESP s d1 false = Some mp -> mountESP s d2 false = Some mp -> d1 = d2) ->
  NoDup (eDev <$> h_infos h) -> i ∈ h_infos h -> mountESP s (eDev i) false = Some mp ->
  member_ok s force h m -> m_target m = Some t -> t_mountpoint t = mp -> m_info m = i.
Proof.
  intros Hmounts Hdev Hi Hmp [Hs Hmt _ _ _] Ht Heq. apply Hmt in Ht. rewrite Heq in Ht. pose proof (Hmounts _ _ _ Ht Hmp) as Hd.
  apply list_elem_of_lookup in Hs as (a & Ha). apply list_elem_of_lookup in Hi as (b & Hb).
  assert (a = b) as ->; [|congruence]. apply (NoDup_lookup _ a b (eDev (m_info m)) Hdev);
    rewrite list_lookup_fmap; [by rewrite Ha|rewrite Hb; cbn; by rewrite Hd].
Qed.
