(* ===== verification/MirrorOps.v ===== *)
(** * cmd/tool: operations on the members of a mirror

The parts of mirror.go and espcmd.go that read and write member ESPs: the
marker written last, the copies of config and keys, the content comparison,
the copy of a boot chain and the repair of a member that differs. *)

From Stdlib Require Import ZArith Lia Strings.Byte.
From stdpp Require Import base list gmap sorting.
From S2P Require Import Prelude GoStrings Layout World EspConfig EspMember BootEnv EspSet Sha256 PayloadSum BiosBoot Stages InitrdInfo Metadata Payload CmdLine UefiBoot Verify Update Spare Mirror.
Local Open Scope Z_scope.

#[export] Instance sysop_eq_dec : EqDecision sysop.
Proof. solve_decision. Defined.
#[export] Instance ioerr_eq_dec : EqDecision ioerr.
Proof. solve_decision. Defined.

(** The use of a member's embedded target: a nil pointer panics. *)
Definition the_target (m : member) : io target :=
  match m_target m with Some t => ret t | None => lift Panic end.

(** What a file, a stage or an absent one contributes to a comparison. An error
text names the path that could not be read. *)
Inductive digest :=
| DAbsent
| DUnreadable (path : bytes * bytes) (e : ioerr)
| DSum (sha256 : bytes).

#[export] Instance digest_eq_dec : EqDecision digest.
Proof. solve_decision. Defined.

Record memberDigest := mkDigest { d_member : member; d_buildStamp : bytes; d_files : list (bytes * digest) }.

(** [d.files[name]]; the missing key's empty string is [None]. *)
Fixpoint d_lookup (fs : list (bytes * digest)) (name : bytes) : option digest :=
  match fs with
  | [] => None
  | (n, v) :: t => if beq n name then Some v else d_lookup t name
  end.

Definition digestBytes (path : bytes * bytes) (r : outcome ioerr bytes) : digest :=
  match r with
  | Ok b => DSum (SHA256Hex b)
  | Err ENotExist => DAbsent
  | Err e => DUnreadable path e
  | Panic => DAbsent
  end.

Record memberSettings := mkSettings { s_int13chunk : bytes; s_integrityWord : bytes; s_mode : bytes }.

Definition integrityKey : bytes := bs "alpine-zfsboot.integrity".

Inductive setting := SInt13 | SIntegrity | SMode.

Definition lostBy (m src : memberSettings) : option setting :=
  if negb (beq (s_int13chunk m) []) && negb (beq (s_int13chunk m) (s_int13chunk src)) then Some SInt13
  else if negb (beq (s_integrityWord m) []) && negb (beq (s_integrityWord m) (s_integrityWord src)) then Some SIntegrity
  else if negb (beq (s_mode m) []) && negb (beq (s_mode m) (s_mode src)) then Some SMode
  else None.

(** The names in which [d] differs from the reference, sorted. *)
Definition differences (skip : bytes -> bool) (ref d : list (bytes * digest)) : list bytes :=
  sort_strings (fst <$> List.filter (fun nv => negb (skip nv.1) && negb (bool_decide (d_lookup d nv.1 = Some nv.2))) ref).

Definition syncFiles : list bytes := [ConfigFile; AuthorizedKeysFile; SSHHostEd25519KeyFile].

Definition is_synced (name : bytes) : bool := bool_decide (name ∈ syncFiles).
Definition is_setting (name : bytes) : bool :=
  has_prefix name CmdlineFile || beq name PayloadSumFile || is_synced name.

Inductive complaint :=
| CStale (uuid : bytes) (names : list bytes)
| CDiffers (uuid : bytes) (names : list bytes).

(** [Write] of EFI/ALPINE/MEMBER is skipped when the marker says it already. *)
Definition same_marker (cur want : Member) : bool :=
  beq (InstallID cur) (InstallID want) && (Generation cur =? Generation want) && beq (ESPUUID cur) (ESPUUID want)
  && beq (join (bs ",") (Members cur)) (join (bs ",") (Members want)).

Section ops.
Context {O : Oracle}.
Context (pe : bytes -> option peFile).
Context (kgzip : bytes -> option (bytes * bool)) (gzip xz : bytes -> option reader) (modinfo : bytes -> elf_section).
Context (s : seams).

Definition poolOf (t : option target) : io bytes :=
  match t with
  | None => ret []
  | Some t =>
      if t_uefi t then
        match LoaderPath (t_arch t) with
        | Ok rel =>
            do r := attempt (Read pe (t_mountpoint t) rel) in
            match r with Ok info => ret (iPool info) | Err _ => ret [] | Panic => lift Panic end
        | Err _ => ret []
        | Panic => lift Panic
        end
      else
        do r := attempt (readFile (t_mountpoint t) CmdlineFile) in
        match r with Ok raw => ret (iPool (ParseText raw)) | Err _ => ret [] | Panic => lift Panic end
  end.

Definition diskHint (m : member) : bytes :=
  match m_target m with None => [] | Some t => diskHintOf s (t_disk t) end.

(** One round of [finalizeMembersAt]: the member's error, if any. *)
Definition finalize_one (id : bytes) (exp : list bytes) (pool : bytes) (gen : Z) (m : member) : io (option ioerr) :=
  let want := mkMember id gen (m_uuid m) exp (SanitizeInfo pool) (SanitizeInfo (diskHint m)) (nowUTC s) in
  do t := the_target m in
  do cur := EspMember.Read (t_mountpoint t) in
  if match cur with Present (Ok c) => same_marker c want | _ => false end then ret None else
  do r := attempt (EspMember.Write (t_mountpoint t) want) in
  match r with
  | Ok _ => ret None
  | Err e => ret (Some (EIn (bs "writing " ++ MemberFile) e))
  | Panic => lift Panic
  end.

Fixpoint finalize_each (id : bytes) (exp : list bytes) (pool : bytes) (genOf : nat * member -> Z)
    (ok : list (nat * member)) : io (list (nat * ioerr)) :=
  match ok with
  | [] => ret []
  | im :: rest =>
      do e := finalize_one id exp pool (genOf im) im.2 in
      do es := finalize_each id exp pool genOf rest in
      ret (match e with Some e => (im.1, e) :: es | None => es end)
  end.

Definition finalizeMembersAt (h : host) (ok : list (nat * member)) (genOf : nat * member -> Z) (pool : bytes)
    : io (host * list (nat * ioerr)) :=
  match ensureInstallID s h with
  | Panic => lift Panic
  | Err e => ret (h, (fun im => (im.1, e)) <$> ok)
  | Ok h =>
      do errs := finalize_each (h_installID h) (expected h) pool genOf ok in
      ret (h, errs)
  end.

Definition finalizeMembers (h : host) (ok : list (nat * member)) (gen : Z) (pool : bytes)
    : io (host * list (nat * ioerr)) :=
  finalizeMembersAt h ok (fun _ => gen) pool.

(** [syncConfig] between two mountpoints: [wrote] and the error. *)
Fixpoint sync_each (src dst : bytes) (fs : list bytes) (wrote : bool) : io (bool * outcome ioerr unit) :=
  match fs with
  | [] => ret (wrote, Ok tt)
  | f :: rest =>
      do want := attempt (readFile src f) in
      do got := attempt (readFile dst f) in
      match want with
      | Panic => lift Panic
      | Err ENotExist =>
          match got with
          | Ok _ =>
              do r := attempt (removeFile dst f) in
              match r with
              | Ok _ => sync_each src dst rest true
              | Err e => ret (wrote, Err e)
              | Panic => lift Panic
              end
          | _ => sync_each src dst rest wrote
          end
      | Err e => ret (wrote, Err (EIn f e))
      | Ok c =>
          if match got with Ok g => beq c g | _ => false end then sync_each src dst rest wrote else
          do r := attempt (WriteFile dst f c) in
          match r with
          | Ok _ => sync_each src dst rest true
          | Err e => ret (wrote, Err e)
          | Panic => lift Panic
          end
      end
  end.

Definition syncConfig (src dst : member) : io (bool * outcome ioerr unit) :=
  do ts := the_target src in
  do td := the_target dst in
  sync_each (t_mountpoint ts) (t_mountpoint td) syncFiles false.

Definition installed (m : member) : io bool :=
  do t := the_target m in
  if t_uefi t then
    match LoaderPath (t_arch t) with
    | Ok rel => do n := statSize (t_mountpoint t) rel in ret (bool_decide (is_Some n))
    | Err _ => ret false
    | Panic => lift Panic
    end
  else
    do r := attempt (ReadStage2 (t_disk t)) in
    match r with
    | Ok s2 =>
        if len s2 <? 4 then ret false else
        match @le_at ioerr 2 s2 2 with Ok v => ret (v =? Stage2Magic) | _ => lift Panic end
    | Err _ => ret false
    | Panic => lift Panic
    end.

(** ** Comparing members *)

Definition digest_file (mp rel : bytes) : io (bytes * digest) :=
  do r := attempt (readFile mp rel) in ret (rel, digestBytes (mp, rel) r).

Fixpoint digest_files (mp : bytes) (rels : list bytes) : io (list (bytes * digest)) :=
  match rels with
  | [] => ret []
  | rel :: rest => do d := digest_file mp rel in do ds := digest_files mp rest in ret (d :: ds)
  end.

Definition stage1_name : bytes := bs "stage1 (MBR of disk)".
Definition stage2_name : bytes := bs "stage2".
Definition cmdline_name : bytes := CmdlineFile ++ bs " (without esp-self/esp-uuids)".

Definition digestMember (m : member) : io memberDigest :=
  do t := the_target m in
  let mp := t_mountpoint t in
  do p := (if t_uefi t then
             match LoaderPath (t_arch t) with
             | Ok rel =>
                 do d := digest_file mp rel in
                 do r := attempt (Read pe mp rel) in
                 ret (match r with Ok info => iBuildStamp info | _ => [] end, [(bs "UEFI loader " ++ rel, d.2)])
             | _ => ret ([], [])
             end
           else
             do s1 := attempt (ReadStage1 (t_disk t)) in
             do s2 := attempt (ReadStage2 (t_disk t)) in
             do fs := digest_files mp [KernelFile; InitrdFile; PayloadSumFile; BlkSumFile] in
             do c := attempt (readFile mp CmdlineFile) in
             let stamp := match c with Ok c => iBuildStamp (ParseText c) | _ => [] end in
             let c := match c with Ok c => Ok (stripMirrorWords c) | r => r end in
             ret (stamp, [(stage1_name, digestBytes (t_disk t, stage1_name) s1); (stage2_name, digestBytes (t_disk t, stage2_name) s2)]
                         ++ fs ++ [(cmdline_name, digestBytes (mp, CmdlineFile) c)])) in
  do fs := digest_files mp ([MetadataFile] ++ syncFiles) in
  ret (mkDigest m p.1 (p.2 ++ fs)).

(** The members a comparison takes: [m.target != nil && !m.added && !m.foreign]. *)
Fixpoint digest_members (ms : list member) : io (list memberDigest) :=
  match ms with
  | [] => ret []
  | m :: rest =>
      if source_ok m then do d := digestMember m in do ds := digest_members rest in ret (d :: ds)
      else digest_members rest
  end.

Definition newer_digest (a b : memberDigest) : bool :=
  let ga := m_generation (d_member a) in let gb := m_generation (d_member b) in
  if negb (ga =? gb) then gb <? ga else bytes_ltb (d_buildStamp b) (d_buildStamp a).

(** The errors and warnings of one member against the reference. *)
Definition compare_one (ref d : memberDigest) : list complaint * list bytes :=
  let diff := differences (fun _ => false) (d_files ref) (d_files d) in
  let gen := m_generation (d_member d) in
  let uuid := m_uuid (d_member d) in
  if negb (no_errs diff) then
    if (gen <? m_generation (d_member ref)) || bytes_ltb (d_buildStamp d) (d_buildStamp ref)
    then ([CStale uuid diff], []) else ([CDiffers uuid diff], [])
  else if negb (gen =? m_generation (d_member ref)) then ([], [uuid]) else ([], []).

Definition compare_all (ds : list memberDigest) : list complaint * list bytes :=
  match sort_stable newer_digest ds with
  | ref :: rest => (rest ≫= fun d => (compare_one ref d).1, rest ≫= fun d => (compare_one ref d).2)
  | [] => ([], [])
  end.

Definition compareMembers (h : host) : io (list complaint * list bytes) :=
  do ds := digest_members (h_members h) in ret (compare_all ds).

Fixpoint first_difference (ref : memberDigest) (ds : list memberDigest) : option (bytes * list bytes) :=
  match ds with
  | [] => None
  | d :: rest =>
      match differences is_setting (d_files ref) (d_files d) with
      | [] => first_difference ref rest
      | names => Some (m_uuid (d_member d), names)
      end
  end.

Definition payloadDifference (h : host) : io (option (bytes * list bytes)) :=
  do ds := digest_members (h_members h) in
  ret (match ds with [] => None | ref :: rest => first_difference ref rest end).

Definition readMemberSettings (m : member) : io memberSettings :=
  do t := the_target m in
  do c := attempt (readFile (t_mountpoint t) CmdlineFile) in
  do raw := attempt (readFile (t_mountpoint t) PayloadSumFile) in
  let cmd := match c with Ok c => c | _ => [] end in
  do mode := (match raw with
              | Ok raw =>
                  match PayloadSum.Decode raw with
                  | Ok man => ret (if beq (PayloadSum.Mode man) ModeWarn then [] else PayloadSum.Mode man)
                  | Err _ => ret []
                  | Panic => lift Panic
                  end
              | _ => ret []
              end) in
  ret (mkSettings (cmdlineValue cmd Int13ChunkKey) (cmdlineValue cmd integrityKey) mode).

(** ** Copying a boot chain *)

(** [defer os.Remove(tmp.Name())] *)
Definition drop_scratch (p : bytes * bytes) : world -> world := fun w => (removeFile p.1 p.2 w).2.

Definition no_opts : biosOpts := mkBiosOpts false [] false [].

(** The rest of [copyBootChain] for a UEFI host, from the temporary copy of the
loader on: it is removed when the function returns. *)
Definition copy_loader (h : host) (src m : member) (ts tm : target) (loader : bytes) (info : Info) : io unit :=
  let tmp := scratchFile s in
  run createFile tmp.1 tmp.2 then
  deferred (drop_scratch tmp)
    (run copyInto tmp.1 tmp.2 loader then
     run attempt (plain_call OpClose) then
     do r := writeUEFIGenerationWithRollback pe kgzip gzip xz modinfo (t_mountpoint tm) (h_arch h) loader tmp info in
     run lift r.2 then
     do r := syncConfig src m in lift r.2).

Definition copyBootChain (h : host) (src m : member) : io unit :=
  do ts := the_target src in
  do tm := the_target m in
  if h_uefi h then
    do rel := lift (LoaderPath (h_arch h)) in
    do loader := wrap (bs "reading the loader") (readFile (t_mountpoint ts) rel) in
    do p := readInstalledKernelInitrd pe ts in
    copy_loader h src m ts tm loader p.2
  else
    do s1 := wrap (bs "reading stage1") (ReadStage1 (t_disk ts)) in
    do s2 := wrap (bs "reading stage2") (ReadStage2 (t_disk ts)) in
    run stage_pair s2 false then
    run lift (CheckSectorSize (sectorSize s (t_disk tm))) then
    run gate (t_disk tm) then
    do p := wrap (bs "reading the payload") (readInstalledKernelInitrd pe ts) in
    let '(kernel, initrd, info) := p in
    run lift (preflightBIOSMetadata kgzip gzip xz modinfo (h_arch h) (iVersion info) (iBuildStamp info) kernel initrd) then
    do c := readFile (t_mountpoint ts) CmdlineFile in
    let c := setCmdlineWord c ESPSelfKey (m_uuid m) in
    run lift_cmdline (checkCmdlineLength c) then
    run writeBIOSStagesWithRollback (t_disk tm) s1 s2 then
    do mode := updateIntegrityMode (t_mountpoint ts) no_opts in
    run writePayloadWithRollback kgzip gzip xz modinfo (t_mountpoint tm) (h_arch h) (iVersion info) (iBuildStamp info)
          kernel initrd c mode then
    do r := syncConfig src m in lift r.2.

(** The checks of a repair source: a CHECKSUM that decodes and that its own
kernel and initrd pass. *)
Definition repair_source (ts : target) : io (option ioerr) :=
  do raw := attempt (readFile (t_mountpoint ts) PayloadSumFile) in
  match raw with
  | Panic => lift Panic
  | Err e => ret (Some e)
  | Ok raw =>
      match PayloadSum.Decode raw with
      | Panic => lift Panic
      | Err _ => ret (Some (ERefused (bs "does not decode")))
      | Ok man =>
          do p := attempt (readInstalledKernelInitrd pe ts) in
          match p with
          | Panic => lift Panic
          | Err e => ret (Some e)
          | Ok (k, i, _) =>
              match PayloadSum.Verify man k i with
              | Ok [] => ret None
              | Panic => lift Panic
              | _ => ret (Some (ERefused (bs "fails its CHECKSUM")))
              end
          end
      end
  end.

Definition repairMember (h : host) (src m : member) : io (bool * outcome ioerr unit) :=
  do ds := digestMember src in
  do dm := digestMember m in
  if beq (d_buildStamp ds) [] || negb (beq (d_buildStamp ds) (d_buildStamp dm)) then ret (false, Ok tt) else
  if no_errs (differences is_synced (d_files ds) (d_files dm)) then ret (false, Ok tt) else
  do ts := the_target src in
  do bad := (if negb (h_uefi h) then repair_source ts else ret None) in
  match bad with
  | Some e => ret (false, Err (EIn (bs "not copying a payload that cannot be verified") e))
  | None =>
      do sm := readMemberSettings m in
      do ss := readMemberSettings src in
      match lostBy sm ss with
      | Some _ => ret (false, Err (ERefused (bs "rewriting it would remove a setting")))
      | None =>
          do r := attempt (copyBootChain h src m) in
          match r with
          | Ok _ => ret (true, Ok tt)
          | Err e => ret (false, Err (EIn (bs "repairing") e))
          | Panic => lift Panic
          end
      end
  end.

(** ** The lists of UUIDs the members record *)

(** The closure [grow] of [addToLists]. *)
Definition grow (h : host) (uuids : list bytes) (cur : bytes) : bytes :=
  if negb (no_errs (explicitList h)) then join (bs ",") (explicitList h) else
  if beq cur [] then [] else fold_left addUUID uuids cur.

Definition extend_explicit (h : host) (uuids : list bytes) : host :=
  if no_errs (explicitList h) then h
  else set_explicit h (fold_left (fun l u => split x2c (addUUID (join (bs ",") l) u)) uuids (explicitList h)).

Definition read_or_empty (mp rel : bytes) : io bytes :=
  do r := attempt (readFile mp rel) in ret (match r with Ok raw => raw | _ => [] end).

(** One member of [addToLists]. *)
Definition add_to_list (h : host) (uuids : list bytes) (m : member) : io unit :=
  match m_target m with
  | Some t =>
      if m_foreign m then ret tt else
      do raw := read_or_empty (t_mountpoint t) ConfigFile in
      let v := default [] (ConfigValue raw ESPUUIDsKey) in
      let nl := grow h uuids v in
      run (if beq nl v then ret tt else SetConfigKey (t_mountpoint t) ESPUUIDsKey nl) then
      if h_uefi h then ret tt else
      do c := attempt (readFile (t_mountpoint t) CmdlineFile) in
      match c with
      | Ok c =>
          let v := cmdlineValue c ESPUUIDsKey in
          let nl := grow h uuids v in
          if beq nl v then ret tt else
          let nc := setCmdlineWord c ESPUUIDsKey nl in
          run lift_cmdline (checkCmdlineLength nc) then
          WriteFile (t_mountpoint t) CmdlineFile nc
      | Err _ => ret tt
      | Panic => lift Panic
      end
  | None => ret tt
  end.

Definition addToLists (h : host) (ms : list member) (uuids : list bytes) : io (host * outcome ioerr unit) :=
  let h := extend_explicit h uuids in
  do r := attempt (each ms (add_to_list h uuids)) in
  match r with Panic => lift Panic | _ => ret (h, r) end.

End ops.

(** ** What the operations may write *)

Section confine.
Context {O : Oracle}.
Context (pe : bytes -> option peFile).
Context (kgzip : bytes -> option (bytes * bool)) (gzip xz : bytes -> option reader) (modinfo : bytes -> elf_section).
Context (s : seams).

Lemma looks_target m : looks (the_target m).
Proof. unfold the_target. looking. Qed.
#[local] Hint Resolve looks_target looks_Read looks_openDisk looks_readDisk looks_gate looks_installed : looks.

Lemma looks_poolOf t : looks (poolOf pe t).
Proof. unfold poolOf. looking. Qed.

Lemma looks_statSize mp rel : looks (statSize mp rel).
Proof.
  intros w r w'. unfold statSize, sys. destruct (fault (clock w)); intros [= <- <-]; apply frame_tick.
Qed.
#[local] Hint Resolve looks_statSize : looks.

Lemma looks_ReadStage1 d : looks (ReadStage1 d).
Proof. unfold ReadStage1, readRegion. looking. Qed.
Lemma looks_ReadStage2 d : looks (ReadStage2 d).
Proof. unfold ReadStage2, readRegion. looking. Qed.
#[local] Hint Resolve looks_ReadStage1 looks_ReadStage2 : looks.

Lemma looks_installed_chain m : looks (installed m).
Proof. unfold installed. looking. Qed.

Lemma looks_digest_file mp rel : looks (digest_file mp rel).
Proof. unfold digest_file. looking. Qed.

Lemma looks_digest_files mp rels : looks (digest_files mp rels).
Proof.
  induction rels as [|rel rels IH]; cbn [digest_files]; [apply looks_ret|].
  apply looks_bind; [apply looks_digest_file|]. intros d. apply looks_bind; [done|]. intros ds. apply looks_ret.
Qed.
#[local] Hint Resolve looks_digest_file looks_digest_files : looks.

Lemma looks_digestMember m : looks (digestMember pe m).
Proof. unfold digestMember. looking. Qed.
#[local] Hint Resolve looks_digestMember : looks.

Lemma looks_digest_members ms : looks (digest_members pe ms).
Proof.
  induction ms as [|m ms IH]; cbn [digest_members]; [apply looks_ret|]. destruct (source_ok m); [|done].
  apply looks_bind; [apply looks_digestMember|]. intros d. apply looks_bind; [done|]. intros ds. apply looks_ret.
Qed.

Lemma looks_settings m : looks (readMemberSettings m).
Proof. unfold readMemberSettings. looking. Qed.

Lemma looks_repair_source t : looks (repair_source pe t).
Proof. unfold repair_source. looking. Qed.

Lemma looks_read_or_empty mp rel : looks (read_or_empty mp rel).
Proof. unfold read_or_empty. looking. Qed.

Lemma looks_Member_Read mp : looks (EspMember.Read mp).
Proof. unfold EspMember.Read. looking. Qed.
#[local] Hint Resolve looks_settings looks_repair_source looks_read_or_empty looks_Member_Read looks_lift_cmd : looks.

Context (F : bytes * bytes -> Prop) (D : bytes -> Prop).

Lemma within_target {A : Type} m (k : target -> io A) :
  (forall t, m_target m = Some t -> within F D (k t)) -> within F D (bind (the_target m) k).
Proof.
  intros Hk. unfold the_target. destruct (m_target m) as [t|].
  - intros w r w' H. by eapply Hk.
  - apply within_looks. intros w r w' [= <- <-]. reflexivity.
Qed.

(** The marker of one member, and of all the members of a run. *)
Lemma within_finalize_one id exp pool gen m :
  (forall t, m_target m = Some t -> F (t_mountpoint t, MemberFile)) -> within F D (finalize_one s id exp pool gen m).
Proof.
  intros HF. unfold finalize_one. apply within_target. intros t Ht. specialize (HF t Ht).
  assert (forall v, within F D (EspMember.Write (t_mountpoint t) v)) by (intros v; by apply within_Member_Write).
  confining.
Qed.

Lemma within_finalize_each id exp pool genOf ok :
  Forall (fun im => forall t, m_target im.2 = Some t -> F (t_mountpoint t, MemberFile)) ok ->
  within F D (finalize_each s id exp pool genOf ok).
Proof.
  induction 1 as [|im ok Hm _ IH]; cbn [finalize_each]; [apply within_looks, looks_ret|].
  apply within_bind; [by apply within_finalize_one|]. intros e. apply within_bind; [done|]. intros es. apply within_looks, looks_ret.
Qed.

Lemma within_finalizeMembersAt h ok genOf pool :
  Forall (fun im => forall t, m_target im.2 = Some t -> F (t_mountpoint t, MemberFile)) ok ->
  within F D (finalizeMembersAt s h ok genOf pool).
Proof.
  intros Hok. unfold finalizeMembersAt. destruct (ensureInstallID s h) as [h'|e|]; [|apply within_looks; auto with looks..].
  apply within_bind; [by apply within_finalize_each|]. intros es. apply within_looks, looks_ret.
Qed.

(** Config, keys and the boot chain of one member. *)
Lemma within_sync_each src dst fs wrote :
  Forall (fun f => F (dst, f)) fs -> within F D (sync_each src dst fs wrote).
Proof.
  intros Hf. revert wrote. induction Hf as [|f fs Hf _ IH]; intros wrote; cbn [sync_each]; [apply within_looks, looks_ret|].
  apply within_bind; [confining|]. intros want. apply within_bind; [confining|]. intros got.
  destruct want as [c|[]|]; confining.
Qed.

Context (m : member) (HF : forall t rel, m_target m = Some t -> not_marker rel -> F (t_mountpoint t, rel)).

Lemma within_syncConfig src : within F D (syncConfig src m).
Proof.
  unfold syncConfig. apply within_bind; [apply within_looks, looks_target|]. intros ts. apply within_target. intros t Ht.
  apply within_sync_each. apply Forall_forall. intros f Hf. apply HF; [done|]. intros ->.
  revert Hf. apply (bool_decide_unpack _). by vm_compute.
Qed.

Lemma within_add_to_list h uuids : within F D (add_to_list h uuids m).
Proof.
  unfold add_to_list. destruct (m_target m) as [t|]; [|apply within_looks, looks_ret].
  assert (forall rel, not_marker rel -> F (t_mountpoint t, rel)) as HT by auto.
  assert (F (t_mountpoint t, CmdlineFile)) by (by apply HT, not_marker_known).
  assert (forall v, within F D (SetConfigKey (t_mountpoint t) ESPUUIDsKey v)) by (intros v; by apply within_SetConfigKey).
  confining.
Qed.

Context (Hscratch : F (scratchFile s)).

Lemma within_scratch {A : Type} (c : io A) : within F D c -> within F D (deferred (drop_scratch (scratchFile s)) c).
Proof.
  intros Hc w r w'. unfold deferred. destruct (c w) as [r1 x] eqn:E. intros [= <- <-]. apply Hc in E.
  etransitivity; [exact E|]. unfold drop_scratch. destruct (removeFile _ _ x) as [r2 y] eqn:Er.
  apply (within_removeFile F D) in Er; [done|]. by destruct (scratchFile s).
Qed.

Lemma within_copyBootChain h src :
  (forall t, m_target m = Some t -> h_uefi h = false -> D (t_disk t)) ->
  within F D (copyBootChain pe kgzip gzip xz modinfo s h src m).
Proof.
  intros HD. unfold copyBootChain. apply within_bind; [apply within_looks, looks_target|]. intros ts.
  apply within_target. intros t Ht.
  assert (forall rel, not_marker rel -> F (t_mountpoint t, rel)) as HT by auto.
  pose proof (within_syncConfig src) as Hs.
  assert (within F D (do r := syncConfig src m in lift r.2)) as Hsync.
  { apply within_bind; [done|]. intros r. apply within_looks, looks_lift. }
  destruct (h_uefi h).
  - do 3 (apply within_bind; [apply within_looks; looking|intros ?]).
    unfold copy_loader. cbv zeta. apply within_bind.
    { apply within_createFile. by destruct (scratchFile s). }
    intros _. apply within_scratch. apply within_bind; [apply within_copyInto; by destruct (scratchFile s)|]. intros _.
    apply within_bind; [apply within_looks; looking|]. intros _.
    apply within_bind; [by apply within_writeUEFI|]. intros r. apply within_bind; [apply within_looks, looks_lift|]. by intros _.
  - specialize (HD t Ht eq_refl).
    do 2 (apply within_bind; [apply within_looks; looking|intros ?]).
    apply within_bind; [apply within_looks; unfold stage_pair; looking|]. intros _.
    do 2 (apply within_bind; [apply within_looks; looking|intros _]).
    apply within_bind; [apply within_looks; looking|]. intros [[kernel initrd] info].
    apply within_bind; [apply within_looks; looking|]. intros _. apply within_bind; [apply within_looks; looking|]. intros c.
    cbv zeta. apply within_bind; [apply within_looks; looking|]. intros _.
    apply within_bind; [by apply within_writeStages|]. intros _.
    apply within_bind; [apply within_looks, looks_integrityMode|]. intros mode.
    apply within_bind; [by apply within_writePayload|]. by intros _.
Qed.

Lemma within_repairMember h src :
  (forall t, m_target m = Some t -> h_uefi h = false -> D (t_disk t)) ->
  within F D (repairMember pe kgzip gzip xz modinfo s h src m).
Proof.
  intros HD. pose proof (within_copyBootChain h src HD). unfold repairMember.
  do 2 (apply within_bind; [apply within_looks; looking|intros ?]). confining.
Qed.

End confine.

Lemma within_addToLists {O : Oracle} (F : bytes * bytes -> Prop) (D : bytes -> Prop) h ms uuids :
  Forall (fun m => m_foreign m = false -> forall t rel, m_target m = Some t -> not_marker rel -> F (t_mountpoint t, rel)) ms ->
  within F D (addToLists h ms uuids).
Proof.
  intros Hms. unfold addToLists. cbv zeta. apply within_bind; [apply within_attempt, within_each|].
  - eapply Forall_impl; [exact Hms|]. intros m Hm. destruct (m_foreign m) eqn:Ef; [|by apply within_add_to_list; auto].
    apply within_looks. unfold add_to_list. rewrite Ef. looking.
  - intros r. confining.
Qed.

(** ** What a successful finalization leaves *)

(** The marker of [m] names installation [id] and generation [gen]. *)
Definition marked (id : bytes) (gen : Z) (m : member) (f : filemap) : Prop :=
  exists t raw c, m_target m = Some t /\ f !! (t_mountpoint t, MemberFile) = Some raw /\
    EspMember.Decode raw = Ok c /\ InstallID c = id /\ Generation c = gen /\ ESPUUID c = m_uuid m.

Lemma Write_marks {O : Oracle} mp v w w' :
  EspMember.Write mp v w = (Ok tt, w') ->
  exists raw c, files w' !! (mp, MemberFile) = Some raw /\ EspMember.Decode raw = Ok c /\
    InstallID c = InstallID v /\ Generation c = Generation v /\ ESPUUID c = ESPUUID v.
Proof.
  unfold EspMember.Write. destruct (Validate v) as [u| |] eqn:Ev; [|by intros [=]..]. intros H.
  apply WriteFile_spec in H. destruct H as [[_ (_ & Hf & _)]|(? & ? & _)]; [|done].
  revert Ev. unfold Validate. destruct (EspMember.Decode _) as [c| |] eqn:Ed; cbn [obind owrap]; [|done..].
  destruct (_ && _) eqn:Eb; [|done]. intros _. exists (EspMember.Encode v), c. rewrite Hf. split; [apply lookup_insert_eq|].
  split; [done|]. apply andb_true_iff in Eb as [Eb E3]. apply andb_true_iff in Eb as [E1 E2].
  apply beq_true in E1, E2. zb. done.
Qed.

Section finalized.
Context {O : Oracle} (s : seams).

Lemma finalize_one_marks id exp pool gen m w w' :
  finalize_one s id exp pool gen m w = (Ok None, w') -> marked id gen m (files w').
Proof.
  intros H. unfold finalize_one in H. cbv zeta in H. unfold the_target in H.
  destruct (m_target m) as [t|] eqn:Et; [|discriminate H]. set (v := mkMember _ _ _ _ _ _ _) in *.
  io_bind H x E; [|discriminate Hr..]. injection E as <- <-. io_bind H y E; [|discriminate Hr..].
  match type of H with context [if ?c then _ else _] => destruct c eqn:Ec end.
  - destruct a as [|[c| |]|]; try discriminate Ec. injection H as <-. apply bind_attempt_inv in E as (rc & z & Er & E).
    apply readFile_spec in Er as ((Hf & _) & _ & Er). destruct rc as [raw|[]|]; try discriminate E.
    injection E as Ed <-. exists t, raw, c. rewrite Hf. unfold same_marker in Ec.
    apply andb_true_iff in Ec as [Ec _]. apply andb_true_iff in Ec as [Ec E3]. apply andb_true_iff in Ec as [E1 E2].
    apply beq_true in E1, E3. zb. done.
  - apply bind_attempt_inv in H as (rc & z & Ew & H). destruct rc as [u|e|]; try discriminate H. injection H as <-. destruct u.
    apply Write_marks in Ew as (raw & c & ? & ? & ? & ? & ?). exists t, raw, c. done.
Qed.

Lemma finalize_each_marks id exp pool genOf ok w errs w' :
  finalize_each s id exp pool genOf ok w = (Ok errs, w') ->
  NoDup (omap (fun im : nat * member => t_mountpoint <$> m_target im.2) ok) ->
  Forall (fun im => im.1 ∈ (fst <$> errs) \/ marked id (genOf im) im.2 (files w')) ok.
Proof.
  revert w errs. induction ok as [|[i m] ok IH]; intros w errs H Hnd; cbn [finalize_each] in H; [constructor|].
  io_bind H x E; [|discriminate Hr..]. io_bind H y E'; [|discriminate Hr..]. injection H as <- <-.
  cbn [fst snd] in *. apply IH in E' as IH'.
  - constructor; [|eapply Forall_impl; [exact IH'|]; intros im [Hin|Hm]; [left; destruct a; [by right|done]|by right]].
    destruct a as [e|]; [left; by left|right]. apply finalize_one_marks in E as (t & raw & c & Ht & Hf & Hc).
    exists t, raw, c. split; [done|]. split; [|done]. rewrite <-Hf.
    assert (within (fun k => k <> (t_mountpoint t, MemberFile)) (fun _ => True) (finalize_each s id exp pool genOf ok)) as Hw.
    { apply within_finalize_each, Forall_forall. intros im Him t' Ht' [= Heq].
      cbn in Hnd. rewrite Ht in Hnd. cbn in Hnd. apply NoDup_cons in Hnd as [Hnd _]. apply Hnd, list_elem_of_omap.
      exists im. split; [done|]. rewrite Ht'. cbn. by rewrite Heq. }
    apply Hw in E' as [[Ha _] _]. cbn in Ha. apply Ha. tauto.
  - cbn in Hnd. destruct (m_target m); cbn in Hnd; [by apply NoDup_cons in Hnd as [_ ?]|done].
Qed.

End finalized.

(** ** The comparison is exact *)

(** The names a digest has, by firmware. *)
Definition names_of (uefi : bool) (arch : bytes) : list bytes :=
  (if uefi then match LoaderPath arch with Ok rel => [bs "UEFI loader " ++ rel] | _ => [] end
   else [stage1_name; stage2_name; KernelFile; InitrdFile; PayloadSumFile; BlkSumFile; cmdline_name])
  ++ [MetadataFile] ++ syncFiles.

Lemma names_NoDup uefi arch : NoDup (names_of uefi arch).
Proof.
  unfold names_of. destruct uefi; [|apply (bool_decide_unpack _); vm_compute; exact I].
  assert (NoDup ([MetadataFile] ++ syncFiles)) as Hn by (apply (bool_decide_unpack _); vm_compute; exact I).
  destruct (LoaderPath arch) as [rel| |]; [|done..]. cbn [app]. apply NoDup_cons. split; [|done].
  assert (Forall (fun n => head n <> Some "U"%byte) ([MetadataFile] ++ syncFiles)) as Hh by (apply (bool_decide_unpack _); vm_compute; exact I).
  rewrite Forall_forall in Hh. intros Hin. by apply (Hh _ Hin).
Qed.

Lemma d_lookup_elem fs n v : NoDup (fst <$> fs) -> (n, v) ∈ fs -> d_lookup fs n = Some v.
Proof.
  induction fs as [|[n' v'] fs IH]; intros Hnd Hin; [by apply elem_of_nil in Hin|]. cbn in Hnd |- *.
  apply NoDup_cons in Hnd as [Hn Hnd]. apply elem_of_cons in Hin as [[= <- <-]|Hin]; [by rewrite beq_refl|].
  destruct (beq n' n) eqn:E; [|by apply IH]. apply beq_true in E. subst n'. destruct Hn. by apply (list_elem_of_fmap_2 fst _ (n, v)).
Qed.

Lemma d_lookup_same fs gs :
  fst <$> fs = fst <$> gs -> NoDup (fst <$> fs) ->
  (forall n v, (n, v) ∈ fs -> d_lookup gs n = Some v) -> fs = gs.
Proof.
  revert gs. induction fs as [|[n v] fs IH]; intros [|[n' v'] gs] Hf Hnd Hl; try done. cbn in Hf. injection Hf as <- Hf.
  cbn in Hnd. apply NoDup_cons in Hnd as [Hn Hnd].
  assert (Some v = Some v') as [= <-].
  { rewrite <-(Hl n v); [|by left]. cbn. by rewrite beq_refl. }
  f_equal. apply IH; [done|done|]. intros n2 v2 Hin. rewrite <-(Hl n2 v2); [|by right]. cbn.
  destruct (beq n n2) eqn:E; [|done]. apply beq_true in E. subst n2. destruct Hn. by apply (list_elem_of_fmap_2 fst _ (n, v2)).
Qed.

(** No difference is reported exactly between equal digests. *)
Lemma differences_none uefi arch fs gs :
  fst <$> fs = names_of uefi arch -> fst <$> gs = names_of uefi arch ->
  differences (fun _ => false) fs gs = [] <-> fs = gs.
Proof.
  intros Hf Hg. pose proof (names_NoDup uefi arch) as Hnd. unfold differences.
  assert (forall l, sort_strings l = [] <-> l = []) as Hsort.
  { intros l. split; [|by intros ->]. intros H. apply Permutation_nil_r. rewrite <-H. symmetry. apply sort_strings_perm. }
  assert (forall l : list (bytes * digest), fst <$> l = [] <-> l = []) as Hmap by (by intros []).
  rewrite Hsort, Hmap. split.
  - intros H. apply d_lookup_same; [congruence|by rewrite Hf|]. intros n v Hin.
    destruct (decide (d_lookup gs n = Some v)) as [|Hne]; [done|].
    assert ((n, v) ∈ List.filter (fun nv : bytes * digest => negb false && negb (bool_decide (d_lookup gs nv.1 = Some nv.2))) fs) as Hx.
    { apply list_elem_of_In, filter_In. split; [by apply list_elem_of_In|]. cbn. by rewrite bool_decide_eq_false_2. }
    rewrite H in Hx. by apply elem_of_nil in Hx.
  - intros <-. apply elem_of_nil_inv. intros [n v] Hin. apply list_elem_of_In, filter_In in Hin as [Hin Hb].
    apply list_elem_of_In, d_lookup_elem in Hin; [|by rewrite Hf]. cbn in Hb. by rewrite bool_decide_eq_true_2 in Hb.
Qed.

Section compare.
Context {O : Oracle} (pe : bytes -> option peFile).

Lemma gives_digest_files mp rels : gives (fun fs => fst <$> fs = rels) (digest_files mp rels).
Proof.
  induction rels as [|rel rels IH]; cbn [digest_files]; [by apply gives_ret|].
  eapply (gives_bind (fun d => d.1 = rel)).
  { unfold digest_file. eapply gives_bind; [apply gives_any|]. intros r _. by apply gives_ret. }
  intros d Hd. eapply gives_bind; [exact IH|]. intros ds Hds. apply gives_ret. cbn. by rewrite Hd, Hds.
Qed.

Lemma gives_digestMember m t :
  m_target m = Some t ->
  gives (fun d => d_member d = m /\ fst <$> d_files d = names_of (t_uefi t) (t_arch t)) (digestMember pe m).
Proof.
  intros Ht. unfold digestMember. eapply (gives_bind (fun t' => t' = t)).
  { unfold the_target. rewrite Ht. by apply gives_ret. }
  intros t' ->. cbv zeta. unfold names_of.
  eapply (gives_bind (fun p => fst <$> p.2 = if t_uefi t
     then match LoaderPath (t_arch t) with Ok rel => [bs "UEFI loader " ++ rel] | _ => [] end
     else [stage1_name; stage2_name; KernelFile; InitrdFile; PayloadSumFile; BlkSumFile; cmdline_name])).
  - destruct (t_uefi t); [destruct (LoaderPath (t_arch t)); [|by apply gives_ret..]|].
    + do 2 (eapply gives_bind; [apply gives_any|]; intros ? _). by apply gives_ret.
    + do 2 (eapply gives_bind; [apply gives_any|]; intros ? _).
      eapply gives_bind; [apply gives_digest_files|]. intros fs Hfs. eapply gives_bind; [apply gives_any|]. intros c _.
      apply gives_ret. cbn [snd]. rewrite !fmap_app, Hfs. done.
  - intros p Hp. eapply gives_bind; [apply gives_digest_files|]. intros fs Hfs. apply gives_ret. cbn [d_files d_member].
    by rewrite fmap_app, Hp, Hfs.
Qed.

(** Members of one host have the same firmware and architecture. *)
Definition uniform (h : host) : Prop :=
  Forall (fun m => forall t, m_target m = Some t -> t_uefi t = h_uefi h /\ t_arch t = h_arch h) (h_members h).

Lemma gives_digest_members uefi arch ms :
  Forall (fun m => forall t, m_target m = Some t -> t_uefi t = uefi /\ t_arch t = arch) ms ->
  gives (fun ds => d_member <$> ds = List.filter source_ok ms /\ Forall (fun d => fst <$> d_files d = names_of uefi arch) ds)
    (digest_members pe ms).
Proof.
  induction 1 as [|m ms Hm _ IH]; cbn [digest_members List.filter]; [apply gives_ret; by split|].
  destruct (source_ok m) eqn:Eo; [|done]. unfold source_ok in Eo. destruct (m_target m) as [t|] eqn:Et; [|done].
  destruct (Hm t eq_refl) as [<- <-]. eapply gives_bind; [by apply gives_digestMember|]. intros d [Hd Hn].
  eapply gives_bind; [exact IH|]. intros ds [Hds Hns]. apply gives_ret. cbn. rewrite Hd, Hds. split; [done|by constructor].
Qed.

Lemma compare_one_none ref d uefi arch :
  fst <$> d_files ref = names_of uefi arch -> fst <$> d_files d = names_of uefi arch ->
  (compare_one ref d).1 = [] <-> d_files ref = d_files d.
Proof.
  intros H1 H2. rewrite <-(differences_none uefi arch) by done. unfold compare_one. cbv zeta.
  destruct (differences _ _ _) as [|n l]; cbn [no_errs negb]; [by destruct (negb _)|].
  by destruct (_ || _).
Qed.

(** C12 - verify's comparison of the members is exact: it reports no content
difference exactly when all the compared members - the mounted ones of this
installation - have the same digest for every stage, boot file, setting and key
(CMDLINE without its mirror words), or the same absence of it. *)
Theorem compareMembers_exact (h : host) (errs : list complaint) (warns : list bytes) (w w' : world)
  (Hu : uniform h) (H : compareMembers pe h w = (Ok (errs, warns), w')) :
  frame w w' /\
  exists ds, digest_members pe (h_members h) w = (Ok ds, w') /\ d_member <$> ds = List.filter source_ok (h_members h) /\
    (errs = [] <-> forall d d', d ∈ ds -> d' ∈ ds -> d_files d = d_files d').
Proof.
  unfold compareMembers in H. io_bind H x E; [|discriminate Hr..]. injection H as Hc <-.
  split; [by eapply looks_digest_members|]. exists a. split; [done|].
  apply (gives_digest_members _ _ _ Hu) in E as [Hms Hns]. split; [done|].
  pose proof (sort_stable_perm newer_digest a) as Hp. unfold compare_all in Hc.
  assert (Forall (fun d => fst <$> d_files d = names_of (h_uefi h) (h_arch h)) (sort_stable newer_digest a)) as Hs by (by rewrite Hp).
  assert (forall d, d ∈ a <-> d ∈ sort_stable newer_digest a) as Hin by (intros d; by rewrite Hp).
  setoid_rewrite Hin. clear Hin Hp Hns Hms. destruct (sort_stable newer_digest a) as [|ref rest].
  { injection Hc as <- _. split; [by intros _ d d' ?%elem_of_nil|done]. }
  injection Hc as <- _. apply Forall_cons in Hs as [Href Hrest]. rewrite Forall_forall in Hrest. split.
  - intros He. assert (forall d, d ∈ ref :: rest -> d_files ref = d_files d) as Hall.
    { intros d [->|Hd]%elem_of_cons; [done|]. apply (compare_one_none ref d (h_uefi h) (h_arch h)); [done|by apply Hrest|].
      apply elem_of_nil_inv. intros c Hcin. assert (c ∈ rest ≫= fun d => (compare_one ref d).1) as Hx by (apply list_elem_of_bind; eauto).
      rewrite He in Hx. by apply elem_of_nil in Hx. }
    intros d d' Hd Hd'. by rewrite <-(Hall d Hd), (Hall d' Hd').
  - intros Hall. apply elem_of_nil_inv. intros c Hcin. apply list_elem_of_bind in Hcin as (d & Hc & Hd).
    assert ((compare_one ref d).1 = []) as Hn.
    { apply (compare_one_none ref d (h_uefi h) (h_arch h)); [done|by apply Hrest|]. apply Hall; [by left|by right]. }
    rewrite Hn in Hc. by apply elem_of_nil in Hc.
Qed.

End compare.

(** Two UEFI members of one host, one of them with another key file. *)
Definition cmp_member (dev uuid : bytes) : member :=
  mkMirrorMember (Some (mkTarget true (bs "x86_64") dev dev dev))
    (mkESPInfo (mkFATVolume dev uuid (bs "EFI")) true true None false [] false) false false None None.
Definition cmp_host : host :=
  mkHost true (bs "x86_64") (mkHostSet ModeMember SrcNone [] [] [] [] []) []
    [cmp_member (bs "/dev/sda1") (bs "AAAA-0001"); cmp_member (bs "/dev/sdb1") (bs "BBBB-0002")] [] [].
Definition cmp_world : world := fresh_world {[ (bs "/dev/sdb1", AuthorizedKeysFile) := bs "ssh-ed25519 AAAA" ]} ∅.
Definition cmp_run : outcome ioerr (list complaint * list bytes) * world := compareMembers (O:=no_faults) no_pe cmp_host cmp_world.

Lemma compareMembers_exact_witness :
  exists ds, digest_members (O:=no_faults) no_pe (h_members cmp_host) cmp_world = (Ok ds, cmp_run.2) /\
    ([CDiffers (bs "BBBB-0002") [AuthorizedKeysFile]] = [] <-> forall d d', d ∈ ds -> d' ∈ ds -> d_files d = d_files d').
Proof.
  destruct (compareMembers_exact (O:=no_faults) no_pe cmp_host [CDiffers (bs "BBBB-0002") [AuthorizedKeysFile]] [] cmp_world cmp_run.2)
    as (_ & ds & Hds & _ & H).
  - apply List.Forall_cons; [|apply List.Forall_cons; [|apply List.Forall_nil]]; intros t [= <-]; by split.
  - refine (eq_trans (surjective_pairing _) (f_equal (fun r => (r, _)) _)). vm_compute. reflexivity.
  - exists ds. split; [exact Hds|exact H].
Defined.
