(* ===== verification/MirrorRepair.v ===== *)
(** * cmd/tool: a repair keeps what the operator set

[repairMember] rewrites a member of the same build from the best one. This file
proves that what it writes is the source's verified payload, and that no
setting of the rewritten member is lost. *)

From Stdlib Require Import ZArith Lia Strings.Byte.
From stdpp Require Import base list gmap sorting.
From S2P Require Import Prelude GoStrings Layout World EspConfig EspMember BootEnv EspSet PayloadSum BlkSum BiosBoot Stages InitrdInfo Metadata Payload CmdLine UefiBoot Verify Update Spare Mirror MirrorOps.
Local Open Scope Z_scope.

(** The settings a tree holds for the ESP mounted at [mp]. *)
Definition settings_at (f : filemap) (mp : bytes) : memberSettings :=
  let cmd := default [] (f !! (mp, CmdlineFile)) in
  mkSettings (cmdlineValue cmd Int13ChunkKey) (cmdlineValue cmd integrityKey)
    (match f !! (mp, PayloadSumFile) with
     | Some raw => match PayloadSum.Decode raw with
                   | Ok man => if beq (PayloadSum.Mode man) ModeWarn then [] else PayloadSum.Mode man
                   | _ => []
                   end
     | None => []
     end).

(** The mode a copy records: CHECKSUM's, or the default. *)
Definition mode_at (f : filemap) (mp : bytes) : bytes :=
  match f !! (mp, PayloadSumFile) with
  | Some raw => match PayloadSum.Decode raw with Ok man => PayloadSum.Mode man | _ => ModeWarn end
  | None => ModeWarn
  end.

Section repair.
Context {O : Oracle}.
Context (pe : bytes -> option peFile).
Context (kgzip : bytes -> option (bytes * bool)) (gzip xz : bytes -> option reader) (modinfo : bytes -> elf_section).
Context (s : seams) (h : host) (src m : member) (ts tm : target).
Context (Hcalm : forall i, fault i = None).
Context (Huefi : h_uefi h = false) (Hts : m_target src = Some ts) (Htm : m_target m = Some tm) (Hbios : t_uefi ts = false).
Context (Hmp : t_mountpoint ts <> t_mountpoint tm).

Lemma never_fails w w' : failed w w' -> False.
Proof. intros (i & _ & Hi). apply Hi, Hcalm. Qed.

Lemma read_calm mp rel w r w' :
  readFile mp rel w = (r, w') -> frame w w' /\ r = match files w !! (mp, rel) with Some c => Ok c | None => Err ENotExist end.
Proof.
  intros H. apply readFile_spec in H as (F & _ & H). split; [done|].
  destruct r as [c|e|]; [by rewrite H| |done]. destruct e; try (by destruct (never_fails _ _ H)). by rewrite H.
Qed.

Lemma settings_calm mm t w r w' :
  m_target mm = Some t -> readMemberSettings mm w = (Ok r, w') -> frame w w' /\ r = settings_at (files w) (t_mountpoint t).
Proof.
  intros Ht H. unfold readMemberSettings, the_target in H. rewrite Ht in H. cbv beta iota in H.
  io_bind H x E; [|discriminate Hr..]. injection E as <- <-. apply bind_attempt_inv in H as (rc & x & E & H).
  apply read_calm in E as [F E]. apply bind_attempt_inv in H as (rs & y & E' & H). apply read_calm in E' as [F' E'].
  assert (frame w y) as Fy by (by etransitivity). destruct F as (Ff & _). rewrite Ff in E'.
  io_bind H z Ez; [|discriminate Hr..]. injection H as <- <-. unfold settings_at.
  assert (a = match files w !! (t_mountpoint t, PayloadSumFile) with
     | Some raw => match PayloadSum.Decode raw with
                   | Ok man => if beq (PayloadSum.Mode man) ModeWarn then [] else PayloadSum.Mode man
                   | _ => [] end
     | None => [] end /\ frame w z) as [-> Fz].
  { subst rs. destruct (files w !! (t_mountpoint t, PayloadSumFile)) as [raw|]; [destruct (PayloadSum.Decode raw)|];
      try discriminate Ez; injection Ez as <- <-; done. }
  split; [done|]. subst rc. by destruct (files w !! (t_mountpoint t, CmdlineFile)).
Qed.

Lemma mode_calm mp w r w' : updateIntegrityMode mp no_opts w = (Ok r, w') -> frame w w' /\ r = mode_at (files w) mp.
Proof.
  intros H. unfold updateIntegrityMode in H. cbn [o_integritySet no_opts] in H.
  apply bind_attempt_inv in H as (rc & x & E & H). apply read_calm in E as [F ->]. unfold mode_at.
  destruct (files w !! (mp, PayloadSumFile)) as [raw|]; [destruct (PayloadSum.Decode raw)|]; try discriminate H; by injection H as <- <-.
Qed.

Lemma installed_calm w k i info w' :
  readInstalledKernelInitrd pe ts w = (Ok (k, i, info), w') ->
  frame w w' /\ files w !! (t_mountpoint ts, KernelFile) = Some k /\ files w !! (t_mountpoint ts, InitrdFile) = Some i.
Proof.
  intros H. unfold readInstalledKernelInitrd in H. rewrite Hbios in H.
  io_bind H x1 E1; [|discriminate Hr..]. apply readFile_spec in E1 as (F1 & _ & E1).
  io_bind H x2 E2; [|discriminate Hr..]. apply readFile_spec in E2 as (F2 & _ & E2).
  io_bind H x3 E3; [|discriminate Hr..]. apply readFile_spec in E3 as (F3 & _ & E3). injection H as <- <- _ <-.
  split; [by do 2 (etransitivity; [done|])|]. split; [done|]. destruct F1 as (<- & _). done.
Qed.

Lemma one_calm : one_fault.
Proof. intros i j Hi. by rewrite Hcalm in Hi. Qed.

(** The member's files are as before, and the copy did not end well. *)
Definition left_alone (w : world) (r : outcome ioerr unit) (w' : world) : Prop :=
  r <> Ok tt /\ forall rel, files w' !! (t_mountpoint tm, rel) = files w !! (t_mountpoint tm, rel).

Lemma left_frame w x (r : outcome ioerr unit) : files x = files w -> r <> Ok tt -> left_alone w r x.
Proof. intros Hf Hr. split; [done|]. intros rel. by rewrite Hf. Qed.

(** The payload and the settings of the source are on the member. *)
Definition chain_copied (w w' : world) : Prop :=
  exists kernel initrd c meta sums x,
    files w !! (t_mountpoint ts, KernelFile) = Some kernel /\ files w !! (t_mountpoint ts, InitrdFile) = Some initrd /\
    files w !! (t_mountpoint ts, CmdlineFile) = Some c /\
    payload_sums (h_arch h) kernel initrd (mode_at (files w) (t_mountpoint ts)) = Ok sums /\
    files x = new_generation (t_mountpoint tm) kernel initrd (setCmdlineWord c ESPSelfKey (m_uuid m)) meta sums (files w) /\
    spares (fun k => k.1 = t_mountpoint tm /\ k.2 ∈ syncFiles) (fun _ => False) x w'.

(** From the payload on. *)
Lemma payload_and_config kernel initrd info c mode meta w x r w' :
  files x = files w ->
  files w !! (t_mountpoint ts, KernelFile) = Some kernel -> files w !! (t_mountpoint ts, InitrdFile) = Some initrd ->
  files w !! (t_mountpoint ts, CmdlineFile) = Some c -> mode = mode_at (files w) (t_mountpoint ts) ->
  metadata_text kgzip gzip xz modinfo (h_arch h) (iVersion info) (iBuildStamp info) kernel initrd = Ok meta ->
  (run writePayloadWithRollback kgzip gzip xz modinfo (t_mountpoint tm) (h_arch h) (iVersion info) (iBuildStamp info)
         kernel initrd (setCmdlineWord c ESPSelfKey (m_uuid m)) mode then
   do r := syncConfig src m in lift r.2) x = (r, w') ->
  left_alone w r w' \/ chain_copied w w'.
Proof.
  intros Hx Hk Hi Hc -> Hmeta H. set (mode := mode_at _ _) in *.
  destruct (payload_sums (h_arch h) kernel initrd mode) as [sums| |] eqn:Es.
  2-3: left; io_bind H y E; apply writePayload_refused in E as [Hn (Hf & _)]; try (by rewrite Es); [by destruct a|..];
    (apply left_frame; [congruence|by subst]).
  pose proof (writePayload_ends _ _ _ _ (t_mountpoint tm) _ _ _ _ _ (setCmdlineWord c ESPSelfKey (m_uuid m)) _ _ _ Hmeta Es) as Hends.
  io_bind H y E; apply Hends in E as [_ [[R Hf]|((e' & R) & Hfail & Hf)]]; try exact one_calm; try discriminate R;
    try (by destruct (never_fails _ _ Hfail)).
  right. exists kernel, initrd, c, meta, sums, y. split_and!; try done; [by rewrite Hf, Hx|].
  assert (within (fun k => k.1 = t_mountpoint tm /\ k.2 ∈ syncFiles) (fun _ => False) (syncConfig src m)) as Hw.
  { unfold syncConfig. apply within_bind; [apply within_looks, looks_target|]. intros ts'. apply within_target.
    intros t Ht. rewrite Htm in Ht. injection Ht as <-. apply within_sync_each. by apply Forall_forall. }
  io_bind H z E; apply Hw in E; [|done|done]. by injection H as _ <-.
Qed.

Lemma bind_looks {A B : Type} (c : io A) (k : A -> io B) w r w' :
  looks c -> bind c k w = (r, w') ->
  (exists a x, c w = (Ok a, x) /\ frame w x /\ k a x = (r, w')) \/ (frame w w' /\ forall b, r <> Ok b).
Proof.
  intros Hc H. io_bind H x E; pose proof (Hc _ _ _ E); [left; eauto|right; split; [done|by subst]..].
Qed.

(** A call of the copy that only looks. *)
Lemma look_step {A : Type} (c : io A) k w x r w' :
  looks c -> files x = files w -> bind c k x = (r, w') ->
  (forall a y, c x = (Ok a, y) -> files y = files w -> k a y = (r, w') -> left_alone w r w' \/ chain_copied w w') ->
  left_alone w r w' \/ chain_copied w w'.
Proof.
  intros Hc Hx H Hk. apply bind_looks in H as [(a & y & E & (F & _) & H)|[(F & _) Hr]]; [|left; apply left_frame; [congruence|auto]|done].
  eapply Hk; [exact E|congruence|exact H].
Qed.

Lemma copied_chain w r w' :
  copyBootChain pe kgzip gzip xz modinfo s h src m w = (r, w') -> left_alone w r w' \/ chain_copied w w'.
Proof.
  intros H. unfold copyBootChain in H. rewrite Huefi in H.
  eapply look_step; [apply looks_target|reflexivity|exact H|]. clear H. intros t1 y1 E1 G1 H.
  unfold the_target in E1. rewrite Hts in E1. injection E1 as <- <-.
  eapply look_step; [apply looks_target|exact G1|exact H|]. clear H G1. intros t2 y2 E2 G2 H.
  unfold the_target in E2. rewrite Htm in E2. injection E2 as <- <-.
  eapply look_step; [apply looks_wrap, looks_ReadStage1|exact G2|exact H|]. clear H G2. intros s1 y3 _ G3 H.
  eapply look_step; [apply looks_wrap, looks_ReadStage2|exact G3|exact H|]. clear H G3. intros s2 y4 _ G4 H.
  eapply look_step; [apply looks_stage_pair|exact G4|exact H|]. clear H G4. intros [] y5 _ G5 H.
  eapply look_step; [apply looks_lift|exact G5|exact H|]. clear H G5. intros [] y6 _ G6 H.
  eapply look_step; [apply looks_gate|exact G6|exact H|]. clear H G6. intros [] y7 _ G7 H.
  eapply look_step; [apply looks_wrap, looks_installed|exact G7|exact H|]. clear H. intros [[kernel initrd] info] y8 E8 G8 H.
  apply wrap_inv in E8 as (r8 & E8 & Hr8). destruct r8 as [p8| |]; [|done..]. injection Hr8 as <-.
  apply installed_calm in E8 as (_ & Hk & Hi). rewrite G7 in Hk, Hi.
  eapply look_step; [apply looks_lift|exact G8|exact H|]. clear H. intros [] y9 E9 G9 H. injection E9 as E9 <-.
  destruct (preflight_text _ _ _ _ _ _ _ _ _ E9) as [meta Hmeta].
  eapply look_step; [apply looks_readFile|exact G9|exact H|]. clear H. intros c z1 E10 G10 H.
  apply readFile_spec in E10 as (_ & _ & Hc). rewrite G9 in Hc. cbv zeta in H.
  eapply look_step; [apply looks_lift_cmd|exact G10|exact H|]. clear H. intros [] z2 _ G11 H.
  pose proof (keeps_stages (t_disk tm) s1 s2 z2) as Hst.
  io_bind H z3 E; rewrite E in Hst; destruct Hst as (F12 & _); cbn [snd] in F12;
    [|left; apply left_frame; [congruence|by subst]..].
  assert (files z3 = files w) as G12 by congruence.
  eapply look_step; [apply looks_integrityMode|exact G12|exact H|]. clear H. intros mode z4 E13 G13 H.
  apply mode_calm in E13 as [_ Hmode]. rewrite G12 in Hmode.
  by eapply payload_and_config.
Qed.

(** The files of the payload the copy of config and keys does not touch. *)
Lemma not_synced rel : rel ∈ gen_names -> rel ∉ syncFiles.
Proof.
  intros Hr Hs. revert Hr. assert (Forall (fun r => r ∉ gen_names) syncFiles) as Hf by (apply (bool_decide_unpack _); vm_compute; exact I).
  rewrite Forall_forall in Hf. by apply Hf.
Qed.

Lemma lostBy_none a b : lostBy a b = None ->
  (s_int13chunk a <> [] -> s_int13chunk a = s_int13chunk b) /\
  (s_integrityWord a <> [] -> s_integrityWord a = s_integrityWord b) /\ (s_mode a <> [] -> s_mode a = s_mode b).
Proof.
  unfold lostBy. destruct (negb (beq (s_int13chunk a) []) && _) eqn:E1; [done|].
  destruct (negb (beq (s_integrityWord a) []) && _) eqn:E2; [done|]. destruct (negb (beq (s_mode a) []) && _) eqn:E3; [done|].
  intros _. split_and!; intros Hne; [clear E2 E3; rename E1 into E|clear E1 E3; rename E2 into E|clear E1 E2; rename E3 into E];
    apply andb_false_iff in E as [E|E]; apply negb_false_iff in E; apply beq_true in E; done.
Qed.

Context (Harch : h_arch h = bs "x86_64") (Huuid : is_word (word_of ESPSelfKey (m_uuid m))).

(** After the copy the member has the source's payload and settings. *)
Lemma copied_settings w w' :
  chain_copied w w' ->
  settings_at (files w') (t_mountpoint tm) = settings_at (files w) (t_mountpoint ts) /\
  files w' !! (t_mountpoint tm, KernelFile) = files w !! (t_mountpoint ts, KernelFile) /\
  files w' !! (t_mountpoint tm, InitrdFile) = files w !! (t_mountpoint ts, InitrdFile).
Proof.
  intros (kernel & initrd & c & meta & sums & x & Hk & Hi & Hc & Hs & Hx & [[Hsp _] _]).
  assert (forall rel, rel ∈ gen_names -> files w' !! (t_mountpoint tm, rel) = files x !! (t_mountpoint tm, rel)) as Hget.
  { intros rel Hrel. apply Hsp. intros [_ Hin]. by eapply not_synced. }
  assert (files w' !! (t_mountpoint tm, KernelFile) = Some kernel /\ files w' !! (t_mountpoint tm, InitrdFile) = Some initrd /\
    files w' !! (t_mountpoint tm, CmdlineFile) = Some (setCmdlineWord c ESPSelfKey (m_uuid m)) /\
    files w' !! (t_mountpoint tm, PayloadSumFile) = sums.1) as (Gk & Gi & Gc & Gs).
  { rewrite !Hget by in_gen. rewrite Hx. unfold new_generation. split_and!; look; reflexivity. }
  rewrite Gk, Gi, Hk, Hi. split_and!; try done. unfold settings_at. rewrite Gc, Gs, Hc. cbn [default].
  unfold payload_sums in Hs. rewrite Harch in Hs. change (beq (bs "x86_64") (bs "x86_64")) with true in Hs. cbv iota in Hs.
  destruct (Generate kernel initrd _) as [cs| |] eqn:Eg; try done. destruct (GenerateBlkSum kernel initrd); try done.
  injection Hs as <-. cbn [fst]. apply generated_verifies in Eg as (man & _ & -> & _ & -> & _).
  destruct mirror_keys as (K1 & _). f_equal.
  - apply setCmdlineWord_other; [done| | |by right]; apply (bool_decide_unpack _); vm_compute; exact I.
  - apply setCmdlineWord_other; [done| | |by right]; apply (bool_decide_unpack _); vm_compute; exact I.
  - unfold mode_at. destruct (files w !! (t_mountpoint ts, PayloadSumFile)) as [raw|]; [|done]. by destruct (PayloadSum.Decode raw).
Qed.

(** The source's CHECKSUM decodes and its own kernel and initrd pass it. *)
Definition verified_source (f : filemap) : Prop :=
  exists raw man kernel initrd, f !! (t_mountpoint ts, PayloadSumFile) = Some raw /\ PayloadSum.Decode raw = Ok man /\
    f !! (t_mountpoint ts, KernelFile) = Some kernel /\ f !! (t_mountpoint ts, InitrdFile) = Some initrd /\
    PayloadSum.Verify man kernel initrd = Ok [].

Lemma repair_source_calm w w' : repair_source pe ts w = (Ok None, w') -> verified_source (files w).
Proof.
  intros H. unfold repair_source in H. apply bind_attempt_inv in H as (rc & x & E & H). apply read_calm in E as [F ->].
  destruct (files w !! (t_mountpoint ts, PayloadSumFile)) as [raw|] eqn:Er; [|discriminate H].
  destruct (PayloadSum.Decode raw) as [man| |] eqn:Ed; try discriminate H.
  apply bind_attempt_inv in H as (rc & y & E & H). destruct rc as [[[k i] info]| |]; try discriminate H.
  apply installed_calm in E as (_ & Hk & Hi). destruct F as (Ff & _). rewrite Ff in Hk, Hi.
  destruct (PayloadSum.Verify man k i) as [[|e es]| |] eqn:Ev; try discriminate H. exists raw, man, k, i. done.
Qed.

End repair.

(** No setting that [before] has is missing or different in [after]. *)
Definition settings_kept (before after : memberSettings) : Prop :=
  (s_int13chunk before <> [] -> s_int13chunk after = s_int13chunk before) /\
  (s_integrityWord before <> [] -> s_integrityWord after = s_integrityWord before) /\
  (s_mode before <> [] -> s_mode after = s_mode before).

Lemma settings_kept_refl b : settings_kept b b.
Proof. done. Qed.

(** What a repair guarantees, however it ends. *)
Definition repaired (ts tm : target) (w : world) (r : outcome ioerr (bool * outcome ioerr unit)) (w' : world) : Prop :=
  settings_kept (settings_at (files w) (t_mountpoint tm)) (settings_at (files w') (t_mountpoint tm)) /\
  (r = Ok (true, Ok tt) ->
    verified_source ts (files w) /\
    files w' !! (t_mountpoint tm, KernelFile) = files w !! (t_mountpoint ts, KernelFile) /\
    files w' !! (t_mountpoint tm, InitrdFile) = files w !! (t_mountpoint ts, InitrdFile) /\
    settings_at (files w') (t_mountpoint tm) = settings_at (files w) (t_mountpoint ts)).

Lemma repair_stop ts tm w r x : files x = files w -> r <> Ok (true, Ok tt) -> repaired ts tm w r x.
Proof. intros Hx Hr. split; [rewrite Hx; apply settings_kept_refl|done]. Qed.

Lemma repair_look {A : Type} ts tm (c : io A) k w x r w' :
  looks c -> files x = files w -> bind c k x = (r, w') ->
  (forall a y, c x = (Ok a, y) -> files y = files w -> k a y = (r, w') -> repaired ts tm w r w') ->
  repaired ts tm w r w'.
Proof.
  intros Hc Hx H Hk. apply bind_looks in H as [(a & y & E & (F & _) & H)|[(F & _) Hr]]; [| |done].
  - eapply Hk; [exact E|congruence|exact H].
  - apply repair_stop; [congruence|auto].
Qed.

(** C11 - A repair loses no setting of the operator. When no call fails, then
however [repairMember] of a BIOS member ends, every setting the member had
(int13chunk, integrity word, CHECKSUM mode) has the value it had; and when it
rewrote the member, the source's kernel and initrd pass the source's own
CHECKSUM, the member holds exactly that kernel and initrd, and its settings are
the source's. *)
Theorem repairMember_keeps_settings {O : Oracle} (pe : bytes -> option peFile) (kgzip : bytes -> option (bytes * bool))
  (gzip xz : bytes -> option reader) (modinfo : bytes -> elf_section) (s : seams) (h : host) (src m : member) (ts tm : target)
  (w w' : world) (r : outcome ioerr (bool * outcome ioerr unit))
  (Hcalm : forall i, fault i = None) (Huefi : h_uefi h = false)
  (Hts : m_target src = Some ts) (Htm : m_target m = Some tm) (Hbios : t_uefi ts = false)
  (Harch : h_arch h = bs "x86_64") (Huuid : is_word (word_of ESPSelfKey (m_uuid m)))
  (H : repairMember pe kgzip gzip xz modinfo s h src m w = (r, w')) :
  repaired ts tm w r w'.
Proof.
  unfold repairMember in H. unfold the_target in H. rewrite Hts, Huefi in H. cbn [negb] in H.
  eapply repair_look; [apply looks_digestMember|reflexivity|exact H|]. clear H. intros ds x1 _ G1 H.
  eapply repair_look; [apply looks_digestMember|exact G1|exact H|]. clear H. intros dm x2 _ G2 H. cbv beta in H.
  destruct (_ || _); [injection H as <- <-; by apply repair_stop|].
  destruct (no_errs _); [injection H as <- <-; by apply repair_stop|].
  eapply repair_look; [apply looks_ret|exact G2|exact H|]. clear H. intros t x3 E3 G3 H. injection E3 as <- <-.
  eapply repair_look; [apply looks_repair_source|exact G3|exact H|]. clear H. intros bad x4 E4 G4 H.
  destruct bad as [e|]; [injection H as <- <-; by apply repair_stop|]. apply repair_source_calm in E4; [|done|done].
  eapply repair_look; [apply looks_settings|exact G4|exact H|]. clear H. intros sm x5 E5 G5 H.
  eapply repair_look; [apply looks_settings|exact G5|exact H|]. clear H. intros ss x6 E6 G6 H.
  apply (settings_calm Hcalm _ _ _ _ _ Htm) in E5 as [_ ->]. apply (settings_calm Hcalm _ _ _ _ _ Hts) in E6 as [_ ->].
  rewrite G2 in E4. rewrite G4, G5 in H.
  destruct (lostBy _ _) eqn:El; [injection H as <- <-; by apply repair_stop|].
  apply bind_attempt_inv in H as (rc & x7 & E7 & H). assert (x7 = w') as -> by (destruct rc; by injection H).
  apply (copied_chain pe kgzip gzip xz modinfo s h src m ts tm) in E7 as [[Hn Hfiles]|Hcopied]; try done.
  - split; [|intros ->; by destruct rc as [[]| |]]. unfold settings_at. rewrite !Hfiles, G6. apply settings_kept_refl.
  - apply (copied_settings h m ts tm) in Hcopied as (Hset & Hk & Hi); [|done|done]. rewrite G6 in *. split; [|done].
    apply lostBy_none in El as (L1 & L2 & L3). rewrite Hset. split_and!; intros Hne; symmetry; auto.
Qed.

(** ** Two members of a BIOS host *)

Definition rep_member (dev disk mp uuid : bytes) : member :=
  mkMirrorMember (Some (mkTarget false (bs "x86_64") dev disk mp))
    (mkESPInfo (mkFATVolume dev uuid (bs "EFI")) true true None false [] false) false false None None.
Definition rep_src : member := rep_member (bs "/dev/sda1") (bs "/dev/sda") (bs "/a") (bs "AAAA-0001").
Definition rep_dst : member := rep_member (bs "/dev/sdb1") (bs "/dev/sdb") (bs "/b") (bs "BBBB-0002").
Definition rep_sum : bytes := ok_or [] (Generate boot_kernel sample_archive ModeEnforce).
Definition rep_files : filemap :=
  {[ (bs "/a", KernelFile) := boot_kernel; (bs "/a", InitrdFile) := sample_archive; (bs "/a", CmdlineFile) := stamped_cmdline;
     (bs "/a", PayloadSumFile) := rep_sum; (bs "/b", CmdlineFile) := stamped_cmdline ]}.
Definition rep_disk : bytes := with_stages sample_stage1 sample_stage2 sample_disk.
Definition rep_world : world := fresh_world rep_files {[ bs "/dev/sda" := rep_disk; bs "/dev/sdb" := rep_disk ]}.
Definition rep_host : host := mkHost false (bs "x86_64") (mkHostSet ModeMember SrcNone [] [] [] [] []) [] [rep_src; rep_dst] [] [].
Definition rep_seams : seams :=
  mkSeams None (fun _ _ => None) (fun _ => None) (fun _ => None) (fun _ => None) (fun _ => false) [] (fun p => p) (fun d => d)
    [] None [] (bs "x86_64") (fun _ => Some 512) (bs "/tmp", bs "x.efi") (fun v _ => mkESPInfo v false false None false [] false) None true.
Definition rep_run : outcome ioerr (bool * outcome ioerr unit) * world :=
  repairMember (O:=no_faults) no_pe no_kgzip no_gzip no_gzip boot_modinfo rep_seams rep_host rep_src rep_dst rep_world.

Lemma repairMember_keeps_settings_witness :
  repaired (mkTarget false (bs "x86_64") (bs "/dev/sda1") (bs "/dev/sda") (bs "/a"))
    (mkTarget false (bs "x86_64") (bs "/dev/sdb1") (bs "/dev/sdb") (bs "/b")) rep_world rep_run.1 rep_run.2.
Proof.
  apply (repairMember_keeps_settings (O:=no_faults) no_pe no_kgzip no_gzip no_gzip boot_modinfo rep_seams rep_host rep_src rep_dst).
  - reflexivity.
  - reflexivity.
  - reflexivity.
  - reflexivity.
  - reflexivity.
  - reflexivity.
  - apply plain_is_word; [vm_compute; reflexivity|discriminate].
  - apply surjective_pairing.
Defined.
