(* ===== verification/MirrorRun.v ===== *)
(** * cmd/tool: the commands over a set of ESPs

[runUpdate], [runInstall] and [forEachMember] of mirror.go and [esp add],
[esp remove] and [esp adopt] of espcmd.go, each as the exit status it returns
and what it does to the media. What is only printed is left out, and so is the
pool property set with the zfs command at the end of a run. *)

From Stdlib Require Import ZArith Lia Strings.Byte.
From stdpp Require Import base list gmap sorting.
From S2P Require Import Prelude GoStrings Layout World EspConfig EspMember BootEnv EspSet PayloadSum BiosBoot Stages InitrdInfo Metadata Payload CmdLine UefiBoot Verify Update Spare Mirror MirrorOps.
Local Open Scope Z_scope.

(** [result]: [wrote] and the error. *)
Abbreviation result := (bool * outcome ioerr unit)%type.

Definition has_err (r : result) : bool := negb (is_ok r.2).

(** [res[m].err = err] and [res[m].wrote = true] *)
Definition set_err (res : list result) (i : nat) (e : ioerr) : list result :=
  alter (fun r : result => (r.1, Err e)) i res.
Definition set_wrote (res : list result) (i : nat) : list result :=
  alter (fun r : result => (true, r.2)) i res.
Definition set_errs (res : list result) (errs : list (nat * ioerr)) : list result :=
  fold_left (fun res ie => set_err res ie.1 ie.2) errs res.

(** The members with their positions, and those without an error so far. *)
Definition numbered (ms : list member) : list (nat * member) := imap pair ms.

Definition fine (res : list result) (im : nat * member) : bool :=
  match res !! im.1 with Some r => negb (has_err r) | None => false end.

(** What an update installs. *)
Inductive build := UEFIBuild (a : uefiAsset) | BIOSBuild (a : biosAssets).

Definition mounted (m : member) : bool := bool_decide (is_Some (m_target m)).

Definition no_mount_err (m : member) : bool := match m_mountErr m with None => true | Some _ => false end.

Section commands.
Context {O : Oracle}.
Context (pe : bytes -> option peFile).
Context (kgzip : bytes -> option (bytes * bool)) (gzip xz : bytes -> option reader) (modinfo : bytes -> elf_section).
Context (s : seams).

(** [if err != nil { printErr(err); return exitFailure }] *)
Definition or_exit {A} (c : io A) (k : A -> io Z) : io Z :=
  do r := attempt c in
  match r with Ok a => k a | Err _ => ret exitFailure | Panic => lift Panic end.

Definition is_source (src : option (nat * member)) (i : nat) : bool :=
  match src with Some (j, _) => (j =? i)%nat | None => false end.

(** [src != nil && src != m] and its mountpoint. *)
Definition other_source (src : option (nat * member)) (i : nat) : option bytes :=
  match src with
  | Some (j, m) => if (j =? i)%nat then None else t_mountpoint <$> m_target m
  | None => None
  end.

(** [m.added || (h.set.Mode != ModeLegacy && !installed(m))] *)
Definition is_seed (h : host) (m : member) : io bool :=
  if m_added m then ret true else
  if in_legacy_mode (h_set h) then ret false else
  do b := installed m in ret (negb b).

(** One round of [runUpdate]'s loop over the members. *)
Definition update_one (h : host) (b : build) (force yes : bool) (opts : biosOpts) (src : option (nat * member))
    (i : nat) (m : member) : io result :=
  match usable m true force (h_uefi h) with
  | Some e => ret (false, Err e)
  | None =>
      do sd := is_seed h m in
      do t := the_target m in
      do r := (match b with
               | UEFIBuild a => updateUEFITarget pe kgzip gzip xz modinfo t a yes (answerYes s) sd
               | BIOSBuild a =>
                   let edit := cmdlineEditor (if no_errs (explicitList h) then None else Some (explicitList h))
                                 (t_mountpoint t) (m_uuid m) (other_source src i) opts in
                   let mo := mkMemberOpts sd (Some edit) (if sd then default [] (other_source src i) else []) in
                   updateBIOSTarget pe kgzip gzip xz modinfo (sectorSize s) t a yes (answerYes s) opts mo
               end) in
      if negb r.1 && negb (has_err r) && negb sd then
        match src with
        | Some (j, sm) => if negb (j =? i)%nat && no_mount_err sm then repairMember pe kgzip gzip xz modinfo s h sm m else ret r
        | None => ret r
        end
      else ret r
  end.

Fixpoint update_each (h : host) (b : build) (force yes : bool) (opts : biosOpts) (src : option (nat * member))
    (ms : list (nat * member)) : io (list result) :=
  match ms with
  | [] => ret []
  | (i, m) :: rest =>
      do r := update_one h b force yes opts src i m in
      do rs := update_each h b force yes opts src rest in
      ret (r :: rs)
  end.

(** The ESPs added in this run join the recorded lists. *)
Definition join_lists (h : host) (src : option (nat * member)) (res : list result) : io (host * list result) :=
  let addedOn := List.filter (fun im => fine res im && mounted im.2) (numbered (h_members h)) in
  let added := m_uuid <$> List.filter m_added (snd <$> addedOn) in
  if no_errs added then ret (h, res) else
  do p := addToLists h (snd <$> addedOn) added in
  ret (p.1, match p.2, src with Err e, Some (j, _) => set_err res j e | _, _ => res end).

(** The explicit list is recorded on the source before it is copied. *)
Definition record_list (h : host) (j : nat) (sm : member) (res : list result) : io (list result) :=
  if no_errs (explicitList h) then ret res else
  let lst := join (bs ",") (explicitList h) in
  do t := the_target sm in
  do raw := read_or_empty (t_mountpoint t) ConfigFile in
  if beq (default [] (ConfigValue raw ESPUUIDsKey)) lst then ret res else
  do r := attempt (SetConfigKey (t_mountpoint t) ESPUUIDsKey lst) in
  match r with
  | Ok _ => ret (set_wrote res j)
  | Err e => ret (set_err res j e)
  | Panic => lift Panic
  end.

Fixpoint sync_members (j : nat) (sm : member) (ms : list (nat * member)) (res : list result) : io (list result) :=
  match ms with
  | [] => ret res
  | (i, m) :: rest =>
      if (i =? j)%nat || negb (fine res (i, m)) then sync_members j sm rest res else
      do p := syncConfig sm m in
      match p.2 with
      | Ok _ => sync_members j sm rest (if p.1 then set_wrote res i else res)
      | Err e => sync_members j sm rest (set_err res i (EIn (bs "copying config/keys") e))
      | Panic => lift Panic
      end
  end.

Definition spread_config (h : host) (src : option (nat * member)) (res : list result) : io (list result) :=
  match src with
  | None => ret res
  | Some (j, sm) =>
      if negb (no_mount_err sm) then ret res else
      do res := record_list h j sm res in
      sync_members j sm (numbered (h_members h)) res
  end.

(** The generation an update records. *)
Definition next_generation (h : host) (res : list result) : Z :=
  let gen := maxGeneration h in
  if existsb fst res || (gen =? 0) then u64 (gen + 1) else gen.

Definition source_target (src : option (nat * member)) : option target :=
  match src with Some (_, m) => m_target m | None => None end.

(** [runUpdate] once the set is known and the build loaded and confirmed. *)
Definition update_members (h : host) (b : build) (o : hostOpts) (yes : bool) (opts : biosOpts) : io (host * list result) :=
  let src := bestSource h in
  do res := update_each h b (forceAdopt o) yes opts src (numbered (h_members h)) in
  do p := join_lists h src res in
  let '(h, res) := p in
  do res := spread_config h src res in
  let gen := next_generation h res in
  do pool := poolOf pe (source_target src) in
  do q := finalizeMembers s h (List.filter (fine res) (numbered (h_members h))) gen pool in
  ret (q.1, set_errs res q.2).

Definition update_host (h : host) (o : hostOpts) (yes : bool) (loadU : io uefiAsset) (loadB : io biosAssets)
    (opts : biosOpts) : io Z :=
  or_exit (plain_call OpMkdirAll) (fun _ =>
  or_exit (if h_uefi h then do a := loadU in ret (UEFIBuild a) else do a := loadB in ret (BIOSBuild a)) (fun b =>
  if mirrored h && negb yes && negb (answerYes s) then ret 0 else
  do p := update_members h b o (mirrored h || yes) opts in
  ret (exitCode p.1 (existsb has_err p.2)))).

Definition runUpdate (root firmware : bytes) (o : hostOpts) (yes : bool) (loadU : io uefiAsset) (loadB : io biosAssets)
    (opts : biosOpts) : io Z :=
  or_exit (lift (discoverHost s root firmware false o)) (fun h =>
  or_exit (lift (addESPs s o h)) (fun h =>
  or_exit (lift (checkDistinctDisks h)) (fun _ =>
  update_host h o yes loadU loadB opts))).

(** ** One setting on every member *)

Definition recordSettingGeneration (h : host) (reached : list (nat * member)) (someUnreached changed : bool) : io host :=
  if negb (mirrored h) || no_errs reached || beq (h_installID h) [] || negb changed then ret h else
  if negb someUnreached && no_errs (Missing (h_set h)) then ret h else
  do pool := poolOf pe (source_target (bestSource h)) in
  do p := finalizeMembers s h reached (u64 (maxGeneration h + 1)) pool in
  ret p.1.

(** The digests taken before: [m.target != nil && !m.foreign]. *)
Fixpoint digests_before (ms : list member) : io (list (option (list (bytes * digest)))) :=
  match ms with
  | [] => ret []
  | m :: rest =>
      do d := (if mounted m && negb (m_foreign m) then do d := digestMember pe m in ret (Some (d_files d)) else ret None) in
      do ds := digests_before rest in
      ret (d :: ds)
  end.

Fixpoint apply_each (h : host) (force : bool) (fn : target -> io unit) (ms : list (nat * member)) : io (bool * list (nat * member)) :=
  match ms with
  | [] => ret (false, [])
  | (i, m) :: rest =>
      do r := (match usable m true force (h_uefi h) with
               | Some e => ret (Err e)
               | None => do t := the_target m in attempt (fn t)
               end) in
      match r with
      | Panic => lift Panic
      | Err _ => do p := apply_each h force fn rest in ret (true, p.2)
      | Ok _ => do p := apply_each h force fn rest in ret (p.1, (i, m) :: p.2)
      end
  end.

Fixpoint any_changed (before : list (option (list (bytes * digest)))) (ms : list (nat * member)) : io bool :=
  match ms with
  | [] => ret false
  | (i, m) :: rest =>
      do c := (match before !! i with
               | Some (Some k) => do d := digestMember pe m in ret (negb (bool_decide (k = d_files d)))
               | _ => ret false
               end) in
      do cs := any_changed before rest in
      ret (c || cs)
  end.

Definition apply_setting (h : host) (o : hostOpts) (fn : target -> io unit) : io Z :=
  do before := digests_before (h_members h) in
  do p := apply_each h (forceAdopt o) fn (numbered (h_members h)) in
  do changed := any_changed before p.2 in
  do h := recordSettingGeneration h p.2 p.1 changed in
  ret (exitCode h p.1).

Definition forEachMember (root firmware : bytes) (o : hostOpts) (fn : target -> io unit) : io Z :=
  or_exit (lift (discoverHost s root firmware false o)) (fun h =>
  do what := (if mirrored h then payloadDifference pe h else ret None) in
  match what with
  | Some _ => ret exitFailure
  | None => apply_setting h o fn
  end).

(** ** install *)

Record installRun := mkInstallRun {
  ir_disk : bytes; ir_arch : bytes; ir_uefi : bool; ir_mountpoint : bytes; ir_yes : bool;
  ir_cfg : Config; ir_sshKey : bytes; ir_opts : biosOpts; ir_ho : hostOpts
}.

Definition set_ESPUUIDs (c : Config) (v : bytes) : Config :=
  mkConfig (Net c) (IPv4 c) (IPv4Address c) (IPv4Gateway c) (IPv6 c) (IPv6Address c) (IPv6Gateway c)
    (SSHListen c) (SSHPort c) (SSHAllow c) (Console c) v (NetMAC c).

Definition with_mode (hs : HostSet) (m : mode) (expected : list bytes) : HostSet :=
  mkHostSet m (ListSource hs) (hsInstallID hs) (hsMembers hs) expected (Missing hs) (hsIgnored hs).

Definition set_host (h : host) (hs : HostSet) : host :=
  mkHost (h_uefi h) (h_arch h) hs (h_infos h) (h_members h) (h_installID h) (explicitList h).

(** The members of an explicit list, but for the root ESP. *)
Fixpoint attach_listed (h : host) (force : bool) (rootUUID : bytes) (hms : list HostMember) : outcome ioerr host :=
  match hms with
  | [] => Ok h
  | hm :: rest =>
      if beq (hmUUID hm) rootUUID then attach_listed h force rootUUID rest else
      let i := hm_info hm in
      if ValidMember i && negb (beq (h_installID h) []) && negb (beq (eInstallID i) (h_installID h)) && negb force
      then Err (ERefused (bs "MEMBER marker of another installation"))
      else attach_listed (set_members h (h_members h ++ [attach s h i false false false])) force rootUUID rest
  end.

Definition install_listed (ir : installRun) (h : host) (lst : list bytes) (src rootUUID : bytes) : outcome ioerr host :=
  match SelectHost (h_infos h) (mkSelectOpts lst src rootUUID) with
  | Panic => Panic
  | Err _ => Err (ERefused (bs "select"))
  | Ok hs =>
      if negb (no_errs (Missing hs)) then Err (ERefused (bs "refusing to install a partial mirror")) else
      if negb (bool_decide (rootUUID ∈ lst)) then Err (ERefused (bs "not in the list")) else
      let h := set_explicit (set_host h (mkHostSet ModeList (SrcGiven src) (hsInstallID (h_set h)) (hsMembers (h_set h)) lst
                                           (Missing (h_set h)) (hsIgnored (h_set h)))) lst in
      let h := if beq (h_installID h) [] then set_installID h (hsInstallID hs) else h in
      attach_listed h (forceAdopt (ir_ho ir)) rootUUID (hsMembers hs)
  end.

(** A re-install of a marked set: its other present members. *)
Definition install_marked (h : host) (rootUUID : bytes) (rootInfo : ESPInfo) : host :=
  let others := List.filter (fun i => negb (beq (eUUID i) rootUUID) && ValidMember i && beq (eInstallID i) (h_installID h)) (h_infos h) in
  let listed := match eMember rootInfo with Some m => Members m | None => [] end in
  let h' := set_members h (h_members h ++ ((fun i => attach s h i false false false) <$> others)) in
  set_host h' (with_mode (h_set h') (EspSet.Mode (h_set h')) (Expected (h_set h') ++ listed)).

(** The set an install writes: the root ESP, then the listed or marked ones and
those added. *)
Definition install_set (ir : installRun) (lst : list bytes) (src dev rootUUID : bytes) : outcome ioerr host :=
  let rootInfo := probeMounted s (mkFATVolume dev rootUUID []) (ir_mountpoint ir) in
  let rootM := mkMirrorMember (Some (mkTarget (ir_uefi ir) (ir_arch ir) dev (ir_disk ir) (ir_mountpoint ir))) rootInfo false false None None in
  let h := mkHost (ir_uefi ir) (ir_arch ir) (mkHostSet ModeLegacy SrcNone [] [] [rootUUID] [] []) [] [rootM]
             (if ValidMember rootInfo then eInstallID rootInfo else []) [] in
  if negb (no_errs lst) || negb (beq (addESP (ir_ho ir)) []) || ValidMember rootInfo then
    match scanESPs s with
    | None => Err (ERefused (bs "scan"))
    | Some infos =>
        let h := mkHost (h_uefi h) (h_arch h) (with_mode (h_set h) ModeMember (Expected (h_set h))) infos (h_members h) (h_installID h) [] in
        if negb (ir_uefi ir) && negb (bool_decide (is_Some (diskOfESP s dev))) then Err (ERefused (bs "disk of the ESP")) else
        let! h := (if negb (no_errs lst) then install_listed ir h lst src rootUUID
                   else if ValidMember rootInfo then Ok (install_marked h rootUUID rootInfo) else Ok h) in
        addESPs s (ir_ho ir) h
    end
  else Ok h.

(** [m.mountErr != nil], or a BIOS disk that cannot be used. *)
Definition all_ready (uefi : bool) (ms : list member) : bool :=
  forallb (fun m => no_mount_err m && (uefi || match m_diskErr m with None => true | Some _ => false end)) ms.

Fixpoint check_disks (ms : list member) : io unit :=
  match ms with
  | [] => ret tt
  | m :: rest =>
      do t := the_target m in
      run lift (CheckSectorSize (sectorSize s (t_disk t))) then
      run gate (t_disk t) then
      check_disks rest
  end.

Fixpoint install_each (f : member -> io unit) (ms : list member) : io (list result) :=
  match ms with
  | [] => ret []
  | m :: rest =>
      do r := attempt (f m) in
      match r with
      | Panic => lift Panic
      | _ => do rs := install_each f rest in ret ((true, r) :: rs)
      end
  end.

Definition install_bios_one (ir : installRun) (h : host) (a : biosAssets) (info : Info) (cmdlineTxt : bytes) (cfg : Config)
    (hostKey : bytes) (m : member) : io unit :=
  let c := setCmdlineWord cmdlineTxt ESPSelfKey (m_uuid m) in
  let c := if no_errs (explicitList h) then c else setCmdlineWord c ESPUUIDsKey (join (bs ",") (explicitList h)) in
  run lift_cmdline (checkCmdlineLength c) then
  do t := the_target m in
  writeBIOSInstall kgzip gzip xz modinfo (t_disk t) (ir_arch ir) (t_mountpoint t) a info c (ir_opts ir) cfg (ir_sshKey ir) hostKey.

Definition install_members (ir : installRun) (h : host) (cfg : Config) (hostKey : bytes)
    (loadU : io uefiAsset) (loadB : io biosAssets) : io (option (list result)) :=
  if ir_uefi ir then
    do a := loadU in
    if negb (ir_yes ir) && negb (answerYes s) then ret None else
    do rs := install_each (fun m => do t := the_target m in
                                    writeUEFIInstall pe kgzip gzip xz modinfo (ir_arch ir) (t_mountpoint t) a cfg (ir_sshKey ir) hostKey)
               (h_members h) in
    ret (Some rs)
  else
    do a := loadB in
    run check_disks (h_members h) then
    do p := prepareBIOSInstall kgzip gzip xz modinfo (ir_arch ir) a (ir_opts ir) in
    if negb (ir_yes ir) && negb (answerYes s) then ret None else
    do rs := install_each (install_bios_one ir h a p.1 p.2 cfg hostKey) (h_members h) in
    ret (Some rs).

Definition install_host (ir : installRun) (h : host) (loadU : io uefiAsset) (loadB : io biosAssets) : io Z :=
  if negb (all_ready (ir_uefi ir) (h_members h)) then ret exitFailure else
  or_exit (lift (checkDistinctDisks h)) (fun _ =>
  let cfg := if no_errs (explicitList h) then ir_cfg ir else set_ESPUUIDs (ir_cfg ir) (join (bs ",") (explicitList h)) in
  or_exit (plain_call OpMkdirAll) (fun _ =>
  or_exit (if beq (ir_sshKey ir) [] then ret [] else lift (NewHostKey (newHostKey s))) (fun hostKey =>
  or_exit (install_members ir h cfg hostKey loadU loadB) (fun r =>
  match r with
  | None => ret 0
  | Some res =>
      do pool := poolOf pe (match h_members h with m :: _ => m_target m | [] => None end) in
      do q := finalizeMembers s h (List.filter (fine res) (numbered (h_members h))) (u64 (maxGeneration h + 1)) pool in
      ret (exitCode q.1 (existsb has_err (set_errs res q.2)))
  end)))).

Definition runInstall (ir : installRun) (loadU : io uefiAsset) (loadB : io biosAssets) : io Z :=
  or_exit (lift (resolveList s (ir_ho ir) [] false)) (fun r =>
  let '(lst, src, _) := r in
  match findMountAtPath s (canonicalPath s (ir_mountpoint ir)) with
  | None => ret exitFailure
  | Some (dev, _) =>
      match volumeUUID s dev with
      | None => ret exitFailure
      | Some rootUUID =>
          or_exit (lift (install_set ir lst src dev rootUUID)) (fun h => install_host ir h loadU loadB)
      end
  end).

End commands.

(** ** What an update may write *)

(** A file of the boot chain or the settings of a mounted member that is not
marked for another installation (unless [force] is given); a marker; a disk of
a member that is usable. *)
Definition may_write (force : bool) (h : host) (m : member) (t : target) : Prop :=
  m ∈ h_members h /\ m_target m = Some t /\ (m_foreign m = true -> force = true).

Definition chain_file (s : seams) (force : bool) (h : host) (k : bytes * bytes) : Prop :=
  k = scratchFile s \/ (not_marker k.2 /\ exists m t, may_write force h m t /\ k.1 = t_mountpoint t).

Definition chain_disk (force : bool) (h : host) (d : bytes) : Prop :=
  exists m t, may_write force h m t /\ h_uefi h = false /\ m_diskErr m = None /\ d = t_disk t.

Definition marker_file (ok : list (nat * member)) (k : bytes * bytes) : Prop :=
  exists im t, im ∈ ok /\ m_target im.2 = Some t /\ k = (t_mountpoint t, MemberFile).

Lemma usable_write force h m t :
  m ∈ h_members h -> usable m true force (h_uefi h) = None -> m_target m = Some t ->
  may_write force h m t /\ (h_uefi h = false -> chain_disk force h (t_disk t)).
Proof.
  intros Hm Hu Ht. assert (m_foreign m = true -> force = true) as Hf.
  { intros Hf. revert Hu. unfold usable. rewrite Hf. destruct (m_mountErr m); [done|]. by destruct force. }
  split; [done|]. intros Huefi. exists m, t. split_and!; try done.
  revert Hu. unfold usable. rewrite Huefi. destruct (m_mountErr m); [done|]. cbn. by destruct (m_foreign m && _).
Qed.

Lemma numbered_lookup ms i m : numbered ms !! i = Some m <-> exists x, ms !! i = Some x /\ m = (i, x).
Proof.
  unfold numbered. rewrite list_lookup_imap. destruct (ms !! i) as [x|]; cbn; [|naive_solver].
  split; [intros [= <-]; eauto|]. by intros (y & [= <-] & ->).
Qed.

Lemma numbered_elem ms im : im ∈ numbered ms <-> ms !! im.1 = Some im.2.
Proof.
  rewrite list_elem_of_lookup. split.
  - intros (i & H). apply numbered_lookup in H as (x & Hx & ->). done.
  - intros H. exists im.1. apply numbered_lookup. exists im.2. by destruct im.
Qed.

(** Errors stay; only a usable member has none. *)
Definition errs_kept (res res' : list result) : Prop :=
  length res' = length res /\ forall i r', res' !! i = Some r' -> has_err r' = false -> exists r, res !! i = Some r /\ has_err r = false.

#[export] Instance errs_kept_preorder : PreOrder errs_kept.
Proof.
  split; [intros res; split; [done|]; eauto|]. intros a b c [L1 H1] [L2 H2]. split; [congruence|].
  intros i r Hr He. destruct (H2 i r Hr He) as (r1 & Hr1 & He1). eauto.
Qed.

Lemma set_err_kept res i e : errs_kept res (set_err res i e).
Proof.
  unfold set_err. split; [apply length_alter|]. intros j r H He. destruct (decide (i = j)) as [->|Hne].
  - rewrite list_lookup_alter_eq in H. destruct (res !! j) as [r0|]; cbn in H; [|done]. by injection H as <-.
  - rewrite list_lookup_alter_ne in H by done. eauto.
Qed.

Lemma set_wrote_kept res i : errs_kept res (set_wrote res i).
Proof.
  unfold set_wrote. split; [apply length_alter|]. intros j r H He. destruct (decide (i = j)) as [->|Hne].
  - rewrite list_lookup_alter_eq in H. destruct (res !! j) as [r0|]; cbn in H; [|done]. injection H as <-. eauto.
  - rewrite list_lookup_alter_ne in H by done. eauto.
Qed.

Lemma set_errs_kept res errs : errs_kept res (set_errs res errs).
Proof.
  unfold set_errs. revert res. induction errs as [|[i e] errs IH]; intros res; cbn; [reflexivity|].
  etransitivity; [apply set_err_kept|apply IH].
Qed.

Definition fine_usable (force : bool) (h : host) (ms : list (nat * member)) (res : list result) : Prop :=
  forall im, im ∈ ms -> fine res im = true -> usable im.2 true force (h_uefi h) = None.

Lemma fine_kept res res' im : errs_kept res res' -> fine res' im = true -> fine res im = true.
Proof.
  intros [_ H]. unfold fine. destruct (res' !! im.1) as [r'|] eqn:E; [|done]. intros Hr%negb_true_iff.
  destruct (H _ _ E Hr) as (r & -> & Hr0). by rewrite Hr0.
Qed.

Lemma fine_usable_kept force h ms res res' : errs_kept res res' -> fine_usable force h ms res -> fine_usable force h ms res'.
Proof. intros Hk Hf im Hin Him. apply Hf; [done|]. by eapply fine_kept. Qed.

Section safe.
Context {O : Oracle}.
Context (pe : bytes -> option peFile).
Context (kgzip : bytes -> option (bytes * bool)) (gzip xz : bytes -> option reader) (modinfo : bytes -> elf_section).
Context (s : seams) (force : bool) (h : host).

Abbreviation W := (within (chain_file s force h) (chain_disk force h)).

Lemma chain_member m t rel : may_write force h m t -> not_marker rel -> chain_file s force h (t_mountpoint t, rel).
Proof. intros Hm Hr. right. split; [done|]. by exists m, t. Qed.

Lemma looks_editor e mp u src opts c : looks (cmdlineEditor e mp u src opts c).
Proof. unfold cmdlineEditor. pose proof @looks_lift_cmd. looking. Qed.

Lemma looks_is_seed m : looks (is_seed h m).
Proof. unfold is_seed. pose proof looks_installed_chain. looking. Qed.

(** The build fits the firmware of the host. *)
Definition build_fits (b : build) : Prop := match b with UEFIBuild _ => True | BIOSBuild _ => h_uefi h = false end.

Lemma within_update_one b yes opts src i m :
  build_fits b -> m ∈ h_members h -> W (update_one pe kgzip gzip xz modinfo s h b force yes opts src i m).
Proof.
  intros Hb Hm. unfold update_one. destruct (usable m true force (h_uefi h)) eqn:Hu; [apply within_looks, looks_ret|].
  apply within_bind; [apply within_looks, looks_is_seed|]. intros sd.
  apply within_target. intros t Ht. destruct (usable_write force h m t Hm Hu Ht) as [Hw Hd].
  assert (forall rel, not_marker rel -> chain_file s force h (t_mountpoint t, rel)) as HF by (intros; by eapply chain_member).
  apply within_bind.
  - destruct b; [by apply within_updateUEFI with (mp := t_mountpoint t)|].
    apply within_updateBIOS with (mp := t_mountpoint t) (disk := t_disk t); try done; [by apply Hd|].
    intros edit c [= <-]. apply looks_editor.
  - intros r. assert (forall sm, W (repairMember pe kgzip gzip xz modinfo s h sm m)) as Hrep.
    { intros sm. apply within_repairMember.
      - intros t' rel Ht' Hr. rewrite Ht in Ht'. injection Ht' as <-. auto.
      - by left.
      - intros t' Ht' Hu'. rewrite Ht in Ht'. injection Ht' as <-. auto. }
    confining.
Qed.

Lemma gives_update_one b yes opts src i m :
  gives (fun r => has_err r = false -> usable m true force (h_uefi h) = None)
    (update_one pe kgzip gzip xz modinfo s h b force yes opts src i m).
Proof.
  intros w r w'. unfold update_one. destruct (usable m true force (h_uefi h)); [|done]. intros [= <- <-]. done.
Qed.

Lemma within_update_each b yes opts src ms :
  build_fits b -> Forall (fun im => im.2 ∈ h_members h) ms -> W (update_each pe kgzip gzip xz modinfo s h b force yes opts src ms).
Proof.
  intros Hb. induction 1 as [|[i m] ms Hm _ IH]; cbn [update_each]; [apply within_looks, looks_ret|].
  apply within_bind; [by apply within_update_one|]. intros r. apply within_bind; [done|]. intros rs. apply within_looks, looks_ret.
Qed.

Lemma gives_update_each b yes opts src ms :
  gives (Forall2 (fun im r => has_err r = false -> usable im.2 true force (h_uefi h) = None) ms)
    (update_each pe kgzip gzip xz modinfo s h b force yes opts src ms).
Proof.
  induction ms as [|[i m] ms IH]; cbn [update_each]; [by apply gives_ret|].
  eapply gives_bind; [apply gives_update_one|]. intros r Hr. eapply gives_bind; [exact IH|]. intros rs Hrs.
  apply gives_ret. by constructor.
Qed.

Abbreviation all := (numbered (h_members h)).

Lemma all_members : Forall (fun im => im.2 ∈ h_members h) all.
Proof. apply Forall_forall. intros im Him%numbered_elem. by eapply list_elem_of_lookup_2. Qed.

Lemma update_each_fine b yes opts src :
  gives (fine_usable force h all) (update_each pe kgzip gzip xz modinfo s h b force yes opts src all).
Proof.
  intros w res w' H. apply gives_update_each in H. intros im Him%numbered_elem Hf.
  unfold fine in Hf. destruct (res !! im.1) as [r|] eqn:Er; [|done].
  destruct (Forall2_lookup_r _ _ _ _ _ H Er) as (im' & Hl & Hu). apply numbered_lookup in Hl as (x & Hx & ->).
  cbn in Hu. assert (x = im.2) as -> by congruence. apply Hu. by apply negb_true_iff.
Qed.

(** The lists, the config of the source and its copies. *)
Lemma fine_may_write res im t :
  fine_usable force h all res -> im ∈ all -> fine res im = true -> m_target im.2 = Some t -> may_write force h im.2 t.
Proof.
  intros Hf Him Hr Ht. eapply usable_write; [|by apply Hf|done].
  pose proof all_members as Ha. rewrite Forall_forall in Ha. by apply Ha.
Qed.

Lemma within_join_lists src res : fine_usable force h all res -> W (join_lists h src res).
Proof.
  intros Hf. unfold join_lists. cbv zeta. destruct (no_errs _); [apply within_looks, looks_ret|].
  apply within_bind; [|intros p; apply within_looks, looks_ret]. apply within_addToLists.
  apply Forall_fmap, Forall_forall. intros im Him _ t rel Ht Hr. cbn in Ht.
  apply list_elem_of_In, filter_In in Him as [Him Hb]. apply andb_true_iff in Hb as [Hb _].
  eapply chain_member; [|done]. eapply fine_may_write; [done| |done|done]. by apply list_elem_of_In.
Qed.

Lemma within_record_list h' j sm res :
  sm ∈ h_members h -> m_foreign sm = false -> W (record_list h' j sm res).
Proof.
  intros Hsm Hfor. unfold record_list. destruct (no_errs _); [apply within_looks, looks_ret|]. cbv zeta.
  apply within_target. intros t Ht.
  assert (forall v, W (SetConfigKey (t_mountpoint t) ESPUUIDsKey v)).
  { intros v. apply within_SetConfigKey. intros rel Hr. eapply chain_member; [|done]. split_and!; [done|done|congruence]. }
  apply within_bind; [apply within_looks, looks_read_or_empty|]. intros raw. confining.
Qed.

Lemma gives_record_list h' j sm res : gives (errs_kept res) (record_list h' j sm res).
Proof.
  unfold record_list. destruct (no_errs _); [by apply gives_ret|]. cbv zeta.
  eapply gives_bind; [apply gives_any|]. intros t _. eapply gives_bind; [apply gives_any|]. intros raw _.
  destruct (beq _ _); [by apply gives_ret|]. eapply gives_bind; [apply gives_any|]. intros [] _.
  - apply gives_ret, set_wrote_kept.
  - apply gives_ret, set_err_kept.
  - apply gives_panic.
Qed.

Lemma within_sync_members j sm ms res :
  (forall im, im ∈ ms -> im ∈ all) -> fine_usable force h all res -> W (sync_members j sm ms res).
Proof.
  revert res. induction ms as [|[i m] ms IH]; intros res Hms Hf; cbn [sync_members]; [apply within_looks, looks_ret|].
  assert (forall im, im ∈ ms -> im ∈ all) as Hms' by (intros im Him; apply Hms; by right).
  destruct (fine res (i, m)) eqn:Efine; cbn [negb]; rewrite ?orb_true_r; [|by apply IH].
  destruct (i =? j)%nat; cbn [orb]; [by apply IH|]. apply within_bind.
  - apply within_syncConfig. intros t rel Ht Hr. eapply chain_member; [|done].
    eapply (fine_may_write _ (i, m)); [done|apply Hms; by left|done|done].
  - intros [wrote [u|e|]]; cbn [fst snd]; [apply IH; [done|]|apply IH; [done|]|apply within_looks, looks_lift].
    + destruct wrote; [|done]. eapply fine_usable_kept; [apply set_wrote_kept|done].
    + eapply fine_usable_kept; [apply set_err_kept|done].
Qed.

Lemma gives_sync_members j sm ms res : gives (errs_kept res) (sync_members j sm ms res).
Proof.
  revert res. induction ms as [|[i m] ms IH]; intros res; cbn [sync_members]; [by apply gives_ret|].
  destruct (_ || _); [apply IH|]. eapply gives_bind; [apply gives_any|]. intros [wrote [u|e|]] _; cbn [fst snd].
  - intros w a w' H. apply IH in H. etransitivity; [|exact H]. destruct wrote; [apply set_wrote_kept|reflexivity].
  - intros w a w' H. apply IH in H. etransitivity; [|exact H]. apply set_err_kept.
  - apply gives_panic.
Qed.

Lemma gives_join_lists src res :
  gives (fun p => (exists l, p.1 = set_explicit h l) /\ errs_kept res p.2) (join_lists h src res).
Proof.
  unfold join_lists. cbv zeta. destruct (no_errs _).
  { apply gives_ret. split; [|reflexivity]. exists (explicitList h). by destruct h. }
  eapply (gives_bind (fun p => exists l, p.1 = set_explicit h l)).
  - unfold addToLists. cbv zeta. eapply gives_bind; [apply gives_any|]. intros r _.
    assert (exists l, extend_explicit h (m_uuid <$> List.filter m_added (snd <$> List.filter (fun im => fine res im && mounted im.2) all))
                      = set_explicit h l) as Hl.
    { unfold extend_explicit. destruct (no_errs _); [|eauto]. exists (explicitList h). by destruct h. }
    destruct r; [by apply gives_ret|by apply gives_ret|apply gives_panic].
  - intros p Hp. apply gives_ret. split; [done|]. cbn. destruct p as [h' []], src as [[j sm]|]; cbn; try reflexivity.
    apply set_err_kept.
Qed.

Lemma source_member j sm : bestSource h = Some (j, sm) -> sm ∈ h_members h /\ m_foreign sm = false.
Proof.
  intros [Hl Ho]%bestSource_eligible. split; [by eapply list_elem_of_lookup_2|].
  unfold source_ok in Ho. destruct (m_target sm); [|done]. by destruct (m_foreign sm), (m_added sm).
Qed.

Lemma within_spread_config h' res :
  h_members h' = h_members h -> fine_usable force h all res -> W (spread_config h' (bestSource h) res).
Proof.
  intros Hh Hf. unfold spread_config. destruct (bestSource h) as [[j sm]|] eqn:Eb; [|apply within_looks, looks_ret].
  apply source_member in Eb as [Hsm Hfor]. destruct (negb _); [apply within_looks, looks_ret|].
  eapply within_bind_gives; [apply gives_record_list|by apply within_record_list|]. intros res' Hres'. rewrite Hh.
  apply within_sync_members; [done|]. by eapply fine_usable_kept.
Qed.

Lemma gives_spread_config h' src res : gives (errs_kept res) (spread_config h' src res).
Proof.
  unfold spread_config. destruct src as [[j sm]|]; [|by apply gives_ret]. destruct (negb _); [by apply gives_ret|].
  eapply gives_bind; [apply gives_record_list|]. intros res' H1 w a w' H. apply gives_sync_members in H. by etransitivity.
Qed.

(** The member's only error is that its marker could not be written. *)
Definition marker_failed (res : list result) (im : nat * member) : Prop :=
  exists wrote e, res !! im.1 = Some (wrote, Err (EIn (bs "writing " ++ MemberFile) e)).

(** The two phases of an update: everything but the markers up to [x], then only
the markers of the members [ok]; in the results, each of those is without an
error, or with that of the write of the marker itself, and every other member is
reported as failed. *)
Definition two_phases (w : world) (r : outcome ioerr (host * list result)) (w' : world) : Prop :=
  exists x ok,
    spares (chain_file s force h) (chain_disk force h) w x /\
    spares (marker_file ok) (fun _ => False) x w' /\
    Forall (fun im => im ∈ all /\ usable im.2 true force (h_uefi h) = None) ok /\
    (forall h' res im, r = Ok (h', res) -> im ∈ ok -> fine res im = true \/ marker_failed res im) /\
    (forall h' res im, r = Ok (h', res) -> im ∈ all -> im ∉ ok -> fine res im = false).

Lemma stopped_early w r w' :
  spares (chain_file s force h) (chain_disk force h) w w' -> (forall p, r <> Ok p) -> two_phases w r w'.
Proof.
  intros Hs Hr. exists w', []. split_and!; [done|reflexivity|constructor| |]; intros h' res im E; by destruct (Hr _ E).
Qed.

Lemma set_errs_fine res errs im :
  fine (set_errs res errs) im = true -> im.1 ∉ (fst <$> errs).
Proof.
  unfold set_errs. revert res. induction errs as [|[i e] errs IH]; intros res; cbn; [by intros _ ?%elem_of_nil|].
  intros Hf Hin. apply elem_of_cons in Hin as [Hi|Hin]; [|by eapply IH].
  eapply fine_kept in Hf; [|apply set_errs_kept]. subst i. unfold fine, set_err in Hf.
  rewrite list_lookup_alter_eq in Hf. by destruct (res !! im.1).
Qed.

(** The errors of the marker phase. *)
Lemma finalize_each_errs id exp pool genOf ok w errs w' :
  finalize_each s id exp pool genOf ok w = (Ok errs, w') ->
  Forall (fun ie : nat * ioerr => exists e, ie.2 = EIn (bs "writing " ++ MemberFile) e) errs.
Proof.
  revert w errs w'. induction ok as [|im ok IH]; intros w errs w' H; cbn [finalize_each] in H; [by injection H as <- _|].
  apply bind_ok_inv in H as (e & x & E & H). apply bind_ok_inv in H as (es & y & E' & H). injection H as <- _. apply IH in E'.
  destruct e as [e|]; [|done]. constructor; [|done]. unfold finalize_one in E. cbv zeta in E.
  apply bind_ok_inv in E as (t & x1 & _ & E). apply bind_ok_inv in E as (cur & x2 & _ & E).
  destruct (match cur with Present (Ok c) => same_marker c _ | _ => false end); [discriminate E|].
  apply bind_ok_inv in E as (rw & x3 & _ & E). destruct rw as [u|e0|]; [discriminate E| |discriminate E]. injection E as <- _. by exists e0.
Qed.

Lemma set_errs_source res errs im :
  fine res im = true ->
  fine (set_errs res errs) im = true \/ exists wrote e, (im.1, e) ∈ errs /\ set_errs res errs !! im.1 = Some (wrote, Err e).
Proof.
  intros Hf. induction errs as [|[i e] errs IH] using rev_ind; [by left|].
  assert (set_errs res (errs ++ [(i, e)]) = set_err (set_errs res errs) i e) as -> by (unfold set_errs; by rewrite fold_left_app).
  unfold set_err. destruct (decide (i = im.1)) as [->|Hne].
  - right. assert (exists r, set_errs res errs !! im.1 = Some r) as [[b r0] Hr].
    { destruct IH as [H|(b & e' & _ & ->)]; [|eauto]. unfold fine in H. destruct (set_errs res errs !! im.1); [eauto|done]. }
    exists b, e. split; [set_solver|]. rewrite list_lookup_alter_eq, Hr. done.
  - unfold fine. rewrite list_lookup_alter_ne by done. destruct IH as [H|(b & e' & Hin & H)]; [left; exact H|right].
    exists b, e'. split; [set_solver|done].
Qed.

Lemma marker_phase h' res gen pool w x r w' :
  h_members h' = h_members h -> fine_usable force h all res -> spares (chain_file s force h) (chain_disk force h) w x ->
  (do q := finalizeMembers s h' (List.filter (fine res) (numbered (h_members h'))) gen pool in ret (q.1, set_errs res q.2)) x = (r, w') ->
  two_phases w r w'.
Proof.
  intros Hh Hf Hs H. rewrite Hh in H. set (ok := List.filter (fine res) all).
  assert (forall im, im ∈ ok <-> im ∈ all /\ fine res im = true) as Hok by (intros im; unfold ok; by rewrite !list_elem_of_In, filter_In).
  assert (forall h2 res2 errs im, r = Ok (h2, res2) -> res2 = set_errs res errs -> im ∈ all -> fine res im = false -> fine res2 im = false) as Hbad.
  { intros h2 res2 errs im _ -> _ Hb. apply not_true_iff_false. intros Hc. eapply fine_kept in Hc; [|apply set_errs_kept]. congruence. }
  unfold finalizeMembers, finalizeMembersAt in H. destruct (ensureInstallID s h') as [h1|e|].
  - exists x, ok. split_and!; [done| | | |].
    + assert (within (marker_file ok) (fun _ => False) (finalize_each s (h_installID h1) (expected h1) pool (fun _ => gen) ok)) as Hw.
      { apply within_finalize_each, Forall_forall. intros im Him t Ht. by exists im, t. }
      io_bind H y E; io_bind E z E'; apply Hw in E'; try done; try discriminate Hr.
      injection E as <- <-. injection H as _ <-. done.
    + apply Forall_forall. intros im Him. apply Hok in Him as [Hin Hfine]. split; [done|]. by apply Hf.
    + intros h2 res2 im -> Him. apply bind_ok_inv in H as ([h3 errs] & y & E & H). injection H as <- <- <-.
      apply bind_ok_inv in E as (es & z & E & [= <- <- <-]). cbn [snd]. apply finalize_each_errs in E. rewrite Forall_forall in E.
      apply Hok in Him as [_ Hfine]. destruct (set_errs_source res es im Hfine) as [?|(b & e & Hin & Hl)]; [by left|right].
      destruct (E _ Hin) as [e' He]. cbn [snd] in He. subst e. by exists b, e'.
    + intros h2 res2 im Hr Hin Hno. subst r. apply bind_ok_inv in H as ([h3 errs] & y & E & H). injection H as <- <- <-.
      eapply Hbad; [done|done|done|]. apply not_true_iff_false. intros Hc. by apply Hno, Hok.
  - injection H as <- <-. exists x, []. split_and!; [done|reflexivity|constructor|by intros ? ? ? _ ?%elem_of_nil|].
    intros h2 res2 im [= _ <-] Hin _. cbn [snd]. destruct (fine res im) eqn:Ef; [|by eapply Hbad].
    apply not_true_iff_false. intros Hc. apply set_errs_fine in Hc. apply Hc. rewrite <- list_fmap_compose.
    apply (list_elem_of_fmap_2 fst), Hok. done.
  - injection H as <- <-. by apply stopped_early.
Qed.

Lemma update_two_phases b o yes opts w r w' :
  forceAdopt o = force -> build_fits b -> update_members pe kgzip gzip xz modinfo s h b o yes opts w = (r, w') -> two_phases w r w'.
Proof.
  intros Ho Hb H. unfold update_members in H. cbv zeta in H. rewrite Ho in H.
  io_bind H x1 E1; [|pose proof (within_update_each b yes opts (bestSource h) all Hb all_members _ _ _ E1) as S1;
    apply stopped_early; [exact S1|by subst]..].
  pose proof (within_update_each b yes opts (bestSource h) all Hb all_members _ _ _ E1) as S1.
  apply update_each_fine in E1 as F1.
  io_bind H x2 E2; [|apply within_join_lists in E2; [|done];
    apply stopped_early; [by etransitivity|by subst]..].
  apply gives_join_lists in E2 as Hg. apply within_join_lists in E2; [|done]. destruct Hg as [(l & Hl) K2].
  destruct a0 as [h2 res2]. cbn in Hl, K2. assert (h_members h2 = h_members h) as Hh by (by rewrite Hl).
  assert (fine_usable force h all res2) as F2 by (by eapply fine_usable_kept).
  io_bind H x3 E3; [|apply within_spread_config in E3; [|done|done];
    apply stopped_early; [by do 2 (etransitivity; [done|])|by subst]..].
  apply gives_spread_config in E3 as K3. apply within_spread_config in E3; [|done|done].
  assert (fine_usable force h all a0) as F3 by (by eapply fine_usable_kept).
  io_bind H x4 E4; apply looks_poolOf, (frame_spares (chain_file s force h) (chain_disk force h)) in E4;
    [|apply stopped_early; [by do 3 (etransitivity; [done|])|by subst]..].
  eapply marker_phase; [exact Hh|exact F3| |exact H]. by do 3 (etransitivity; [done|]).
Qed.

End safe.

(** C9 - The marker is written last. Whatever calls fail, an update of the set
first changes, in every state it goes through, nothing but boot files, settings
and keys of mounted members that are not marked for another installation (or
with --force-adopt), the disks of usable members and its own temporary file -
no MEMBER marker at all; after that it changes only MEMBER markers, only of
usable members that had no error by then: in the results each of these is without
an error or has that of the write of its marker itself, and every other member is
reported as failed. *)
Theorem update_marker_last {O : Oracle} (pe : bytes -> option peFile) (kgzip : bytes -> option (bytes * bool))
  (gzip xz : bytes -> option reader) (modinfo : bytes -> elf_section) (s : seams) (h : host) (b : build) (o : hostOpts)
  (yes : bool) (opts : biosOpts) (w w' : world) (r : outcome ioerr (host * list result))
  (Hb : build_fits h b) (H : update_members pe kgzip gzip xz modinfo s h b o yes opts w = (r, w')) :
  two_phases s (forceAdopt o) h w r w'.
Proof. by eapply update_two_phases. Qed.

(** ** The whole command *)

(** A file the run may change: of the boot chain, or a marker. *)
Definition run_file (s : seams) (force : bool) (h : host) (k : bytes * bytes) : Prop :=
  k = scratchFile s \/ exists m t, may_write force h m t /\ k.1 = t_mountpoint t.

Section whole.
Context {O : Oracle}.
Context (pe : bytes -> option peFile).
Context (kgzip : bytes -> option (bytes * bool)) (gzip xz : bytes -> option reader) (modinfo : bytes -> elf_section).
Context (s : seams).
Context (loadU : io uefiAsset) (loadB : io biosAssets) (HlU : looks loadU) (HlB : looks loadB).

Lemma within_update_members h b o yes opts :
  build_fits h b ->
  within (run_file s (forceAdopt o) h) (chain_disk (forceAdopt o) h) (update_members pe kgzip gzip xz modinfo s h b o yes opts).
Proof.
  intros Hb w r w' H. eapply update_two_phases in H as (x & ok & H1 & H2 & H3 & _ & _); [|reflexivity|done].
  etransitivity; eapply spares_mono; [| |exact H1| | |exact H2]; try done.
  - intros k [->|(_ & m & t & Hm & Hk)]; [by left|right; eauto].
  - intros k (im & t & Hin & Ht & ->). right. exists im.2, t. split; [|done]. rewrite Forall_forall in H3.
    destruct (H3 _ Hin) as [Hall Hu]. eapply usable_write; [|done|done].
    pose proof (all_members h) as Ha. rewrite Forall_forall in Ha. by apply Ha.
Qed.

Lemma within_or_exit {A : Type} F D (c : io A) k : within F D c -> (forall a, within F D (k a)) -> within F D (or_exit c k).
Proof. intros Hc Hk. unfold or_exit. confining. Qed.

Lemma within_update_host h o yes opts :
  within (run_file s (forceAdopt o) h) (chain_disk (forceAdopt o) h) (update_host pe kgzip gzip xz modinfo s h o yes loadU loadB opts).
Proof.
  unfold update_host. apply within_or_exit; [apply within_looks, looks_plain_call|]. intros _.
  unfold or_exit. eapply within_bind_gives with (P := fun r => forall b, r = Ok b -> build_fits h b).
  - intros w r w' H b ->. apply attempt_inv in H as (r' & H & [= <-]). destruct (h_uefi h) eqn:Eu;
      (io_bind H x E; [|discriminate Hr..]); injection H as <- _; [done|by unfold build_fits].
  - apply within_looks. destruct (h_uefi h); looking.
  - intros [b| |] Hb; [|apply within_looks; looking..]. destruct (_ && _ && _); [apply within_looks, looks_ret|].
    apply within_bind; [by apply within_update_members; auto|]. intros p. apply within_looks, looks_ret.
Qed.

Lemma spares_runUpdate root firmware o yes opts w r w' :
  runUpdate pe kgzip gzip xz modinfo s root firmware o yes loadU loadB opts w = (r, w') ->
  frame w w' \/
  exists h0 h, discoverHost s root firmware false o = Ok h0 /\ addESPs s o h0 = Ok h /\
    spares (run_file s (forceAdopt o) h) (chain_disk (forceAdopt o) h) w w'.
Proof.
  unfold runUpdate, or_exit. intros H. apply bind_attempt_inv in H as (rc & x & [= <- <-] & H).
  destruct (discoverHost s root firmware false o) as [h0| |] eqn:Eh; [|left; injection H as <- <-; reflexivity..].
  apply bind_attempt_inv in H as (rc & x & [= <- <-] & H).
  destruct (addESPs s o h0) as [h| |] eqn:Ea; [|left; injection H as <- <-; reflexivity..].
  apply bind_attempt_inv in H as (rc & x & [= <- <-] & H).
  destruct (checkDistinctDisks h); [|left; injection H as <- <-; reflexivity..].
  right. exists h0, h. split_and!; [done|done|]. by eapply within_update_host.
Qed.

End whole.

(** ** What an update leaves *)

Lemma maxGeneration_spec h m : m ∈ h_members h -> m_foreign m = false -> m_generation m <= maxGeneration h.
Proof.
  unfold maxGeneration. generalize (h_members h) as ms. intros ms.
  assert (forall ms g, g <= fold_left (fun g m => if negb (m_foreign m) && (g <? m_generation m) then m_generation m else g) ms g) as Hmono.
  { clear. induction ms as [|x ms IH]; intros g; cbn; [done|]. etransitivity; [|apply IH].
    destruct (negb _ && _) eqn:E; [|done]. apply andb_true_iff in E as [_ E]. zb. lia. }
  generalize 0. induction ms as [|x ms IH]; intros g Hm Hf; [by apply elem_of_nil in Hm|].
  apply elem_of_cons in Hm as [->|Hm]; [|by apply IH]. cbn. etransitivity; [|apply Hmono].
  rewrite Hf. cbn. destruct (g <? m_generation x) eqn:E; zb; lia.
Qed.

Lemma set_errs_wrote res errs : fst <$> set_errs res errs = fst <$> res.
Proof.
  unfold set_errs. revert res. induction errs as [|[i e] errs IH]; intros res; cbn; [done|]. rewrite IH. unfold set_err.
  apply list_eq. intros j. rewrite !list_lookup_fmap. destruct (decide (i = j)) as [->|Hne].
  - rewrite list_lookup_alter_eq. by destruct (res !! j).
  - by rewrite list_lookup_alter_ne.
Qed.

Lemma existsb_fst (res : list result) : existsb id (fst <$> res) = existsb fst res.
Proof. induction res as [|r res IH]; cbn; [done|]. by rewrite IH. Qed.

Lemma finalize_marks {O : Oracle} s h ok gen pool h' errs w w' :
  finalizeMembers s h ok gen pool w = (Ok (h', errs), w') ->
  NoDup (omap (fun im : nat * member => t_mountpoint <$> m_target im.2) ok) ->
  Forall (fun im => im.1 ∈ (fst <$> errs) \/ marked (h_installID h') gen im.2 (files w')) ok.
Proof.
  unfold finalizeMembers, finalizeMembersAt. destruct (ensureInstallID s h) as [h1|e|]; [| |by intros [=]].
  - intros H Hnd. io_bind H x E; [|discriminate Hr..]. injection H as <- <- <-. by eapply finalize_each_marks in E.
  - intros [= <- <- <-] _. apply Forall_forall. intros im Him. left. rewrite <-list_fmap_compose. by apply (list_elem_of_fmap_2 fst).
Qed.

(** Mountpoints of some of the members are still distinct. *)
Lemma distinct_sub {A B : Type} (g : A -> option B) (P : A -> bool) (l : list A) :
  NoDup (omap g l) -> NoDup (omap g (List.filter P l)).
Proof.
  induction l as [|x l IH]; [done|]. cbn [List.filter].
  intros H. assert (NoDup (omap g l)) as Hl by (cbn in H; destruct (g x); [by apply NoDup_cons in H as [_ ?]|done]).
  destruct (P x); [|by apply IH]. cbn in H |- *. destruct (g x) as [y|]; [|by apply IH].
  apply NoDup_cons in H as [Hy _]. apply NoDup_cons. split; [|by apply IH]. intros Hin. apply Hy.
  apply list_elem_of_omap in Hin as (z & Hz & Hg). apply list_elem_of_omap. exists z. split; [|done].
  apply list_elem_of_In, filter_In in Hz as [Hz _]. by apply list_elem_of_In.
Qed.

Lemma numbered_omap {B : Type} (g : member -> option B) ms : omap (fun im => g im.2) (numbered ms) = omap g ms.
Proof.
  unfold numbered. assert (forall f : nat -> nat, omap (fun im => g im.2) (imap (fun i => pair (f i)) ms) = omap g ms) as Hf.
  { induction ms as [|m ms IH]; intros f; [done|]. rewrite imap_cons. pose proof (IH (fun i => f (S i))) as E.
    unfold compose. cbn in E |- *. by rewrite E. }
  apply (Hf (fun i => i)).
Qed.

(** C10 - After an update the members that ended without an error agree: their
MEMBER markers decode, name the same installation and the same generation, and
each names its own ESP. That generation is at least the highest of the set
before, and higher when anything was written. *)
Theorem update_markers_agree {O : Oracle} (pe : bytes -> option peFile) (kgzip : bytes -> option (bytes * bool))
  (gzip xz : bytes -> option reader) (modinfo : bytes -> elf_section) (s : seams) (h h' : host) (b : build) (o : hostOpts)
  (yes : bool) (opts : biosOpts) (res : list result) (w w' : world)
  (Hmp : NoDup (omap (fun m => t_mountpoint <$> m_target m) (h_members h))) (Hgen : 0 <= maxGeneration h < 2 ^ 64 - 1)
  (H : update_members pe kgzip gzip xz modinfo s h b o yes opts w = (Ok (h', res), w')) :
  exists gen,
    maxGeneration h <= gen /\ (existsb fst res = true -> maxGeneration h < gen) /\
    forall im, im ∈ numbered (h_members h) -> fine res im = true -> marked (h_installID h') gen im.2 (files w').
Proof.
  unfold update_members in H. cbv zeta in H.
  io_bind H x1 E1; [|discriminate Hr..]. io_bind H x2 E2; [|discriminate Hr..].
  apply gives_join_lists in E2 as [(l & Hl) _]. destruct a0 as [h2 res2]. cbn in Hl.
  io_bind H x3 E3; [|discriminate Hr..]. io_bind H x4 E4; [|discriminate Hr..]. io_bind H x5 E5; [|discriminate Hr..].
  destruct a2 as [h3 errs]. injection H as <- <- <-. exists (next_generation h2 a0).
  assert (maxGeneration h2 = maxGeneration h) as Hmax by (by rewrite Hl).
  assert (h_members h2 = h_members h) as Hms by (by rewrite Hl).
  assert (maxGeneration h <= next_generation h2 a0 /\ (existsb fst a0 = true -> maxGeneration h < next_generation h2 a0)) as [G1 G2].
  { unfold next_generation. cbv zeta. rewrite Hmax. unfold u64. rewrite Z.mod_small by lia.
    destruct (existsb fst a0); cbn [orb]; [lia|]. destruct (_ =? 0) eqn:E0; zb; lia. }
  split_and!; [done| |].
  - intros Hw. apply G2. revert Hw. rewrite <-(existsb_fst (set_errs _ _)), set_errs_wrote, existsb_fst. done.
  - intros im Him Hf. eapply finalize_marks in E5.
    + rewrite Forall_forall in E5. destruct (E5 im) as [Hin|Hm]; [|by apply set_errs_fine in Hf|done].
      rewrite Hms. apply list_elem_of_In, filter_In. split; [by apply list_elem_of_In|].
      eapply fine_kept; [apply set_errs_kept|exact Hf].
    + rewrite Hms. apply distinct_sub. by rewrite (numbered_omap (fun m => t_mountpoint <$> m_target m)).
Qed.

(** ** A host whose list names an ESP of another installation *)

Definition id_here : bytes := bs "aaaaaaaa-1111-4222-8333-0123456789ab".
Definition id_there : bytes := bs "bbbbbbbb-1111-4222-8333-0123456789ab".
Definition marker_here : Member := mkMember id_here 7 (bs "AAAA-0001") [bs "AAAA-0001"] [] [] [].
Definition marker_there : Member := mkMember id_there 3 (bs "BBBB-0002") [bs "BBBB-0002"] [] [] [].
Definition listed_uuids : bytes := bs "AAAA-0001,BBBB-0002".

Definition esp_here : ESPInfo :=
  mkESPInfo (mkFATVolume (bs "/dev/sda1") (bs "AAAA-0001") (bs "EFI")) true true (Some marker_here) false listed_uuids false.
Definition esp_there : ESPInfo :=
  mkESPInfo (mkFATVolume (bs "/dev/sdb1") (bs "BBBB-0002") (bs "EFI")) true true (Some marker_there) false [] false.
Definition esp_plain : ESPInfo :=
  mkESPInfo (mkFATVolume (bs "/dev/sdc1") (bs "CCCC-0003") (bs "EFI")) true true None false [] false.

Definition pair_seams : seams :=
  mkSeams (Some [esp_here; esp_there]) (fun dev _ => Some dev) (fun dev => Some dev)
    (fun _ => Some (bs "/dev/sda1", bs "vfat")) (fun _ => Some (bs "AAAA-0001")) (fun _ => true) [] (fun p => p) (fun d => d)
    (bs "2026-01-01T00:00:00Z") None [] (bs "x86_64") (fun _ => Some 512) (bs "/tmp", bs "x.efi")
    (fun v _ => mkESPInfo v false false None false [] false) None true.

Definition here_loader : bytes := bs "the loader".
Definition pair_pe (c : bytes) : option peFile :=
  if beq c here_loader then Some (mkPE 0x8664 [(bs ".cmdline", Some stamped_cmdline)]) else None.
Definition pair_asset : uefiAsset := mkUefiAsset local_efi here_loader sample_info.
Definition pair_opts : hostOpts := mkHostOpts [] [] false.
Definition pair_host : host :=
  ok_or (mkHost true [] (mkHostSet ModeLegacy SrcNone [] [] [] [] []) [] [] [] []) (discoverHost pair_seams (bs "/") [] false pair_opts).

Definition pair_world : world :=
  fresh_world {[ (bs "/dev/sda1", MemberFile) := EspMember.Encode marker_here; (bs "/dev/sda1", x64) := here_loader;
                 (bs "/dev/sdb1", MemberFile) := EspMember.Encode marker_there; (bs "/dev/sdb1", x64) := here_loader ]} ∅.

Lemma pair_discovered : discoverHost pair_seams (bs "/") [] false pair_opts = Ok pair_host.
Proof. vm_compute. reflexivity. Qed.

Definition pair_members (O : Oracle) : outcome ioerr (host * list result) * world :=
  update_members (O:=O) pair_pe no_kgzip no_gzip no_gzip boot_modinfo pair_seams pair_host (UEFIBuild pair_asset) pair_opts true
    sample_opts pair_world.

Lemma update_marker_last_witness :
  two_phases pair_seams false pair_host pair_world (pair_members (fail_at 3 0)).1 (pair_members (fail_at 3 0)).2.
Proof.
  apply (update_marker_last (O:=fail_at 3 0) pair_pe no_kgzip no_gzip no_gzip boot_modinfo pair_seams pair_host
    (UEFIBuild pair_asset) pair_opts true sample_opts).
  - exact I.
  - apply surjective_pairing.
Defined.

Definition pair_final : host * list result := ok_or (pair_host, []) (pair_members no_faults).1.

(** The host's own ESP is up to date and gets the new list in its marker. *)
Lemma update_markers_agree_witness :
  exists gen, 7 <= gen /\ marked id_here gen (attach pair_seams pair_host esp_here false false false) (files (pair_members no_faults).2).
Proof.
  destruct (update_markers_agree (O:=no_faults) pair_pe no_kgzip no_gzip no_gzip boot_modinfo pair_seams pair_host pair_final.1
    (UEFIBuild pair_asset) pair_opts true sample_opts pair_final.2 pair_world (pair_members no_faults).2) as (gen & Hg & _ & Hm).
  - apply (bool_decide_unpack _). vm_compute. exact I.
  - vm_compute. split; [discriminate|reflexivity].
  - refine (eq_trans (surjective_pairing _) (f_equal (fun r => (r, _)) _)). vm_compute. reflexivity.
  - exists gen. split; [exact Hg|]. apply (Hm (0%nat, attach pair_seams pair_host esp_here false false false)).
    + apply numbered_elem. vm_compute. reflexivity.
    + vm_compute. reflexivity.
Defined.
