(* ===== verification/EspCmd.v ===== *)
(** * cmd/tool: esp list, add, remove and adopt

The commands of espcmd.go: the list of all ESPs with their states, and the
commands that change which ESPs are members. *)

From Stdlib Require Import ZArith Lia Strings.Byte.
From stdpp Require Import base list gmap sorting.
From S2P Require Import Prelude GoStrings Layout World EspConfig EspMember BootEnv EspSet InitrdInfo Payload CmdLine UefiBoot Verify Update Mirror MirrorOps MirrorRun.
Local Open Scope Z_scope.

(** ** esp list *)

(** The STATE column; [None] is the empty string of a missing map key. *)
Inductive list_state := LBest | LMember | LForeign | LIgnored (r : reason) | LNotUsed.

(** The columns INSTALL and GEN. *)
Inductive list_id := IdNone | IdBroken | IdOf (prefix : bytes) (gen : Z) (copied : bool).

Record list_row := mkListRow { lr_uuid : bytes; lr_dev : bytes; lr_label : bytes; lr_id : list_id; lr_state : list_state }.

Record esp_listing := mkListing { l_rows : list list_row; l_missing : list bytes; l_set : option (mode * bytes * list_source) }.

(** The map [state]: the last entry for a UUID; ignored ESPs are entered last. *)
Definition list_state_of (hs : HostSet) (u : bytes) : option list_state :=
  match last (List.filter (fun ig => beq (eUUID (ig_info ig)) u) (hsIgnored hs)) with
  | Some ig => Some (LIgnored (Reason ig))
  | None =>
      match last (List.filter (fun im => beq (hmUUID im.2) u) (imap pair (hsMembers hs))) with
      | Some (n, m) => Some (if Foreign m then LForeign else if (n =? 0)%nat then LBest else LMember)
      | None => None
      end
  end.

(** [i.Member.InstallID[:8]] panics on a shorter id. *)
Definition list_id_of (i : ESPInfo) : outcome ioerr list_id :=
  if MemberErr i then Ok IdBroken else
  match eMember i with
  | None => Ok IdNone
  | Some m => if len (InstallID m) <? 8 then Panic else Ok (IdOf (take 8 (InstallID m)) (Generation m) (CopiedMarker i))
  end.

Definition nothing_of_ours (i : ESPInfo) (st : option list_state) : bool :=
  negb (AlpineDir i) && match eMember i with None => true | Some _ => false end && negb (MemberErr i)
  && match st with None => true | Some _ => false end.

Fixpoint list_rows (state : bytes -> option list_state) (infos : list ESPInfo) : outcome ioerr (list list_row) :=
  match infos with
  | [] => Ok []
  | i :: rest =>
      let st := state (eUUID i) in
      if nothing_of_ours i st then list_rows state rest else
      let! id := list_id_of i in
      let! rows := list_rows state rest in
      Ok (mkListRow (eUUID i) (eDev i) (Label (vol i)) id (default LNotUsed st) :: rows)
  end.

(** The exit status and what is listed; without a listing an error was printed. *)
Definition runESPList (s : seams) (root : bytes) (o : hostOpts) : outcome ioerr (Z * option esp_listing) :=
  match scanESPs s with
  | None => Ok (exitFailure, None)
  | Some infos =>
      match resolveList s o root true with
      | Panic => Panic
      | Err _ => Ok (exitFailure, None)
      | Ok (lst, src, _) =>
          match SelectHost infos (mkSelectOpts lst src (primaryUUID s root)) with
          | Panic => Panic
          | Ok hs =>
              let! rows := list_rows (list_state_of hs) infos in
              Ok (if 0 <? len (Missing hs) then exitMemberMissing else 0,
                  Some (mkListing rows (Missing hs) (Some (EspSet.Mode hs, hsInstallID hs, ListSource hs))))
          | Err _ =>
              let! rows := list_rows (fun _ => None) infos in
              Ok (exitFailure, Some (mkListing rows [] None))
          end
      end
  end.

Section esp.
Context {O : Oracle}.
Context (pe : bytes -> option peFile).
Context (kgzip : bytes -> option (bytes * bool)) (gzip xz : bytes -> option reader) (modinfo : bytes -> elf_section).
Context (s : seams).

(** The generation the new member and the others get: only the new one takes
the source's. *)
Definition own_generation (new : nat) (gen : Z) (im : nat * member) : Z :=
  if (im.1 =? new)%nat then gen else if 0 <? m_generation im.2 then m_generation im.2 else gen.

(** [runESPAdd] from the copy on. *)
Definition add_member (h : host) (sm : member) (new : nat) (m : member) : io Z :=
  or_exit (copyBootChain pe kgzip gzip xz modinfo s h sm m) (fun _ =>
  let gen := if m_generation sm =? 0 then 1 else m_generation sm in
  let ok := List.filter (fun im => mounted im.2 && negb (m_foreign im.2)) (numbered (h_members h)) in
  do p := addToLists h (snd <$> ok) [m_uuid m] in
  do pool := poolOf pe (m_target sm) in
  do q := finalizeMembersAt s p.1 ok (own_generation new gen) pool in
  if negb (is_ok p.2) || negb (no_errs q.2) then ret exitFailure else ret (exitCode q.1 false)).

Definition runESPAdd (root firmware : bytes) (o : hostOpts) (arg : bytes) (yes : bool) : io Z :=
  or_exit (lift (discoverHost s root firmware false o)) (fun h0 =>
  match bestSource h0 with
  | None => ret exitFailure
  | Some (_, sm) =>
      if negb (no_mount_err sm) then ret exitFailure else
      or_exit (lift (addESPs s (mkHostOpts (espUUIDs o) arg (forceAdopt o)) h0)) (fun h =>
      if (length (h_members h) =? length (h_members h0))%nat then ret 0 else
      match last (h_members h) with
      | None => lift Panic
      | Some m =>
          match usable m true true (h_uefi h) with
          | Some _ => ret exitFailure
          | None =>
              or_exit (lift (checkDistinctDisks h)) (fun _ =>
              if negb yes && negb (answerYes s) then ret 0 else
              add_member h sm (pred (length (h_members h))) m)
          end
      end)
  end).

(** ** esp remove *)

(** One remaining member: the UUID leaves its lists. [false]: a write failed. *)
Definition drop_from_lists (uefi : bool) (uuid : bytes) (m : member) : io bool :=
  match m_target m with
  | Some t =>
      if m_foreign m then ret true else
      do raw := read_or_empty (t_mountpoint t) ConfigFile in
      let v := default [] (ConfigValue raw ESPUUIDsKey) in
      do ok1 := (if beq v [] || beq (dropUUID v uuid) v then ret true else
                 do r := attempt (SetConfigKey (t_mountpoint t) ESPUUIDsKey (dropUUID v uuid)) in
                 match r with Ok _ => ret true | Err _ => ret false | Panic => lift Panic end) in
      if uefi then ret ok1 else
      do c := attempt (readFile (t_mountpoint t) CmdlineFile) in
      match c with
      | Ok c =>
          let v := cmdlineValue c ESPUUIDsKey in
          if beq v [] || beq (dropUUID v uuid) v then ret ok1 else
          do r := attempt (WriteFile (t_mountpoint t) CmdlineFile (setCmdlineWord c ESPUUIDsKey (dropUUID v uuid))) in
          match r with Ok _ => ret ok1 | Err _ => ret false | Panic => lift Panic end
      | Err _ => ret ok1
      | Panic => lift Panic
      end
  | None => ret true
  end.

Fixpoint drop_each (uefi : bool) (uuid : bytes) (ms : list member) : io bool :=
  match ms with
  | [] => ret true
  | m :: rest => do a := drop_from_lists uefi uuid m in do b := drop_each uefi uuid rest in ret (a && b)
  end.

Definition keep_generation (maxGen : Z) (im : nat * member) : Z :=
  if 0 <? m_generation im.2 then m_generation im.2 else maxGen.

(** The set without the removed ESP. *)
Definition without (h : host) (uuid : bytes) : host :=
  let keep := List.filter (fun u => negb (beq u uuid)) in
  let hs := h_set h in
  set_members
    (set_host h (mkHostSet (EspSet.Mode hs) (ListSource hs) (hsInstallID hs) (hsMembers hs) (keep (Expected hs)) (keep (Missing hs)) (hsIgnored hs)))
    (List.filter (fun m => negb (beq (m_uuid m) uuid)) (h_members h)).

(** The marker of the ESP that is taken out. [false]: it could not be removed. *)
Definition remove_marker (h : host) (uuid : bytes) : io bool :=
  match m ← last (List.filter (fun m => beq (m_uuid m) uuid) (h_members h)); m_target m with
  | Some t =>
      do r := attempt (EspMember.Remove (t_mountpoint t)) in
      match r with Ok _ => ret true | Err _ => ret false | Panic => lift Panic end
  | None => ret true
  end.

(** What the other members record. *)
Definition remove_from_others (h : host) (uuid : bytes) (ok1 : bool) : io Z :=
  let h := without h uuid in
  do ok2 := drop_each (h_uefi h) uuid (h_members h) in
  let ok := List.filter (fun im => mounted im.2 && ValidMember (m_info im.2) && negb (m_foreign im.2)) (numbered (h_members h)) in
  do pool := poolOf pe (source_target (bestSource h)) in
  do q := finalizeMembersAt s h ok (keep_generation (maxGeneration h)) pool in
  if negb (ok1 && ok2) || negb (no_errs q.2) then ret exitFailure else ret (exitCode q.1 false).

(** [runESPRemove] from the confirmation on. *)
Definition remove_member (h : host) (uuid : bytes) : io Z :=
  do ok1 := remove_marker h uuid in remove_from_others h uuid ok1.

Definition runESPRemove (root firmware : bytes) (o : hostOpts) (arg : bytes) (yes : bool) : io Z :=
  or_exit (lift (discoverHost s root firmware false o)) (fun h =>
  or_exit (lift (match NormalizeFATUUID arg with
                 | Ok u => Ok u
                 | Err _ => let! i := findInfo s h arg in Ok (eUUID i)
                 | Panic => Panic
                 end)) (fun uuid =>
  let known := existsb (fun m => beq (m_uuid m) uuid) (h_members h) || bool_decide (uuid ∈ Missing (h_set h)) in
  if negb known then ret exitFailure else
  if no_errs (List.filter (fun m => negb (beq (m_uuid m) uuid)) (h_members h)) then ret exitFailure else
  if negb yes && negb (answerYes s) then ret 0 else
  remove_member h uuid)).

(** ** esp adopt *)

(** The loop over the arguments: the ESPs to adopt and the UUIDs seen. *)
Fixpoint adopt_args (h : host) (force : bool) (args seen : list bytes) : outcome ioerr (list ESPInfo * list bytes) :=
  match args with
  | [] => Ok ([], seen)
  | a :: rest =>
      let! i := findInfo s h a in
      if bool_decide (eUUID i ∈ seen) then adopt_args h force rest seen else
      let seen := eUUID i :: seen in
      if negb (AlpineDir i) then Err (ERefused (bs "no alpine-zfsboot installation")) else
      if ValidMember i && beq (eInstallID i) (h_installID h) && negb (beq (h_installID h) []) then adopt_args h force rest seen else
      if ValidMember i && negb force then Err (ERefused (bs "marked for another installation")) else
      let! ' (ts, seen) := adopt_args h force rest seen in
      Ok (i :: ts, seen)
  end.

(** A host whose set could not be selected: the zero value, whose empty mode is
neither the list nor the legacy one. *)
Definition zero_HostSet : HostSet := mkHostSet ModeMember SrcNone [] [] [] [] [].

Definition adopt_host (infos : list ESPInfo) : outcome ioerr host :=
  let base := mkHost false (detectArch s) zero_HostSet infos [] [] [] in
  match SelectHost infos (mkSelectOpts [] [] (primaryUUID s (bs "/"))) with
  | Ok hs => Ok (set_installID (set_host base hs) (hsInstallID hs))
  | Err _ => Ok base
  | Panic => Panic
  end.

(** The writes of [runESPAdopt]. *)
Definition adopt_write (h : host) (targets : list ESPInfo) (seen : list bytes) (gen : Z) : io Z :=
  let adoptees := (fun t => attach s h t false true false) <$> targets in
  let existing := (fun hm => attach s h (hm_info hm) false false false) <$>
                  List.filter (fun hm => negb (bool_decide (hmUUID hm ∈ seen))) (hsMembers (h_set h)) in
  let h := set_members h (adoptees ++ existing) in
  let ok := List.filter (fun im => no_mount_err im.2) (numbered (h_members h)) in
  let adopted := List.filter (fun im => m_added im.2) ok in
  let old := List.filter (fun im => negb (m_added im.2)) ok in
  do p := addToLists h (snd <$> ok) (m_uuid <$> (snd <$> adopted)) in
  do q1 := finalizeMembers s p.1 adopted gen [] in
  do q2 := finalizeMembers s q1.1 old (u64 (gen + 1)) [] in
  if negb (forallb no_mount_err adoptees) || negb (is_ok p.2) || negb (no_errs q1.2) || negb (no_errs q2.2)
  then ret exitFailure else ret 0.

Definition runESPAdopt (args : list bytes) (yes force : bool) : io Z :=
  match scanESPs s with
  | None => ret exitFailure
  | Some infos =>
      or_exit (lift (adopt_host infos)) (fun h =>
      or_exit (lift (adopt_args h force args [])) (fun r =>
      let '(targets, seen) := r in
      if no_errs targets then ret 0 else
      or_exit (lift (ensureInstallID s h)) (fun h =>
      let gen := if MaxGeneration (h_set h) =? 0 then 1 else MaxGeneration (h_set h) in
      let all := sort_strings (keep_first [] (Expected (h_set h) ++ (eUUID <$> targets))) in
      if negb yes then ret exitFailure else
      let hs := h_set h in
      adopt_write (set_host h (with_mode hs (EspSet.Mode hs) all)) targets seen gen)))
  end.

End esp.

(** ** A foreign ESP that adopt takes *)

(** Every device is mounted under its own name. *)
Definition adopt_seams : seams :=
  mkSeams (Some [esp_here; esp_there; esp_plain]) (fun dev _ => Some dev) (fun dev => Some dev)
    (fun _ => Some (bs "/dev/sda1", bs "vfat")) (fun _ => Some (bs "AAAA-0001")) (fun _ => false) [] (fun p => p) (fun d => d)
    (bs "2026-01-01T00:00:00Z") None [] (bs "x86_64") (fun _ => Some 512) (bs "/tmp", bs "x.efi")
    (fun v _ => mkESPInfo v false false None false [] false) None true.

Definition adopt_world : world :=
  fresh_world {[ (bs "/dev/sda1", MemberFile) := EspMember.Encode marker_here;
                 (bs "/dev/sdb1", MemberFile) := EspMember.Encode marker_there ]} ∅.

Definition adopt_run : outcome ioerr Z * world :=
  runESPAdopt (O:=no_faults) adopt_seams [bs "/dev/sdc1"] true false adopt_world.

(** The install id in the marker of an ESP. *)
Definition marker_id (w : world) (dev : bytes) : option bytes :=
  raw ← files w !! (dev, MemberFile);
  match EspMember.Decode raw with Ok m => Some (InstallID m) | _ => None end.

(** esp adopt without --force-adopt can take an ESP of another installation:
the set lists such an ESP (it is flagged foreign), a third ESP is adopted, and
adopt also rewrites the marker of the foreign one with this host's id, because
it attaches the members of the set as not foreign. *)
Theorem runESPAdopt_takes_foreign :
  (exists hs, SelectHost [esp_here; esp_there; esp_plain] (mkSelectOpts [] [] (primaryUUID adopt_seams (bs "/"))) = Ok hs /\
     mkHostMember esp_there true ∈ hsMembers hs) /\
  adopt_run.1 = Ok 0 /\
  marker_id adopt_world (bs "/dev/sdb1") = Some id_there /\
  marker_id adopt_run.2 (bs "/dev/sdb1") = Some id_here.
Proof.
  split_and!; [|vm_compute; reflexivity..].
  eexists. split; [vm_compute; reflexivity|]. right. left.
Qed.
