(* ===== verification/ZfsNative.v ===== *)
(** * internal/zfsnative: asking the kernel about pools

The read-only ioctl client of abi.go, cmd_linux.go, scan_linux.go and
zfs_linux.go over the decoder of NvList.v. The zfs_cmd_t buffer is kept as the
bytes it is; /dev/zfs and the ioctl itself belong to the kernel and are
arguments of the definitions. The state of a computation is the list of sizes
of the result buffers allocated so far, one per ioctl; what the decoder
allocates on top of them is bounded by the heap it is given (NvList.v). A
request beyond the heap ends the process for good; in the model it is a [Panic]
like any other, and [zfs_queries_bounded] shows that neither happens. *)

From Stdlib Require Import ZArith Lia Strings.Byte.
From stdpp Require Import base list.
From S2P Require Import Prelude GoStrings NvList.
Local Open Scope Z_scope.

Definition zfsIocFirst : Z := 90 * 2 ^ 8.
Definition ZFS_IOC_POOL_CONFIGS : Z := zfsIocFirst + 4.
Definition ZFS_IOC_POOL_STATS : Z := zfsIocFirst + 5.
Definition sizeofZfsCmd : Z := 13744.
Definition offZcName : Z := 0.
Definition offZcNvlistDst : Z := 4112.
Definition offZcNvlistDstSize : Z := 4120.
Definition offZcCookie : Z := 12616.
Definition maxPathLen : Z := 4096.
Definition maxDstGrowSize : Z := 16 * 1024 * 1024.

(** unix.ENOMEM *)
Definition ENOMEM : Z := 12.

Inductive zfs_error :=
| EOpenZFS
| ENameTooLong (n : Z)
| EErrno (e : Z)
| EDecode (e : nv_error)
| EKeptGrowing
| EPoolShape (pool : bytes)
| ECookie (pool : bytes) (errno : Z)
| EPanicked
| ENoFeatureStats (pool : bytes)
| EFeatureStatsShape (pool : bytes)
| EFeatureCount (guid : bytes)
| EUnknownGUIDs (guids : list bytes)
| ENoPool
| EPoolUnknown (imported : list bytes)
| EPoolNotImported (pool : bytes) (imported : list bytes).

Definition zio (A : Type) : Type := list Z -> outcome zfs_error A * list Z.

(** [recoverZFSCall]: a panic below it becomes an error. *)
Definition recoverZFSCall {A} (c : zio A) : zio A := fun tr =>
  let (r, tr') := c tr in
  (match r with Panic => Err EPanicked | _ => r end, tr').

Definition zmap {A B} (f : A -> outcome zfs_error B) (c : zio A) : zio B := fun tr =>
  let (r, tr') := c tr in (obind r f, tr').

(** The entries of ZFS_IOC_POOL_CONFIGS, each a configuration of its own. *)
Fixpoint pool_configs (nv : Nvlist) : outcome zfs_error (list (bytes * Nvlist)) :=
  match nv with
  | [] => Ok []
  | (name, v) :: t =>
      match v with
      | VList sub => let! rest := pool_configs t in Ok ((name, sub) :: rest)
      | _ => Err (EPoolShape name)
      end
  end.

(** [nv[key]] *)
Fixpoint nv_lookup (nv : Nvlist) (key : bytes) : option Value :=
  match nv with
  | [] => None
  | (k, v) :: t => if decide (k = key) then Some v else nv_lookup t key
  end.

Section client.
(** The memory there is for one allocation; the host's byte order; whether /dev/zfs opens; the address Go's allocator
gives the n-th result buffer; the n-th ioctl, from request number, zfs_cmd_t and
result buffer to errno and what the two buffers hold afterwards. *)
Context (heap : Z) (big : bool) (opens : nat -> bool) (addr : nat -> Z).
Context (ioctl : nat -> Z -> bytes -> bytes -> Z * bytes * bytes).

Definition setU64 (c : bytes) (off v : Z) : bytes :=
  copy_at c off (if big then be_put 8 v else le_put 8 v).

Definition getU64 (c : bytes) (off : Z) : Z := bo_get big (sub c off 8).

Definition setName (c s : bytes) : outcome zfs_error bytes :=
  if maxPathLen <? len s + 1 then Err (ENameTooLong (len s)) else
  Ok (copy_at (copy_at c offZcName (zeros maxPathLen)) offZcName s).

(** The loop of [callWithDst] with [n] attempts left. *)
Fixpoint call_attempts (n : nat) (req : Z) (build : bytes -> outcome zfs_error bytes) (dstSize : Z) : zio (Nvlist * Z) :=
  fun tr =>
  match n with
  | O => (Err EKeptGrowing, tr)
  | S n =>
      match build (zeros sizeofZfsCmd) with
      | Err e => (Err e, tr)
      | Panic => (Panic, tr)
      | Ok cmd =>
          (* make([]byte, dstSize) and &dst[0] *)
          if (dstSize <=? 0) || (heap <? dstSize) then (Panic, tr) else
          let cmd := setU64 (setU64 cmd offZcNvlistDst (addr (length tr))) offZcNvlistDstSize dstSize in
          let '(errno, cmd, dst) := ioctl (length tr) req cmd (zeros dstSize) in
          let tr := tr ++ [dstSize] in
          let need := getU64 cmd offZcNvlistDstSize in
          if (errno =? ENOMEM) && (dstSize <? need) && (need <? maxDstGrowSize)
          then call_attempts n req build need tr
          else if negb (errno =? 0) then (Err (EErrno errno), tr)
          else (let! nv := owrap EDecode (DecodeNative heap dst) in Ok (nv, getU64 cmd offZcCookie), tr)
      end
  end.

Definition callWithDst (req : Z) (build : bytes -> outcome zfs_error bytes) (dstSize : Z) : zio (Nvlist * Z) :=
  call_attempts 2 req build dstSize.

Definition PoolConfigs : zio (list (bytes * Nvlist)) :=
  zmap (fun r => pool_configs r.1)
    (callWithDst ZFS_IOC_POOL_CONFIGS (fun c => Ok (setU64 c offZcCookie 0)) (64 * 1024)).

(** The names in the order of the list; Go's order is unspecified. *)
Definition PoolNames : zio (list bytes) := zmap (fun cfgs => Ok (map fst cfgs)) PoolConfigs.

Definition PoolStats (pool : bytes) : zio Nvlist :=
  zmap (fun r : Nvlist * Z => if r.2 =? 0 then Ok r.1 else Err (ECookie pool r.2))
    (callWithDst ZFS_IOC_POOL_STATS (fun c => setName c pool) (256 * 1024)).

(** cmd/tool/zfsnative.go's two callers. *)
Definition liveZFSPoolNames : zio (list bytes) := fun tr =>
  if opens (length tr) then recoverZFSCall PoolNames tr else (Err EOpenZFS, tr).

Definition feature_stats_of (pool : bytes) (cfg : Nvlist) : outcome zfs_error Nvlist :=
  match nv_lookup cfg (bs "feature_stats") with
  | None => Err (ENoFeatureStats pool)
  | Some (VList nv) => Ok nv
  | Some _ => Err (EFeatureStatsShape pool)
  end.

Definition liveZFSFeatureStats (pool : bytes) : zio Nvlist := fun tr =>
  if opens (length tr) then zmap (feature_stats_of pool) (recoverZFSCall (PoolStats pool)) tr
  else (Err EOpenZFS, tr).

(** ** What a call allocates and returns *)

(** Enough memory for what the code allows itself, and a kernel that writes its
answer into the buffer it is given. *)
Definition roomy : Prop :=
  2 * maxDstGrowSize <= heap /\ forall n req cmd dst, len (ioctl n req cmd dst).2 = len dst.

Lemma DecodeNative_safe b : 2 * len b <= heap -> safe (DecodeNative heap b).
Proof. intros Hb H. pose proof (DecodeNative_bounded heap b Hb) as Hc. by rewrite H in Hc. Qed.

(** The n-th ioctl, called with [cmd0], succeeded and left [nv] and [cookie]
behind. *)
Definition answered (n : nat) (req : Z) (cmd0 : bytes) (nv : Nvlist) (cookie : Z) : Prop :=
  exists dst0 cmd dst, ioctl n req cmd0 dst0 = (0, cmd, dst) /\
    DecodeNative heap dst = Ok nv /\ cookie = getU64 cmd offZcCookie.

(** A result that comes from no panic, caught or not. *)
Definition unpanicked {A} (r : outcome zfs_error A) : Prop := r <> Panic /\ r <> Err EPanicked.

(** What a caller of [call_attempts] gets: no panic where there is room, the
buffers it allocates are one of the first size and then ones between that and
the limit, no more than the attempts it has, and a result is what an ioctl answered to the
caller's command. *)
Definition sizes_ok (n : nat) (dstSize : Z) (l : list Z) : Prop :=
  (length l <= n)%nat /\
  match l with [] => True | s :: l => s = dstSize /\ Forall (fun s => dstSize < s < maxDstGrowSize) l end.

Definition call_ok (n : nat) (req : Z) (build : bytes -> outcome zfs_error bytes) (dstSize : Z) (tr tr' : list Z)
  (r : outcome zfs_error (Nvlist * Z)) : Prop :=
  (roomy -> 0 < dstSize < maxDstGrowSize -> unpanicked r) /\ (exists l, tr' = tr ++ l /\ sizes_ok n dstSize l) /\
  (forall nv cookie, r = Ok (nv, cookie) -> exists k c a s, build (zeros sizeofZfsCmd) = Ok c /\
     answered k req (setU64 (setU64 c offZcNvlistDst a) offZcNvlistDstSize s) nv cookie).

Lemma sizes_nil n s : sizes_ok n s [].
Proof. split; [cbn; lia|done]. Qed.

Lemma sizes_one n s : sizes_ok (S n) s [s].
Proof. split; [cbn; lia|done]. Qed.

Lemma sizes_grow n s s' l : s < s' < maxDstGrowSize -> sizes_ok n s' l -> sizes_ok (S n) s (s :: l).
Proof.
  intros Hs [Hl Hf]. split; [cbn; lia|]. split; [done|]. destruct l as [|x l]; [done|]. destruct Hf as [-> Hf].
  apply List.Forall_cons; [done|]. eapply Forall_impl; [exact Hf|]. cbn. lia.
Qed.

Lemma call_attempts_ok n req build dstSize tr r tr' :
  (forall c, unpanicked (build c)) -> call_attempts n req build dstSize tr = (r, tr') -> call_ok n req build dstSize tr tr' r.
Proof.
  intros Hb. revert dstSize tr. induction n as [|n IH]; intros dstSize tr; cbn [call_attempts].
  { intros [= <- <-]. split; [by split|]. split; [|done]. exists []. rewrite app_nil_r. eauto using sizes_nil. }
  destruct (Hb (zeros sizeofZfsCmd)) as [Hp He]. destruct (build _) as [cmd|e|] eqn:Eb; [| |done].
  2:{ intros [= <- <-]. split; [split; [done|congruence]|]. split; [|done]. exists []. rewrite app_nil_r. eauto using sizes_nil. }
  destruct ((dstSize <=? 0) || (heap <? dstSize)) eqn:Em.
  { intros [= <- <-]. split; [|split; [|done]].
    - intros [Hr _] Hd. unfold maxDstGrowSize in *. apply orb_true_iff in Em as [Em|Em]; zb; lia.
    - exists []. rewrite app_nil_r. eauto using sizes_nil. }
  destruct (ioctl _ _ _ _) as [[errno cmd1] dst] eqn:Ei. cbv zeta.
  destruct ((errno =? ENOMEM) && _ && _) eqn:Eg.
  - apply andb_true_iff in Eg as [[_ H1]%andb_true_iff H2]. zb. intros Hr. apply IH in Hr as (Hc & (l & -> & Hl) & Hok).
    split; [intros; apply Hc; [done|lia]|]. split; [|done]. exists (dstSize :: l). rewrite <- app_assoc. eauto using sizes_grow.
  - assert (exists l, tr ++ [dstSize] = tr ++ l /\ sizes_ok (S n) dstSize l) as Hl by eauto using sizes_one.
    destruct (negb _) eqn:Ez; [by intros [= <- <-]|]. zb. subst errno. intros [= <- <-].
    split; [|split; [done|]].
    + intros [Hheap Hin] Hd. pose proof (Hin (length tr) req (setU64 (setU64 cmd offZcNvlistDst (addr (length tr))) offZcNvlistDstSize dstSize) (zeros dstSize)) as Hlen.
      rewrite Ei, len_zeros in Hlen by lia. cbn [snd] in Hlen. pose proof (DecodeNative_safe dst ltac:(lia)) as Hs.
      destruct (DecodeNative heap dst) as [nv|e|]; [by split|by split|by destruct Hs].
    + intros nv1 c Hd. destruct (DecodeNative heap dst) as [nv|e|] eqn:Ed; [|done..]. injection Hd as <- <-.
      eexists _, cmd, _, _. split; [done|]. by exists (zeros dstSize), cmd1, dst.
Qed.

(** ** The pool a request names *)

(** zc_name holds the name and then zeros. *)
Definition names_pool (cmd pool : bytes) : Prop :=
  sub cmd offZcName maxPathLen = pool ++ zeros (maxPathLen - len pool) /\ len pool < maxPathLen.

Lemma len_u64 v : len (if big then be_put 8 v else le_put 8 v) = 8.
Proof. unfold len. destruct big; by rewrite ?length_be_put, ?length_le_put. Qed.

Lemma sub_setU64 c off v n : n <= off -> off + 8 <= len c -> 0 <= n -> sub (setU64 c off v) 0 n = sub c 0 n.
Proof. intros. unfold setU64. apply sub_copy_at_other; rewrite ?len_u64; lia. Qed.

Lemma len_setU64 c off v : len (setU64 c off v) = len c.
Proof. apply len_copy_at. Qed.

(** Copying [pool] over a cleared field of [m] bytes. *)
Lemma cleared_field (c pool : bytes) m :
  0 <= m <= len c -> len pool <= m ->
  sub (copy_at (copy_at c 0 (zeros m)) 0 pool) 0 m = pool ++ zeros (m - len pool).
Proof.
  intros Hm Hp. pose proof (len_nonneg pool). pose proof (len_zeros m ltac:(lia)) as Hz.
  rewrite (copy_at_fits (copy_at _ _ _)) by (rewrite ?len_copy_at; lia). rewrite (copy_at_fits c) by lia.
  assert (forall l : bytes, sub l 0 0 = []) as H0 by done. rewrite !H0. cbn [app].
  unfold sub. rewrite drop_0, take_app_ge by (unfold len in *; lia). f_equal.
  rewrite Z.add_0_l, drop_app_le by (unfold len in *; lia). unfold zeros. rewrite drop_replicate, take_app_le by (rewrite length_replicate; unfold len in *; lia).
  rewrite take_replicate. f_equal. unfold len in *. lia.
Qed.

Lemma setName_names pool c a s :
  setName (zeros sizeofZfsCmd) pool = Ok c ->
  names_pool (setU64 (setU64 c offZcNvlistDst a) offZcNvlistDstSize s) pool.
Proof.
  assert (len (zeros sizeofZfsCmd) = 13744) as Hl by (apply len_zeros; done). revert Hl.
  generalize (zeros sizeofZfsCmd). intros z Hl. unfold setName, names_pool, offZcName, offZcNvlistDst, offZcNvlistDstSize, maxPathLen.
  destruct (4096 <? len pool + 1) eqn:E; [done|]. zb. intros [= <-]. split; [|lia].
  rewrite sub_setU64 by (rewrite ?len_setU64, ?len_copy_at; lia).
  rewrite sub_setU64 by (rewrite ?len_copy_at; lia). apply cleared_field; lia.
Qed.

(** ** The two queries *)

Lemma recover_ok {A} (c : zio A) tr a tr' : recoverZFSCall c tr = (Ok a, tr') -> c tr = (Ok a, tr').
Proof. unfold recoverZFSCall. destruct (c tr) as [[?| |] ?]; by intros [= -> ->]. Qed.

Lemma zmap_ok {A B} (f : A -> outcome zfs_error B) c tr b tr' :
  zmap f c tr = (Ok b, tr') -> exists a, c tr = (Ok a, tr') /\ f a = Ok b.
Proof. unfold zmap. destruct (c tr) as [[a| |] ?]; cbn; [intros [= ? ->]; by exists a|by intros [=]..]. Qed.

Lemma setName_safe c s : unpanicked (setName c s).
Proof. unfold setName. by destruct (_ <? _). Qed.

(** A feature list is what the kernel answered, without an error of its own, to
a question about this pool. *)
Definition reported (pool : bytes) (stats : Nvlist) : Prop :=
  exists n cmd cfg, names_pool cmd pool /\ answered n ZFS_IOC_POOL_STATS cmd cfg 0 /\
    nv_lookup cfg (bs "feature_stats") = Some (VList stats).

Lemma liveZFSFeatureStats_reported pool tr stats tr' :
  liveZFSFeatureStats pool tr = (Ok stats, tr') -> reported pool stats.
Proof.
  unfold liveZFSFeatureStats. destruct (opens _); [|by intros [=]].
  intros (cfg & Hc%recover_ok & Hf)%zmap_ok. apply zmap_ok in Hc as ([nv cookie] & Hc & Hz). cbn [fst snd] in Hz.
  destruct (cookie =? 0) eqn:E; [|done]. zb. subst cookie. injection Hz as ->.
  apply call_attempts_ok in Hc as (_ & _ & Hok); [|intros; apply setName_safe].
  destruct (Hok _ _ eq_refl) as (n & c & a & s & Hb & Ha). eexists n, _, cfg. split_and!; [by eapply setName_names|exact Ha|].
  unfold feature_stats_of in Hf. destruct (nv_lookup _ _) as [[]|]; by try injection Hf as ->.
Qed.

Lemma pool_configs_names nv cfgs : pool_configs nv = Ok cfgs -> map fst cfgs = map fst nv.
Proof.
  revert cfgs. induction nv as [|[name v] nv IH]; intros cfgs; cbn [pool_configs]; [by intros [= <-]|].
  destruct v; try done. destruct (pool_configs nv) as [rest| |]; try done. intros [= <-]. cbn. f_equal. by apply IH.
Qed.

(** The pools the kernel listed. *)
Definition imported (names : list bytes) : Prop :=
  exists n cmd nv cookie, answered n ZFS_IOC_POOL_CONFIGS cmd nv cookie /\ names = map fst nv.

Lemma liveZFSPoolNames_imported tr names tr' : liveZFSPoolNames tr = (Ok names, tr') -> imported names.
Proof.
  unfold liveZFSPoolNames. destruct (opens _); [|by intros [=]].
  intros (cfgs & Hc & [= <-])%recover_ok%zmap_ok. apply zmap_ok in Hc as ([nv cookie] & Hc & Hp).
  apply call_attempts_ok in Hc as (_ & _ & Hok); [|done]. destruct (Hok _ _ eq_refl) as (n & c & a & s & _ & Ha).
  eexists n, _, nv, cookie. split; [exact Ha|]. by apply pool_configs_names in Hp.
Qed.

(** The total of some buffer sizes. *)
Definition total (l : list Z) : Z := foldr Z.add 0 l.

(** A query that ends without a panic, has allocated at most two result buffers,
together less than its first size and the limit, and has asked the kernel once
for each of them. *)
Definition query_bounded {A} (dstSize : Z) (c : zio A) : Prop :=
  forall tr, unpanicked (c tr).1 /\ exists l, (c tr).2 = tr ++ l /\ (length l <= 2)%nat /\ total l < dstSize + maxDstGrowSize.

Lemma sizes_total s l : 0 < s < maxDstGrowSize -> sizes_ok 2 s l -> (length l <= 2)%nat /\ total l < s + maxDstGrowSize.
Proof.
  intros Hs [Hl Hf]. split; [done|]. destruct l as [|a l]; [cbn in *; lia|]. destruct Hf as [-> Hf].
  destruct l as [|b [|c l]]; unfold total; cbn [foldr length] in *; [lia| |lia].
  inversion Hf as [|? ? Hb _]; subst. lia.
Qed.

Lemma unpanicked_bind {A B} (r : outcome zfs_error A) (f : A -> outcome zfs_error B) :
  unpanicked r -> (forall a, unpanicked (f a)) -> unpanicked (obind r f).
Proof. intros [Hp He] Hf. destruct r as [a|e|]; [apply Hf| |done]. split; [done|]. cbn. congruence. Qed.

Lemma bounded_zmap {A B} (f : A -> outcome zfs_error B) c s :
  (forall a, unpanicked (f a)) -> query_bounded s c -> query_bounded s (zmap f c).
Proof.
  intros Hf Hc tr. unfold zmap. destruct (Hc tr) as [Hp Hl]. destruct (c tr) as [r tr']; cbn in *. split; [by apply unpanicked_bind|done].
Qed.

(** Two attempts never run out: the second one only happens after the first. *)
Lemma bounded_call req build s :
  roomy -> 0 < s < maxDstGrowSize -> (forall c, unpanicked (build c)) -> query_bounded s (callWithDst req build s).
Proof.
  intros Hr Hs Hb tr. unfold callWithDst. destruct (call_attempts _ _ _ _ _) as [r tr'] eqn:E.
  apply call_attempts_ok in E as (Hp & (l & -> & Hl) & _); [|done]. split; [by apply Hp|]. exists l. split; [done|]. by apply sizes_total.
Qed.

Lemma bounded_recover {A} s (c : zio A) : query_bounded s c -> query_bounded s (recoverZFSCall c).
Proof. intros Hc tr. unfold recoverZFSCall. destruct (Hc tr) as [[Hp He] Hl]. by destruct (c tr) as [[a| |] tr']. Qed.

Lemma bounded_open {A} s (c : zio A) :
  0 < s -> query_bounded s c -> query_bounded s (fun tr => if opens (length tr) then c tr else (Err EOpenZFS, tr)).
Proof.
  intros Hs Hc tr. destruct (opens _); [apply Hc|]. split; [done|]. exists []. cbn. rewrite app_nil_r. unfold maxDstGrowSize. split_and!; [done|cbn; lia|cbn; lia].
Qed.

Lemma pool_configs_safe nv : unpanicked (pool_configs nv).
Proof. induction nv as [|[name []] nv IH]; try done. cbn [pool_configs]. by apply unpanicked_bind. Qed.
Lemma feature_stats_of_safe pool cfg : unpanicked (feature_stats_of pool cfg).
Proof. unfold feature_stats_of. by destruct (nv_lookup _ _) as [[]|]. Qed.
End client.

(** C40 - On a machine that can give out 32 MiB at once, and whatever a kernel
that writes into the buffer it is handed answers, asking for the pools or for
the features of one pool ends without a panic (none is raised and caught on the
way either) after at most two ioctls, the result buffers it allocates together
are less than 16 MiB and the first size (64 KiB or 256 KiB), and no allocation of
the decoder exceeds the 32 MiB. *)
Theorem zfs_queries_bounded heap big opens addr ioctl pool (Hroomy : roomy heap ioctl) :
  query_bounded (64 * 1024) (liveZFSPoolNames heap big opens addr ioctl) /\
  query_bounded (256 * 1024) (liveZFSFeatureStats heap big opens addr ioctl pool).
Proof.
  split.
  - apply bounded_open, bounded_recover, bounded_zmap; [done|done|].
    apply bounded_zmap; [intros; apply pool_configs_safe|]. by apply bounded_call.
  - apply bounded_open, bounded_zmap; [done|apply feature_stats_of_safe|].
    apply bounded_recover, bounded_zmap; [intros [nv k]; cbn [fst snd]; by destruct (k =? 0)|].
    apply bounded_call; [done|done|]. intros; apply setName_safe.
Qed.

(** A kernel that always says the buffer is too small and asks for one byte less
than 16 MiB, leaving the buffer as it is. *)
Definition greedy_kernel (_ : nat) (_ : Z) (cmd dst : bytes) : Z * bytes * bytes :=
  (ENOMEM, setU64 false cmd offZcNvlistDstSize (maxDstGrowSize - 1), dst).

Lemma zfs_queries_bounded_witness :
  unpanicked (liveZFSPoolNames (2 * maxDstGrowSize) false (fun _ => true) (fun _ => 0) greedy_kernel []).1 /\
  query_bounded (256 * 1024) (liveZFSFeatureStats (2 * maxDstGrowSize) false (fun _ => true) (fun _ => 0) greedy_kernel (bs "rpool")).
Proof.
  assert (roomy (2 * maxDstGrowSize) greedy_kernel) as Hr by (split; [reflexivity|reflexivity]).
  destruct (zfs_queries_bounded (2 * maxDstGrowSize) false (fun _ => true) (fun _ => 0) greedy_kernel (bs "rpool") Hr) as [H1 H2].
  split; [apply (H1 [])|exact H2].
Defined.

(** That kernel gets exactly two buffers. *)
Example greedy_sizes :
  liveZFSPoolNames (2 * maxDstGrowSize) false (fun _ => true) (fun _ => 0) greedy_kernel []
  = (Err (EErrno ENOMEM), [64 * 1024; maxDstGrowSize - 1]).
Proof. vm_compute. reflexivity. Qed.
