(* ===== verification/ZfsCompat.v ===== *)
(** * ZFS feature compatibility

zfscompat.go (which features a release line implements, from the files of
zfs-compatibility.d the program embeds), the feature part of
cmd/tool/zfsnative.go, and the verdict of main.go: [selectBootPool],
[inspectZFSCompat], [bootCompatVerdict]. A Go map is a list of its entries in
the order an iteration meets them; the theorems hold for every order. *)

From Stdlib Require Import ZArith Lia Strings.Byte.
From stdpp Require Import base list.
From S2P Require Import Prelude GoStrings NvList ZfsNative.
Local Open Scope Z_scope.

(** ** The embedded files *)

Definition openzfs_2_0 : bytes := bs "# Features supported by OpenZFS 2.0 on Linux
allocation_classes
async_destroy
bookmark_v2
bookmark_written
bookmarks
device_rebuild
device_removal
edonr
embedded_data
empty_bpobj
enabled_txg
encryption
extensible_dataset
filesystem_limits
hole_birth
large_blocks
large_dnode
livelist
log_spacemap
lz4_compress
multi_vdev_crash_dump
obsolete_counts
project_quota
redacted_datasets
redaction_bookmarks
resilver_defer
sha512
skein
spacemap_histogram
spacemap_v2
userobj_accounting
zpool_checkpoint
zstd_compress
".

Definition openzfs_2_1 : bytes := bs "# Features supported by OpenZFS 2.1 on Linux
allocation_classes
async_destroy
bookmark_v2
bookmark_written
bookmarks
device_rebuild
device_removal
draid
edonr
embedded_data
empty_bpobj
enabled_txg
encryption
extensible_dataset
filesystem_limits
hole_birth
large_blocks
large_dnode
livelist
log_spacemap
lz4_compress
multi_vdev_crash_dump
obsolete_counts
project_quota
redacted_datasets
redaction_bookmarks
resilver_defer
sha512
skein
spacemap_histogram
spacemap_v2
userobj_accounting
zpool_checkpoint
zstd_compress
".

Definition openzfs_2_2 : bytes := bs "# Features supported by OpenZFS 2.2 on Linux and FreeBSD
allocation_classes
async_destroy
blake3
block_cloning
bookmark_v2
bookmark_written
bookmarks
device_rebuild
device_removal
draid
edonr
embedded_data
empty_bpobj
enabled_txg
encryption
extensible_dataset
filesystem_limits
head_errlog
hole_birth
large_blocks
large_dnode
livelist
log_spacemap
lz4_compress
multi_vdev_crash_dump
obsolete_counts
project_quota
redacted_datasets
redaction_bookmarks
resilver_defer
sha512
skein
spacemap_histogram
spacemap_v2
userobj_accounting
vdev_zaps_v2
zilsaxattr
zpool_checkpoint
zstd_compress
".

Definition openzfs_2_3 : bytes := bs "# Features supported by OpenZFS 2.3 on Linux and FreeBSD
allocation_classes
async_destroy
blake3
block_cloning
bookmark_v2
bookmark_written
bookmarks
device_rebuild
device_removal
draid
edonr
embedded_data
empty_bpobj
enabled_txg
encryption
extensible_dataset
fast_dedup
filesystem_limits
head_errlog
hole_birth
large_blocks
large_dnode
large_microzap
livelist
log_spacemap
longname
lz4_compress
multi_vdev_crash_dump
obsolete_counts
project_quota
raidz_expansion
redacted_datasets
redaction_bookmarks
redaction_list_spill
resilver_defer
sha512
skein
spacemap_histogram
spacemap_v2
userobj_accounting
vdev_zaps_v2
zilsaxattr
zpool_checkpoint
zstd_compress
".

Definition openzfs_2_4 : bytes := bs "# Features supported by OpenZFS 2.4 on Linux and FreeBSD
allocation_classes
async_destroy
blake3
block_cloning
block_cloning_endian
bookmark_v2
bookmark_written
bookmarks
device_rebuild
device_removal
draid
dynamic_gang_header
edonr
embedded_data
empty_bpobj
enabled_txg
encryption
extensible_dataset
fast_dedup
filesystem_limits
head_errlog
hole_birth
large_blocks
large_dnode
large_microzap
livelist
log_spacemap
longname
lz4_compress
multi_vdev_crash_dump
obsolete_counts
physical_rewrite
project_quota
raidz_expansion
redacted_datasets
redaction_bookmarks
redaction_list_spill
resilver_defer
sha512
skein
spacemap_histogram
spacemap_v2
userobj_accounting
vdev_zaps_v2
zilsaxattr
zpool_checkpoint
zstd_compress
".

Definition zfsCompatFS : list (bytes * bytes) :=
  [ (bs "zfs-compatibility.d/openzfs-2.0-linux", openzfs_2_0);
    (bs "zfs-compatibility.d/openzfs-2.1-linux", openzfs_2_1);
    (bs "zfs-compatibility.d/openzfs-2.2", openzfs_2_2);
    (bs "zfs-compatibility.d/openzfs-2.3", openzfs_2_3);
    (bs "zfs-compatibility.d/openzfs-2.4", openzfs_2_4) ].

Definition zfsCompatReleaseLineFile : list (bytes * bytes) :=
  [ (bs "2.0", bs "zfs-compatibility.d/openzfs-2.0-linux");
    (bs "2.1", bs "zfs-compatibility.d/openzfs-2.1-linux");
    (bs "2.2", bs "zfs-compatibility.d/openzfs-2.2");
    (bs "2.3", bs "zfs-compatibility.d/openzfs-2.3");
    (bs "2.4", bs "zfs-compatibility.d/openzfs-2.4") ].

(** The table of cmd/tool/zfsnative.go. *)
Definition zfsFeatureGUIDToShortName : list (bytes * bytes) :=
  [ (bs "org.zfsonlinux:allocation_classes", bs "allocation_classes");
    (bs "com.delphix:async_destroy", bs "async_destroy");
    (bs "org.openzfs:blake3", bs "blake3");
    (bs "com.fudosecurity:block_cloning", bs "block_cloning");
    (bs "com.truenas:block_cloning_endian", bs "block_cloning_endian");
    (bs "com.datto:bookmark_v2", bs "bookmark_v2");
    (bs "com.delphix:bookmark_written", bs "bookmark_written");
    (bs "com.delphix:bookmarks", bs "bookmarks");
    (bs "org.openzfs:device_rebuild", bs "device_rebuild");
    (bs "com.delphix:device_removal", bs "device_removal");
    (bs "org.openzfs:draid", bs "draid");
    (bs "com.seagate:draid_failure_domains", bs "draid_failure_domains");
    (bs "com.klarasystems:dynamic_gang_header", bs "dynamic_gang_header");
    (bs "org.illumos:edonr", bs "edonr");
    (bs "com.delphix:embedded_data", bs "embedded_data");
    (bs "com.delphix:empty_bpobj", bs "empty_bpobj");
    (bs "com.delphix:enabled_txg", bs "enabled_txg");
    (bs "com.datto:encryption", bs "encryption");
    (bs "com.delphix:extensible_dataset", bs "extensible_dataset");
    (bs "com.klarasystems:fast_dedup", bs "fast_dedup");
    (bs "com.joyent:filesystem_limits", bs "filesystem_limits");
    (bs "com.delphix:head_errlog", bs "head_errlog");
    (bs "com.delphix:hole_birth", bs "hole_birth");
    (bs "org.open-zfs:large_blocks", bs "large_blocks");
    (bs "org.zfsonlinux:large_dnode", bs "large_dnode");
    (bs "com.klarasystems:large_microzap", bs "large_microzap");
    (bs "com.delphix:livelist", bs "livelist");
    (bs "com.delphix:log_spacemap", bs "log_spacemap");
    (bs "org.zfsonlinux:longname", bs "longname");
    (bs "org.illumos:lz4_compress", bs "lz4_compress");
    (bs "com.joyent:multi_vdev_crash_dump", bs "multi_vdev_crash_dump");
    (bs "com.delphix:obsolete_counts", bs "obsolete_counts");
    (bs "com.truenas:physical_rewrite", bs "physical_rewrite");
    (bs "org.zfsonlinux:project_quota", bs "project_quota");
    (bs "org.openzfs:raidz_expansion", bs "raidz_expansion");
    (bs "com.delphix:redacted_datasets", bs "redacted_datasets");
    (bs "com.delphix:redaction_bookmarks", bs "redaction_bookmarks");
    (bs "com.delphix:redaction_list_spill", bs "redaction_list_spill");
    (bs "com.datto:resilver_defer", bs "resilver_defer");
    (bs "org.illumos:sha512", bs "sha512");
    (bs "org.illumos:skein", bs "skein");
    (bs "com.delphix:spacemap_histogram", bs "spacemap_histogram");
    (bs "com.delphix:spacemap_v2", bs "spacemap_v2");
    (bs "org.zfsonlinux:userobj_accounting", bs "userobj_accounting");
    (bs "com.klarasystems:vdev_zaps_v2", bs "vdev_zaps_v2");
    (bs "org.openzfs:zilsaxattr", bs "zilsaxattr");
    (bs "com.delphix:zpool_checkpoint", bs "zpool_checkpoint");
    (bs "org.freebsd:zstd_compress", bs "zstd_compress") ].

Fixpoint lookup_str (m : list (bytes * bytes)) (k : bytes) : option bytes :=
  match m with
  | [] => None
  | (k', v) :: t => if decide (k' = k) then Some v else lookup_str t k
  end.

(** ** zfscompat.go *)

Inductive compat_error := ENotAVersion (raw : bytes).

Fixpoint leading_digits (s : bytes) : bytes :=
  match s with
  | [] => []
  | b :: t => if is_digit b then b :: leading_digits t else []
  end.

(** The match of [zfsVersionPrefix], ^(\d+)\.(\d+), joined again. *)
Definition zfsReleaseLine (rawVersion : bytes) : outcome compat_error bytes :=
  let m1 := leading_digits rawVersion in
  match drop (length m1) rawVersion with
  | x2e :: rest =>
      let m2 := leading_digits rest in
      match m1, m2 with
      | _ :: _, _ :: _ => Ok (m1 ++ bs "." ++ m2)
      | _, _ => Err (ENotAVersion rawVersion)
      end
  | _ => Err (ENotAVersion rawVersion)
  end.

Definition feature_lines (data : bytes) : list bytes :=
  List.filter (fun l => negb (beq l [] || has_prefix l (bs "#"))) (map trim_space (split x0a data)).

(** [None]: no file for this line. A file listed but not embedded panics. *)
Definition zfsSupportedFeatures (releaseLine : bytes) : outcome compat_error (option (list bytes)) :=
  match lookup_str zfsCompatReleaseLineFile releaseLine with
  | None => Ok None
  | Some path =>
      match lookup_str zfsCompatFS path with
      | None => Panic
      | Some data => Ok (Some (feature_lines data))
      end
  end.

Record ZFSCompatResult := mkCompat { ReleaseLine : bytes; KnownReleaseLine : bool; Unsupported : list bytes }.

Definition Compatible (r : ZFSCompatResult) : bool :=
  KnownReleaseLine r && (len (Unsupported r) =? 0).

Definition has_feature (supported : list bytes) (f : bytes) : bool := bool_decide (f ∈ supported).

Definition CheckZFSCompat (rawOpenZFSVersion : bytes) (activeFeatures : list bytes) : outcome compat_error ZFSCompatResult :=
  let! line := zfsReleaseLine rawOpenZFSVersion in
  let! supported := zfsSupportedFeatures line in
  match supported with
  | None => Ok (mkCompat line false [])
  | Some fs => Ok (mkCompat line true (List.filter (fun f => negb (has_feature fs f)) activeFeatures))
  end.

(** ** cmd/tool: the features of the live pool *)

Record found := mkFound { f_pool : list bytes; f_active : list bytes; f_unknown : list bytes }.

(** The loop of [parseFeatureStats]. *)
Fixpoint feature_loop (stats : Nvlist) (acc : found) : outcome zfs_error found :=
  match stats with
  | [] => Ok acc
  | (guid, v) :: t =>
      match v with
      | VUint64 refcount =>
          match lookup_str zfsFeatureGUIDToShortName guid with
          | None => feature_loop t (mkFound (f_pool acc) (f_active acc) (f_unknown acc ++ [guid]))
          | Some name =>
              let state := if 0 <? refcount then bs "active" else bs "enabled" in
              feature_loop t
                (mkFound (f_pool acc ++ [name ++ bs "=" ++ state])
                   (if beq state (bs "active") then f_active acc ++ [name] else f_active acc) (f_unknown acc))
          end
      | _ => Err (EFeatureCount guid)
      end
  end.

Definition parseFeatureStats (stats : Nvlist) : outcome zfs_error (list bytes * list bytes) :=
  let! acc := feature_loop stats (mkFound [] [] []) in
  if 0 <? len (f_unknown acc) then Err (EUnknownGUIDs (sort_strings (f_unknown acc))) else
  Ok (sort_strings (f_pool acc), sort_strings (f_active acc)).

Definition selectBootPool (bootPool : bytes) (imported : list bytes) : outcome zfs_error bytes :=
  if beq bootPool [] then
    match imported with
    | [p] => Ok p
    | _ => Err (EPoolUnknown imported)
    end
  else if bool_decide (bootPool ∈ imported) then Ok bootPool
  else Err (EPoolNotImported bootPool imported).

Record zfsCompat := mkZfsCompat {
  poolName : bytes; poolFeatures : list bytes; activeFeatures : list bytes; poolErr : option zfs_error
}.

Inductive verdict := UNKNOWN | VERIFIED | NO (unsupported : list bytes).

(** The fields of [report] the verdict reads: the OpenZFS version of the boot
environment, unless it could not be determined. *)
Definition bootCompatVerdict (openZFSVersion : option bytes) (z : zfsCompat) : verdict :=
  match openZFSVersion, poolErr z with
  | Some v, None =>
      match CheckZFSCompat v (activeFeatures z) with
      | Ok result =>
          if negb (KnownReleaseLine result) then UNKNOWN
          else if Compatible result then VERIFIED
          else NO (Unsupported result)
      | _ => UNKNOWN
      end
  | _, _ => UNKNOWN
  end.

Section live.
Context (heap : Z) (big : bool) (opens : nat -> bool) (addr : nat -> Z).
Context (ioctl : nat -> Z -> bytes -> bytes -> Z * bytes * bytes).

Definition no_pool (name : bytes) (e : zfs_error) : zfsCompat := mkZfsCompat name [] [] (Some e).

(** Every error becomes [poolErr]; a panic below is already an error
([recoverZFSCall]). *)
Definition error_of {A} (r : outcome zfs_error A) : zfs_error :=
  match r with Err e => e | _ => EPanicked end.

Definition inspectZFSCompat (bootPool : bytes) (tr : list Z) : zfsCompat * list Z :=
  let (names, tr) := liveZFSPoolNames heap big opens addr ioctl tr in
  match names with
  | Ok [] => (no_pool [] ENoPool, tr)
  | Ok names =>
      match selectBootPool bootPool names with
      | Ok pool =>
          let (stats, tr) := liveZFSFeatureStats heap big opens addr ioctl pool tr in
          match stats with
          | Ok stats =>
              match parseFeatureStats stats with
              | Ok (pf, af) => (mkZfsCompat pool pf af None, tr)
              | r => (no_pool pool (error_of r), tr)
              end
          | r => (no_pool pool (error_of r), tr)
          end
      | r => (no_pool [] (error_of r), tr)
      end
  | r => (no_pool [] (error_of r), tr)
  end.
End live.

(** ** Features of a pool, whatever the order of the map *)

(** One entry: the short name, and whether the feature is active. *)
Definition feature_of (e : bytes * Value) : option (bytes * bool) :=
  match e.2 with
  | VUint64 n => (fun name => (name, 0 <? n)) <$> lookup_str zfsFeatureGUIDToShortName e.1
  | _ => None
  end.

Definition recognised (stats : Nvlist) : Prop := Forall (fun e => is_Some (feature_of e)) stats.

Definition display (x : bytes * bool) : bytes := x.1 ++ bs "=" ++ (if x.2 then bs "active" else bs "enabled").

Definition active_names (stats : Nvlist) : list bytes :=
  omap (fun e => match feature_of e with Some (name, true) => Some name | _ => None end) stats.

Definition displayed (stats : Nvlist) : list bytes := omap (fun e => display <$> feature_of e) stats.

Lemma lookup_str_In m k v : lookup_str m k = Some v -> (k, v) ∈ m.
Proof.
  induction m as [|[k' v'] m IH]; [done|]. cbn. destruct (decide (k' = k)) as [->|_]; [intros [= ->]; by left|].
  intros H. right. by apply IH.
Qed.

Definition add_found (acc : found) (guid : bytes) (x : option (bytes * bool)) : found :=
  match x with
  | None => mkFound (f_pool acc) (f_active acc) (f_unknown acc ++ [guid])
  | Some x => mkFound (f_pool acc ++ [display x]) (if x.2 then f_active acc ++ [x.1] else f_active acc) (f_unknown acc)
  end.

(** One turn of the loop, by what the entry is. *)
Lemma feature_loop_cons guid v t acc :
  feature_loop ((guid, v) :: t) acc =
  match v with
  | VUint64 n => feature_loop t (add_found acc guid (feature_of (guid, v)))
  | _ => Err (EFeatureCount guid)
  end.
Proof.
  destruct v as [| | | | |n| | | | | | | |]; try reflexivity. cbn [feature_loop]. unfold feature_of. cbn [fst snd].
  destruct (lookup_str _ guid) as [name|]; [|reflexivity]. cbn [fmap option_fmap option_map add_found]. unfold display. cbn [fst snd].
  destruct (0 <? n); reflexivity.
Qed.

Lemma displayed_cons e t : displayed (e :: t) = match feature_of e with Some x => display x :: displayed t | None => displayed t end.
Proof. unfold displayed. cbn [omap list_omap]. by destruct (feature_of e). Qed.

Lemma active_names_cons e t :
  active_names (e :: t) = match feature_of e with Some (name, true) => name :: active_names t | _ => active_names t end.
Proof. unfold active_names. cbn [omap list_omap]. by destruct (feature_of e) as [[? []]|]. Qed.

(** The loop appends what the recognised entries say, and remembers the others. *)
Lemma feature_loop_spec stats acc r :
  feature_loop stats acc = Ok r ->
  f_pool r = f_pool acc ++ displayed stats /\ f_active r = f_active acc ++ active_names stats /\
  (f_unknown r = [] <-> f_unknown acc = [] /\ recognised stats).
Proof.
  revert acc. unfold recognised. induction stats as [|[guid v] stats IH]; intros acc.
  { intros [= <-]. cbn. rewrite !app_nil_r. split_and!; try done. split; [done|by intros [? _]]. }
  rewrite feature_loop_cons, displayed_cons, active_names_cons, Forall_cons. destruct v as [| | | | |n| | | | | | | |]; try done.
  destruct (feature_of _) as [[name b]|]; intros H; apply IH in H as (-> & -> & ->); cbn [add_found f_pool f_active f_unknown fst snd].
  - rewrite <- app_assoc. split_and!; [done| |].
    + destruct b; [by rewrite <- app_assoc|done].
    + split; [intros [? ?]; split_and!; [done|by eexists|done]|by intros (? & _ & ?)].
  - split_and!; [done|done|]. split; [intros [H _]; by destruct (f_unknown acc)|by intros (_ & [? [=]] & _)].
Qed.

Lemma feature_loop_runs stats acc : recognised stats -> exists r, feature_loop stats acc = Ok r.
Proof.
  intros H. revert acc. induction H as [|[guid v] stats [x Hx] _ IH]; intros acc; [by eexists|].
  rewrite feature_loop_cons. unfold feature_of in Hx. cbn [fst snd] in Hx. destruct v; try discriminate Hx. apply IH.
Qed.

Lemma parseFeatureStats_spec stats pf af :
  parseFeatureStats stats = Ok (pf, af) <->
  recognised stats /\ pf = sort_strings (displayed stats) /\ af = sort_strings (active_names stats).
Proof.
  unfold parseFeatureStats. split.
  - destruct (feature_loop _ _) as [r| |] eqn:E; [|done..]. cbn [obind]. apply feature_loop_spec in E as (Ep & Ea & Eu).
    cbn [f_pool f_active f_unknown app] in *. destruct (0 <? len (f_unknown r)) eqn:El; [done|]. zb. intros [= <- <-].
    rewrite Ep, Ea. split_and!; [|done..]. apply Eu, nil_length_inv. unfold len in El. lia.
  - intros (Hr & -> & ->). destruct (feature_loop_runs stats (mkFound [] [] []) Hr) as [r E]. rewrite E. cbn [obind].
    apply feature_loop_spec in E as (Ep & Ea & Eu). cbn [f_pool f_active f_unknown app] in *.
    rewrite (proj2 Eu) by done. by rewrite Ep, Ea.
Qed.

Lemma recognised_perm stats stats' : stats ≡ₚ stats' -> recognised stats -> recognised stats'.
Proof. intros H. unfold recognised. by rewrite H. Qed.

(** What a pool reports as active under a name the program knows. *)
Lemma active_names_elem stats name :
  name ∈ active_names stats <->
  exists guid n, (guid, VUint64 n) ∈ stats /\ 0 < n /\ lookup_str zfsFeatureGUIDToShortName guid = Some name.
Proof.
  unfold active_names. rewrite list_elem_of_omap. unfold feature_of. split.
  - intros ([guid v] & He & Hv). cbn [fst snd] in Hv. destruct v as [| | | | |n| | | | | | | |]; try discriminate Hv.
    exists guid, n. split; [done|]. destruct (lookup_str _ guid) as [x|]; [|discriminate Hv]. cbn in Hv.
    destruct (0 <? n) eqn:E; [|discriminate Hv]. zb. injection Hv as ->. done.
  - intros (guid & n & He & Hn & Hl). exists (guid, VUint64 n). split; [done|]. cbn [fst snd]. rewrite Hl. cbn.
    by rewrite (proj2 (Z.ltb_lt 0 n) Hn).
Qed.

(** ** Release lines *)

Lemma compat_files_embedded line : safe (zfsSupportedFeatures line).
Proof.
  unfold safe, zfsSupportedFeatures, zfsCompatReleaseLineFile. cbn [lookup_str].
  repeat (destruct (decide (_ = line)); [discriminate|]). discriminate.
Qed.

Definition supports (line f : bytes) : Prop := exists fs, zfsSupportedFeatures line = Ok (Some fs) /\ f ∈ fs.

Definition known_line (line : bytes) : Prop := exists fs, zfsSupportedFeatures line = Ok (Some fs).

Definition missing_from (line : bytes) (active un : list bytes) : Prop :=
  forall f, f ∈ un <-> f ∈ active /\ ~ supports line f.

Lemma release_line_safe v : safe (zfsReleaseLine v).
Proof.
  unfold safe, zfsReleaseLine. destruct (drop _ v) as [|[] rest]; try discriminate.
  destruct (leading_digits v); [discriminate|]. destruct (leading_digits rest); discriminate.
Qed.

(** What a check can answer. *)
Lemma CheckZFSCompat_ok v active r :
  CheckZFSCompat v active = Ok r ->
  zfsReleaseLine v = Ok (ReleaseLine r) /\
  (KnownReleaseLine r = true -> known_line (ReleaseLine r) /\ missing_from (ReleaseLine r) active (Unsupported r)).
Proof.
  unfold CheckZFSCompat. destruct (zfsReleaseLine v) as [line| |]; [|discriminate..]. cbn [obind].
  destruct (zfsSupportedFeatures line) as [[fs|]| |] eqn:E; [|intros [= <-]; split; [done|discriminate]|discriminate..].
  intros [= <-]. cbn [ReleaseLine KnownReleaseLine Unsupported]. split; [done|]. intros _. split; [by exists fs|].
  intros f. rewrite list_elem_of_In, filter_In, <- list_elem_of_In. unfold has_feature, supports. rewrite E.
  apply and_iff_compat_l. rewrite negb_true_iff, bool_decide_eq_false. split.
  - intros Hn (fs' & [= <-] & Hf). by apply Hn.
  - intros Hn Hf. apply Hn. by exists fs.
Qed.

Lemma Compatible_true r : Compatible r = true <-> KnownReleaseLine r = true /\ Unsupported r = [].
Proof.
  unfold Compatible. rewrite andb_true_iff, Z.eqb_eq. apply and_iff_compat_l. unfold len. split; [|by intros ->].
  intros H. apply nil_length_inv. lia.
Qed.

(** ** The pool that is checked *)

Definition chosen (bootPool : bytes) (names : list bytes) (pool : bytes) : Prop :=
  pool ∈ names /\ (bootPool <> [] -> pool = bootPool) /\ (bootPool = [] -> names = [pool]).

Lemma selectBootPool_chosen bootPool names pool : selectBootPool bootPool names = Ok pool -> chosen bootPool names pool.
Proof.
  unfold selectBootPool, chosen. destruct (beq bootPool []) eqn:E.
  - apply beq_true in E as ->. destruct names as [|p [|]]; [discriminate| |discriminate]. intros [= ->].
    split_and!; [by apply list_elem_of_singleton|done|done].
  - apply beq_false in E. destruct (bool_decide _) eqn:Eb; [|discriminate]. intros [= <-].
    split_and!; [by apply bool_decide_eq_true in Eb|done|done].
Qed.

Section verdicts.
Context (heap : Z) (big : bool) (opens : nat -> bool) (addr : nat -> Z).
Context (ioctl : nat -> Z -> bytes -> bytes -> Z * bytes * bytes).

(** The features of the boot pool, as the kernel reports them. *)
Definition boot_features (bootPool : bytes) (stats : Nvlist) : Prop :=
  exists names pool, imported heap big ioctl names /\ chosen bootPool names pool /\ reported heap big ioctl pool stats.

Lemma inspectZFSCompat_ok bootPool tr :
  let z := (inspectZFSCompat heap big opens addr ioctl bootPool tr).1 in
  poolErr z = None -> exists stats, boot_features bootPool stats /\ recognised stats /\
    forall f, f ∈ activeFeatures z <-> f ∈ active_names stats.
Proof.
  unfold inspectZFSCompat. destruct (liveZFSPoolNames _ _ _ _ _ _) as [[names| |] tr1] eqn:En; [|discriminate..].
  destruct names as [|n0 names']; [discriminate|]. revert En. generalize (n0 :: names'). intros names En.
  destruct (selectBootPool _ _) as [pool| |] eqn:Es; [|discriminate..].
  destruct (liveZFSFeatureStats _ _ _ _ _ _ _) as [[stats| |] tr2] eqn:Ef; [|discriminate..].
  destruct (parseFeatureStats stats) as [[pf af]| |] eqn:Ep; [|discriminate..]. intros _. exists stats.
  apply parseFeatureStats_spec in Ep as (Hr & _ & ->). split_and!; [|done|].
  - exists names, pool. split_and!; [by eapply liveZFSPoolNames_imported|by apply selectBootPool_chosen|].
    by eapply liveZFSFeatureStats_reported.
  - intros f. cbn [fst activeFeatures]. by rewrite sort_strings_perm.
Qed.

(** Judged: the initrd's OpenZFS release line is one the program has data for,
and [stats] are the features of the boot pool, every one of them recognised. *)
Definition judged (openZFSVersion : option bytes) (bootPool line : bytes) (stats : Nvlist) : Prop :=
  (exists v, openZFSVersion = Some v /\ zfsReleaseLine v = Ok line) /\ known_line line /\
  boot_features bootPool stats /\ recognised stats.

Definition active_in (stats : Nvlist) (name : bytes) : Prop :=
  exists guid n, (guid, VUint64 n) ∈ stats /\ 0 < n /\ lookup_str zfsFeatureGUIDToShortName guid = Some name.
End verdicts.

(** C21 - The "Boot compatible" verdict is sound both ways: VERIFIED means that
the pool this build boots (the one its command line names, or the only one
imported) was asked for its features, that every feature the kernel reported is
one the program can name, and that each active one is implemented by the OpenZFS
release line of the installed initrd; NO lists exactly the active features that
line does not implement, at least one. *)
Theorem bootCompatVerdict_sound heap big opens addr ioctl openZFSVersion bootPool tr :
  match bootCompatVerdict openZFSVersion (inspectZFSCompat heap big opens addr ioctl bootPool tr).1 with
  | VERIFIED => exists line stats, judged heap big ioctl openZFSVersion bootPool line stats /\
      forall f, active_in stats f -> supports line f
  | NO un => exists line stats, judged heap big ioctl openZFSVersion bootPool line stats /\
      un <> [] /\ forall f, f ∈ un <-> active_in stats f /\ ~ supports line f
  | UNKNOWN => True
  end.
Proof.
  pose proof (inspectZFSCompat_ok heap big opens addr ioctl bootPool tr) as Hz.
  destruct (inspectZFSCompat _ _ _ _ _ _ _) as [z tr']. cbn [fst] in *. unfold bootCompatVerdict.
  destruct openZFSVersion as [v|]; [|done]. destruct (poolErr z); [done|].
  destruct (Hz eq_refl) as (stats & Hb & Hr & Ha). destruct (CheckZFSCompat v _) as [r| |] eqn:Ec; [|done..].
  apply CheckZFSCompat_ok in Ec as [El Hk]. destruct (KnownReleaseLine r) eqn:Ek; [|done]. cbn [negb].
  destruct (Hk eq_refl) as [Hl Hm]. assert (judged heap big ioctl (Some v) bootPool (ReleaseLine r) stats) as Hj.
  { split_and!; [by exists v|done..]. }
  destruct (Compatible r) eqn:Eq.
  - apply Compatible_true in Eq as [_ Hu]. exists (ReleaseLine r), stats. split; [done|]. intros f Hf.
    rewrite Hu in Hm. unfold supports, known_line in *. destruct Hl as [fs Hl]. exists fs. split; [done|].
    destruct (decide (f ∈ fs)) as [|Hn]; [done|]. exfalso. apply (not_elem_of_nil f), Hm. split.
    + by apply Ha, active_names_elem.
    + intros (fs' & Hl' & Hf'). rewrite Hl in Hl'. injection Hl' as <-. by apply Hn.
  - exists (ReleaseLine r), stats. split_and!; [done| |].
    + intros Hu. assert (Compatible r = true) as Ht by by apply Compatible_true. congruence.
    + intros f. rewrite (Hm f), Ha, active_names_elem. done.
Qed.

(** The verdict does not depend on the order in which Go walks the map. *)
Theorem parseFeatureStats_order stats stats' r :
  stats ≡ₚ stats' -> parseFeatureStats stats = Ok r -> parseFeatureStats stats' = Ok r.
Proof.
  destruct r as [pf af]. intros Hp. rewrite !parseFeatureStats_spec. intros (Hr & -> & ->).
  split_and!; [by eapply recognised_perm|..]; apply sort_strings_unique; unfold displayed, active_names; by rewrite Hp.
Qed.

(** ** The embedded data *)

Definition release_lines : list bytes := map fst zfsCompatReleaseLineFile.

Definition features_at (line : bytes) : list bytes :=
  match zfsSupportedFeatures line with Ok (Some fs) => fs | _ => [] end.

(** Each line's features are among those of the next. *)
Fixpoint growing (lines : list bytes) : bool :=
  match lines with
  | a :: (b :: _) as t => forallb (has_feature (features_at b)) (features_at a) && growing t
  | _ => true
  end.

Lemma supports_features line f : supports line f <-> f ∈ features_at line.
Proof.
  unfold supports, features_at. split; [by intros (fs & -> & Hf)|].
  destruct (zfsSupportedFeatures line) as [[fs|]| |]; [|by intros ?%elem_of_nil..]. intros Hf. by exists fs.
Qed.

Lemma growing_sub lines i j a b : growing lines = true -> (i <= j)%nat -> lines !! i = Some a -> lines !! j = Some b ->
  features_at a ⊆ features_at b.
Proof.
  revert i j a. induction lines as [|x [|y t] IH]; intros i j a Hg Hij Ha Hb; [done| |].
  - destruct i, j; try done. cbn in *. by simplify_eq.
  - cbn [growing] in Hg. apply andb_true_iff in Hg as [H1 H2]. destruct i as [|i], j as [|j]; cbn in Ha, Hb.
    + by simplify_eq.
    + injection Ha as <-. transitivity (features_at y).
      * intros f Hf. rewrite forallb_forall in H1. apply list_elem_of_In, H1 in Hf. by apply bool_decide_eq_true in Hf.
      * apply (IH O j y H2); [lia|done|done].
    + lia.
    + apply (IH i j a H2); [lia|done|done].
Qed.

Lemma known_release_line line : known_line line -> line ∈ release_lines.
Proof.
  intros [fs H]. unfold zfsSupportedFeatures in H. destruct (lookup_str _ line) as [p|] eqn:E; [|discriminate H].
  apply lookup_str_In in E. unfold release_lines. apply list_elem_of_In, in_map_iff. exists (line, p).
  split; [done|by apply list_elem_of_In].
Qed.

(** Whether some GUID of the table stands for [f]. *)
Definition has_guid (f : bytes) : bool :=
  existsb (fun p => beq p.2 f && bool_decide (lookup_str zfsFeatureGUIDToShortName p.1 = Some f)) zfsFeatureGUIDToShortName.

Lemma lines_have_guids : forallb (fun line => forallb has_guid (features_at line)) release_lines = true.
Proof. vm_compute. reflexivity. Qed.

Lemma features_have_guids line f :
  line ∈ release_lines -> f ∈ features_at line -> exists guid, lookup_str zfsFeatureGUIDToShortName guid = Some f.
Proof.
  intros Hl Hf. pose proof lines_have_guids as H. rewrite forallb_forall in H. apply list_elem_of_In, H in Hl.
  rewrite forallb_forall in Hl. apply list_elem_of_In, Hl in Hf. unfold has_guid in Hf.
  apply existsb_exists in Hf as ([guid x] & _ & Hx). apply andb_true_iff in Hx as [_ Hx]. exists guid.
  by apply bool_decide_eq_true in Hx.
Qed.

Lemma lines_grow : growing release_lines = true.
Proof. vm_compute. reflexivity. Qed.

Lemma lines_known : Forall known_line release_lines.
Proof. repeat (apply List.Forall_cons; [by eexists|]). apply List.Forall_nil. Qed.

(** The embedded compatibility files fit together and fit the GUID table: a
newer release line implements whatever an older one does, so a pool a boot
environment can import stays importable when the environment moves to a newer
line; and every feature of every line has a GUID in the table, so a pool that
uses only features of those lines is never refused as unrecognised. *)
Theorem release_lines_grow :
  (forall i j a b f, (i <= j)%nat -> release_lines !! i = Some a -> release_lines !! j = Some b -> supports a f -> supports b f) /\
  (forall line f, supports line f -> exists guid, lookup_str zfsFeatureGUIDToShortName guid = Some f) /\
  (forall line, known_line line <-> line ∈ release_lines).
Proof.
  split_and!.
  - intros i j a b f Hij Ha Hb. rewrite !supports_features. by apply (growing_sub release_lines i j a b lines_grow).
  - intros line f Hf. assert (line ∈ release_lines) as Hl.
    { apply known_release_line. destruct Hf as (fs & H & _). by exists fs. }
    apply supports_features in Hf. by apply (features_have_guids line).
  - intros line. split; [apply known_release_line|]. revert line. apply Forall_forall, lines_known.
Qed.

(** ** A pool with three features *)

Definition nv_header : bytes := [x00; x01; x00; x00] ++ zeros 8.

Definition sample_configs : bytes := nv_header ++ nv_pair (bs "rpool") dataTypeNVList 1 (zeros 24) ++ zeros 4 ++ zeros 4.

Definition sample_stats : bytes :=
  nv_header ++ nv_pair (bs "feature_stats") dataTypeNVList 1 (zeros 24)
  ++ nv_pair (bs "com.delphix:hole_birth") dataTypeUint64 1 (le_put 8 1)
  ++ nv_pair (bs "org.openzfs:blake3") dataTypeUint64 1 (le_put 8 2)
  ++ nv_pair (bs "com.datto:encryption") dataTypeUint64 1 (le_put 8 0) ++ zeros 4 ++ zeros 4.

Definition sample_ioctl (_ : nat) (req : Z) (cmd _ : bytes) : Z * bytes * bytes :=
  (0, zeros sizeofZfsCmd, if req =? ZFS_IOC_POOL_CONFIGS then sample_configs else sample_stats).

Definition sample_verdict (version bootPool : bytes) : verdict :=
  bootCompatVerdict (Some version)
    (inspectZFSCompat (2 * maxDstGrowSize) false (fun _ => true) (fun _ => 0) sample_ioctl bootPool []).1.

Example sample_verified : sample_verdict (bs "2.4.4-1") (bs "rpool") = VERIFIED.
Proof. vm_compute. reflexivity. Qed.

Example sample_no : sample_verdict (bs "2.1.5") [] = NO [bs "blake3"].
Proof. vm_compute. reflexivity. Qed.

Example sample_other_pool : sample_verdict (bs "2.4.4-1") (bs "tank") = UNKNOWN.
Proof. vm_compute. reflexivity. Qed.
