(* ===== verification/Inspect.v ===== *)
(** * cmd/tool: the report of one target, and verify

[inspect], [report.errs], [verifyTarget] (main.go) and [runVerify] (mirror.go).
Fields of the report that are only printed (descriptions, the INT 13h line) are
left out. What the kernel says about pools is an argument, [live]: the
[inspectZFSCompat] of ZfsCompat.v at that moment. [die] ends the process: the
error of the computation. *)

From Stdlib Require Import ZArith Lia Strings.Byte.
From stdpp Require Import base list gmap.
From S2P Require Import Prelude GoStrings Layout World EspConfig PayloadSum BlkSum BiosBoot Stages KernelInfo InitrdInfo Metadata Payload CmdLine UefiBoot Verify Update Spare EspSet Mirror MirrorOps NvList ZfsNative ZfsCompat.
Local Open Scope Z_scope.

Record report := mkReport {
  r_installedVersion : bytes;
  r_stage1Err : option verify_error; r_stage2Err : option verify_error; r_loaderErr : option verify_error;
  r_kernelErr : option verify_error; r_initrdErr : option verify_error;
  r_cmdlineErr : option verify_error; r_configErr : option verify_error;
  r_kernelVersion : option bytes; r_openZFSVersion : option bytes;
  r_metadataPresent : bool; r_metadataErr : option verify_error; r_metadataVerified : bool;
  r_sums : sumReport; r_integrityOverride : bytes; r_blkSum : option blk_line;
  r_zfs : option zfsCompat; r_int13Chunk : option int13_status
}.

Definition no_sums : sumReport := mkSumReport false None [] false false false.

(** A report that stops at the loader. *)
Definition loader_failed (e : ioerr) : report :=
  mkReport [] None None (Some (VIo e)) None None None None (Some []) (Some []) false None false no_sums [] None None None.

Definition failure_of (f : metadata_file) : option verify_error :=
  match f with MBroken e => Some (VMetadata e) | MUnreadable e => Some (VIo e) | _ => None end.

(** [report.errs]: what makes verify fail. *)
Definition report_errs (r : report) : list verify_error :=
  omap id [r_stage1Err r; r_stage2Err r; r_loaderErr r; r_kernelErr r; r_initrdErr r; r_cmdlineErr r; r_configErr r; r_metadataErr r]
  ++ match payloadSumErr (r_sums r) with
     | Some e => if beq (payloadSumMode (r_sums r)) ModeEnforce then [e] else []
     | None => []
     end.

(** A field of [zfsCompat] a report without it shows: the zero value. *)
Definition report_verdict (r : report) : verdict :=
  bootCompatVerdict (r_openZFSVersion r) (default (mkZfsCompat [] [] [] None) (r_zfs r)).

(** [appendCompatErr]: the features a NO names are the message. *)
Definition appendCompatErr (errs : list verify_error) (r : report) : list verify_error :=
  match report_verdict r with
  | NO un => errs ++ [VField (bs "ZFS boot compatibility") (bs "NO") (join (bs ", ") un)]
  | _ => errs
  end.

Definition verifyMountReadonly (repair : bool) : bool := negb repair.

(** The optional reference files; kernel, initrd and cmdline go together. *)
Record verifyFiles := mkVerifyFiles {
  f_efi : option (bytes * bytes); f_stage1 : option (bytes * bytes); f_stage2 : option (bytes * bytes);
  f_payload : option ((bytes * bytes) * (bytes * bytes) * (bytes * bytes))
}.

Definition no_files : verifyFiles := mkVerifyFiles None None None None.

Section inspect.
Context {O : Oracle}.
Context (pe : bytes -> option peFile).
Context (kgzip : bytes -> option (bytes * bool)) (gzip xz : bytes -> option reader) (modinfo : bytes -> elf_section).
Context (live : bytes -> zfsCompat).

(** A version read from bytes that may be missing; [None] on any error. *)
Definition version_in {E} (data : io bytes) (f : bytes -> outcome E bytes) : io (option bytes) :=
  do raw := attempt data in
  match raw with
  | Ok d => match f d with Ok v => ret (Some v) | Err _ => ret None | Panic => lift Panic end
  | Err _ => ret None
  | Panic => lift Panic
  end.

(** The versions of kernel and initrd: from the manifest, else from the bytes. *)
Definition versions (f : metadata_file) (kernel initrd : io bytes) : io (option bytes * option bytes) :=
  match f with
  | MPresent m => ret (Some (Metadata.Kernel m), Some (OpenZFS m))
  | _ =>
      do k := version_in kernel (VersionFromImage kgzip) in
      do z := version_in initrd (ExtractOpenZFSVersionFromBytes gzip xz modinfo) in
      ret (k, z)
  end.

Definition has_metadata (f : metadata_file) : bool := match f with MPresent _ => true | _ => false end.

Definition inspect_uefi (t : target) : io report :=
  match LoaderPath (t_arch t) with
  | Panic => lift Panic
  | Err e => ret (loader_failed e)
  | Ok rel =>
      do info := attempt (Read pe (t_mountpoint t) rel) in
      match info with
      | Panic => lift Panic
      | Err e => ret (loader_failed e)
      | Ok info =>
          do f := tryReadMetadata (t_mountpoint t) in
          do v := versions f (ReadSection pe (t_mountpoint t) rel (bs ".linux")) (ReadSection pe (t_mountpoint t) rel (bs ".initrd")) in
          ret (mkReport (iVersion info) None None None None None None None v.1 v.2 (has_metadata f) (failure_of f) false
                 no_sums [] None (Some (live (iPool info))) None)
      end
  end.

(** [os.Stat] as [inspect] uses it: nothing, or the error of a missing file. *)
Definition missing (mp rel : bytes) : io (option verify_error) :=
  do st := statSize mp rel in
  ret (match st with Some _ => None | None => Some (VIo (EIn (bs "missing") ENotExist)) end).

(** What stage2 is: its version text, or the error; and its transfer cap. *)
Definition inspect_stage2 (t : target) : io (bytes * option int13_status * option verify_error) :=
  do s2 := attempt (ReadStage2 (t_disk t)) in
  match s2 with
  | Panic => lift Panic
  | Err e => ret ([], None, Some (VIo e))
  | Ok [] => ret ([], None, Some (VIo (ERefused (bs "stage2 extent is empty"))))
  | Ok stage2 =>
      do raw := attempt (readFile (t_mountpoint t) CmdlineFile) in
      let chunk := Some (int13ChunkStatus (match raw with Ok c => c | _ => [] end) (Some stage2)) in
      match ExtractStage2Version stage2 with
      | Ok (v, _) => ret (v, chunk, None)
      | Err _ => ret (bs "(unknown)", chunk, None)
      | Panic => lift Panic
      end
  end.

(** A version is asked for only where the file was found; otherwise it stays
empty. *)
Definition if_found {A} (err : option verify_error) (c : io (option A)) (d : A) : io (option A) :=
  match err with None => c | Some _ => ret (Some d) end.

(** [kernelinfo.Version] and [initrdinfo.ExtractOpenZFSVersion] of an installed
file; their errors are only shown. *)
Definition kernelVersionOf (mp rel : bytes) : io (option bytes) := version_in (readFile mp rel) (VersionFromImage kgzip).
Definition openZFSVersionOf (mp rel : bytes) : io (option bytes) := version_in (readFile mp rel) (ExtractOpenZFSVersionFromBytes gzip xz modinfo).

Definition bios_versions (t : target) (f : metadata_file) (kernelErr initrdErr : option verify_error) : io (option bytes * option bytes) :=
  match f with
  | MPresent m =>
      do k := if_found kernelErr (ret (Some (Metadata.Kernel m))) [] in
      do z := if_found initrdErr (ret (Some (OpenZFS m))) [] in
      ret (k, z)
  | _ =>
      do k := if_found kernelErr (kernelVersionOf (t_mountpoint t) KernelFile) [] in
      do z := if_found initrdErr (openZFSVersionOf (t_mountpoint t) InitrdFile) [] in
      ret (k, z)
  end.

Definition inspect_bios (t : target) : io report :=
  do s1 := attempt (ReadStage1 (t_disk t)) in
  do stage1Err := (match s1 with Ok _ => ret None | Err e => ret (Some (VIo e)) | Panic => lift Panic end) in
  do s2 := inspect_stage2 t in
  do cmdlineErr := missing (t_mountpoint t) CmdlineFile in
  do configErr := missing (t_mountpoint t) ConfigFile in
  do kernelErr := missing (t_mountpoint t) KernelFile in
  do initrdErr := missing (t_mountpoint t) InitrdFile in
  do f := tryReadMetadata (t_mountpoint t) in
  do v := bios_versions t f kernelErr initrdErr in
  do p := inspectPayloadSum (t_mountpoint t) in
  let '(present, mode, sumErr) := p in
  do blk := inspectBlkSum (t_mountpoint t) in
  do raw := attempt (readFile (t_mountpoint t) CmdlineFile) in
  let cmd := match raw with Ok c => Some c | _ => None end in
  ret (mkReport s2.1.1 stage1Err s2.2 None kernelErr initrdErr cmdlineErr configErr v.1 v.2
         (has_metadata f) (failure_of f) false
         (mkSumReport present sumErr mode false false false)
         (match cmd with Some c => cmdlineIntegrity c | None => [] end) (Some blk)
         (Some (live (match cmd with Some c => iPool (ParseText c) | None => [] end))) s2.1.2).

Definition inspect (t : target) : io report := if t_uefi t then inspect_uefi t else inspect_bios t.

(** [if err := check; err != nil { errs = append(errs, err) }] *)
Definition also (errs : list verify_error) (test : io unit) : io (list verify_error) :=
  do r := attempt test in
  match r with Ok _ => ret errs | Err e => ret (errs ++ [VIo e]) | Panic => lift Panic end.

(** One [--*-file]: read it or die, then compare. *)
Definition against (errs : list verify_error) (file : option (bytes * bytes)) (test : bytes -> io unit) : io (list verify_error) :=
  match file with
  | None => ret errs
  | Some p => do want := readFile p.1 p.2 in also errs (test want)
  end.

Definition verify_references (t : target) (f : verifyFiles) (errs : list verify_error) : io (list verify_error) :=
  if t_uefi t then against errs (f_efi f) (VerifyLoader (t_mountpoint t) (t_arch t)) else
  do errs := (match f_stage1 f with
              | None => ret errs
              | Some p => do raw := readFile p.1 p.2 in do want := lift (owrap (fun _ => ERefused (bs "stage1 asset")) (trimStage1Asset raw)) in also errs (VerifyStage1 (t_disk t) want)
              end) in
  do errs := against errs (f_stage2 f) (VerifyStage2 (t_disk t)) in
  match f_payload f with
  | None => ret errs
  | Some (k, i, c) =>
      do kernel := readFile k.1 k.2 in
      do initrd := readFile i.1 i.2 in
      do cmdlineBytes := readFile c.1 c.2 in
      also errs (verifyPayloadIgnoringMirrorWords (t_mountpoint t) kernel initrd cmdlineBytes)
  end.

Definition set_metadataVerified (r : report) (b : bool) : report :=
  mkReport (r_installedVersion r) (r_stage1Err r) (r_stage2Err r) (r_loaderErr r) (r_kernelErr r) (r_initrdErr r) (r_cmdlineErr r)
    (r_configErr r) (r_kernelVersion r) (r_openZFSVersion r) (r_metadataPresent r) (r_metadataErr r) b (r_sums r)
    (r_integrityOverride r) (r_blkSum r) (r_zfs r) (r_int13Chunk r).

Definition set_sums (r : report) (s : sumReport) : report :=
  mkReport (r_installedVersion r) (r_stage1Err r) (r_stage2Err r) (r_loaderErr r) (r_kernelErr r) (r_initrdErr r) (r_cmdlineErr r)
    (r_configErr r) (r_kernelVersion r) (r_openZFSVersion r) (r_metadataPresent r) (r_metadataErr r) (r_metadataVerified r) s
    (r_integrityOverride r) (r_blkSum r) (r_zfs r) (r_int13Chunk r).

Definition verifyTarget (t : target) (deep repair : bool) (f : verifyFiles) : io (report * list verify_error) :=
  do r := inspect t in
  let errs := appendCompatErr (report_errs r) r in
  do metaErrs := verifyMetadata pe kgzip gzip xz modinfo t deep repair in
  let r := set_metadataVerified r (no_errs metaErrs) in
  let errs := errs ++ metaErrs in
  do p := (if t_uefi t then ret (r, errs) else
           do q := verifyPayloadSum pe t (r_sums r) (repair && no_errs metaErrs) in
           ret (set_sums r q.1, errs ++ q.2)) in
  do errs := verify_references t f p.2 in
  ret (p.1, errs).

(** ** verify over the set *)

(** The loop of [runVerify]: the problems of each member, with its UUID. *)
Fixpoint verify_members (ms : list member) (deep repair : bool) (f : verifyFiles) : io (list (bytes * verify_error)) :=
  match ms with
  | [] => ret []
  | m :: rest =>
      do here := (match m_target m with
                  | None => ret [VIo (default (ERefused (bs "mount")) (m_mountErr m))]
                  | Some t => do p := verifyTarget t deep repair f in ret p.2
                  end) in
      do others := verify_members rest deep repair f in
      ret (((fun e => (m_uuid m, e)) <$> here) ++ others)
  end.

(** The exit status; [die] inside is the error of the computation. *)
Definition runVerify (s : seams) (root firmware : bytes) (o : hostOpts) (deep repair : bool) (f : verifyFiles) : io Z :=
  match discoverHost s root firmware (verifyMountReadonly repair) o with
  | Panic => lift Panic
  | Err _ => ret exitFailure
  | Ok h =>
      do problems := verify_members (h_members h) deep repair f in
      do cmp := compareMembers pe h in
      if no_errs problems && no_errs cmp.1 then ret (exitCode h false) else ret exitFailure
  end.
End inspect.

(** ** What verify changes *)

Section changes.
Context {O : Oracle}.
Context (pe : bytes -> option peFile).
Context (kgzip : bytes -> option (bytes * bool)) (gzip xz : bytes -> option reader) (modinfo : bytes -> elf_section).
Context (live : bytes -> zfsCompat).
#[local] Hint Resolve looks_sectionData looks_peOpen looks_Read looks_installed looks_tryReadMetadata looks_statSize
  looks_ReadStage1 looks_ReadStage2 looks_openDisk looks_readDisk looks_VerifyPayload looks_VerifyLoader looks_VerifyFile : looks.

Lemma looks_version_in {E : Type} data (f : bytes -> outcome E bytes) : looks data -> looks (version_in data f).
Proof. intros. unfold version_in. looking. Qed.

Lemma looks_ReadSection dir path name : looks (ReadSection pe dir path name).
Proof. unfold ReadSection. looking. Qed.

Lemma looks_check_sizes mp fs : looks (check_sizes mp fs).
Proof. induction fs as [|[rel n] fs IH]; cbn [check_sizes]; looking. Qed.
#[local] Hint Resolve looks_version_in looks_ReadSection looks_check_sizes : looks.

Lemma looks_inspect_stage2 t : looks (inspect_stage2 t).
Proof. unfold inspect_stage2. looking. Qed.

Lemma looks_missing mp rel : looks (missing mp rel).
Proof. unfold missing. looking. Qed.

Lemma looks_bios_versions t f e1 e2 : looks (bios_versions kgzip gzip xz modinfo t f e1 e2).
Proof. unfold bios_versions, if_found, kernelVersionOf, openZFSVersionOf. looking. Qed.

Lemma looks_inspectPayloadSum mp : looks (inspectPayloadSum mp).
Proof. unfold inspectPayloadSum. looking. Qed.

Lemma looks_inspectBlkSum mp : looks (inspectBlkSum mp).
Proof. unfold inspectBlkSum. looking. Qed.
#[local] Hint Resolve looks_inspect_stage2 looks_missing looks_bios_versions looks_inspectPayloadSum looks_inspectBlkSum : looks.

Lemma looks_inspect t : looks (inspect pe kgzip gzip xz modinfo live t).
Proof.
  unfold inspect. destruct (t_uefi t).
  - unfold inspect_uefi, versions. looking.
  - unfold inspect_bios. looking.
Qed.

Lemma looks_also errs c : looks c -> looks (also errs c).
Proof. intros. unfold also. looking. Qed.

Lemma looks_against errs f c : (forall b, looks (c b)) -> looks (against errs f c).
Proof. intros. unfold against, also. looking. Qed.

Lemma looks_VerifyStage1 d want : looks (VerifyStage1 d want).
Proof. unfold VerifyStage1, readRegion. looking. Qed.

Lemma looks_VerifyStage2 d want : looks (VerifyStage2 d want).
Proof. unfold VerifyStage2, verifyStage2At. looking. Qed.

Lemma looks_ignoring mp k i c : looks (verifyPayloadIgnoringMirrorWords mp k i c).
Proof. unfold verifyPayloadIgnoringMirrorWords. looking. Qed.
#[local] Hint Resolve looks_also looks_against looks_VerifyStage1 looks_VerifyStage2 looks_ignoring : looks.

Lemma looks_references t f errs : looks (verify_references t f errs).
Proof. unfold verify_references. looking. Qed.

(** No disk. *)
Definition nothing {A : Type} (_ : A) : Prop := False.

(** Metadata is written only where there is none, and only on request. *)
Definition new_metadata (t : target) (repair : bool) (f : filemap) (k : bytes * bytes) : Prop :=
  repair = true /\ k = (t_mountpoint t, MetadataFile) /\ f !! k = None.

(** CHECKSUM only where there is none; BLKSUM where it or CHECKSUM is missing. *)
Definition new_sums (t : target) (repair present : bool) (f : filemap) (k : bytes * bytes) : Prop :=
  repair = true /\
  (k = (t_mountpoint t, PayloadSumFile) /\ present = false \/
   k = (t_mountpoint t, BlkSumFile) /\ (present = false \/ f !! k = None)).

Lemma verifyMetadata_spares t deep repair w r w' :
  verifyMetadata pe kgzip gzip xz modinfo t deep repair w = (r, w') ->
  spares (new_metadata t repair (files w)) nothing w w'.
Proof.
  intros H. apply verifyMetadata_repairs_only_missing in H as [H|(-> & Hn & k & i & info & text & _ & _ & Hd & Hf & Hh & _)].
  - by apply frame_spares.
  - eapply within_file; [|exact Hf|done|]; [done|]. unfold media. by rewrite Hh, Hd.
Qed.

Lemma looks_sums_of {A : Type} (c : outcome payloadsum_error A) : looks (sums c).
Proof. unfold sums. looking. Qed.
#[local] Hint Resolve looks_sums_of : looks.

Lemma looks_check_blksum sr raw m k i : looks (check_blksum sr raw m k i).
Proof. unfold check_blksum. looking. Qed.
#[local] Hint Resolve looks_check_blksum : looks.

Lemma looks_effective mp mode : looks (effectiveIntegrity mp mode).
Proof. unfold effectiveIntegrity. looking. Qed.
#[local] Hint Resolve looks_effective : looks.

Lemma verifyBlkSum_spares t sr m k i repair present w r w' :
  verifyBlkSum t sr m k i repair w = (r, w') -> spares (new_sums t repair present (files w)) nothing w w'.
Proof.
  unfold verifyBlkSum. intros H. apply bind_attempt_inv in H as (r0 & x & E & H). apply readFile_spec in E as (Fx & _ & E).
  assert (forall c : io (sumReport * list verify_error), looks c -> c x = (r, w') -> spares (new_sums t repair present (files w)) nothing w w') as Hl.
  { intros c Hc Hr. apply frame_spares. etransitivity; [exact Fx|by eapply Hc]. }
  destruct r0 as [raw|e|]; [by eapply Hl; [|exact H]; looking| |by eapply Hl; [|exact H]; looking].
  destruct e; try (by eapply Hl; [|exact H]; looking).
  destruct repair; [|by eapply Hl; [|exact H]; looking]. cbn [negb] in H.
  etransitivity; [by apply frame_spares|]. set (F := new_sums t true present (files w)) in *. revert H.
  assert (F (t_mountpoint t, BlkSumFile)) as HF by (split; [done|]; right; auto).
  match goal with |- ?c x = _ -> _ => enough (within F nothing c) as Hc by (intros H; by eapply Hc) end.
  apply within_bind; [apply within_attempt, within_bind; [apply within_looks; looking|]|].
  - intros blk. apply within_bind; [by apply within_WriteFile|]. intros _. apply within_looks. looking.
  - intros a. apply within_looks. looking.
Qed.

(** What the checks of CHECKSUM and BLKSUM change, [present] being what the
report says of CHECKSUM. *)
Lemma verifyPayloadSum_spares t sr repair w r w' :
  verifyPayloadSum pe t sr repair w = (r, w') ->
  spares (new_sums t repair (payloadSumPresent sr) (files w)) nothing w w'.
Proof.
  unfold verifyPayloadSum. set (F := new_sums t repair (payloadSumPresent sr) (files w)).
  assert (forall c : io (sumReport * list verify_error), within F nothing c -> c w = (r, w') -> spares F nothing w w') as Hw
    by (intros c Hc Hr; by eapply Hc).
  destruct (payloadSumErr sr); [apply Hw, within_looks; looking|].
  destruct (negb (payloadSumPresent sr) && negb repair) eqn:E; [apply Hw, within_looks; looking|].
  intros H. apply bind_attempt_inv in H as (r0 & x & Ei & H). pose proof (looks_installed _ _ _ _ _ Ei) as Fx.
  etransitivity; [by apply frame_spares|]. clear Ei Hw.
  assert (forall c : io (sumReport * list verify_error), within F nothing c -> c x = (r, w') -> spares F nothing x w') as Hw
    by (intros c Hc Hr; by eapply Hc).
  destruct r0 as [[[kernel initrd] info]|e|]; [|revert H; apply Hw, within_looks; looking..].
  destruct (payloadSumPresent sr) eqn:Ep; cbn [negb] in H.
  - apply bind_attempt_inv in H as (r1 & y & Er & H). pose proof (looks_readFile _ _ _ _ _ Er) as Fy.
    etransitivity; [by apply frame_spares|]. clear Er Hw.
    assert (files y = files w) as Hy by (destruct Fx as [Fx _], Fy as [Fy _]; congruence).
    destruct r1 as [raw|e|]; [|injection H as _ <-; reflexivity..].
    destruct (PayloadSum.Decode raw) as [m|e|]; [|injection H as _ <-; reflexivity..].
    assert (forall rz z, (match Verify m kernel initrd with
      | Ok [] => verifyBlkSum t sr m kernel initrd repair | Ok errs => ret (sr, VSum <$> errs)
      | Err e => ret (sr, [VSum e]) | Panic => lift Panic end) y = (rz, z) -> spares F nothing y z) as Hc.
    { intros rz z. destruct (Verify m kernel initrd) as [[|e errs]|e|]; [|by intros [= _ <-]..].
      intros Hv. apply (verifyBlkSum_spares _ _ _ _ _ _ true) in Hv. unfold F. by rewrite <- Hy. }
    io_bind H z Ez; apply Hc in Ez; [|done..]. etransitivity; [exact Ez|]. destruct a as [sr1 errs]. apply frame_spares.
    revert H. apply (looks_bind _ _ (looks_effective _ _)). intros eff. looking.
  - destruct repair; [|discriminate E]. revert H. apply Hw.
    assert (F (t_mountpoint t, BlkSumFile)) as HB by (split; [done|]; right; auto).
    assert (F (t_mountpoint t, PayloadSumFile)) as HP by (split; [done|]; left; auto).
    apply within_bind; [apply within_attempt|intros a; apply within_looks; looking]. unfold repair_sums.
    apply within_bind; [apply within_looks; looking|]. intros raw. apply within_bind; [apply within_looks; looking|]. intros blk.
    apply within_bind; [by apply within_WriteFile|]. intros _. by apply within_WriteFile.
Qed.

(** ** What a report says of the media *)

Section sees.
Context (f : filemap) (d : diskmap).

(** Run on these media, [c] leaves them alone and its result is true of them. *)
Definition sees {A : Type} (P : A -> Prop) (c : io A) : Prop :=
  forall w a w', files w = f -> disks w = d -> c w = (Ok a, w') -> files w' = f /\ disks w' = d /\ P a.

Lemma sees_bind {A B : Type} (P : A -> Prop) (Q : B -> Prop) (c : io A) (k : A -> io B) :
  sees P c -> (forall a, P a -> sees Q (k a)) -> sees Q (bind c k).
Proof.
  intros Hc Hk w b w' Hf Hd H. io_bind H x E; [|discriminate Hr..]. apply Hc in E as (Hf' & Hd' & Ha); [|done..].
  by eapply Hk.
Qed.

Lemma sees_looks {A : Type} (c : io A) : looks c -> sees (fun _ => True) c.
Proof. intros Hc w a w' <- <- H. apply Hc in H as (-> & -> & _). done. Qed.

Lemma sees_ret {A : Type} (P : A -> Prop) a : P a -> sees P (ret a).
Proof. by intros HP w b w' <- <- [= <- <-]. Qed.

Lemma sees_missing mp rel : sees (fun e => e = None -> is_Some (f !! (mp, rel))) (missing mp rel).
Proof.
  intros w e w' <- <- H. pose proof (looks_missing mp rel _ _ _ H) as (-> & -> & _). split_and!; [done..|]. revert H.
  unfold missing, bind, statSize, sys. destruct (fault (clock w)).
  - intros [= <- <-] [=].
  - cbn. destruct (files w !! (mp, rel)); intros [= <- <-]; [done|intros [=]].
Qed.

Lemma sees_present mp : sees (fun p => p.1.1 = false -> f !! (mp, PayloadSumFile) = None) (inspectPayloadSum mp).
Proof.
  intros w p w' <- <- H. pose proof (looks_inspectPayloadSum mp _ _ _ H) as (-> & -> & _). split_and!; [done..|].
  unfold inspectPayloadSum in H. apply bind_attempt_inv in H as (r & x & E & H). apply readFile_spec in E as (_ & _ & E).
  destruct r as [raw|e|]; [|destruct e; injection H as <- <-; done|done].
  destruct (PayloadSum.Decode raw) as [m|e|]; [|injection H as <- <-; done|discriminate H].
  apply bind_ok_inv in H as (e & y & _ & H). by injection H as <- <-.
Qed.

(** Something is installed where stage2 lives. *)
Definition stage2_installed (t : target) : Prop :=
  exists c, d !! t_disk t = Some c /\ trim_zeros (sub c stage2_offset Stage2Bytes) <> [].

Lemma ReadStage2_ok disk c w s w' :
  disks w !! disk = Some c -> ReadStage2 disk w = (Ok s, w') -> s = trim_zeros (sub c stage2_offset Stage2Bytes).
Proof.
  intros Hd H. unfold ReadStage2, readRegion in H. apply bind_ok_inv in H as (raw & y & H & [= <- <-]).
  apply bind_ok_inv in H as (u & x & E & H). pose proof (looks_openDisk _ _ _ _ E) as (_ & Hx & _). rewrite <- Hx in Hd.
  apply (readDisk_spec _ _ _ _ _ _ _ Hd) in H as (_ & _ & [[[= ->] _]|[[e [=]] _]]). done.
Qed.

Lemma sees_stage2 t : sees (fun p => p.2 = None -> stage2_installed t) (inspect_stage2 t).
Proof.
  intros w p w' <- Hd H. pose proof (looks_inspect_stage2 t _ _ _ H) as (-> & Hd' & _). split_and!; [done|by rewrite Hd'|].
  unfold inspect_stage2 in H. apply bind_attempt_inv in H as (r & x & E & H).
  destruct r as [[|b s]|e|]; [by injection H as <- <-| |by injection H as <- <-|done]. intros _.
  destruct (disks w !! t_disk t) as [c|] eqn:Ec.
  - apply (ReadStage2_ok _ _ _ _ _ Ec) in E. exists c. rewrite <- Hd. split; [done|]. by rewrite <- E.
  - exfalso. revert E. unfold ReadStage2, readRegion, bind, openDisk, sys. destruct (fault (clock w)); [by intros [=]|].
    cbn. rewrite Ec. by intros [=].
Qed.

(** A report of a BIOS target without these errors. *)
Definition inspected (t : target) (r : report) : Prop :=
  (payloadSumPresent (r_sums r) = false -> f !! (t_mountpoint t, PayloadSumFile) = None) /\
  (r_stage2Err r = None -> stage2_installed t) /\
  Forall (fun p => p.1 = None -> is_Some (f !! (t_mountpoint t, p.2)))
    [(r_kernelErr r, KernelFile); (r_initrdErr r, InitrdFile); (r_cmdlineErr r, CmdlineFile); (r_configErr r, ConfigFile)].

Lemma sees_inspect t : t_uefi t = false -> sees (inspected t) (inspect pe kgzip gzip xz modinfo live t).
Proof.
  intros Hu. unfold inspect. rewrite Hu. unfold inspect_bios.
  eapply sees_bind; [apply sees_looks; looking|]. intros s1 _.
  eapply sees_bind; [apply sees_looks; looking|]. intros e1 _.
  eapply sees_bind; [apply sees_stage2|]. intros s2 H2.
  eapply sees_bind; [apply sees_missing|]. intros cmdErr Hc.
  eapply sees_bind; [apply sees_missing|]. intros confErr Hf.
  eapply sees_bind; [apply sees_missing|]. intros kErr Hk.
  eapply sees_bind; [apply sees_missing|]. intros iErr Hi.
  eapply sees_bind; [apply sees_looks; looking|]. intros md _.
  eapply sees_bind; [apply sees_looks; looking|]. intros v _.
  eapply sees_bind; [apply sees_present|]. intros [[present mode] sumErr] Hp. cbn [fst] in Hp.
  eapply sees_bind; [apply sees_looks; looking|]. intros blk _.
  eapply sees_bind; [apply sees_looks; looking|]. intros raw _. apply sees_ret.
  split_and!; cbn; [done|done|]. repeat (apply List.Forall_cons; [done|]). apply List.Forall_nil.
Qed.
End sees.

(** ** What --repair may write *)

(** A manifest that is missing; BLKSUM also where CHECKSUM is. *)
Definition repairable (repair : bool) (f : filemap) (k : bytes * bytes) : Prop :=
  repair = true /\
  (k.2 = MetadataFile /\ f !! k = None \/
   k.2 = PayloadSumFile /\ f !! k = None \/
   k.2 = BlkSumFile /\ (f !! k = None \/ f !! (k.1, PayloadSumFile) = None)).

Definition careful (repair : bool) {A : Type} (c : io A) : Prop :=
  forall w r w', c w = (r, w') -> spares (repairable repair (files w)) nothing w w'.

(** What is repairable later was repairable at first. *)
Lemma repairable_back repair w w' k :
  spares (repairable repair (files w)) nothing w w' -> repairable repair (files w') k -> repairable repair (files w) k.
Proof.
  intros [[Hf _] _] [-> Hk]. cbn [media fst] in Hf.
  assert (forall k', (k'.2 = MetadataFile \/ k'.2 = PayloadSumFile) -> files w' !! k' = None -> files w !! k' = None) as Hnone.
  { intros k' Hn Hk'. destruct (files w !! k') as [c|] eqn:E; [|done]. rewrite <- Hk', <- E. symmetry. apply Hf.
    intros [_ [[_ H]|[[_ H]|[H _]]]]; [congruence..|]. rewrite H in Hn. by destruct Hn. }
  split; [done|]. destruct Hk as [[H1 H2]|[[H1 H2]|[H1 H2]]]; [left|right; left|right; right].
  - split; [done|]. apply Hnone; auto.
  - split; [done|]. apply Hnone; auto.
  - split; [done|]. destruct H2 as [H2|H2]; [|right; apply Hnone; auto].
    destruct (files w !! k) as [c|] eqn:E; [|by left]. right.
    destruct (files w !! (k.1, PayloadSumFile)) eqn:E2; [|done]. exfalso.
    assert (files w' !! k = files w !! k) as Hs; [|congruence]. apply Hf. intros [_ [[H _]|[[H _]|[_ [H|H]]]]]; [by rewrite H in H1|by rewrite H in H1|congruence..].
Qed.

(** The same from one world, for a continuation that knows what was returned. *)
Lemma careful_at_bind repair {A B : Type} (c : io A) (k : A -> io B) w :
  (forall r w', c w = (r, w') -> spares (repairable repair (files w)) nothing w w') ->
  (forall a x, c w = (Ok a, x) -> forall r w', k a x = (r, w') -> spares (repairable repair (files x)) nothing x w') ->
  forall r w', bind c k w = (r, w') -> spares (repairable repair (files w)) nothing w w'.
Proof.
  intros Hc Hk r w' H. io_bind H x E; pose proof (Hc _ _ E) as Hx; [|done..]. etransitivity; [exact Hx|].
  apply (Hk _ _ E) in H. eapply spares_mono; [|done|exact H]. intros key. by apply repairable_back.
Qed.

Lemma careful_bind repair {A B : Type} (c : io A) (k : A -> io B) :
  careful repair c -> (forall a, careful repair (k a)) -> careful repair (bind c k).
Proof.
  intros Hc Hk w. apply careful_at_bind; [intros r w'; apply Hc|]. intros a x _. apply Hk.
Qed.

Lemma careful_looks repair {A : Type} (c : io A) : looks c -> careful repair c.
Proof. intros Hc w r w' H. by eapply frame_spares, Hc. Qed.

Lemma careful_metadata t deep repair : careful repair (verifyMetadata pe kgzip gzip xz modinfo t deep repair).
Proof.
  intros w r w' H. apply verifyMetadata_spares in H. eapply spares_mono; [|done|exact H].
  intros k (-> & -> & Hn). split; [done|]. by left.
Qed.

(** CHECKSUM is not touched by the metadata check. *)
Lemma metadata_keeps_sum t deep repair w r w' mp :
  verifyMetadata pe kgzip gzip xz modinfo t deep repair w = (r, w') ->
  files w' !! (mp, PayloadSumFile) = files w !! (mp, PayloadSumFile).
Proof. intros H. apply verifyMetadata_spares in H as [[Hf _] _]. apply Hf. intros (_ & [=] & _). Qed.

Lemma careful_sums t sr repair repair' w r w' :
  (payloadSumPresent sr = false -> files w !! (t_mountpoint t, PayloadSumFile) = None) -> (repair' = true -> repair = true) ->
  verifyPayloadSum pe t sr repair' w = (r, w') -> spares (repairable repair (files w)) nothing w w'.
Proof.
  intros Hp Hr H. apply verifyPayloadSum_spares in H. eapply spares_mono; [|done|exact H].
  intros k (Ht & Hk). split; [auto|]. destruct Hk as [[-> Hs]|[-> Hs]]; [right; left|right; right]; (split; [done|]); [auto|].
  destruct Hs as [Hs|Hs]; [right; by apply Hp|by left].
Qed.

Lemma careful_verifyTarget t deep repair f : careful repair (verifyTarget pe kgzip gzip xz modinfo live t deep repair f).
Proof.
  intros w. apply careful_at_bind; [intros r w'; apply careful_looks, looks_inspect|]. intros rep x Ei.
  assert (t_uefi t = false -> payloadSumPresent (r_sums rep) = false -> files x !! (t_mountpoint t, PayloadSumFile) = None) as Hs.
  { intros Hu. eapply (sees_inspect (files w) (disks w) t Hu) in Ei as (-> & _ & [Hs _]); done. }
  clear Ei w. cbv zeta. apply careful_at_bind; [intros r w'; apply careful_metadata|]. intros metaErrs y Em.
  apply (metadata_keeps_sum _ _ _ _ _ _ (t_mountpoint t)) in Em. rewrite <- Em in Hs. clear Em x.
  apply careful_at_bind; [|intros p z _; apply careful_at_bind; [intros r w'; apply careful_looks, looks_references|]; intros errs z' _ r w'; apply careful_looks; looking].
  destruct (t_uefi t); [intros r w'; apply careful_looks; looking|]. cbn [r_sums set_metadataVerified].
  apply careful_at_bind; [|intros q z _ r w'; apply careful_looks; looking].
  intros r w'. apply careful_sums; [by apply Hs|]. by intros [? _]%andb_true_iff.
Qed.

Lemma careful_verify_members ms deep repair f :
  careful repair (verify_members pe kgzip gzip xz modinfo live ms deep repair f).
Proof.
  induction ms as [|m ms IH]; cbn [verify_members]; [apply careful_looks; looking|].
  apply careful_bind; [|intros here; apply careful_bind; [exact IH|intros others; apply careful_looks; looking]].
  destruct (m_target m); [|apply careful_looks; looking].
  apply careful_bind; [apply careful_verifyTarget|intros p; apply careful_looks; looking].
Qed.

(** ** A verification without complaint *)

(** Checks only add to the list. *)
Definition adds (errs : list verify_error) : list verify_error -> Prop := fun l => exists more, l = errs ++ more.

Lemma adds_refl errs : adds errs errs.
Proof. exists []. by rewrite app_nil_r. Qed.

Lemma adds_trans a b c : adds a b -> adds b c -> adds a c.
Proof. intros [x ->] [y ->]. exists (x ++ y). by rewrite app_assoc. Qed.

Lemma gives_also errs c : gives (adds errs) (also errs c).
Proof.
  eapply gives_bind; [apply gives_any|]. intros r _. destruct r; [apply gives_ret, adds_refl|apply gives_ret; by eexists|apply gives_panic].
Qed.

Lemma gives_against errs f c : gives (adds errs) (against errs f c).
Proof.
  unfold against. destruct f as [p|]; [|apply gives_ret, adds_refl].
  eapply gives_bind; [apply gives_any|]. intros want _. apply gives_also.
Qed.

Lemma gives_mono {A : Type} (P Q : A -> Prop) (c : io A) : (forall a, P a -> Q a) -> gives P c -> gives Q c.
Proof. intros HPQ Hc w a w' H. eapply HPQ, Hc, H. Qed.

Lemma gives_references t f errs : gives (adds errs) (verify_references t f errs).
Proof.
  unfold verify_references. destruct (t_uefi t); [apply gives_against|].
  apply (gives_bind (adds errs)).
  { destruct (f_stage1 f); [|apply gives_ret, adds_refl]. eapply gives_bind; [apply gives_any|]. intros raw _.
    eapply gives_bind; [apply gives_any|]. intros want _. apply gives_also. }
  intros e1 H1. apply (gives_bind (adds e1)); [apply gives_against|]. intros e2 H2.
  apply (gives_mono (adds e2)); [intros l Hl; by eapply adds_trans, adds_trans|].
  destruct (f_payload f) as [[[k i] c]|]; [|apply gives_ret, adds_refl].
  do 3 (eapply gives_bind; [apply gives_any|]; intros ? _). apply gives_also.
Qed.

(** The parts of a [verifyTarget] that ends without a complaint. *)
Lemma verifyTarget_clean t deep repair f w r w' :
  verifyTarget pe kgzip gzip xz modinfo live t deep repair f w = (Ok (r, []), w') ->
  exists rep x y, inspect pe kgzip gzip xz modinfo live t w = (Ok rep, x) /\
    verifyMetadata pe kgzip gzip xz modinfo t deep repair x = (Ok [], y) /\
    report_errs rep = [] /\ forall un, report_verdict rep <> NO un.
Proof.
  intros H. apply bind_ok_inv in H as (rep & x & Ei & H). cbv zeta in H. apply bind_ok_inv in H as (metaErrs & y & Em & H).
  apply bind_ok_inv in H as (p & z & Ep & H). apply bind_ok_inv in H as (errs & z' & Er & H). injection H as _ -> _.
  apply gives_references in Er as [more Hn]. symmetry in Hn. apply app_nil in Hn as [Hn _].
  assert (appendCompatErr (report_errs rep) rep ++ metaErrs = []) as Ha.
  { destruct (t_uefi t); [by injection Ep as <- _|]. apply bind_ok_inv in Ep as (q & z1 & _ & Ep). injection Ep as <- _.
    cbn [snd] in Hn. by apply app_nil in Hn as [Hn _]. }
  apply app_nil in Ha as [Ha ->]. exists rep, x, y. unfold appendCompatErr in Ha.
  destruct (report_verdict rep); [done|done|]. by apply app_nil in Ha as [_ [=]].
Qed.

Lemma careful_runVerify s root firmware o deep repair f :
  careful repair (runVerify pe kgzip gzip xz modinfo live s root firmware o deep repair f).
Proof.
  unfold runVerify. destruct (discoverHost _ _ _ _ _) as [h| |]; [|apply careful_looks; looking..].
  apply careful_bind; [apply careful_verify_members|]. intros problems.
  apply careful_bind; [apply careful_looks; unfold compareMembers; apply looks_bind; [apply looks_digest_members|]; looking|].
  intros cmp. apply careful_looks. looking.
Qed.

Lemma report_errs_nil r :
  report_errs r = [] ->
  Forall (fun e => e = None) [r_stage1Err r; r_stage2Err r; r_loaderErr r; r_kernelErr r; r_initrdErr r; r_cmdlineErr r; r_configErr r; r_metadataErr r].
Proof.
  unfold report_errs. intros [H _]%app_nil. revert H. generalize [r_stage1Err r; r_stage2Err r; r_loaderErr r; r_kernelErr r; r_initrdErr r; r_cmdlineErr r; r_configErr r; r_metadataErr r].
  intros l. induction l as [|[e|] l IH]; intros H; [apply List.Forall_nil|discriminate H|]. apply List.Forall_cons; [done|by apply IH].
Qed.
End changes.

(** C22 - [verify], over all members of the set, changes nothing but the manifests
it may create: without --repair every file and disk keeps its content; with it,
in every state the media go through and whatever calls fail, the only files that
differ from before are a metadata or CHECKSUM that did not exist, and a BLKSUM
where it or CHECKSUM did not (without a CHECKSUM an existing BLKSUM is written
anew together with it). No disk is written. *)
Theorem runVerify_repairs_only_missing {O : Oracle} pe kgzip gzip xz modinfo live s root firmware o deep repair f w :
  spares (repairable repair (files w)) nothing w
    (runVerify pe kgzip gzip xz modinfo live s root firmware o deep repair f w).2.
Proof.
  destruct (runVerify _ _ _ _ _ _ _ _ _ _ _ _ _ w) as [r w'] eqn:H. by eapply careful_runVerify.
Qed.

Section sound.
Context (pe : bytes -> option peFile).
Context (kgzip : bytes -> option (bytes * bool)) (gzip xz : bytes -> option reader) (modinfo : bytes -> elf_section).

(** The boot chain of a BIOS target is there: the boot sector could be read,
there is something in the stage2 extent, and the four files exist. *)
Definition chain_present {O : Oracle} (t : target) (w : world) : Prop :=
  (exists stage1 x, ReadStage1 (t_disk t) w = (Ok stage1, x)) /\
  stage2_installed (disks w) t /\
  Forall (fun rel => is_Some (files w !! (t_mountpoint t, rel))) [KernelFile; InitrdFile; CmdlineFile; ConfigFile].

(** The loader of a UEFI target is there, and is a build of the program. *)
Definition loader_present (t : target) (w : world) : Prop :=
  exists rel info, LoaderPath (t_arch t) = Ok rel /\ build_info pe (files w) (t_mountpoint t) rel info.

(** The metadata text [raw] describes what is installed. *)
Definition describes (t : target) (deep : bool) (f : filemap) (raw : bytes) : Prop :=
  exists m kernel initrd info, Metadata.Decode raw = Ok m /\ Verify.installed pe t f kernel initrd info /\
    SHA256Hex kernel = to_lower (KernelSHA256 m) /\ SHA256Hex initrd = to_lower (InitrdSHA256 m) /\
    Metadata.Version m = iVersion info /\ BuildStamp m = iBuildStamp info /\ Arch m = t_arch t /\
    (deep = true -> exists fresh,
       deepMetadataFor kgzip gzip xz modinfo (t_arch t) (iVersion info) (iBuildStamp info) kernel initrd = Ok fresh /\
       Metadata.Kernel fresh = Metadata.Kernel m /\ OpenZFS fresh = OpenZFS m).

Context {O : Oracle} (live : bytes -> zfsCompat).

Lemma inspect_stage1 t w rep w' :
  t_uefi t = false -> inspect pe kgzip gzip xz modinfo live t w = (Ok rep, w') -> r_stage1Err rep = None ->
  exists stage1 x, ReadStage1 (t_disk t) w = (Ok stage1, x).
Proof.
  intros Hu H. unfold inspect in H. rewrite Hu in H. unfold inspect_bios in H.
  apply bind_attempt_inv in H as (s1 & x & E & H). intros He.
  apply bind_ok_inv in H as (stage1Err & y & E1 & H). do 7 (apply bind_ok_inv in H as (? & ? & _ & H)).
  apply bind_ok_inv in H as ([[present mode] sumErr] & ? & _ & H). do 2 (apply bind_ok_inv in H as (? & ? & _ & H)). injection H as <- _. cbn in He. subst stage1Err.
  destruct s1 as [s|e|]; [eauto|discriminate E1|discriminate E1].
Qed.

Lemma inspect_loader t w rep w' :
  t_uefi t = true -> inspect pe kgzip gzip xz modinfo live t w = (Ok rep, w') -> r_loaderErr rep = None -> loader_present t w.
Proof.
  intros Hu H. unfold inspect in H. rewrite Hu in H. unfold inspect_uefi in H.
  destruct (LoaderPath (t_arch t)) as [rel|e|] eqn:Hrel; [|by injection H as <- _|discriminate H].
  apply bind_attempt_inv in H as (info & x & E & H). destruct info as [info|e|]; [|by injection H as <- _|discriminate H].
  intros _. apply Read_ok_inv in E as (_ & c & p & arch & cmd & Hc & Hp & Ha & Hs & Hi). exists rel, info. split; [done|]. by exists c, p, arch, cmd.
Qed.
End sound.

(** C23 - A verification without a complaint is one: when the check of a target
reports nothing, whatever calls failed on the way, a BIOS target has a readable
boot sector, a stage2 and its kernel, initrd, command line and config, and a UEFI
target has a loader that says what build it is; existing metadata decodes, the
installed kernel and initrd have exactly the recorded digests, its version,
build stamp and architecture are those of the installed build (with --deep also
the versions derived from the payload); and the pool was not found to use a
feature the installed OpenZFS lacks. *)
Theorem verifyTarget_sound {O : Oracle} pe kgzip gzip xz modinfo live t deep repair f w :
  match verifyTarget pe kgzip gzip xz modinfo live t deep repair f w with
  | (Ok (r, []), _) =>
      (if t_uefi t then loader_present pe t w else chain_present t w) /\
      (forall raw, files w !! (t_mountpoint t, MetadataFile) = Some raw -> describes pe kgzip gzip xz modinfo t deep (files w) raw) /\
      exists rep w1, inspect pe kgzip gzip xz modinfo live t w = (Ok rep, w1) /\ forall un, report_verdict rep <> NO un
  | _ => True
  end.
Proof.
  destruct (verifyTarget _ _ _ _ _ _ _ _ _ _ _) as [[[r [|e errs]]| |] w'] eqn:E; [|done..].
  apply verifyTarget_clean in E as (rep & x & y & Ei & Em & He & Hv). apply report_errs_nil in He.
  apply looks_inspect in Ei as Fx. split_and!; [| |by exists rep, x].
  - rewrite !Forall_cons in He. destruct He as (E1 & E2 & E7 & E3 & E4 & E5 & E6 & _). destruct (t_uefi t) eqn:Hu.
    { by eapply inspect_loader. }
    split; [by eapply inspect_stage1|].
    eapply (sees_inspect _ _ _ _ _ _ (files w) (disks w) t Hu) in Ei as (_ & _ & _ & H2 & Hp); [|done..].
    rewrite !Forall_cons in Hp. destruct Hp as (P1 & P2 & P3 & P4 & _).
    split; [by apply H2|]. rewrite !Forall_cons. cbn [fst snd] in *. split_and!; auto.
  - intros raw Hr. destruct Fx as (Fx & _). rewrite <- Fx in Hr |- *.
    by apply (verifyMetadata_sound _ _ _ _ _ _ _ _ _ _ _ Hr) in Em as [_ Em].
Qed.

(** ** A mismatch verify does not report *)

(** CHECKSUM records other sizes than the installed files have, in mode warn;
CMDLINE overrides the mode with enforce, so the loader refuses this payload. *)
Definition stale_manifest : PayloadSum.Manifest :=
  PayloadSum.mkManifest (PayloadSum.mkEntry 1043 1024 (zeros 32)) (PayloadSum.mkEntry 6 0 (zeros 32)) ModeWarn.

Definition overridden_files : filemap :=
  <[(esp, KernelFile) := bs "a kernel"]> (<[(esp, InitrdFile) := bs "an initrd"]>
  (<[(esp, ConfigFile) := bs "pool=rpool"]> (<[(esp, CmdlineFile) := bs "console=tty0 alpine-zfsboot.integrity=enforce"]>
  {[(esp, PayloadSumFile) := PayloadSum.Encode stale_manifest]}))).

Definition overridden_world : world := fresh_world overridden_files ∅.

(** [verify] passes over a mismatch the BIOS loader refuses to boot with.
Where CHECKSUM's sizes do not match the installed files, the check of CHECKSUM
leaves the judgement to [report.errs], which goes by CHECKSUM's own mode: with
mode warn there the mismatch adds no error at either place. But with
alpine-zfsboot.integrity=enforce in CMDLINE, as here, the mode in effect is
enforce. *)
Theorem verify_misses_override :
  (inspectPayloadSum (O:=no_faults) esp overridden_world).1 = Ok (true, ModeWarn, Some (VSize KernelFile)) /\
  (effectiveIntegrity (O:=no_faults) esp ModeWarn overridden_world).1 = Ok ModeEnforce /\
  forall pe t rep repair w, r_sums rep = mkSumReport true (Some (VSize KernelFile)) ModeWarn false false false ->
    report_errs rep = report_errs (set_sums rep no_sums) /\
    verifyPayloadSum (O:=no_faults) pe t (r_sums rep) repair w = (Ok (r_sums rep, []), w).
Proof.
  split; [vm_compute; reflexivity|]. split; [vm_compute; reflexivity|].
  intros pe t rep repair w Hr. unfold report_errs, verifyPayloadSum. rewrite Hr. split; reflexivity.
Qed.
