(* ===== verification/AfterUpdate.v ===== *)
(** * After a BIOS update: status and verify

What [inspect] (the report [status] shows of a target) and [verifyTarget] say of
a target that [updateBIOSTarget] has just written: the composition of the update
(Update.v) with the checks of the report and of verify (Verify.v, Inspect.v). *)

From Stdlib Require Import ZArith Lia Strings.Byte.
From stdpp Require Import base list gmap.
From S2P Require Import Prelude GoStrings Layout World EspConfig PayloadSum BlkSum BiosBoot Stages KernelInfo InitrdInfo Metadata Payload CmdLine UefiBoot Verify Update ZfsNative ZfsCompat Inspect.
Local Open Scope Z_scope.
(** ** A target that has just been updated *)

Section updated.
Context {O : Oracle}.
Context (pe : bytes -> option peFile).
Context (kgzip : bytes -> option (bytes * bool)) (gzip xz : bytes -> option reader) (modinfo : bytes -> elf_section).
Context (live : bytes -> zfsCompat).

Lemma answers_region disk off n d w :
  disks w !! disk = Some d -> 0 <= off -> off + n <= len d -> answers (readRegion disk off n) (sub d off n) w.
Proof.
  intros Hd Ho Hn. unfold readRegion. apply (answers_then _ _ tt).
  - intros C. exists (tick w). split; [|apply frame_tick]. unfold openDisk, sys. rewrite (C (clock w)) by done. cbn. by rewrite Hd.
  - intros x (_ & Dx & _) C. destruct (readDisk disk off n x) as [r y] eqn:E. rewrite <- Dx in Hd.
    apply (readDisk_spec _ _ _ _ _ _ _ Hd) in E as (F & _ & [[-> _]|(_ & [Hf|Hf])]); [eauto|exfalso; by eapply calm_failed|lia].
Qed.

Lemma answers_missing mp rel c w : files w !! (mp, rel) = Some c -> answers (missing mp rel) None w.
Proof. intros Hc. unfold missing. eapply answers_bind; [by apply answers_statSize|]. intros x _. apply answers_ret. Qed.

(** The report of stage2: a version text and the transfer cap, no error. *)
Lemma answers_stage2 t d cmd w :
  disks w !! t_disk t = Some d -> stage2_offset + Stage2Bytes <= len d ->
  trim_zeros (sub d stage2_offset Stage2Bytes) <> [] -> files w !! (t_mountpoint t, CmdlineFile) = Some cmd ->
  exists v chunk, answers (inspect_stage2 t) (v, chunk, None) w.
Proof.
  intros Hd Hl Hne Hc. destruct (trim_zeros (sub d stage2_offset Stage2Bytes)) as [|b s] eqn:Es; [done|].
  exists (match ExtractStage2Version (b :: s) with Ok (v, _) => v | _ => bs "(unknown)" end), (Some (int13ChunkStatus cmd (Some (b :: s)))).
  unfold inspect_stage2. apply (answers_then _ _ (Ok (b :: s))).
  { apply answers_attempt. unfold ReadStage2. eapply answers_then; [by apply (answers_region _ _ _ d)|]. intros x _. cbv beta. rewrite Es. apply answers_ret. }
  intros x (Fx & _). cbv beta iota. eapply answers_bind; [apply answers_attempt, answers_readFile; by rewrite Fx|]. intros y _. cbv beta iota zeta.
  pose proof (ExtractStage2Version_safe (b :: s)). destruct (ExtractStage2Version (b :: s)) as [[v id]|e|]; [apply answers_ret|apply answers_ret|done].
Qed.

Lemma answers_versions t m w : answers (bios_versions kgzip gzip xz modinfo t (MPresent m) None None) (Some (Metadata.Kernel m), Some (OpenZFS m)) w.
Proof. unfold bios_versions, if_found. eapply answers_bind; [apply answers_ret|]. intros x _. eapply answers_bind; [apply answers_ret|]. intros y _. apply answers_ret. Qed.

(** What the report of a target says when nothing is wrong with it. *)
Definition sound_report (rep : report) (integrity cmd : bytes) (md : Metadata.Manifest) : Prop :=
  report_errs rep = [] /\ r_sums rep = mkSumReport true None integrity false false false /\
  r_metadataPresent rep = true /\ r_openZFSVersion rep = Some (OpenZFS md) /\
  r_kernelVersion rep = Some (Metadata.Kernel md) /\ r_zfs rep = Some (live (iPool (ParseText cmd))).

Context (t : target) (kernel initrd cmd integrity meta : bytes) (md : Metadata.Manifest) (koff : Z) (s : option bytes * option bytes) (f0 : filemap).
Context (d : bytes).
Context (Hu : t_uefi t = false) (Ha : t_arch t = bs "x86_64").
Context (Hdeep : deepMetadataFor kgzip gzip xz modinfo (t_arch t) (iVersion (ParseText cmd)) (iBuildStamp (ParseText cmd)) kernel initrd = Ok md).
Context (Hwf : Metadata.wf_Manifest md) (Hkoff : KernelRAMOffset kernel = Ok koff) (Hdesc : describable kernel initrd koff).
Context (Hmeta : metadata_text kgzip gzip xz modinfo (t_arch t) (iVersion (ParseText cmd)) (iBuildStamp (ParseText cmd)) kernel initrd = Ok meta).
Context (Hsums : payload_sums (t_arch t) kernel initrd integrity = Ok s).
Context (Hconf : is_Some (f0 !! (t_mountpoint t, ConfigFile))).
Context (Hsize : stage2_offset + Stage2Bytes <= len d) (Hstage2 : trim_zeros (sub d stage2_offset Stage2Bytes) <> []).

(** The media of the target after the update. *)
Definition updated (w : world) : Prop :=
  files w = new_generation (t_mountpoint t) kernel initrd cmd meta s f0 /\ disks w !! t_disk t = Some d.

Lemma updated_frame w x : updated w -> frame w x -> updated x.
Proof. intros [Hf Hd] (Fx & Dx & _). unfold updated. by rewrite Fx, Dx. Qed.

(** From the updated media, as long as no call fails, [c] returns a value with [P]
and leaves them alone. *)
Definition gets {A : Type} (P : A -> Prop) (c : io A) : Prop :=
  forall w, updated w -> calm (clock w) -> exists a w', c w = (Ok a, w') /\ frame w w' /\ P a.

Lemma gets_bind {A B : Type} (P : A -> Prop) (Q : B -> Prop) (c : io A) (k : A -> io B) :
  gets P c -> (forall a, P a -> gets Q (k a)) -> gets Q (bind c k).
Proof.
  intros Hc Hk w U C. destruct (Hc w U C) as (a & x & E & F & Pa). unfold bind. rewrite E.
  destruct (Hk a Pa x) as (b & w' & E' & F' & Qb); [by eapply updated_frame|eapply calm_le; [exact C|apply F]|].
  exists b, w'. split_and!; [done|by etransitivity|done].
Qed.

Lemma gets_ret {A : Type} (P : A -> Prop) a : P a -> gets P (ret a).
Proof. intros HP w _ _. by exists a, w. Qed.

Lemma gets_answers {A : Type} (c : io A) a : (forall w, updated w -> answers c a w) -> gets (eq a) c.
Proof. intros Hc w U C. destruct (Hc w U C) as (w' & E & F). by exists a, w'. Qed.

Lemma generation_parts w :
  updated w -> files w !! (t_mountpoint t, KernelFile) = Some kernel /\ files w !! (t_mountpoint t, InitrdFile) = Some initrd /\
    files w !! (t_mountpoint t, CmdlineFile) = Some cmd /\ files w !! (t_mountpoint t, ConfigFile) = f0 !! (t_mountpoint t, ConfigFile).
Proof. intros [-> _]. unfold new_generation. split_and!; look; reflexivity. Qed.

Lemma updated_checks w :
  updated w ->
  answers (tryReadMetadata (t_mountpoint t)) (MPresent md) w /\
  answers (inspectPayloadSum (t_mountpoint t)) (true, integrity, None) w /\
  (exists line, answers (inspectBlkSum (t_mountpoint t)) line w) /\
  forall deep repair,
    answers (verifyMetadata pe kgzip gzip xz modinfo t deep repair) [] w /\
    answers (verifyPayloadSum pe t (mkSumReport true None integrity false false false) repair)
      (mkSumReport true None integrity true false true, []) w.
Proof. intros [F _]. by eapply generation_verifies. Qed.

Lemma gets_missing rel c : (forall w, updated w -> files w !! (t_mountpoint t, rel) = Some c) -> gets (eq None) (missing (t_mountpoint t) rel).
Proof. intros Hc. apply gets_answers. intros w U. by eapply answers_missing, Hc. Qed.

Lemma gets_inspect : gets (fun rep => sound_report rep integrity cmd md) (inspect pe kgzip gzip xz modinfo live t).
Proof.
  destruct Hconf as [conf Hc]. unfold inspect. rewrite Hu. unfold inspect_bios.
  apply (gets_bind (eq (Ok (sub d 0 Stage1Bytes)))).
  { apply gets_answers. intros w [_ Hd]. apply answers_attempt, answers_region; [done|done|]. etransitivity; [|exact Hsize]. done. }
  intros s1 <-. apply (gets_bind (eq None)); [by apply gets_ret|]. intros e1 <-.
  apply (gets_bind (fun p => p.2 = None)).
  { intros w U C. destruct (generation_parts _ U) as (_ & _ & Fc & _).
    destruct (answers_stage2 t d cmd w) as (v & chunk & Hs2); [apply U|done|done|done|].
    destruct (Hs2 C) as (w' & E & F). by exists (v, chunk, None), w'. }
  intros [[v chunk] e2] He2. cbn [snd fst] in *. subst e2.
  apply (gets_bind (eq None)); [eapply gets_missing; intros w U; by apply (generation_parts _ U)|]. intros ? <-.
  apply (gets_bind (eq None)); [eapply gets_missing; intros w U; rewrite (proj2 (proj2 (proj2 (generation_parts _ U)))); exact Hc|]. intros ? <-.
  apply (gets_bind (eq None)); [eapply gets_missing; intros w U; by apply (generation_parts _ U)|]. intros ? <-.
  apply (gets_bind (eq None)); [eapply gets_missing; intros w U; by apply (generation_parts _ U)|]. intros ? <-.
  apply (gets_bind (eq (MPresent md))); [apply gets_answers; intros w U; by apply updated_checks|]. intros ? <-.
  apply (gets_bind (eq (Some (Metadata.Kernel md), Some (OpenZFS md)))); [apply gets_answers; intros w U; apply answers_versions|]. intros ? <-.
  apply (gets_bind (eq (true, integrity, None))); [apply gets_answers; intros w U; by apply updated_checks|]. intros ? <-.
  apply (gets_bind (fun _ => True)).
  { intros w U C. destruct (updated_checks _ U) as (_ & _ & (line & Hl) & _). destruct (Hl C) as (w' & E & F). by exists line, w'. }
  intros line _. apply (gets_bind (eq (Ok cmd))).
  { apply gets_answers. intros w U. apply answers_attempt, answers_readFile. by apply (generation_parts _ U). }
  intros ? <-. by apply gets_ret.
Qed.

Lemma gets_verifyTarget deep repair :
  (forall un, bootCompatVerdict (Some (OpenZFS md)) (live (iPool (ParseText cmd))) <> NO un) ->
  gets (fun p => p.2 = []) (verifyTarget pe kgzip gzip xz modinfo live t deep repair no_files).
Proof.
  intros Hv. unfold verifyTarget. eapply gets_bind; [apply gets_inspect|]. intros rep (He & Hsr & _ & Hz & _ & Hl). cbv zeta.
  apply (gets_bind (eq [])); [apply gets_answers; intros w U; by apply updated_checks|]. intros ? <-.
  assert (appendCompatErr (report_errs rep) rep = []) as ->.
  { unfold appendCompatErr, report_verdict. rewrite Hz, Hl, He. cbn [default]. destruct (bootCompatVerdict _ _) as [| |un]; [done|done|by destruct (Hv un)]. }
  rewrite Hu. apply (gets_bind (fun p => p.2 = [])).
  - apply (gets_bind (eq (mkSumReport true None integrity true false true, []))); [|intros q <-; by apply gets_ret].
    apply gets_answers. intros w U. cbn [set_metadataVerified r_sums]. rewrite Hsr. by apply updated_checks.
  - intros p Hp. unfold verify_references. rewrite Hu, Hp. cbn [no_files f_stage1 f_stage2 f_payload against].
    eapply gets_bind; [by apply gets_ret|]. intros errs <-. by apply gets_ret.
Qed.
End updated.

(** ** An update that nothing stops *)

Section through.
Context {O : Oracle}.
Context (pe : bytes -> option peFile).
Context (kgzip : bytes -> option (bytes * bool)) (gzip xz : bytes -> option reader) (modinfo : bytes -> elf_section).
Context (t : target) (a : biosAssets) (yes answer : bool) (opts : biosOpts) (mo : memberOpts) (sector : bytes -> option Z).

Lemma answers_ok {A : Type} (r : outcome ioerr A) v w : r = Ok v -> answers (lift r) v w.
Proof. intros -> _. by exists w. Qed.

Lemma answers_gate disk d w : disks w !! disk = Some d -> steady d -> answers (gate disk) tt w.
Proof.
  intros Hd Hs C. destruct (gate disk w) as [r x] eqn:E.
  apply (quiet_gate _ _ _ Hd (steady_gate _ Hs)) in E as [F [([] & -> & _)|(_ & Hf)]]; [eauto|exfalso; by eapply calm_failed].
Qed.

(** The installed stage2 can be read and names its version. *)
Definition eligible (d : bytes) : Prop :=
  exists v, ExtractStage2Version (trim_zeros (sub d stage2_offset Stage2Bytes)) = Ok v.

Lemma answers_eligible disk d w :
  disks w !! disk = Some d -> stage2_offset + Stage2Bytes <= len d -> eligible d -> answers (checkUpdateEligible disk) tt w.
Proof.
  intros Hd Hl [v Hv]. unfold checkUpdateEligible. eapply answers_then.
  - intros C. assert (answers (readRegion disk stage2_offset Stage2Bytes) (sub d stage2_offset Stage2Bytes) w) as Hr by (by apply answers_region).
    destruct (Hr C) as (x & E & F).
    exists x. split; [|done]. unfold wrap, ReadStage2, bind. rewrite E. reflexivity.
  - intros x _. cbv beta. rewrite Hv. apply answers_ret.
Qed.

(** An installed build without a stamp or with an older one is not up to date. *)
Definition older (f : filemap) : Prop :=
  forall installed, f !! (t_mountpoint t, CmdlineFile) = Some installed ->
    stamp_in installed = [] \/ bytes_ltb (stamp_in installed) (new_stamp a) = true.

Lemma answers_older w : older (files w) -> exists stamp, answers (checkBIOSUpToDate (t_mountpoint t) (new_stamp a)) (stamp, false) w.
Proof.
  intros Ho. unfold checkBIOSUpToDate. destruct (files w !! (t_mountpoint t, CmdlineFile)) as [inst|] eqn:Ec.
  - specialize (Ho _ Ec). unfold stamp_in in Ho. exists (iBuildStamp (ParseText inst)).
    eapply answers_bind; [by apply answers_attempt, answers_readFile|]. intros x _. cbv beta iota zeta.
    destruct (beq _ _) eqn:Eb; [apply beq_true in Eb; rewrite Eb; apply answers_ret|]. apply beq_false in Eb.
    destruct Ho as [?|Ho]; [done|]. rewrite Ho. apply answers_ret.
  - exists []. intros C. destruct (readFile (t_mountpoint t) CmdlineFile w) as [r x] eqn:E.
    pose proof E as E0. apply readFile_spec in E0 as (F & _ & E0). exists x. split; [|done].
    unfold bind, attempt. rewrite E. destruct r as [c|e|]; [congruence|done|done].
Qed.

(** The ends the run is to reach. *)
Definition replaced_whole (d cmdline meta : bytes) (s : option bytes * option bytes) (w : world)
    (p : outcome ioerr (bool * outcome ioerr unit) * world) : Prop :=
  p.1 = Ok (true, Ok tt) /\ disks p.2 = <[t_disk t := with_stages (a_stage1 a) (a_stage2 a) d]> (disks w) /\
  files p.2 = new_generation (t_mountpoint t) (a_kernel a) (a_initrd a) cmdline meta s (files w).

Lemma or_refuse_passes {A : Type} ctx (c : io A) v k (P : outcome ioerr (bool * outcome ioerr unit) * world -> Prop) w0 w :
  calm (clock w0) -> frame w0 w -> answers c v w ->
  (forall x, frame w0 x -> P (k v x)) -> P (or_refuse ctx c k w).
Proof.
  intros C F Hc Hk. destruct Hc as (x & E & Fx); [eapply calm_le; [exact C|apply F]|].
  unfold or_refuse, bind, attempt. rewrite E. apply Hk. by etransitivity.
Qed.

Context (d : bytes) (Hsteady : steady d) (Hsize : stage2_offset + Stage2Bytes <= len d).
Context (Hs1 : len (a_stage1 a) = Stage1Bytes) (Hs2 : len (a_stage2 a) <= Stage2Bytes).
Context (cmdline0 cmdline mode : bytes) (s : option bytes * option bytes).
Context (Hpre : preflightBIOSMetadata kgzip gzip xz modinfo (t_arch t) (iVersion (ParseText (a_cmdline a))) (new_stamp a)
                  (a_kernel a) (a_initrd a) = Ok tt).
Context (Hpair : checkStagePair (a_stage2 a) (o_force opts) = Ok tt) (Hmode : ValidMode (o_integrity opts) = true).
Context (Hsums : payload_sums (t_arch t) (a_kernel a) (a_initrd a) mode = Ok s) (Hyes : yes || answer = true).

Definition integrity_dir : bytes := if beq (integrityFrom mo) [] then t_mountpoint t else integrityFrom mo.

(** What the run reads of the command line and of CHECKSUM. *)
Definition settings_read (f : filemap) : Prop :=
  forall x, files x = f ->
    answers (applyInt13Chunk (a_cmdline a) (t_mountpoint t) opts) cmdline0 x /\
    answers (match editCmdline mo with Some edit => edit cmdline0 | None => ret cmdline0 end) cmdline x /\
    answers (updateIntegrityMode integrity_dir opts) mode x.

Lemma replace_goes_through meta w0 w :
  one_fault -> calm (clock w0) -> disks w0 !! t_disk t = Some d -> settings_read (files w0) ->
  metadata_text kgzip gzip xz modinfo (t_arch t) (iVersion (ParseText (a_cmdline a))) (new_stamp a) (a_kernel a) (a_initrd a) = Ok meta ->
  frame w0 w -> replaced_whole d cmdline meta s w0 (replace_build kgzip gzip xz modinfo t a yes answer opts mo w).
Proof.
  intros H1 C Hd Hset Hm F. unfold replace_build. cbv zeta.
  eapply (or_refuse_passes _ _ _ _ _ w0); [done|done|apply answers_ok, Hpre|]. intros x1 F1.
  eapply (or_refuse_passes _ _ tt _ _ w0); [done|done|unfold stage_pair; rewrite Hpair; apply answers_ret|]. intros x2 F2.
  eapply (or_refuse_passes _ _ tt _ _ w0); [done|done|unfold valid_mode; rewrite Hmode; apply answers_ret|]. intros x3 F3.
  eapply (or_refuse_passes _ _ _ _ _ w0); [done|done|apply Hset, F3|]. intros x4 F4.
  eapply (or_refuse_passes _ _ _ _ _ w0); [done|done|apply Hset, F4|]. intros x5 F5.
  assert (negb yes && negb answer = false) as -> by (revert Hyes; by destruct yes, answer).
  unfold or_refuse. destruct (writeBIOSStagesWithRollback (t_disk t) (a_stage1 a) (a_stage2 a) x5) as [r6 x6] eqn:E6.
  pose proof (keeps_stages (t_disk t) (a_stage1 a) (a_stage2 a) x5) as Hk. rewrite E6 in Hk. destruct Hk as (F6 & _ & _ & C6). cbn [snd] in F6, C6.
  destruct F5 as (F5 & D5 & _ & C5).
  assert (calm (clock x5)) as Ca by (by eapply calm_le). assert (calm (clock x6)) as Cb by (by eapply calm_le).
  apply (writeBIOSStages_ends _ _ _ d) in E6 as E6'; try done; [|by rewrite D5].
  destruct E6' as [(-> & D6 & _)|(_ & Hf & _)]; [|exfalso; eapply calm_failed; [exact Ca|exact Hf]].
  unfold bind at 1, attempt. rewrite E6. unfold bind at 1.
  destruct (Hset x6) as (_ & _ & Hmd); [by rewrite F6, F5|]. destruct (Hmd Cb) as (x7 & E7 & F7).
  unfold integrity_dir in E7. rewrite E7.
  destruct F7 as (F7 & D7 & _ & C7). assert (calm (clock x7)) as Cc by (by eapply calm_le).
  unfold settle, bind, attempt. destruct (writePayloadWithRollback _ _ _ _ _ _ _ _ _ _ _ _ x7) as [r8 x8] eqn:E8.
  destruct (writePayload_ends _ _ _ _ _ _ _ _ _ _ _ _ _ _ Hm Hsums _ _ _ H1 E8) as [(D8 & _ & _) [[-> F8]|(_ & Hf & _)]];
    [|exfalso; eapply calm_failed; [exact Cc|exact Hf]].
  unfold ret. split_and!; [done| |]; cbn [snd].
  - by rewrite D8, D7, D6, D5.
  - by rewrite F8, F7, F6, F5.
Qed.

Lemma goes_through w :
  one_fault -> calm (clock w) -> disks w !! t_disk t = Some d -> CheckSectorSize (sector (t_disk t)) = Ok tt ->
  seed mo = true \/ eligible d /\ older (files w) -> settings_read (files w) ->
  exists meta,
    metadata_text kgzip gzip xz modinfo (t_arch t) (iVersion (ParseText (a_cmdline a))) (new_stamp a) (a_kernel a) (a_initrd a) = Ok meta /\
    replaced_whole d cmdline meta s w (updateBIOSTarget pe kgzip gzip xz modinfo sector t a yes answer opts mo w).
Proof.
  intros H1 C Hd Hsec Hold Hset. destruct (preflight_text _ _ _ _ _ _ _ _ _ Hpre) as [meta Hm]. exists meta. split; [done|].
  unfold updateBIOSTarget. eapply (or_refuse_passes _ _ _ _ _ w); [done|done|apply answers_ok, Hsec|]. intros x1 F1.
  eapply (or_refuse_passes _ _ _ _ _ w); [done|done|apply (answers_gate _ d); [by destruct F1 as (_ & -> & _)|done]|]. intros x2 F2.
  eapply (or_refuse_passes _ _ tt _ _ w); [done|done| |].
  { destruct Hold as [->|[He _]]; [apply answers_ret|]. destruct (seed mo); [apply answers_ret|].
    apply (answers_eligible _ d); [by destruct F2 as (_ & -> & _)|done|done]. }
  intros x3 F3. assert (calm (clock x3)) as C3 by (eapply calm_le; [exact C|apply F3]).
  assert (exists u x4, checkBIOSUpToDate (t_mountpoint t) (new_stamp a) x3 = (Ok u, x4) /\ frame x3 x4 /\ u.2 && negb (seed mo) = false) as (u & x4 & E & F4 & Hu).
  { destruct Hold as [Hseed|[_ Ho]].
    - destruct (checkBIOSUpToDate (t_mountpoint t) (new_stamp a) x3) as [r x4] eqn:E. pose proof (looks_upToDate _ _ _ _ _ E) as F4.
      destruct r as [u|e|]; [exists u, x4; by rewrite Hseed, andb_false_r| |by apply tame_upToDate in E].
      exfalso. apply bind_attempt_inv in E as (rc & z & _ & E). destruct rc as [i|e0|]; [cbv zeta in E; destruct (beq _ _); discriminate E|discriminate E..].
    - destruct (answers_older x3) as [stamp Ha]; [by destruct F3 as (-> & _)|]. destruct (Ha C3) as (x4 & E & F4). exists (stamp, false), x4. done. }
  unfold bind. unfold new_stamp in E. rewrite E, Hu. apply replace_goes_through; try done. by etransitivity.
Qed.

(** C14 - An update that nothing stops is carried out. When no call fails, the disk
has 512-byte sectors and room for stage2 and its partition-table verdict does not
depend on its boot code, the ESP belongs to a new member or the disk has a stage2
of the program and the installed build has no stamp or an older one, the preflight
and the stage pair check pass, the settings can be read, the sums can be made and
the operator agrees, then [updateBIOSTarget] reports that it wrote, the disk has
exactly the new stages and the ESP exactly the new generation: an update is not
refused without a reason. *)
Theorem update_goes_through w :
  one_fault -> calm (clock w) -> disks w !! t_disk t = Some d -> CheckSectorSize (sector (t_disk t)) = Ok tt ->
  seed mo = true \/ eligible d /\ older (files w) -> settings_read (files w) ->
  exists meta,
    metadata_text kgzip gzip xz modinfo (t_arch t) (iVersion (ParseText (a_cmdline a))) (new_stamp a) (a_kernel a) (a_initrd a) = Ok meta /\
    replaced_whole d cmdline meta s w (updateBIOSTarget pe kgzip gzip xz modinfo sector t a yes answer opts mo w).
Proof. apply goes_through. Qed.

End through.

(** C4 - What an update writes passes every later check of it. On x86_64 BIOS:
when [updateBIOSTarget] reports that it wrote the build, the ESP has a config,
the command line it wrote still names the build's version and stamp, the build's
metadata is well formed, its files fit the block table (32-bit sizes and
addresses), its stage2 is not all zeros and its OpenZFS is not one the pool is
known to need more than; then, as long as no further call fails, the report
[status] shows of the target has no error and names the build's kernel and
OpenZFS versions, and [verify], with and without --deep and --repair, finds
nothing to complain about; neither changes anything. (At most one call of the
update failed, its disk is one whose partition-table verdict does not depend on
its boot code, and its assets have the sizes loading guarantees.) *)
Theorem update_verifies {O : Oracle} pe kgzip gzip xz modinfo live sector t a yes answer opts mo d w0 w cmd md koff deep repair
  (H1 : one_fault) (Hu : t_uefi t = false) (Ha : t_arch t = bs "x86_64")
  (Hd : disks w0 !! t_disk t = Some d) (Hsteady : steady d) (Hsize : stage2_offset + Stage2Bytes <= len d)
  (Hs1 : len (a_stage1 a) = Stage1Bytes) (Hs2 : len (a_stage2 a) <= Stage2Bytes)
  (Hne : trim_zeros (stage2_region (a_stage2 a)) <> [])
  (Hedit : forall edit c, editCmdline mo = Some edit -> looks (edit c) /\ tame (edit c))
  (Hrun : updateBIOSTarget pe kgzip gzip xz modinfo sector t a yes answer opts mo w0 = (Ok (true, Ok tt), w))
  (Hcmd : files w !! (t_mountpoint t, CmdlineFile) = Some cmd)
  (Hver : iVersion (ParseText cmd) = iVersion (ParseText (a_cmdline a)))
  (Hstamp : iBuildStamp (ParseText cmd) = iBuildStamp (ParseText (a_cmdline a)))
  (Hdeep : deepMetadataFor kgzip gzip xz modinfo (t_arch t) (iVersion (ParseText cmd)) (iBuildStamp (ParseText cmd))
             (a_kernel a) (a_initrd a) = Ok md)
  (Hwf : Metadata.wf_Manifest md) (Hkoff : KernelRAMOffset (a_kernel a) = Ok koff)
  (Hdesc : describable (a_kernel a) (a_initrd a) koff)
  (Hconf : is_Some (files w0 !! (t_mountpoint t, ConfigFile)))
  (Hpool : forall un, bootCompatVerdict (Some (OpenZFS md)) (live (iPool (ParseText cmd))) <> NO un)
  (Hcalm : calm (clock w)) :
  (exists rep w', inspect pe kgzip gzip xz modinfo live t w = (Ok rep, w') /\ frame w w' /\
     exists integrity, sound_report live rep integrity cmd md) /\
  exists rep w', verifyTarget pe kgzip gzip xz modinfo live t deep repair no_files w = (Ok (rep, []), w') /\ frame w w'.
Proof.
  apply (updateBIOS_all pe kgzip gzip xz modinfo t a yes answer opts mo sector d Hsteady Hsize Hs1 Hs2 Hedit) in Hrun; [|done|done].
  inversion Hrun as [| | | | |cmdline mode meta sums ? _ _ Hm Hs D F]; subst. rename w into w'.
  assert (cmdline = cmd) as ->.
  { rewrite F in Hcmd. unfold new_generation in Hcmd. revert Hcmd. look. by intros [= ->]. }
  rewrite <- Hver, <- Hstamp in Hm. set (d' := with_stages (a_stage1 a) (a_stage2 a) d) in *.
  assert (updated t (a_kernel a) (a_initrd a) cmd meta sums (files w0) d' w') as U by (split; [done|rewrite D; apply lookup_insert_eq]).
  assert (stage2_offset + Stage2Bytes <= len d') as Hl by (unfold d', with_stages; by rewrite !len_copy_at).
  assert (trim_zeros (sub d' stage2_offset Stage2Bytes) <> []) as Hz by (unfold d'; by rewrite region_with_stages).
  split.
  - destruct (gets_inspect pe kgzip gzip xz modinfo live t (a_kernel a) (a_initrd a) cmd mode meta md koff sums (files w0) d') with (w := w')
      as (rep & x & E & Fx & Hr); try done. exists rep, x. eauto.
  - destruct (gets_verifyTarget pe kgzip gzip xz modinfo live t (a_kernel a) (a_initrd a) cmd mode meta md koff sums (files w0) d')
      with (deep := deep) (repair := repair) (w := w') as ([rep errs] & x & E & Fx & Hr); try done. cbn [snd] in Hr. subst errs. eauto.
Qed.

(** ** An older build replaced without a failing call *)

Definition old_world : world := installed_world (bs "20250101T000000Z").
Definition fresh_update : outcome ioerr (bool * outcome ioerr unit) * world := sample_update no_faults (bs "20250101T000000Z").
Definition no_pools (_ : bytes) : zfsCompat := mkZfsCompat [] [] [] (Some ENoPool).
Definition fresh_sums : option bytes * option bytes := ok_or (None, None) (payload_sums (bs "x86_64") boot_kernel sample_archive ModeWarn).

Lemma fresh_sums_ok : payload_sums (bs "x86_64") boot_kernel sample_archive ModeWarn = Ok fresh_sums.
Proof. apply ok_or_ok. vm_compute. reflexivity. Qed.

Lemma stamped_deep_ok : stamped_deep = Ok stamped_metadata.
Proof. apply ok_or_ok. vm_compute. reflexivity. Qed.

Lemma installed_size : stage2_offset + Stage2Bytes <= len installed_disk.
Proof. unfold installed_disk, with_stages. rewrite !len_copy_at. vm_compute. discriminate. Qed.

Lemma installed_eligible : eligible installed_disk.
Proof.
  unfold eligible, installed_disk. rewrite region_with_stages, trim_zeros_region; [|vm_compute; discriminate|vm_compute; discriminate|reflexivity].
  eexists. vm_compute. reflexivity.
Qed.

Lemma installed_older : older sample_target sample_assets (files old_world).
Proof.
  intros i Hi. cbn [files old_world installed_world fresh_world] in Hi. rewrite lookup_insert_eq in Hi. injection Hi as <-.
  right. vm_compute. reflexivity.
Qed.

(** What the run reads of the old ESP. *)
Lemma old_settings :
  settings_read (O:=no_faults) sample_target sample_assets sample_opts plain_member stamped_cmdline stamped_cmdline ModeWarn (files old_world).
Proof.
  intros x Hx. split_and!.
  - unfold applyInt13Chunk. cbn [sample_opts o_int13chunk beq negb]. unfold installedInt13Chunk.
    assert (exists v, cmdlineInt13Chunk (cmdline_of (bs "20250101T000000Z")) = (v, false)) as [v Hv] by (eexists; vm_compute; reflexivity).
    apply (answers_bind _ _ []); [|intros y _; apply answers_ret].
    eapply answers_bind; [apply answers_attempt, answers_readFile; rewrite Hx; apply lookup_insert_eq|].
    intros y _. cbv beta iota. rewrite Hv. apply answers_ret.
  - apply answers_ret.
  - unfold updateIntegrityMode. cbn [sample_opts o_integritySet].
    eapply answers_bind; [apply answers_attempt, (answers_readFile _ _ (bs "old sum")); rewrite Hx; vm_compute; reflexivity|].
    intros y _. apply answers_ret.
Qed.

Lemma update_goes_through_witness :
  exists meta, boot_metadata = Ok meta /\
    replaced_whole sample_target sample_assets installed_disk stamped_cmdline meta fresh_sums old_world fresh_update.
Proof.
  apply (update_goes_through (O:=no_faults) no_pe no_kgzip no_gzip no_gzip boot_modinfo sample_target sample_assets true false sample_opts
    plain_member (fun _ => Some 512) installed_disk) with (cmdline0 := stamped_cmdline) (mode := ModeWarn).
  - exact installed_steady.
  - exact installed_size.
  - vm_compute. reflexivity.
  - vm_compute. discriminate.
  - exact boot_preflight.
  - vm_compute. reflexivity.
  - vm_compute. reflexivity.
  - exact fresh_sums_ok.
  - reflexivity.
  - apply no_faults_one.
  - apply no_faults_calm.
  - apply lookup_insert_eq.
  - vm_compute. reflexivity.
  - right. split; [exact installed_eligible|exact installed_older].
  - exact old_settings.
Defined.

(** The same run, as far as the later checks need it. *)
Lemma fresh_replaced : exists meta, replaced_whole sample_target sample_assets installed_disk stamped_cmdline meta fresh_sums old_world fresh_update.
Proof.
  destruct (goes_through (O:=no_faults) no_pe no_kgzip no_gzip no_gzip boot_modinfo sample_target sample_assets true false sample_opts
    plain_member (fun _ => Some 512) installed_disk installed_steady installed_size eq_refl) with (cmdline0 := stamped_cmdline)
    (cmdline := stamped_cmdline) (mode := ModeWarn) (s := fresh_sums) (w := old_world) as (meta & _ & H);
    [vm_compute; discriminate|exact boot_preflight|vm_compute; reflexivity|vm_compute; reflexivity|exact fresh_sums_ok|reflexivity|apply no_faults_one|apply no_faults_calm
    |apply lookup_insert_eq|vm_compute; reflexivity|right; split; [exact installed_eligible|exact installed_older]|exact old_settings|].
  exists meta. exact H.
Qed.

Lemma update_verifies_witness :
  (exists rep w', inspect (O:=no_faults) no_pe no_kgzip no_gzip no_gzip boot_modinfo no_pools sample_target fresh_update.2 = (Ok rep, w') /\
     frame fresh_update.2 w' /\ exists integrity, sound_report no_pools rep integrity stamped_cmdline stamped_metadata) /\
  exists rep w', verifyTarget (O:=no_faults) no_pe no_kgzip no_gzip no_gzip boot_modinfo no_pools sample_target true true no_files fresh_update.2
    = (Ok (rep, []), w') /\ frame fresh_update.2 w'.
Proof.
  destruct fresh_replaced as (meta & Hr & _ & Hf).
  apply (update_verifies (O:=no_faults) no_pe no_kgzip no_gzip no_gzip boot_modinfo no_pools (fun _ => Some 512) sample_target sample_assets
    true false sample_opts plain_member installed_disk old_world fresh_update.2 stamped_cmdline stamped_metadata 1024 true true).
  - apply no_faults_one.
  - reflexivity.
  - reflexivity.
  - apply lookup_insert_eq.
  - exact installed_steady.
  - exact installed_size.
  - vm_compute. reflexivity.
  - vm_compute. discriminate.
  - rewrite trim_zeros_region; vm_compute; discriminate.
  - intros edit c Hx. discriminate Hx.
  - exact (eq_trans (surjective_pairing _) (f_equal (fun r => (r, fresh_update.2)) Hr)).
  - rewrite Hf. unfold new_generation. look. reflexivity.
  - reflexivity.
  - reflexivity.
  - exact stamped_deep_ok.
  - exact stamped_wf.
  - vm_compute. reflexivity.
  - vm_compute. split; intros H; discriminate H.
  - vm_compute. eexists. reflexivity.
  - intros un. vm_compute. discriminate.
  - apply no_faults_calm.
Defined.
