(* ===== verification/Minisign.v ===== *)
(** * internal/minisign: detached signatures

[ParsePublicKey], [parseSignatureFile] and [Verify], with what they use of
encoding/base64 and bufio.Scanner. Ed25519 (crypto/ed25519) and BLAKE2b
(golang.org/x/crypto) are parameters: a signature check is a function of key,
message and signature, a digest one of the message. *)

From Stdlib Require Import ZArith Lia Strings.Byte.
From stdpp Require Import base list sets.
From S2P Require Import Prelude GoStrings.
Local Open Scope Z_scope.

(** ** encoding/base64, StdEncoding *)

Definition b64_digit (z : Z) : byte :=
  if z <? 26 then z2b (65 + z) else if z <? 52 then z2b (97 + (z - 26)) else if z <? 62 then z2b (48 + (z - 52))
  else if z =? 62 then x2b else x2f.

Definition b64_val (b : byte) : option Z :=
  let z := b2z b in
  if in_range 65 90 b then Some (z - 65) else if in_range 97 122 b then Some (z - 97 + 26)
  else if is_digit b then Some (z - 48 + 52) else if z =? 43 then Some 62 else if z =? 47 then Some 63 else None.

(** The bytes of a group of digits: 3, 2 or 1 of them; bits left over are not
looked at. *)
Definition b64_word (a b c d : Z) : Z := a * 2 ^ 18 + b * 2 ^ 12 + c * 2 ^ 6 + d.
Definition b64_bytes (w : Z) : bytes := [z2b (w / 2 ^ 16); z2b (w / 2 ^ 8); z2b w].

(** [DecodeString] of a text without line breaks. *)
Fixpoint b64_groups (s : bytes) : option bytes :=
  match s with
  | [] => Some []
  | a :: b :: c :: d :: t =>
      match b64_val a, b64_val b with
      | Some va, Some vb =>
          if bool_decide (c = x3d) then
            if bool_decide (d = x3d /\ t = []) then Some (take 1 (b64_bytes (b64_word va vb 0 0))) else None
          else
            match b64_val c with
            | None => None
            | Some vc =>
                if bool_decide (d = x3d) then
                  if bool_decide (t = []) then Some (take 2 (b64_bytes (b64_word va vb vc 0))) else None
                else
                  match b64_val d, b64_groups t with
                  | Some vd, Some rest => Some (b64_bytes (b64_word va vb vc vd) ++ rest)
                  | _, _ => None
                  end
            end
      | _, _ => None
      end
  | _ => None
  end.

Definition not_break (b : byte) : bool := negb (bool_decide (b = x0a)) && negb (bool_decide (b = x0d)).

Definition b64_decode (s : bytes) : option bytes := b64_groups (List.filter not_break s).

(** ** bufio.Scanner with ScanLines *)

(** A line, with its terminator or at the end of the data, has to fit the
buffer of [max] bytes: [ErrTooLong] ends the scan. *)
Fixpoint scan_tokens (max : Z) (ls : list bytes) : list bytes * bool :=
  match ls with
  | [] => ([], true)
  | l :: t =>
      if max <=? len l then ([], false) else
      let (rest, ok) := scan_tokens max t in (trim_suffix l [x0d] :: rest, ok)
  end.

Definition scan_lines (max : Z) (data : bytes) : list bytes * bool :=
  let ls := split x0a data in
  scan_tokens max (match last ls with Some [] => removelast ls | _ => ls end).

Definition MaxScanTokenSize : Z := 64 * 1024.

(** ** Keys and signatures *)

Definition keyIDLen : Z := 8.
Definition pubKeyRawLen : Z := 32.
Definition sigRawLen : Z := 64.
Definition algoED : bytes := bs "ED".

Record PublicKey := mkPublicKey { KeyID : bytes; Key : bytes }.

Inductive minisign_error :=
| EKeyBase64 | EKeyLength (n : Z) | EKeyTag
| ESigScan | ENoSignatureLine | ENoTrustedComment
| ESigBase64 | ESigLength (n : Z) | EAlgorithm (a : bytes) | EKeyID (id : bytes)
| EBadSignature (id : bytes) | EGlobalBase64 | EGlobalLength (n : Z) | EBadComment (id : bytes).

Definition untrusted : bytes := bs "untrusted comment:".
Definition trustedPrefix : bytes := bs "trusted comment: ".

Definition lastNonEmptyLine (data : bytes) : bytes :=
  fold_left (fun acc l => let l := trim_space l in if beq l [] || has_prefix l untrusted then acc else l)
    (scan_lines MaxScanTokenSize data).1 [].

Definition ParsePublicKey (data : bytes) : outcome minisign_error PublicKey :=
  match b64_decode (lastNonEmptyLine data) with
  | None => Err EKeyBase64
  | Some raw =>
      if negb (len raw =? 2 + keyIDLen + pubKeyRawLen) then Err (EKeyLength (len raw)) else
      let! t0 := index raw 0 in
      let! t1 := index raw 1 in
      if negb (beq [t0; t1] (bs "Ed")) then Err EKeyTag else
      let! id := slice raw 2 (2 + keyIDLen) in
      let! key := slice_from raw (2 + keyIDLen) in
      Ok (mkPublicKey id key)
  end.

(** The loop over the lines: the index after the last "untrusted comment:" and
the last trusted comment with its index. *)
Fixpoint find_comments (i : nat) (lines : list bytes) (sigIdx : option nat) (tr : option (bytes * nat)) : option nat * option (bytes * nat) :=
  match lines with
  | [] => (sigIdx, tr)
  | l :: t =>
      if has_prefix l untrusted then find_comments (S i) t (Some (S i)) tr
      else match cut_prefix l trustedPrefix with
           | Some c => find_comments (S i) t sigIdx (Some (c, i))
           | None => find_comments (S i) t sigIdx tr
           end
  end.

Definition sig_lines (data : bytes) : list bytes * bool :=
  let (ls, ok) := scan_lines (2 ^ 20) data in
  (List.filter (fun l => negb (beq l [])) (map (fun l => trim_right l [x0d]) ls), ok).

Definition parseSignatureFile (data : bytes) : outcome minisign_error (bytes * bytes * bytes) :=
  let (lines, ok) := sig_lines data in
  if negb ok then Err ESigScan else
  let (sigIdx, tr) := find_comments 0 lines None None in
  match sigIdx ≫= fun i => lines !! i with
  | None => Err ENoSignatureLine
  | Some sigLine =>
      match tr with
      | None => Err ENoTrustedComment
      | Some (c, i) =>
          match lines !! S i with
          | None => Err ENoTrustedComment
          | Some g => Ok (sigLine, c, g)
          end
      end
  end.

Section verify.
Context (ed25519 : bytes -> bytes -> bytes -> bool) (blake2b : bytes -> bytes).

(** [ed25519.Verify]: a key of another length panics, a signature of another
length is wrong. *)
Definition ed25519_Verify (key message sig : bytes) : outcome minisign_error bool :=
  if negb (len key =? pubKeyRawLen) then Panic else
  Ok ((len sig =? sigRawLen) && ed25519 key message sig).

Definition find_key (trusted : list PublicKey) (id : bytes) : option PublicKey :=
  List.find (fun pk => beq (KeyID pk) id) trusted.

Definition Verify (message sigData : bytes) (trusted : list PublicKey) : outcome minisign_error (PublicKey * bytes) :=
  let! p := parseSignatureFile sigData in
  let '(sigLine, trustedComment, globalSigB64) := p in
  match b64_decode sigLine with
  | None => Err ESigBase64
  | Some sigRaw =>
      if negb (len sigRaw =? 2 + keyIDLen + sigRawLen) then Err (ESigLength (len sigRaw)) else
      let! algo := slice sigRaw 0 2 in
      if negb (beq algo algoED) then Err (EAlgorithm algo) else
      let! keyID := slice sigRaw 2 (2 + keyIDLen) in
      let! sig := slice_from sigRaw (2 + keyIDLen) in
      match find_key trusted keyID with
      | None => Err (EKeyID keyID)
      | Some matched =>
          let! ok := ed25519_Verify (Key matched) (blake2b message) sig in
          if negb ok then Err (EBadSignature keyID) else
          match b64_decode globalSigB64 with
          | None => Err EGlobalBase64
          | Some globalSig =>
              if negb (len globalSig =? sigRawLen) then Err (EGlobalLength (len globalSig)) else
              let! ok := ed25519_Verify (Key matched) (sig ++ trustedComment) globalSig in
              if negb ok then Err (EBadComment keyID) else
              Ok (matched, trustedComment)
          end
      end
  end.
End verify.

(** ** Base64 round trip *)

(** The encoder the signing tool uses. *)
Fixpoint b64_encode (s : bytes) : bytes :=
  match s with
  | [] => []
  | [a] =>
      let w := b2z a * 2 ^ 16 in [b64_digit (w / 2 ^ 18); b64_digit (w / 2 ^ 12 mod 64); x3d; x3d]
  | [a; b] =>
      let w := b2z a * 2 ^ 16 + b2z b * 2 ^ 8 in
      [b64_digit (w / 2 ^ 18); b64_digit (w / 2 ^ 12 mod 64); b64_digit (w / 2 ^ 6 mod 64); x3d]
  | a :: b :: c :: t =>
      let w := b2z a * 2 ^ 16 + b2z b * 2 ^ 8 + b2z c in
      [b64_digit (w / 2 ^ 18); b64_digit (w / 2 ^ 12 mod 64); b64_digit (w / 2 ^ 6 mod 64); b64_digit (w mod 64)] ++ b64_encode t
  end.

(** A digit of the alphabet: its value, and neither padding nor white space. *)
Definition digit_ok (z : Z) : bool :=
  let b := b64_digit z in
  bool_decide (b64_val b = Some z) && negb (bool_decide (b = x3d)) && plain_byte b.

Lemma b64_digit_ok z : 0 <= z < 64 -> b64_val (b64_digit z) = Some z /\ b64_digit z <> x3d /\ plain_byte (b64_digit z) = true.
Proof.
  intros Hz. assert (forallb digit_ok (seqZ 0 64) = true) as H by (vm_compute; reflexivity).
  rewrite forallb_forall in H. specialize (H z). rewrite <- list_elem_of_In, elem_of_seqZ in H. specialize (H ltac:(lia)).
  unfold digit_ok in H. rewrite !andb_true_iff, negb_true_iff, bool_decide_eq_true, bool_decide_eq_false in H. tauto.
Qed.

Lemma b64_split w : 0 <= w < 2 ^ 24 -> b64_word (w / 2 ^ 18) (w / 2 ^ 12 mod 64) (w / 2 ^ 6 mod 64) (w mod 64) = w.
Proof. intros. unfold b64_word. Z.div_mod_to_equations. lia. Qed.

Lemma b64_split_range w : 0 <= w < 2 ^ 24 ->
  0 <= w / 2 ^ 18 < 64 /\ 0 <= w / 2 ^ 12 mod 64 < 64 /\ 0 <= w / 2 ^ 6 mod 64 < 64 /\ 0 <= w mod 64 < 64.
Proof. intros. Z.div_mod_to_equations. lia. Qed.

Lemma z2b_add_256 b z : z2b (b2z b + 256 * z) = b.
Proof.
  apply b2z_inj. rewrite b2z_z2b, Z.mul_comm, Z_mod_plus_full. apply Z.mod_small, b2z_range.
Qed.

Lemma b64_bytes_of a b c : b64_bytes (b2z a * 2 ^ 16 + b2z b * 2 ^ 8 + b2z c) = [a; b; c].
Proof.
  pose proof (b2z_range a). pose proof (b2z_range b). pose proof (b2z_range c). unfold b64_bytes. f_equal; [|f_equal; [|f_equal]].
  - rewrite <- (z2b_b2z a) at 2. f_equal. Z.div_mod_to_equations. lia.
  - rewrite <- (z2b_add_256 b (b2z a)) at 2. f_equal. Z.div_mod_to_equations. lia.
  - rewrite <- (z2b_add_256 c (b2z a * 256 + b2z b)) at 2. f_equal. lia.
Qed.

Lemma b64_groups_encode s : b64_groups (b64_encode s) = Some s.
Proof.
  induction s as [s IH] using (induction_ltof1 _ length). unfold ltof in IH.
  destruct s as [|a [|b [|c t]]]; [done| | |].
  - cbn [b64_encode b64_groups]. pose proof (b2z_range a).
    pose proof (b64_split_range (b2z a * 2 ^ 16) ltac:(lia)) as (R1 & R2 & _).
    destruct (b64_digit_ok _ R1) as (-> & _), (b64_digit_ok _ R2) as (-> & _).
    rewrite !bool_decide_true by done. f_equal. change [a] with (take 1 [a; x00; x00]). f_equal.
    rewrite <- (b64_bytes_of a x00 x00). f_equal. change (b2z x00) with 0. unfold b64_word. Z.div_mod_to_equations. lia.
  - cbn [b64_encode b64_groups]. pose proof (b2z_range a). pose proof (b2z_range b).
    pose proof (b64_split_range (b2z a * 2 ^ 16 + b2z b * 2 ^ 8) ltac:(lia)) as (R1 & R2 & R3 & _).
    destruct (b64_digit_ok _ R1) as (-> & _), (b64_digit_ok _ R2) as (-> & _), (b64_digit_ok _ R3) as (-> & N3 & _).
    rewrite bool_decide_false by done. rewrite !bool_decide_true by done. f_equal. change [a; b] with (take 2 [a; b; x00]). f_equal.
    rewrite <- (b64_bytes_of a b x00). f_equal. change (b2z x00) with 0. unfold b64_word. Z.div_mod_to_equations. lia.
  - cbn [b64_encode b64_groups app]. pose proof (b2z_range a). pose proof (b2z_range b). pose proof (b2z_range c).
    pose proof (b64_split_range (b2z a * 2 ^ 16 + b2z b * 2 ^ 8 + b2z c) ltac:(lia)) as (R1 & R2 & R3 & R4).
    pose proof (b64_split (b2z a * 2 ^ 16 + b2z b * 2 ^ 8 + b2z c) ltac:(lia)) as Hw.
    destruct (b64_digit_ok _ R1) as (-> & _), (b64_digit_ok _ R2) as (-> & _), (b64_digit_ok _ R3) as (-> & N3 & _),
      (b64_digit_ok _ R4) as (-> & N4 & _).
    rewrite !bool_decide_false by done. rewrite IH by (cbn; lia). rewrite Hw, b64_bytes_of. done.
Qed.

(** Encoded text is plain: no white space, no line break. *)
Lemma b64_encode_plain s : forallb plain_byte (b64_encode s) = true.
Proof.
  induction s as [s IH] using (induction_ltof1 _ length). unfold ltof in IH.
  assert (forall w, 0 <= w < 2 ^ 24 -> plain_byte (b64_digit (w / 2 ^ 18)) = true /\ plain_byte (b64_digit (w / 2 ^ 12 mod 64)) = true /\
    plain_byte (b64_digit (w / 2 ^ 6 mod 64)) = true /\ plain_byte (b64_digit (w mod 64)) = true) as Hd.
  { intros w Hw. destruct (b64_split_range w Hw) as (R1 & R2 & R3 & R4). split_and!; by apply b64_digit_ok. }
  destruct s as [|a [|b [|c t]]]; [done|..]; cbn [b64_encode app forallb]; pose proof (b2z_range a).
  - destruct (Hd (b2z a * 2 ^ 16)) as (-> & -> & _); [lia|]. done.
  - pose proof (b2z_range b). destruct (Hd (b2z a * 2 ^ 16 + b2z b * 2 ^ 8)) as (-> & -> & -> & _); [lia|]. done.
  - pose proof (b2z_range b). pose proof (b2z_range c).
    destruct (Hd (b2z a * 2 ^ 16 + b2z b * 2 ^ 8 + b2z c)) as (-> & -> & -> & ->); [lia|]. apply IH. cbn. lia.
Qed.

Lemma plain_breaks b : plain_byte b = true -> not_break b = true /\ b <> x20 /\ b <> x0a /\ b <> x0d.
Proof.
  intros H. assert (negb (plain_byte b) || (not_break b && negb (bool_decide (b = x20)) && negb (bool_decide (b = x0a)) && negb (bool_decide (b = x0d))) = true) as Hb
    by (revert b H; intros b _; revert b; apply byte_all; vm_compute; reflexivity).
  rewrite H in Hb. cbn [negb orb] in Hb. rewrite !andb_true_iff, !negb_true_iff, !bool_decide_eq_false in Hb. tauto.
Qed.

Lemma b64_decode_encode s : b64_decode (b64_encode s) = Some s.
Proof.
  unfold b64_decode. rewrite <- (b64_groups_encode s). f_equal. pose proof (b64_encode_plain s) as H.
  induction (b64_encode s) as [|b l IH]; [done|]. cbn [forallb] in H. apply andb_true_iff in H as [Hb Hl]. cbn [List.filter].
  destruct (plain_breaks b Hb) as (-> & _). by rewrite IH.
Qed.

Lemma b64_encode_length s : (length (b64_encode s) <= 4 * length s)%nat.
Proof.
  induction s as [s IH] using (induction_ltof1 _ length). unfold ltof in IH. destruct s as [|a [|b [|c t]]]; cbn [b64_encode app length]; [lia..|].
  specialize (IH t ltac:(cbn; lia)). lia.
Qed.

(** ** A signature file *)

Record sigFile := mkSigFile { s_untrusted : bytes; s_tag : bytes; s_keyID : bytes; s_sig : bytes; s_comment : bytes; s_global : bytes }.

Definition file_lines (f : sigFile) : list bytes :=
  [untrusted ++ s_untrusted f; b64_encode (s_tag f ++ s_keyID f ++ s_sig f); trustedPrefix ++ s_comment f; b64_encode (s_global f)].

(** The four lines the minisign tool writes. *)
Definition render (f : sigFile) : bytes := file_lines f ≫= (fun l => l ++ [x0a]).

(** Fields of the format's widths, comments of one line that fit the buffer. *)
Definition wf_sigFile (f : sigFile) : Prop :=
  (x0a ∉ s_untrusted f /\ x0d ∉ s_untrusted f /\ len (s_untrusted f) < 1000) /\
  (x0a ∉ s_comment f /\ x0d ∉ s_comment f /\ len (s_comment f) < 1000) /\
  len (s_tag f) = 2 /\ len (s_keyID f) = keyIDLen /\ len (s_sig f) = sigRawLen /\ len (s_global f) = sigRawLen.

(** A line of [file_lines] is not empty, has no line break, and fits. *)
Definition line_ok (l : bytes) : Prop := l <> [] /\ x0a ∉ l /\ x0d ∉ l /\ len l < 2 ^ 20.

Lemma trim_right_absent l c : c ∉ l -> trim_right l [c] = l.
Proof.
  intros H. unfold trim_right. rewrite <- (rev_involutive l) at 2. f_equal.
  assert (c ∉ rev l) as Hr by (rewrite list_elem_of_In, <- in_rev, <- list_elem_of_In; done).
  destruct (rev l) as [|b t]; [done|]. cbn. rewrite decide_False; [done|]. set_solver.
Qed.

Lemma trim_suffix_absent l c : c ∉ l -> trim_suffix l [c] = l.
Proof.
  intros H. unfold trim_suffix. destruct (has_suffix l [c]) eqn:E; [|done]. apply has_suffix_true in E as [r ->]. set_solver.
Qed.

Lemma scan_tokens_ok max ls : Forall (fun l => x0d ∉ l /\ len l < max) ls -> scan_tokens max ls = (ls, true).
Proof.
  induction 1 as [|l ls [Hc Hl] _ IH]; cbn; [done|]. rewrite (proj2 (Z.leb_gt _ _)) by done.
  rewrite IH, trim_suffix_absent by done. done.
Qed.

Lemma sig_lines_ok ls : Forall line_ok ls -> sig_lines (ls ≫= (fun l => l ++ [x0a])) = (ls, true).
Proof.
  intros H. unfold sig_lines, scan_lines. rewrite split_lines by (eapply Forall_impl; [exact H|]; by intros l (_ & ? & _)).
  rewrite last_snoc, removelast_last. rewrite scan_tokens_ok by (eapply Forall_impl; [exact H|]; by intros l (_ & _ & ? & ?)).
  f_equal. induction H as [|l ls (Hn & _ & Hc & _) _ IH]; [done|]. cbn [map List.filter].
  rewrite trim_right_absent by done. destruct (beq l []) eqn:E; [by apply beq_true in E|]. cbn [negb]. by f_equal.
Qed.

Lemma plain_line l : forallb plain_byte l = true -> l <> [] -> len l < 2 ^ 20 -> line_ok l.
Proof. intros H Hn Hl. split_and!; [done| | |done]; eapply forallb_not_elem; try exact H; reflexivity. Qed.

(** Encoded text is neither kind of comment. *)
Lemma plain_no_comment l p r : forallb plain_byte l = true -> has_prefix l (p ++ x20 :: r) = false.
Proof.
  intros H. destruct (has_prefix _ _) eqn:E; [|done]. apply has_prefix_true in E as [t ->].
  rewrite <- app_assoc, forallb_app in H. cbn [app forallb] in H. rewrite !andb_true_iff in H. by destruct H as (_ & [=] & _).
Qed.

Lemma find_comments_render f :
  find_comments 0 (file_lines f) None None = (Some 1%nat, Some (s_comment f, 2%nat)).
Proof.
  unfold file_lines.
  assert (forall l, forallb plain_byte l = true -> has_prefix l untrusted = false /\ cut_prefix l trustedPrefix = None) as Hp.
  { intros l Hl. split; [by apply (plain_no_comment l (bs "untrusted") (bs "comment:"))|].
    pose proof (plain_no_comment l (bs "trusted") (bs "comment: ") Hl) as H. unfold has_prefix in H. change (bs "trusted" ++ x20 :: bs "comment: ") with trustedPrefix in H.
    by destruct (cut_prefix l trustedPrefix). }
  destruct (Hp _ (b64_encode_plain (s_tag f ++ s_keyID f ++ s_sig f))) as [P1 Q1], (Hp _ (b64_encode_plain (s_global f))) as [P2 Q2].
  cbn [find_comments]. rewrite P1, Q1, P2, Q2, (proj2 (has_prefix_true _ untrusted)) by eauto.
  assert (has_prefix (trustedPrefix ++ s_comment f) untrusted = false) as -> by reflexivity. by rewrite cut_prefix_app.
Qed.

Lemma len_encode s n : len s = n -> len (b64_encode s) <= 4 * n.
Proof. intros <-. pose proof (b64_encode_length s). unfold len. lia. Qed.

Lemma b64_encode_nonempty s : s <> [] -> b64_encode s <> [].
Proof. by destruct s as [|a [|b [|c t]]]. Qed.

Lemma render_lines_ok f : wf_sigFile f -> Forall line_ok (file_lines f).
Proof.
  intros ((U1 & U2 & U3) & (C1 & C2 & C3) & Ht & Hk & Hs & Hg). unfold keyIDLen, sigRawLen in *. unfold file_lines.
  apply List.Forall_cons; [|apply List.Forall_cons; [|apply List.Forall_cons; [|apply List.Forall_cons; [|apply List.Forall_nil]]]].
  - split_and!; [done|apply not_elem_of_app; split; [|done]|apply not_elem_of_app; split; [|done]|rewrite len_app; change (len untrusted) with 18; lia].
    all: apply (forallb_not_elem (fun b => negb (bool_decide (b = x0a)) && negb (bool_decide (b = x0d)))); reflexivity.
  - apply plain_line; [apply b64_encode_plain| |].
    + apply b64_encode_nonempty. destruct (s_tag f); [done|]. done.
    + pose proof (len_encode (s_tag f ++ s_keyID f ++ s_sig f) 74) as H. rewrite !len_app in H. specialize (H ltac:(lia)). lia.
  - split_and!; [done|apply not_elem_of_app; split; [|done]|apply not_elem_of_app; split; [|done]|rewrite len_app; change (len trustedPrefix) with 17; lia].
    all: apply (forallb_not_elem (fun b => negb (bool_decide (b = x0a)) && negb (bool_decide (b = x0d)))); reflexivity.
  - apply plain_line; [apply b64_encode_plain| |].
    + apply b64_encode_nonempty. by destruct (s_global f).
    + pose proof (len_encode (s_global f) 64 Hg). lia.
Qed.

Lemma parse_render f : wf_sigFile f ->
  parseSignatureFile (render f) = Ok (b64_encode (s_tag f ++ s_keyID f ++ s_sig f), s_comment f, b64_encode (s_global f)).
Proof.
  intros Hf. unfold parseSignatureFile, render. rewrite sig_lines_ok by by apply render_lines_ok. cbn [negb].
  by rewrite find_comments_render.
Qed.

(** ** What an accepted signature proves *)

Section trust.
Context (ed25519 : bytes -> bytes -> bytes -> bool) (blake2b : bytes -> bytes).

(** The holder of the key signed the digest of the message and, in the same
act, this comment. *)
Definition signed (pk : PublicKey) (message comment : bytes) : Prop :=
  exists sig global, len sig = sigRawLen /\ len global = sigRawLen /\
    ed25519 (Key pk) (blake2b message) sig = true /\ ed25519 (Key pk) (sig ++ comment) global = true.

Definition key_ok (pk : PublicKey) : Prop := len (Key pk) = pubKeyRawLen.

Lemma find_key_in trusted id pk : find_key trusted id = Some pk -> pk ∈ trusted /\ KeyID pk = id.
Proof.
  unfold find_key. intros H. apply find_some in H as [H1 H2]. split; [by apply list_elem_of_In|]. by apply beq_true.
Qed.

Lemma ed25519_ok pk m s : key_ok pk -> ed25519_Verify ed25519 (Key pk) m s = Ok ((len s =? sigRawLen) && ed25519 (Key pk) m s).
Proof. intros Hk. unfold ed25519_Verify, key_ok in *. by rewrite Hk. Qed.

Lemma parse_safe data : safe (parseSignatureFile data).
Proof.
  unfold safe, parseSignatureFile. destruct (sig_lines data) as [ls []]; [|discriminate]. cbn [negb].
  destruct (find_comments _ _ _ _) as [si [[c i]|]]; destruct (si ≫= _); try discriminate. by destruct (ls !! S i).
Qed.

(** The fields of an accepted signature line. *)
Lemma signature_fields (raw : bytes) : len raw = 2 + keyIDLen + sigRawLen ->
  slice (E:=minisign_error) raw 0 2 = Ok (sub raw 0 2) /\ slice (E:=minisign_error) raw 2 (2 + keyIDLen) = Ok (sub raw 2 keyIDLen) /\
  exists sig, slice_from (E:=minisign_error) raw (2 + keyIDLen) = Ok sig /\ len sig = sigRawLen.
Proof.
  unfold keyIDLen, sigRawLen, slice_from. intros Hl. split_and!; [by apply slice_ok; lia|by apply slice_ok; lia|].
  exists (sub raw (2 + 8) (len raw - (2 + 8))). split; [apply slice_ok; lia|]. rewrite len_sub; lia.
Qed.

Lemma Verify_accepts message sigData trusted :
  Forall key_ok trusted ->
  match Verify ed25519 blake2b message sigData trusted with
  | Ok (pk, comment) => pk ∈ trusted /\ signed pk message comment
  | Err _ => True
  | Panic => False
  end.
Proof.
  intros Ht. unfold Verify. pose proof (parse_safe sigData) as Hp.
  destruct (parseSignatureFile sigData) as [[[sl c] g]| |]; [|done|by destruct Hp]. cbn [obind].
  destruct (b64_decode sl) as [raw|]; [|done]. destruct (negb (len raw =? _)) eqn:El; [done|]. zb.
  destruct (signature_fields raw El) as (-> & -> & sig & -> & Hs). cbn [obind].
  destruct (negb (beq _ algoED)); [done|]. destruct (find_key trusted _) as [pk|] eqn:Ek; [|done].
  apply find_key_in in Ek as [Hin _]. assert (key_ok pk) as Hk by (rewrite Forall_forall in Ht; by apply Ht).
  rewrite ed25519_ok by done. cbn [obind]. rewrite Hs, Z.eqb_refl. cbn [andb].
  destruct (ed25519 (Key pk) (blake2b message) sig) eqn:E1; [|done]. cbn [negb].
  destruct (b64_decode g) as [gs|]; [|done]. destruct (negb (len gs =? _)) eqn:Eg; [done|]. zb.
  rewrite ed25519_ok by done. cbn [obind]. rewrite Eg, Z.eqb_refl. cbn [andb]. destruct (ed25519 (Key pk) (sig ++ c) gs) eqn:E2; [|done].
  split; [done|]. by exists sig, gs.
Qed.

Lemma render_fields (tag id sig : bytes) : len tag = 2 -> len id = keyIDLen -> len sig = sigRawLen ->
  len (tag ++ id ++ sig) = 2 + keyIDLen + sigRawLen /\ slice (E:=minisign_error) (tag ++ id ++ sig) 0 2 = Ok tag /\
  slice (E:=minisign_error) (tag ++ id ++ sig) 2 (2 + keyIDLen) = Ok id /\
  slice_from (E:=minisign_error) (tag ++ id ++ sig) (2 + keyIDLen) = Ok sig.
Proof.
  unfold keyIDLen, sigRawLen, slice_from. intros Ht Hi Hs. assert (len (tag ++ id ++ sig) = 2 + 8 + 64) as Hl by (rewrite !len_app; lia).
  rewrite Hl. split_and!; [done|..]; rewrite slice_ok by lia; f_equal.
  - rewrite sub_app_l by lia. apply sub_full. lia.
  - rewrite sub_app_r, sub_app_l by lia. rewrite Ht. apply sub_full. lia.
  - rewrite !sub_app_r by lia. rewrite Ht, Hi. apply sub_full. lia.
Qed.

(** Which signature files are accepted. *)
Lemma Verify_render message f trusted :
  wf_sigFile f -> Forall key_ok trusted ->
  Verify ed25519 blake2b message (render f) trusted =
  if negb (beq (s_tag f) algoED) then Err (EAlgorithm (s_tag f)) else
  match find_key trusted (s_keyID f) with
  | None => Err (EKeyID (s_keyID f))
  | Some pk =>
      if negb (ed25519 (Key pk) (blake2b message) (s_sig f)) then Err (EBadSignature (s_keyID f)) else
      if negb (ed25519 (Key pk) (s_sig f ++ s_comment f) (s_global f)) then Err (EBadComment (s_keyID f)) else
      Ok (pk, s_comment f)
  end.
Proof.
  intros Hf Ht. unfold Verify. rewrite parse_render by done. cbn [obind]. rewrite b64_decode_encode.
  destruct Hf as (_ & _ & H2 & Hk & Hs & Hg).
  destruct (render_fields _ _ _ H2 Hk Hs) as (Hl & -> & -> & ->). rewrite Hl, Z.eqb_refl. cbn [negb obind].
  destruct (beq (s_tag f) algoED); [|done]. cbn [negb]. destruct (find_key trusted (s_keyID f)) as [pk|] eqn:Ek; [|done].
  apply find_key_in in Ek as [Hin _]. assert (key_ok pk) as Hp by (rewrite Forall_forall in Ht; by apply Ht).
  rewrite ed25519_ok by done. cbn [obind]. rewrite Hs, Z.eqb_refl. cbn [andb].
  destruct (ed25519 (Key pk) (blake2b message) (s_sig f)); [|done]. cbn [negb]. rewrite b64_decode_encode, Hg, Z.eqb_refl. cbn [negb].
  rewrite ed25519_ok by done. cbn [obind]. rewrite Hg, Z.eqb_refl. done.
Qed.
End trust.

Lemma ParsePublicKey_ok data pk : ParsePublicKey data = Ok pk -> key_ok pk /\ len (KeyID pk) = keyIDLen.
Proof.
  unfold ParsePublicKey. destruct (b64_decode _) as [raw|]; [|done]. destruct (negb _) eqn:El; [done|]. zb.
  unfold key_ok, keyIDLen, pubKeyRawLen, slice_from in *.
  destruct (index raw 0); [|done..]. destruct (index raw 1); [|done..]. cbn [obind]. destruct (negb _); [done|].
  rewrite !slice_ok by lia. cbn [obind]. intros [= <-]. cbn [Key KeyID]. rewrite !len_sub by lia. lia.
Qed.

(** C19 - Which signature files are accepted: a file in minisign's own format is
accepted for a message, with a key and a comment, exactly when it carries the
prehashed tag ED, the first trusted key with its key id is that key, the
signature is the key's over the BLAKE2b digest of the message, the second
signature is the key's over signature and comment, and the comment is the one in
the file. In particular a file whose tag is turned into the legacy Ed, or whose
comment is exchanged, is refused. *)
Theorem minisign_Verify_exact ed25519 blake2b message f trusted pk comment :
  wf_sigFile f -> Forall key_ok trusted ->
  (Verify ed25519 blake2b message (render f) trusted = Ok (pk, comment) <->
   s_tag f = algoED /\ find_key trusted (s_keyID f) = Some pk /\
   ed25519 (Key pk) (blake2b message) (s_sig f) = true /\
   ed25519 (Key pk) (s_sig f ++ s_comment f) (s_global f) = true /\ comment = s_comment f).
Proof.
  intros Hf Ht. rewrite Verify_render by done. split.
  - destruct (beq (s_tag f) algoED) eqn:E; [|done]. apply beq_true in E. cbn [negb].
    destruct (find_key _ _) as [pk'|]; [|done]. destruct (ed25519 _ (blake2b message) _) eqn:E1; [|done]. cbn [negb].
    destruct (ed25519 _ (s_sig f ++ _) _) eqn:E2; [|done]. by intros [= -> <-].
  - intros (-> & -> & -> & -> & ->). by rewrite (proj2 (beq_true _ _)).
Qed.

(** A toy scheme: the signature of a message repeats the key and the message. *)
Definition toy_ed25519 (key m sig : bytes) : bool := beq sig (take 64 (key ++ m ++ zeros 64)).
Definition toy_blake2b (m : bytes) : bytes := take 8 (m ++ zeros 8).
Definition toy_key : PublicKey := mkPublicKey (bs "key-0001") (bs "0123456789abcdef0123456789abcdef").
Definition toy_comment : bytes := bs "alpine-zfsboot v0.6.0 - alpine-zfsboot-x86_64.EFI".
Definition toy_sign (pk : PublicKey) (message comment : bytes) : sigFile :=
  let sig := take 64 (Key pk ++ toy_blake2b message ++ zeros 64) in
  mkSigFile (bs " a signature") algoED (KeyID pk) sig comment (take 64 (Key pk ++ (sig ++ comment) ++ zeros 64)).

Lemma toy_wf : wf_sigFile (toy_sign toy_key (bs "a loader") toy_comment).
Proof.
  split_and!; try reflexivity;
    apply (forallb_not_elem (fun b => negb (bool_decide (b = x0a)) && negb (bool_decide (b = x0d)))); reflexivity.
Qed.

Lemma toy_keys : Forall key_ok [toy_key].
Proof. apply List.Forall_cons; [reflexivity|apply List.Forall_nil]. Qed.

Lemma minisign_Verify_exact_witness :
  Verify toy_ed25519 toy_blake2b (bs "a loader") (render (toy_sign toy_key (bs "a loader") toy_comment)) [toy_key] = Ok (toy_key, toy_comment).
Proof.
  apply (minisign_Verify_exact toy_ed25519 toy_blake2b (bs "a loader") (toy_sign toy_key (bs "a loader") toy_comment) [toy_key] toy_key toy_comment toy_wf toy_keys).
  repeat split; reflexivity.
Defined.
