(* ===== verification/Release.v ===== *)
(** * internal/release: fetching and trusting release assets

release.go and signature.go: resolving the latest tag, downloading into
temporary files, SHA256SUMS, the detached signature of an asset and the binding
of its comment to asset and release, and the sources of the UEFI and the five
BIOS assets. The servers' answers, JSON decoding, net/url and the two
cryptographic primitives are parameters. *)

From Stdlib Require Import ZArith Lia Strings.Byte.
From stdpp Require Import base list sets gmap.
From S2P Require Import Prelude GoStrings Sha256 Minisign.
Local Open Scope Z_scope.

(** ** Names *)

Definition AssetName (arch : bytes) : bytes := bs "alpine-zfsboot-" ++ arch ++ bs ".EFI".

Record BIOSAssetNames := mkBIOSNames { nStage1 : bytes; nStage2 : bytes; nKernel : bytes; nInitrd : bytes; nCmdline : bytes }.

Definition BIOSAssetName (arch : bytes) : BIOSAssetNames :=
  mkBIOSNames (bs "alpine-zfsboot-" ++ arch ++ bs "-bios-stage1.bin") (bs "alpine-zfsboot-" ++ arch ++ bs "-bios-stage2.bin")
    (bs "alpine-zfsboot-" ++ arch ++ bs "-vmlinuz") (bs "alpine-zfsboot-" ++ arch ++ bs "-initramfs.img")
    (bs "alpine-zfsboot-" ++ arch ++ bs "-cmdline.txt").

Definition apiLatestReleaseURL : bytes := bs "https://api.github.com/repos/unidoc/alpine-zfsboot/releases/latest".

(** [fmt.Sprintf(downloadBaseURLTemplate, tag)] *)
Definition tag_base (tag : bytes) : bytes := bs "https://github.com/unidoc/alpine-zfsboot/releases/download/" ++ tag ++ bs "/".

Definition expectedTrustedComment (tag assetFile : bytes) : bytes := bs "alpine-zfsboot " ++ tag ++ bs " - " ++ assetFile.

(** ** The embedded key *)

Record trustedKey := mkTrustedKey { tkComment : bytes; tkPublicKey : bytes }.

Definition embeddedKeys : list trustedKey :=
  [mkTrustedKey (bs "2026 production key - minisign public key 947F6C8225F28558")
     (bs "untrusted comment: minisign public key 947F6C8225F28558
RWRYhfIlgmx/lNEckpNnD/XZl8FjxPfsHqwd3aeEwER3Yb/Cw4ZRLF8g
")].

(** A key that does not parse panics when the program starts. *)
Fixpoint mustParseTrustedKeys (keys : list trustedKey) : outcome minisign_error (list PublicKey) :=
  match keys with
  | [] => Ok []
  | k :: t =>
      match ParsePublicKey (tkPublicKey k) with
      | Ok pk => let! rest := mustParseTrustedKeys t in Ok (pk :: rest)
      | _ => Panic
      end
  end.

(** ** Downloads *)

(** The n-th request: no answer, another status than 200, or a body, which may
break off. *)
Inductive answer := NoAnswer | Status (code : Z) | Body (b : bytes) (complete : bool).

Inductive release_error :=
| EFetch (url : bytes) | EStatus (url : bytes) (code : Z) | ETempFile | ECopy (what : bytes) | EOpenLocal (path : bytes)
| EReadTemp | ENoTag | EBadJSON | ESumsLine (line : bytes) | ESumsHex (sum : bytes) | ENotListed (name : bytes)
| EChecksum (name : bytes) | ESignature (e : minisign_error) | EOtherSlot (comment : bytes).

(** Temporary files by number, the next number, the calls made so far and the
URLs requested, latest first. *)
Record downloads := mkDownloads { tmps : gmap nat bytes; next : nat; calls : nat; requested : list bytes }.

Definition rl (A : Type) : Type := downloads -> outcome release_error A * downloads.

Definition rret {A} (a : A) : rl A := fun s => (Ok a, s).
Definition rthrow {A} (e : release_error) : rl A := fun s => (Err e, s).
Definition rbind {A B} (c : rl A) (k : A -> rl B) : rl B := fun s =>
  match c s with
  | (Ok a, s') => k a s'
  | (Err e, s') => (Err e, s')
  | (Panic, s') => (Panic, s')
  end.
Definition rlift {A} (r : outcome release_error A) : rl A := fun s => (r, s).

(** [if err := c(); err != nil { undo(); return err }] *)
Definition ror {A} (c : rl A) (undo : rl unit) : rl A := fun s =>
  match c s with
  | (Err e, s') => (Err e, (undo s').2)
  | res => res
  end.

(** [defer undo()] *)
Definition rfinally {A} (c : rl A) (undo : rl unit) : rl A := fun s =>
  let (r, s') := c s in (r, (undo s').2).

Declare Scope release_scope.
Delimit Scope release_scope with release.
Notation "'fetch' x := c 'in' k" := (rbind c (fun x => k))
  (at level 10, x name, c at level 100, k at level 200) : release_scope.
Notation "'first' c 'then' k" := (rbind c (fun _ => k))
  (at level 10, c at level 100, k at level 200) : release_scope.
Local Open Scope release_scope.

Definition sha256HexPattern (s : bytes) : bool := match_classes (replicate 64 is_hex) s.

(** One line of SHA256SUMS. *)
Fixpoint parse_sums (lines : list bytes) (sums : gmap bytes bytes) : outcome release_error (gmap bytes bytes) :=
  match lines with
  | [] => Ok sums
  | l :: t =>
      let line := trim_space l in
      if beq line [] then parse_sums t sums else
      match fields line with
      | [sum; name] =>
          if negb (sha256HexPattern sum) then Err (ESumsHex sum) else
          parse_sums t (<[trim_prefix name (bs "*") := to_lower sum]> sums)
      | _ => Err (ESumsLine line)
      end
  end.

(** Where an asset comes from; both empty: the latest release. *)
Record Source := mkSource { sFile : bytes; sURL : bytes }.

Definition is_default (s : Source) : bool := beq (sFile s) [] && beq (sURL s) [].

Section release.
Context (net : nat -> bytes -> answer).
Context (fails rm_fails : nat -> bool).
Context (locals : bytes -> option bytes).
(** The tag_name of the first JSON value of a stream, which may break off. *)
Context (json_tag_name : bytes -> bool -> option bytes).
(** net/url: the query of a URL that parses, and its text with a suffix on the path. *)
Context (url_parse : bytes -> option (bytes * (bytes -> bytes))).
Context (ed25519 : bytes -> bytes -> bytes -> bool) (blake2b : bytes -> bytes).
Context (trustedSigningKeys : list PublicKey).

Definition rtick (s : downloads) : downloads := mkDownloads (tmps s) (next s) (S (calls s)) (requested s).
Definition set_tmps (t : gmap nat bytes) (s : downloads) : downloads := mkDownloads t (next s) (calls s) (requested s).

Definition http_get (url : bytes) : rl answer := fun s =>
  (Ok (net (length (requested s)) url), mkDownloads (tmps s) (next s) (calls s) (url :: requested s)).

(** [os.CreateTemp] *)
Definition createTemp : rl nat := fun s =>
  if fails (calls s) then (Err ETempFile, rtick s)
  else (Ok (next s), mkDownloads (<[next s := []]> (tmps s)) (S (next s)) (S (calls s)) (requested s)).

Definition removeTmp (p : nat) : rl unit := fun s =>
  (Ok tt, rtick (if rm_fails (calls s) then s else set_tmps (delete p (tmps s)) s)).

Definition readTmp (p : nat) : rl bytes := fun s =>
  match tmps s !! p with
  | Some c => if fails (calls s) then (Err EReadTemp, rtick s) else (Ok c, rtick s)
  | None => (Err EReadTemp, rtick s)
  end.

(** [io.Copy] into the file: all of it, or a part and an error. *)
Definition copyTo (p : nat) (what content : bytes) (complete : bool) : rl unit := fun s =>
  let s1 := rtick (set_tmps (<[p := content]> (tmps s)) s) in
  if complete && negb (fails (calls s)) then (Ok tt, s1) else (Err (ECopy what), s1).

(** A new temporary file with this content. *)
Definition spool (what content : bytes) (complete : bool) : rl nat :=
  fetch p := createTemp in
  first ror (copyTo p what content complete) (removeTmp p) then
  rret p.

Definition downloadAsset (url : bytes) : rl nat :=
  fetch a := http_get url in
  match a with
  | NoAnswer => rthrow (EFetch url)
  | Status code => rthrow (EStatus url code)
  | Body b complete => spool url b complete
  end.

Definition copyToTemp (src : bytes) : rl nat :=
  match locals src with
  | None => rthrow (EOpenLocal src)
  | Some c => spool src c true
  end.

Definition resolveTag : rl bytes :=
  fetch a := http_get apiLatestReleaseURL in
  match a with
  | NoAnswer => rthrow (EFetch apiLatestReleaseURL)
  | Status code => rthrow (EStatus apiLatestReleaseURL code)
  | Body b complete =>
      match json_tag_name b complete with
      | None => rthrow EBadJSON
      | Some [] => rthrow ENoTag
      | Some tag => rret tag
      end
  end.

Definition fetchChecksums (tagBase : bytes) : rl (gmap bytes bytes) :=
  let url := tagBase ++ bs "SHA256SUMS" in
  fetch a := http_get url in
  match a with
  | NoAnswer => rthrow (EFetch url)
  | Status code => rthrow (EStatus url code)
  | Body data complete => if complete then rlift (parse_sums (split x0a data) ∅) else rthrow (EFetch url)
  end.

Definition verifyChecksum (name : bytes) (path : nat) (sums : gmap bytes bytes) : rl unit :=
  match sums !! name with
  | None => rthrow (ENotListed name)
  | Some want =>
      fetch data := readTmp path in
      if beq (hex_encode (Sum256 data)) want then rret tt else rthrow (EChecksum name)
  end.

Definition sig_url (url : bytes) : bytes :=
  match url_parse url with
  | Some (query, with_suffix) => if beq query [] then url ++ bs ".minisig" else with_suffix (bs ".minisig")
  | None => url ++ bs ".minisig"
  end.

(** The comment is that of this asset of this release, or without a tag that of
this asset of some release. *)
Definition comment_fits (comment assetFile tag : bytes) : bool :=
  if beq tag [] then has_prefix comment (bs "alpine-zfsboot ") && has_suffix comment (bs " - " ++ assetFile)
  else beq comment (expectedTrustedComment tag assetFile).

Definition verifySignatureAtURL (url : bytes) (path : nat) (assetFile tag : bytes) : rl unit :=
  fetch sigPath := downloadAsset (sig_url url) in
  rfinally
    (fetch sigData := readTmp sigPath in
     fetch data := readTmp path in
     fetch r := rlift (owrap ESignature (Verify ed25519 blake2b data sigData trustedSigningKeys)) in
     if comment_fits r.2 assetFile tag then rret tt else rthrow (EOtherSlot r.2))
    (removeTmp sigPath).

Definition resolve (src : Source) (defaultURL assetFile : bytes) : rl nat :=
  if negb (beq (sFile src) []) then copyToTemp (sFile src) else
  if negb (beq (sURL src) []) then
    fetch path := downloadAsset (sURL src) in
    first ror (verifySignatureAtURL (sURL src) path assetFile []) (removeTmp path) then
    rret path
  else downloadAsset defaultURL.

(** Checksum, then signature, of a default asset; removed when either fails. *)
Definition verify_default (tag assetFile : bytes) (sums : gmap bytes bytes) (path : nat) : rl unit :=
  ror (first verifyChecksum assetFile path sums then
       verifySignatureAtURL (tag_base tag ++ assetFile) path assetFile tag) (removeTmp path).

Definition resolveDefaultAsset (assetFile : bytes) : rl nat :=
  fetch tag := resolveTag in
  fetch sums := fetchChecksums (tag_base tag) in
  fetch path := downloadAsset (tag_base tag ++ assetFile) in
  first verify_default tag assetFile sums path then
  rret path.

Definition ResolveEFI (src : Source) (arch : bytes) : rl nat :=
  if is_default src then resolveDefaultAsset (AssetName arch) else resolve src [] (AssetName arch).

(** [assets.RemoveAll] *)
Fixpoint removeAll (ps : list nat) : rl unit :=
  match ps with
  | [] => rret tt
  | p :: t => first removeTmp p then removeAll t
  end.

(** The loop of [ResolveBIOS]: [got] are the paths so far. *)
Fixpoint resolve_fields (fs : list (bytes * Source)) (tag : bytes) (sums : gmap bytes bytes) (got : list nat) : rl (list nat) :=
  match fs with
  | [] => rret got
  | (assetFile, src) :: t =>
      fetch path := ror (resolve src (if is_default src then tag_base tag ++ assetFile else []) assetFile) (removeAll got) in
      first (if is_default src then ror (verify_default tag assetFile sums path) (removeAll got) else rret tt) then
      resolve_fields t tag sums (got ++ [path])
  end.

Definition bios_fields (src1 src2 srck srci srcc : Source) (arch : bytes) : list (bytes * Source) :=
  let n := BIOSAssetName arch in
  [(nStage1 n, src1); (nStage2 n, src2); (nKernel n, srck); (nInitrd n, srci); (nCmdline n, srcc)].

Definition ResolveBIOS (src1 src2 srck srci srcc : Source) (arch : bytes) : rl (list nat) :=
  let fs := bios_fields src1 src2 srck srci srcc arch in
  if existsb (fun f => is_default f.2) fs then
    fetch tag := resolveTag in
    fetch sums := fetchChecksums (tag_base tag) in
    resolve_fields fs tag sums []
  else resolve_fields fs [] ∅ [].

(** ** What a download leaves behind

[settled s]: no file above the next number. [grew s s']: the files there were
before are as they were. [tidy s t s']: if removing files does not fail, the
files are exactly [t]. *)
Definition settled (s : downloads) : Prop := forall k, (next s <= k)%nat -> tmps s !! k = None.

Definition grew (s s' : downloads) : Prop :=
  (next s <= next s')%nat /\ forall k, (k < next s)%nat -> tmps s' !! k = tmps s !! k.

#[local] Instance grew_preorder : PreOrder grew.
Proof.
  split; [by intros s; split|]. intros x y z [H1 E1] [H2 E2]. split; [lia|]. intros k Hk. rewrite E2 by lia. by apply E1.
Qed.

Definition tidy (t : gmap nat bytes) (s' : downloads) : Prop := (forall n, rm_fails n = false) -> tmps s' = t.

(** A computation that makes one file: a new one whose content satisfies [P],
or none. *)
Definition makes (P : bytes -> Prop) (c : rl nat) : Prop := forall s r s',
  settled s -> c s = (r, s') ->
  settled s' /\ grew s s' /\
  match r with
  | Ok p => (next s <= p < next s')%nat /\ exists d, tmps s' !! p = Some d /\ P d /\ tidy (<[p := d]> (tmps s)) s'
  | Err _ => tidy (tmps s) s'
  | Panic => False
  end.

(** A computation that leaves the files alone, with what it establishes about
the files it was started with. *)
Definition leaves {A : Type} (P : gmap nat bytes -> A -> Prop) (c : rl A) : Prop := forall s r s',
  settled s -> c s = (r, s') ->
  settled s' /\ grew s s' /\ tidy (tmps s) s' /\ match r with Ok a => P (tmps s) a | Err _ => True | Panic => False end.

(** ** Rules *)

Lemma leaves_ret {A : Type} (P : gmap nat bytes -> A -> Prop) a : (forall t, P t a) -> leaves P (rret a).
Proof. intros H s r s' Hs [= <- <-]. split_and!; [done|reflexivity|done|apply H]. Qed.

Lemma leaves_throw {A : Type} (P : gmap nat bytes -> A -> Prop) e : leaves P (rthrow e).
Proof. intros s r s' Hs [= <- <-]. split_and!; [done|reflexivity|done|done]. Qed.

(** What the server of [url] delivers in full. *)
Definition served (url d : bytes) : Prop := exists n, net n url = Body d true.

Lemma leaves_get url : leaves (fun _ a => exists n, a = net n url) (http_get url).
Proof. intros s r s' Hs [= <- <-]. split_and!; [done|by split|done|by eexists]. Qed.

Lemma makes_throw P e : makes P (rthrow e).
Proof. intros s r s' Hs [= <- <-]. split_and!; [done|reflexivity|done]. Qed.

Lemma makes_after {A : Type} P (Q : gmap nat bytes -> A -> Prop) (c : rl A) k :
  leaves Q c -> (forall a t, Q t a -> makes P (k a)) -> makes P (rbind c k).
Proof.
  intros Hc Hk s r s' Hs H. unfold rbind in H. destruct (c s) as [rc x] eqn:E. apply Hc in E as (Hx & Gx & Tx & HQ); [|done].
  destruct rc as [a|e|]; [|injection H as <- <-; done|done].
  apply (Hk a _ HQ) in H as (Hs' & G' & Hr); [|done]. split_and!; [done|by etransitivity|].
  destruct Gx as [Gn _]. destruct r as [p|e|]; [|intros N; rewrite (Hr N); by apply Tx|done].
  destruct Hr as (Hp & d & Hd & HP & T). split; [lia|]. exists d. split_and!; [done..|]. intros N. by rewrite (T N), (Tx N).
Qed.

Lemma removeTmp_spec p s :
  next (removeTmp p s).2 = next s /\
  (tmps (removeTmp p s).2 = tmps s \/ tmps (removeTmp p s).2 = delete p (tmps s)) /\
  ((forall n, rm_fails n = false) -> tmps (removeTmp p s).2 = delete p (tmps s)).
Proof.
  unfold removeTmp. cbn [snd]. destruct (rm_fails (calls s)) eqn:E; cbn; split_and!; auto. intros H. by rewrite H in E.
Qed.

(** Removing a file that is newer than [s0]. *)
Lemma remove_new s0 s p : (next s0 <= p)%nat -> settled s -> grew s0 s ->
  settled (removeTmp p s).2 /\ grew s0 (removeTmp p s).2.
Proof.
  intros Hp Hs [Gn Gt]. destruct (removeTmp_spec p s) as (En & Et & _). split; [intros k Hk|split; [lia|intros k Hk]].
  - rewrite En in Hk. destruct Et as [->| ->]; [by apply Hs|]. rewrite lookup_delete_None. right. by apply Hs.
  - destruct Et as [->| ->]; [by apply Gt|]. rewrite lookup_delete_ne by lia. by apply Gt.
Qed.

Lemma makes_spool (P : bytes -> Prop) what content complete :
  (complete = true -> P content) -> makes P (spool what content complete).
Proof.
  intros HP s r s' Hs H. unfold spool, rbind, createTemp in H. destruct (fails (calls s)).
  { injection H as <- <-. split_and!; [done|by split|done]. }
  set (p := next s) in *. set (s1 := mkDownloads _ (S p) _ _) in H. unfold ror, copyTo in H.
  set (s2 := rtick _) in H. assert (tmps s2 = <[p := content]> (tmps s)) as E2 by (cbn; by rewrite insert_insert_eq).
  assert (settled s2) as Hs2.
  { intros k Hk. cbn in Hk. rewrite E2, lookup_insert_ne by lia. apply Hs. lia. }
  assert (grew s s2) as G2 by (split; [cbn; lia|]; intros k Hk; rewrite E2; apply lookup_insert_ne; lia).
  destruct (complete && negb (fails (calls s1))) eqn:Ec.
  - injection H as <- <-. apply andb_true_iff in Ec as [Ec _]. split_and!; [done|done|done|cbn; lia|]. exists content.
    split_and!; [by rewrite E2, lookup_insert_eq|auto|by intros _].
  - assert ((removeTmp p s2).2 = s' /\ r = Err (ECopy what)) as [<- ->] by by injection H as <- <-.
    destruct (remove_new s s2 p ltac:(lia) Hs2 G2) as [H1 H2]. split_and!; [done|done|]. intros N.
    destruct (removeTmp_spec p s2) as (_ & _ & Ed). rewrite (Ed N), E2, delete_insert_eq. by apply delete_id, Hs.
Qed.

Lemma makes_download url : makes (served url) (downloadAsset url).
Proof.
  apply (makes_after _ _ _ _ (leaves_get url)). intros [|code|b complete] t [n Hn]; [apply makes_throw..|].
  apply makes_spool. intros ->. by exists n.
Qed.

Lemma makes_local src : makes (fun d => locals src = Some d) (copyToTemp src).
Proof. unfold copyToTemp. destruct (locals src) eqn:E; [by apply makes_spool|apply makes_throw]. Qed.

(** A check of a file that was there before. *)
Definition examines (Q : bytes -> Prop) (k : nat -> rl unit) : Prop := forall p s r s',
  settled s -> (p < next s)%nat -> k p s = (r, s') ->
  settled s' /\ grew s s' /\ tidy (tmps s) s' /\
  match r with Ok _ => exists d, tmps s !! p = Some d /\ Q d | Err _ => True | Panic => False end.

Lemma examines_then (Q R : bytes -> Prop) (a b : nat -> rl unit) :
  examines Q a -> examines R b -> examines (fun d => Q d /\ R d) (fun p => first a p then b p).
Proof.
  intros Ha Hb p s r s' Hs Hp H. unfold rbind in H. destruct (a p s) as [ra x] eqn:E.
  apply Ha in E as (Hx & Gx & Tx & HQ); [|done..]. destruct ra as [u|e|]; [|injection H as <- <-; done|done].
  destruct Gx as [Gn Gt]. apply Hb in H as (Hs' & G' & T' & HR); [|done|lia]. split_and!; [done|by etransitivity; [split|]| |].
  - intros N. by rewrite (T' N), (Tx N).
  - destruct r; [|done..]. destruct HQ as (d & Hd & HQ), HR as (d' & Hd' & HR). rewrite Gt in Hd' by done. simplify_eq. eauto.
Qed.

(** A file made and then checked; removed again if the check fails. *)
Lemma makes_checked (P Q : bytes -> Prop) (c : rl nat) (k : nat -> rl unit) :
  makes P c -> examines Q k ->
  makes (fun d => P d /\ Q d) (fetch p := c in first ror (k p) (removeTmp p) then rret p).
Proof.
  intros Hc Hk s r s' Hs H. unfold rbind at 1 in H. destruct (c s) as [rc x] eqn:E. apply Hc in E as (Hx & Gx & Hr); [|done].
  destruct rc as [p|e|]; [|injection H as <- <-; done|done]. destruct Hr as (Hp & d & Hd & HP & T).
  unfold rbind, ror in H. destruct (k p x) as [rk y] eqn:E. apply Hk in E as (Hy & Gy & Ty & HQ); [|done|lia].
  destruct rk as [u|e|]; [| |done].
  - injection H as <- <-. destruct HQ as (d' & Hd' & HQ). simplify_eq. split_and!; [done|by etransitivity|lia|destruct Gy; lia|].
    exists d. destruct Gy as [Gn Gt]. rewrite Gt by lia. split_and!; [done..|]. intros N. by rewrite (Ty N), (T N).
  - assert ((removeTmp p y).2 = s' /\ r = Err e) as [<- ->] by by injection H as <- <-.
    destruct (remove_new s y p ltac:(lia) Hy ltac:(by etransitivity)) as [H1 H2]. split_and!; [done|done|]. intros N.
    destruct (removeTmp_spec p y) as (_ & _ & Ed). rewrite (Ed N), (Ty N), (T N), delete_insert_eq. apply delete_id, Hs. lia.
Qed.

(** ** The checks *)

Lemma readTmp_spec p s r s' : readTmp p s = (r, s') ->
  s' = rtick s /\ match r with Ok d => tmps s !! p = Some d | Err _ => True | Panic => False end.
Proof. unfold readTmp. destruct (tmps s !! p); [destruct (fails _)|]; by intros [= <- <-]. Qed.

Lemma examines_checksum name sums :
  examines (fun d => sums !! name = Some (hex_encode (Sum256 d))) (fun p => verifyChecksum name p sums).
Proof.
  intros p s r s' Hs Hp H. unfold verifyChecksum in H. destruct (sums !! name) as [want|].
  2:{ injection H as <- <-. split_and!; [done|reflexivity|done|done]. }
  unfold rbind in H. destruct (readTmp p s) as [rd x] eqn:E. apply readTmp_spec in E as [-> Hd].
  assert (r <> Panic /\ s' = rtick s /\ (r = Ok tt -> exists d, rd = Ok d /\ hex_encode (Sum256 d) = want)) as (Hr & -> & Ho).
  { destruct rd as [d|e|]; [|by injection H as <- <-|done]. destruct (beq _ want) eqn:Eb; injection H as <- <-; [|done].
    split_and!; [done..|]. intros _. exists d. split; [done|]. by apply beq_true. }
  split_and!; [done|by split|done|]. destruct r as [[]|e|]; [|done|by destruct Hr].
  destruct (Ho eq_refl) as (d & -> & <-). by exists d.
Qed.

(** A file signed for this slot by a trusted key. *)
Definition authentic (assetFile tag : bytes) (d : bytes) : Prop :=
  exists pk comment, pk ∈ trustedSigningKeys /\ signed ed25519 blake2b pk d comment /\ comment_fits comment assetFile tag = true.

Context (keys_ok : Forall key_ok trustedSigningKeys).

(** What [verifySignatureAtURL] does once it has the signature's file. *)
Lemma signature_body sigPath path assetFile tag s r s' :
  (fetch sigData := readTmp sigPath in
   fetch data := readTmp path in
   fetch v := rlift (owrap ESignature (Verify ed25519 blake2b data sigData trustedSigningKeys)) in
   if comment_fits v.2 assetFile tag then rret tt else rthrow (EOtherSlot v.2)) s = (r, s') ->
  next s' = next s /\ tmps s' = tmps s /\ r <> Panic /\
  (r = Ok tt -> exists d, tmps s !! path = Some d /\ authentic assetFile tag d).
Proof.
  unfold rbind. destruct (readTmp sigPath s) as [r1 x] eqn:E1. apply readTmp_spec in E1 as [-> H1].
  destruct r1 as [sigData|e|]; [|by intros [= <- <-]|done].
  destruct (readTmp path (rtick s)) as [r2 y] eqn:E2. apply readTmp_spec in E2 as [-> H2].
  destruct r2 as [data|e|]; [|by intros [= <- <-]|done]. unfold rlift.
  pose proof (Verify_accepts ed25519 blake2b data sigData trustedSigningKeys keys_ok) as Hv.
  destruct (Verify _ _ _ _ _) as [[pk comment]|e|]; cbn [owrap]; [|by intros [= <- <-]|done]. destruct Hv as [Hin Hsig]. cbn [snd].
  destruct (comment_fits comment assetFile tag) eqn:Ec; intros [= <- <-]; [|done]. split_and!; [done..|].
  intros _. exists data. split; [done|]. by exists pk, comment.
Qed.

Lemma examines_signature url assetFile tag :
  examines (authentic assetFile tag) (fun p => verifySignatureAtURL url p assetFile tag).
Proof.
  intros p s r s' Hs Hp H. unfold verifySignatureAtURL in H. unfold rbind at 1 in H.
  destruct (downloadAsset (sig_url url) s) as [r1 x] eqn:E. apply makes_download in E as (Hx & Gx & Hr); [|done].
  destruct r1 as [sigPath|e|]; [|injection H as <- <-; by split_and!|done]. destruct Hr as (Hsp & d & Hd & _ & T).
  unfold rfinally in H. match type of H with context [?c x] => destruct (c x) as [r2 y] eqn:E end.
  assert ((removeTmp sigPath y).2 = s' /\ r = r2) as [<- ->] by by injection H as <- <-.
  apply signature_body in E as (En & Et & Hnp & Hok).
  assert (settled y) as Hy by (intros k Hk; rewrite Et; apply Hx; lia).
  assert (grew s y) as Gy by (destruct Gx as [Gn Gt]; split; [lia|]; intros k Hk; rewrite Et; by apply Gt).
  destruct (remove_new s y sigPath ltac:(lia) Hy Gy) as [H1 H2]. split_and!; [done|done| |].
  - intros N. destruct (removeTmp_spec sigPath y) as (_ & _ & Ed). rewrite (Ed N), Et, (T N), delete_insert_eq.
    apply delete_id, Hs. lia.
  - destruct r2 as [[]|e|]; [|done|done]. destruct (Hok eq_refl) as (d' & Hd' & Ha). destruct Gx as [_ Gt].
    rewrite Gt in Hd' by done. by exists d'.
Qed.

(** ** The sources *)

(** Where the bytes of an asset come from and why they are trusted: the
operator's own file; what the operator's URL serves and a trusted key signed for
this asset; or what the release's own URL serves, with the checksum listed for
it and signed for this asset of this release. *)
Definition trusted_as (tag : bytes) (sums : gmap bytes bytes) (assetFile : bytes) (src : Source) (d : bytes) : Prop :=
  if negb (beq (sFile src) []) then locals (sFile src) = Some d
  else if negb (beq (sURL src) []) then served (sURL src) d /\ authentic assetFile [] d
  else served (tag_base tag ++ assetFile) d /\ sums !! assetFile = Some (hex_encode (Sum256 d)) /\ authentic assetFile tag d.

(** The tag and the checksums are those of the release a run that starts in [s0]
asks for: its first request names the latest release, its second gets the
SHA256SUMS of that release. *)
Definition release_of (s0 : downloads) (tag : bytes) (sums : gmap bytes bytes) : Prop :=
  exists reply complete data,
    net (length (requested s0)) apiLatestReleaseURL = Body reply complete /\ json_tag_name reply complete = Some tag /\ tag <> [] /\
    net (S (length (requested s0))) (tag_base tag ++ bs "SHA256SUMS") = Body data true /\
    parse_sums (split x0a data) ∅ = Ok sums.

Lemma makes_mono (P Q : bytes -> Prop) c : (forall d, P d -> Q d) -> makes P c -> makes Q c.
Proof.
  intros HPQ Hc s r s' Hs H. apply Hc in H as (Hs' & G & Hr); [|done]. split_and!; [done..|].
  destruct r; [|done..]. destruct Hr as (Hp & d & Hd & HP & T). split; [done|]. exists d. auto.
Qed.

Lemma makes_resolve src url assetFile tag sums : is_default src = false ->
  makes (trusted_as tag sums assetFile src) (resolve src url assetFile).
Proof.
  unfold is_default, resolve, trusted_as. intros Hd. destruct (beq (sFile src) []) eqn:Ef; cbn [negb].
  - rewrite andb_true_l in Hd. rewrite Hd. cbn [negb].
    apply (makes_checked _ _ _ _ (makes_download _) (examines_signature (sURL src) assetFile [])).
  - apply makes_local.
Qed.

Lemma makes_default tag assetFile sums :
  makes (fun d => served (tag_base tag ++ assetFile) d /\ sums !! assetFile = Some (hex_encode (Sum256 d)) /\ authentic assetFile tag d)
    (fetch path := downloadAsset (tag_base tag ++ assetFile) in first verify_default tag assetFile sums path then rret path).
Proof.
  unfold verify_default. apply (makes_checked _ _ _ _ (makes_download _)
    (examines_then _ _ _ _ (examines_checksum assetFile sums) (examines_signature (tag_base tag ++ assetFile) assetFile tag))).
Qed.

Lemma parse_sums_safe lines sums : parse_sums lines sums <> Panic.
Proof.
  revert sums. induction lines as [|l t IH]; intros sums; cbn [parse_sums]; [done|]. destruct (beq _ _); [apply IH|].
  destruct (fields _) as [|a [|b [|]]]; try done. destruct (negb _); [done|]. apply IH.
Qed.

Lemma leaves_tag : leaves (fun _ tag => tag <> []) resolveTag.
Proof.
  intros s r s' Hs H. unfold resolveTag, rbind, http_get in H. set (s1 := mkDownloads _ _ _ (_ :: _)) in H.
  assert (s' = s1 /\ match r with Ok tag => tag <> [] | Err _ => True | Panic => False end) as [-> Hr].
  { destruct (net _ _) as [|code|b c]; [by injection H as <- <-..|].
    destruct (json_tag_name b c) as [[|x tag]|]; injection H as <- <-; done. }
  split_and!; [done|by split|done|done].
Qed.

Lemma leaves_sums base : leaves (fun _ _ => True) (fetchChecksums base).
Proof.
  intros s r s' Hs H. unfold fetchChecksums, rbind, http_get in H. set (s1 := mkDownloads _ _ _ (_ :: _)) in H.
  assert (s' = s1 /\ r <> Panic) as [-> Hr].
  { destruct (net _ _) as [|code|b c]; [by injection H as <- <-..|]. destruct c; injection H as <- <-; [|done].
    split; [done|apply parse_sums_safe]. }
  split_and!; [done|by split|done|by destruct r].
Qed.

(** The two requests a run starts with. *)
Lemma resolveTag_asks s tag s' : resolveTag s = (Ok tag, s') ->
  tag <> [] /\ requested s' = apiLatestReleaseURL :: requested s /\
  exists reply complete, net (length (requested s)) apiLatestReleaseURL = Body reply complete /\ json_tag_name reply complete = Some tag.
Proof.
  unfold resolveTag, rbind, http_get. destruct (net _ _) as [|code|b c]; [done..|].
  destruct (json_tag_name b c) as [[|x t]|] eqn:E; intros [= <- <-]. split_and!; [done..|]. by exists b, c.
Qed.

Lemma fetchChecksums_asks base s sums s' : fetchChecksums base s = (Ok sums, s') ->
  exists data, net (length (requested s)) (base ++ bs "SHA256SUMS") = Body data true /\ parse_sums (split x0a data) ∅ = Ok sums.
Proof.
  unfold fetchChecksums, rbind, http_get. destruct (net _ _) as [|code|b c]; [done..|].
  destruct c; [|done]. intros [= E <-]. by exists b.
Qed.

Lemma asked_release s0 tag x sums y :
  resolveTag s0 = (Ok tag, x) -> fetchChecksums (tag_base tag) x = (Ok sums, y) -> release_of s0 tag sums.
Proof.
  intros (Ht & Hr & reply & complete & Hn & Hj)%resolveTag_asks (data & Hd & Hs)%fetchChecksums_asks.
  rewrite Hr in Hd. by exists reply, complete, data.
Qed.

Lemma makes_EFI src arch :
  makes (fun d => exists tag sums, tag <> [] /\ trusted_as tag sums (AssetName arch) src d) (ResolveEFI src arch).
Proof.
  unfold ResolveEFI. destruct (is_default src) eqn:Ed.
  - apply (makes_after _ _ _ _ leaves_tag). intros tag _ Ht. apply (makes_after _ _ _ _ (leaves_sums _)). intros sums _ _.
    eapply makes_mono; [|apply (makes_default tag (AssetName arch) sums)]. intros d Hd. exists tag, sums. split; [done|].
    unfold trusted_as. unfold is_default in Ed. apply andb_true_iff in Ed as [-> ->]. done.
  - eapply makes_mono; [|by apply (makes_resolve src [] (AssetName arch) (bs "-") ∅)]. intros d Hd. by exists (bs "-"), ∅.
Qed.

(** One turn of the loop of [ResolveBIOS], before what was made so far is
removed on an error. *)
Definition one_field (tag : bytes) (sums : gmap bytes bytes) (assetFile : bytes) (src : Source) : rl nat :=
  fetch path := resolve src (if is_default src then tag_base tag ++ assetFile else []) assetFile in
  first (if is_default src then verify_default tag assetFile sums path else rret tt) then
  rret path.

Lemma fields_step assetFile src t tag sums got s :
  resolve_fields ((assetFile, src) :: t) tag sums got s =
  (fetch path := ror (one_field tag sums assetFile src) (removeAll got) in resolve_fields t tag sums (got ++ [path])) s.
Proof.
  cbn [resolve_fields]. unfold one_field, rbind, ror. destruct (resolve _ _ _ s) as [[p|e|] x]; [|done..].
  destruct (is_default src); [|done]. by destruct (verify_default _ _ _ p x) as [[u|e|] y].
Qed.

Lemma makes_field tag sums assetFile src : makes (trusted_as tag sums assetFile src) (one_field tag sums assetFile src).
Proof.
  unfold one_field. destruct (is_default src) eqn:Ed.
  - unfold resolve, trusted_as. unfold is_default in Ed. apply andb_true_iff in Ed as [-> ->]. apply makes_default.
  - intros s r s' Hs H. apply (makes_resolve src [] assetFile tag sums Ed s r s' Hs). revert H. unfold rbind.
    by destruct (resolve _ _ _ s) as [[p|e|] x].
Qed.

(** ** All five *)

(** Since [s0] only the files [ps] are new. *)
Definition only_new (ps : list nat) (s0 s : downloads) : Prop :=
  (forall n, rm_fails n = false) -> forall k, (next s0 <= k)%nat -> k ∉ ps -> tmps s !! k = None.

Lemma removeAll_spec s0 ps s : Forall (fun p => (next s0 <= p)%nat) ps -> settled s -> grew s0 s ->
  settled (removeAll ps s).2 /\ grew s0 (removeAll ps s).2 /\
  ((forall n, rm_fails n = false) -> forall k, (k ∈ ps \/ tmps s !! k = None) -> tmps (removeAll ps s).2 !! k = None).
Proof.
  intros Hp. revert s. induction Hp as [|p ps Hp Hps IH]; intros s Hs G; cbn [removeAll].
  { split_and!; [done..|]. intros _ k [?%elem_of_nil|?]; done. }
  unfold rbind. destruct (removeTmp p s) as [r x] eqn:E. assert (r = Ok tt) as -> by by injection E.
  pose proof (remove_new s0 s p Hp Hs G) as [Hx Gx]. pose proof (removeTmp_spec p s) as (_ & _ & Ed). rewrite E in *. cbn [snd] in *.
  destruct (IH x Hx Gx) as (H1 & H2 & H3). split_and!; [done..|]. intros N k Hk. apply (H3 N).
  rewrite (Ed N), lookup_delete_None. rewrite elem_of_cons in Hk. destruct Hk as [[->|?]|?]; auto.
Qed.

(** The state of the loop: the paths so far are new files with contents [ds]. *)
Definition gathered (s0 s : downloads) (got : list nat) (ds : list bytes) : Prop :=
  settled s /\ grew s0 s /\ only_new got s0 s /\ Forall (fun p => (next s0 <= p < next s)%nat) got /\
  Forall2 (fun p d => tmps s !! p = Some d) got ds.

Lemma gathered_more s0 s x got ds p d :
  gathered s0 s got ds -> settled x -> grew s x -> (next s <= p < next x)%nat -> tmps x !! p = Some d ->
  tidy (<[p := d]> (tmps s)) x -> gathered s0 x (got ++ [p]) (ds ++ [d]).
Proof.
  intros (Hs & G & On & Hg & Hd) Hx Gx Hp Hpd T. destruct (Gx) as [Gn Gt], (G) as [Gn0 _]. split_and!; [done|by etransitivity|..].
  - intros N k Hk Hin. rewrite (T N), lookup_insert_ne by (intros ->; apply Hin; set_solver). apply (On N); [done|]. set_solver.
  - apply Forall_app. split; [eapply Forall_impl; [exact Hg|]; cbn; lia|]. apply List.Forall_cons; [lia|apply List.Forall_nil].
  - apply Forall2_app; [|constructor; [done|constructor]]. revert Hg. clear -Hd Gt.
    induction Hd as [|q e got ds Hq _ IH]; [done|]. intros [[_ Hl] Hr]%Forall_cons.
    constructor; [by rewrite Gt by lia|by apply IH].
Qed.

Lemma resolve_fields_spec fs tag sums s0 s got ds r s' :
  settled s0 -> gathered s0 s got ds -> resolve_fields fs tag sums got s = (r, s') ->
  match r with
  | Ok ps => exists es, gathered s0 s' ps (ds ++ es) /\ Forall2 (fun f d => trusted_as tag sums f.1 f.2 d) fs es
  | Err _ => settled s' /\ grew s0 s' /\ only_new [] s0 s'
  | Panic => False
  end.
Proof.
  intros H0. revert s got ds. induction fs as [|[a src] fs IH]; intros s got ds Hg H.
  { injection H as <- <-. exists []. rewrite app_nil_r. split; [done|constructor]. }
  rewrite fields_step in H. unfold rbind, ror in H. destruct (Hg) as (Hs & G & On & Hb & Hd).
  destruct (one_field tag sums a src s) as [r1 x] eqn:E. apply makes_field in E as (Hx & Gx & Hr); [|done].
  destruct r1 as [p|e|]; [| |done].
  - destruct Hr as (Hp & d & Hpd & HP & T). apply (IH x (got ++ [p]) (ds ++ [d])) in H; [|by eapply gathered_more].
    destruct r as [ps|e|]; [|done..]. destruct H as (es & Hgs & Hes). exists (d :: es). rewrite <- app_assoc in Hgs.
    split; [done|]. by constructor.
  - assert ((removeAll got x).2 = s' /\ r = Err e) as [<- ->] by by injection H as <- <-.
    destruct (removeAll_spec s0 got x) as (H1 & H2 & H3); [|done|by etransitivity|].
    { eapply Forall_impl; [exact Hb|]. cbn. lia. }
    split_and!; [done..|]. intros N k Hk _. apply (H3 N). destruct (decide (k ∈ got)) as [|Hn]; [by left|right].
    rewrite (Hr N). by apply (On N).
Qed.

Lemma gathered_start s0 s : settled s -> grew s0 s -> tidy (tmps s0) s -> settled s0 -> gathered s0 s [] [].
Proof.
  intros Hs G T H0. split_and!; [done|done| |done|done]. intros N k Hk _. rewrite (T N). by apply H0.
Qed.

(** The five files of a BIOS build; those that are not the operator's are all of
the one release the run asked for. *)
Definition bios_outcome (fs : list (bytes * Source)) (s0 : downloads) (r : outcome release_error (list nat)) (s' : downloads) : Prop :=
  match r with
  | Ok ps => exists tag sums ds, gathered s0 s' ps ds /\ Forall2 (fun f d => trusted_as tag sums f.1 f.2 d) fs ds /\
      (existsb (fun f => is_default f.2) fs = true -> release_of s0 tag sums)
  | Err _ => settled s' /\ grew s0 s' /\ only_new [] s0 s'
  | Panic => False
  end.

Lemma ResolveBIOS_spec src1 src2 srck srci srcc arch s0 r s' :
  settled s0 -> ResolveBIOS src1 src2 srck srci srcc arch s0 = (r, s') ->
  bios_outcome (bios_fields src1 src2 srck srci srcc arch) s0 r s'.
Proof.
  intros H0. unfold ResolveBIOS. set (fs := bios_fields _ _ _ _ _ _).
  assert (forall tag sums s, (existsb (fun f => is_default f.2) fs = true -> release_of s0 tag sums) -> gathered s0 s [] [] ->
    resolve_fields fs tag sums [] s = (r, s') -> bios_outcome fs s0 r s') as Hf.
  { intros tag sums s Ht Hg H. apply (resolve_fields_spec _ _ _ s0 _ _ _ _ _ H0 Hg) in H. unfold bios_outcome.
    destruct r; [|done..]. destruct H as (es & Hgs & Hes). by exists tag, sums, es. }
  assert (forall s, settled s -> grew s0 s -> tidy (tmps s0) s -> settled s /\ grew s0 s /\ only_new [] s0 s) as He.
  { intros s Hs G T. split_and!; [done..|]. intros N k Hk _. rewrite (T N). by apply H0. }
  destruct (existsb _ fs) eqn:Ex.
  - unfold rbind at 1. destruct (resolveTag s0) as [rt x] eqn:Et. pose proof Et as (Hx & Gx & Tx & Ht)%leaves_tag; [|done].
    destruct rt as [tag|e|]; [|intros [= <- <-]; by apply He|done].
    unfold rbind. destruct (fetchChecksums _ x) as [rs y] eqn:E. pose proof E as (Hy & Gy & Ty & Hsm)%leaves_sums; [|done].
    assert (grew s0 y) as G by by etransitivity. assert (tidy (tmps s0) y) as T by (intros N; by rewrite (Ty N), (Tx N)).
    destruct rs as [sums|e|]; [|intros [= <- <-]; by apply He|done].
    apply Hf; [intros _; by eapply asked_release|by apply gathered_start].
  - apply Hf; [done|]. by apply gathered_start.
Qed.
End release.

(** ** The keys of the program *)

Definition productionKeys : list PublicKey :=
  match mustParseTrustedKeys embeddedKeys with Ok l => l | _ => [] end.

Lemma embedded_keys_parse : exists pk, mustParseTrustedKeys embeddedKeys = Ok [pk].
Proof. eexists. vm_compute. reflexivity. Qed.

Lemma mustParse_ok keys pks : mustParseTrustedKeys keys = Ok pks -> Forall key_ok pks.
Proof.
  revert pks. induction keys as [|k keys IH]; intros pks; cbn [mustParseTrustedKeys]; [intros [= <-]; apply List.Forall_nil|].
  destruct (ParsePublicKey _) as [pk| |] eqn:E; [|done..]. destruct (mustParseTrustedKeys keys) as [rest| |]; [|done..].
  intros [= <-]. apply List.Forall_cons; [by apply ParsePublicKey_ok in E as [? _]|by apply IH].
Qed.

Lemma productionKeys_ok : Forall key_ok productionKeys.
Proof. destruct embedded_keys_parse as [pk H]. unfold productionKeys. rewrite H. by apply mustParse_ok in H. Qed.

(** ** Asset slots *)

Lemma last_space (u v a b : bytes) : x20 ∉ a -> x20 ∉ b -> u ++ x20 :: a = v ++ x20 :: b -> u = v /\ a = b.
Proof.
  intros Ha Hb. revert v. induction u as [|c u IH]; intros [|e v]; cbn; intros H; [by injection H| | |].
  - injection H as <- H. rewrite H in Ha. set_solver.
  - injection H as -> H. rewrite <- H in Hb. set_solver.
  - injection H as -> H. apply IH in H as [-> ->]. done.
Qed.

(** C20 - A signature counts only for the asset and release it was made for: if
the comment the release process signs for asset a' of release tag' is accepted
where asset a is wanted, then a is a', and where a release is pinned it is that
release. (The names of assets contain no space.) *)
Theorem comment_fits_slot a a' tag tag' :
  x20 ∉ a -> x20 ∉ a' -> comment_fits (expectedTrustedComment tag' a') a tag = true ->
  a = a' /\ (tag <> [] -> tag = tag').
Proof.
  intros Ha Ha' H. unfold comment_fits in H.
  assert (forall t n, expectedTrustedComment t n = (bs "alpine-zfsboot " ++ t ++ bs " -") ++ x20 :: n) as He.
  { intros t n. unfold expectedTrustedComment. rewrite <- !app_assoc. done. }
  destruct (beq tag []) eqn:Et.
  - apply beq_true in Et as ->. apply andb_true_iff in H as [_ H]. apply has_suffix_true in H as [r H].
    rewrite He in H. change (bs " - " ++ a) with (bs " -" ++ x20 :: a) in H. rewrite (app_assoc r (bs " -") (x20 :: a)) in H.
    apply last_space in H as [_ ->]; [by split|done..].
  - apply beq_true in H. rewrite !He in H. apply last_space in H as [H ->]; [|done..]. split; [done|]. intros _.
    apply app_inv_head in H. by apply app_inv_tail in H.
Qed.

Definition all_assets : list bytes :=
  [bs "x86_64"; bs "aarch64"] ≫= (fun arch => AssetName arch :: map fst (bios_fields (mkSource [] []) (mkSource [] []) (mkSource [] []) (mkSource [] []) (mkSource [] []) arch)).

(** The names of the twelve assets are different and without spaces. *)
Lemma asset_names_distinct : NoDup all_assets /\ Forall (fun a => x20 ∉ a) all_assets.
Proof.
  split; [apply (bool_decide_unpack _); vm_compute; reflexivity|].
  apply Forall_forall. intros a Ha. apply (forallb_not_elem plain_byte); [|reflexivity].
  assert (forallb (forallb plain_byte) all_assets = true) as H by (vm_compute; reflexivity).
  rewrite forallb_forall in H. by apply H, list_elem_of_In.
Qed.

Lemma comment_fits_slot_witness :
  comment_fits (expectedTrustedComment (bs "v0.6.0") (AssetName (bs "x86_64"))) (AssetName (bs "x86_64")) (bs "v0.6.0") = true /\
  AssetName (bs "x86_64") = AssetName (bs "x86_64") /\ (bs "v0.6.0" <> [] -> bs "v0.6.0" = bs "v0.6.0").
Proof.
  split; [reflexivity|].
  apply (comment_fits_slot (AssetName (bs "x86_64")) (AssetName (bs "x86_64")) (bs "v0.6.0") (bs "v0.6.0"));
    [apply (forallb_not_elem plain_byte); reflexivity..|reflexivity].
Defined.

(** C15 - Whatever the servers answer and whatever calls fail, resolving the five
BIOS assets gives either five new files or an error. Each of the five is the
operator's own local file, or what the operator's URL serves, signed for its own
slot by a key the program trusts, or what the latest release serves under the
slot's name. The latter is signed for the slot and for that release and has the
checksum that the release's SHA256SUMS lists: the release is the one the run's
first request names, and the SHA256SUMS the answer to its second. On an error, if removing
files does not fail, every file made on the way is gone; files that were there
before are never touched, and nothing panics. *)
Theorem ResolveBIOS_trusted net fails rm_fails locals json_tag_name url_parse ed25519 blake2b src1 src2 srck srci srcc arch s0 :
  settled s0 ->
  let res := ResolveBIOS net fails rm_fails locals json_tag_name url_parse ed25519 blake2b productionKeys src1 src2 srck srci srcc arch s0 in
  bios_outcome net rm_fails locals json_tag_name ed25519 blake2b productionKeys (bios_fields src1 src2 srck srci srcc arch) s0 res.1 res.2.
Proof. intros H0 res. eapply ResolveBIOS_spec; [apply productionKeys_ok|done|apply surjective_pairing]. Qed.

(** The same for the one UEFI asset. *)
Theorem ResolveEFI_trusted net fails rm_fails locals json_tag_name url_parse ed25519 blake2b src arch :
  makes rm_fails (fun d => exists tag sums, tag <> [] /\ trusted_as net locals ed25519 blake2b productionKeys tag sums (AssetName arch) src d)
    (ResolveEFI net fails rm_fails locals json_tag_name url_parse ed25519 blake2b productionKeys src arch).
Proof. apply makes_EFI, productionKeys_ok. Qed.

(** ** Concrete downloads *)

Definition no_downloads : downloads := mkDownloads ∅ 0 0 [].
Definition never (_ : nat) : bool := false.
Definition local_files (p : bytes) : option bytes := if has_prefix p (bs "/srv/") then Some p else None.
Definition local (p : bytes) : Source := mkSource (bs "/srv/" ++ p) [].
Definition no_url (_ : bytes) : option (bytes * (bytes -> bytes)) := None.

(** A release that serves every asset under its own name as content, with its
signature by the production key; its initrd is the operator's own file. *)
Definition production_key : PublicKey := default toy_key (head productionKeys).
Definition served_names : list bytes := map fst (bios_fields (mkSource [] []) (mkSource [] []) (mkSource [] []) (mkSource [] []) (mkSource [] []) (bs "x86_64")).
Definition served_sums : bytes := served_names ≫= (fun n => hex_encode (Sum256 n) ++ bs "  " ++ n ++ [x0a]).
Definition release_server (tag : bytes) (_ : nat) (url : bytes) : answer :=
  if beq url apiLatestReleaseURL then Body tag true
  else if beq url (tag_base tag ++ bs "SHA256SUMS") then Body served_sums true
  else match List.find (fun n => beq url (tag_base tag ++ n)) served_names with
       | Some n => Body n true
       | None =>
           match List.find (fun n => beq url (tag_base tag ++ n ++ bs ".minisig")) served_names with
           | Some n => Body (render (toy_sign production_key n (expectedTrustedComment tag n))) true
           | None => Status 404
           end
       end.
Definition tag_itself (b : bytes) (_ : bool) : option bytes := Some b.

Definition release_run (server : nat -> bytes -> answer) : outcome release_error (list nat) * downloads :=
  ResolveBIOS server never never local_files tag_itself no_url toy_ed25519 toy_blake2b productionKeys
    (mkSource [] []) (mkSource [] []) (mkSource [] []) (local (bs "initrd")) (mkSource [] []) (bs "x86_64") no_downloads.

Lemma ResolveBIOS_trusted_witness :
  (release_run (release_server (bs "v0.6.0"))).1 = Ok [0; 2; 4; 6; 7]%nat /\
  bios_outcome (release_server (bs "v0.6.0")) never local_files tag_itself toy_ed25519 toy_blake2b productionKeys
    (bios_fields (mkSource [] []) (mkSource [] []) (mkSource [] []) (local (bs "initrd")) (mkSource [] []) (bs "x86_64"))
    no_downloads (release_run (release_server (bs "v0.6.0"))).1 (release_run (release_server (bs "v0.6.0"))).2.
Proof.
  split; [vm_compute; reflexivity|].
  apply (ResolveBIOS_trusted (release_server (bs "v0.6.0")) never never local_files tag_itself no_url toy_ed25519 toy_blake2b
    (mkSource [] []) (mkSource [] []) (mkSource [] []) (local (bs "initrd")) (mkSource [] []) (bs "x86_64") no_downloads).
  intros k _. reflexivity.
Defined.

(** A kernel that is not the listed one is refused, and so is the correctly
signed kernel of another release; nothing stays behind. *)
Definition kernel_url : bytes := tag_base (bs "v0.6.0") ++ nKernel (BIOSAssetName (bs "x86_64")).
Definition other_kernel (n : nat) (url : bytes) : answer :=
  if beq url kernel_url then Body (bs "another kernel") true
  else if beq url (kernel_url ++ bs ".minisig") then
    Body (render (toy_sign production_key (bs "another kernel") (expectedTrustedComment (bs "v0.6.0") (nKernel (BIOSAssetName (bs "x86_64")))))) true
  else release_server (bs "v0.6.0") n url.
Definition old_signature (n : nat) (url : bytes) : answer :=
  if beq url (kernel_url ++ bs ".minisig") then
    release_server (bs "v0.5.0") n (tag_base (bs "v0.5.0") ++ nKernel (BIOSAssetName (bs "x86_64")) ++ bs ".minisig")
  else release_server (bs "v0.6.0") n url.

Example release_refused :
  (release_run other_kernel).1 = Err (EChecksum (nKernel (BIOSAssetName (bs "x86_64")))) /\ tmps (release_run other_kernel).2 = ∅ /\
  (release_run old_signature).1 = Err (EOtherSlot (expectedTrustedComment (bs "v0.5.0") (nKernel (BIOSAssetName (bs "x86_64"))))) /\
  tmps (release_run old_signature).2 = ∅.
Proof. split_and!; vm_compute; reflexivity. Qed.

(** A mirror that serves the loader of a release, and its signature. *)
Definition mirror (comment : bytes) (_ : nat) (url : bytes) : answer :=
  if has_suffix url (bs ".minisig") then Body (render (toy_sign toy_key (bs "a loader") comment)) true else Body (bs "a loader") true.

Definition mirror_run (comment : bytes) : outcome release_error nat * downloads :=
  ResolveEFI (mirror comment) never never local_files (fun _ _ => None) no_url toy_ed25519 toy_blake2b [toy_key]
    (mkSource [] (bs "https://mirror/loader")) (bs "x86_64") no_downloads.

Example mirror_accepted : (mirror_run toy_comment).1 = Ok 0%nat /\ tmps (mirror_run toy_comment).2 = {[0%nat := bs "a loader"]}.
Proof. split; vm_compute; reflexivity. Qed.

Example mirror_other_slot :
  (mirror_run (bs "alpine-zfsboot v0.6.0 - alpine-zfsboot-aarch64.EFI")).1
  = Err (EOtherSlot (bs "alpine-zfsboot v0.6.0 - alpine-zfsboot-aarch64.EFI")) /\
  tmps (mirror_run (bs "alpine-zfsboot v0.6.0 - alpine-zfsboot-aarch64.EFI")).2 = ∅.
Proof. split; vm_compute; reflexivity. Qed.
