(* ===== verification/Cleanup.v ===== *)
(** * cmd/tool: releasing the mounts, whatever ends the process

A command mounts ESPs and must unmount them however it ends: normally, through
[die], or by a signal. main.go keeps one package variable, [activeCleanup],
under a mutex; the command's deferred call, [die] and the signal handler's
goroutine all go through [runActiveCleanup]. This file models the two
goroutines as threads over that shared state, with every interleaving, and
proves that no mount is released twice, in which executions all of them are
released, last mounted first, and that the process ends. *)

From Stdlib Require Import ZArith Lia Wellfounded Relation_Operators.
From stdpp Require Import base list relations.
From S2P Require Import Prelude Mirror.
Local Open Scope Z_scope.

Inductive who := Main | Signal.

(** The steps of a function that holds the mutex. [IfActive] is the test of
[activeCleanup] with the call below it: [host.cleanup] runs the members'
cleanups from the last to the first and sets the list to nil. *)
Inductive micro := IfActive | Release (i : nat) | DropCleanups | ClearActive | Register | Unlock.

(** What a goroutine does next. The two functions start by taking the mutex. *)
Inductive stmt :=
| Receive
| Work
| Attach (m : nat)
| WithCleanup
| RunActiveCleanup
| Exit (code : Z).

Record thread := mkThread { busy : list micro; todo : list stmt }.

Record shared := mkShared {
  activeCleanupMu : option who;
  activeCleanup : bool;
  cleanups : list nat;
  attached : list nat;
  released : list nat;
  exited : option (who * Z)
}.

Definition lock (w : who) (sh : shared) : option shared :=
  match activeCleanupMu sh with
  | Some _ => None
  | None => Some (mkShared (Some w) (activeCleanup sh) (cleanups sh) (attached sh) (released sh) (exited sh))
  end.

(** [h.cleanup]: [for i := len(h.cleanups) - 1; i >= 0; i--]. *)
Definition host_cleanup (sh : shared) : list micro :=
  (Release <$> rev (seq 0 (length (cleanups sh)))) ++ [DropCleanups].

Definition run_micro (m : micro) (b : list micro) (sh : shared) : list micro * shared :=
  let '(mkShared mu act cl att rel ex) := sh in
  match m with
  | IfActive => (if act then host_cleanup sh ++ ClearActive :: b else b, sh)
  | Release i => (b, mkShared mu act cl att (rel ++ option_list (cl !! i)) ex)
  | DropCleanups => (b, mkShared mu act [] att rel ex)
  | ClearActive => (b, mkShared mu false cl att rel ex)
  | Register => (b, mkShared mu true cl att rel ex)
  | Unlock => (b, mkShared None act cl att rel ex)
  end.

Definition runActiveCleanup : list micro := [IfActive; Unlock].
Definition withCleanup : list micro := [Register; Unlock].

(** One step of a goroutine; [None] when it waits for the mutex or has ended. *)
Definition run_thread (w : who) (th : thread) (sh : shared) : option (thread * shared) :=
  match exited sh with
  | Some _ => None
  | None =>
      match th with
      | mkThread (m :: b) l => let (b', sh') := run_micro m b sh in Some (mkThread b' l, sh')
      | mkThread [] [] => None
      | mkThread [] (st :: l) =>
          let '(mkShared mu act cl att rel ex) := sh in
          match st with
          | Receive | Work => Some (mkThread [] l, sh)
          | Attach m => Some (mkThread [] l, mkShared mu act (cl ++ [m]) (att ++ [m]) rel ex)
          | WithCleanup => sh' ← lock w sh; Some (mkThread withCleanup l, sh')
          | RunActiveCleanup => sh' ← lock w sh; Some (mkThread runActiveCleanup l, sh')
          | Exit c => Some (mkThread [] l, mkShared mu act cl att rel (Some (w, c)))
          end
      end
  end.

Record process := mkProcess { main_thread : thread; signal_thread : thread; state : shared }.

Definition exec (w : who) (p : process) : option process :=
  match w with
  | Main => '(th, sh) ← run_thread Main (main_thread p) (state p); Some (mkProcess th (signal_thread p) sh)
  | Signal => '(th, sh) ← run_thread Signal (signal_thread p) (state p); Some (mkProcess (main_thread p) th sh)
  end.

Definition step (p p' : process) : Prop := exists w, exec w p = Some p'.

(** A schedule: which goroutine moves next. *)
Fixpoint run_schedule (l : list who) (p : process) : option process :=
  match l with
  | [] => Some p
  | w :: l => p' ← exec w p; run_schedule l p'
  end.

(** ** The goroutines *)

Definition die (failed : bool) : list stmt := if failed then [RunActiveCleanup; Exit 1] else [].

(** main()'s handler. *)
Definition handler : list stmt := [Receive; RunActiveCleanup; Exit 1].

(** What the body of a command does once it has registered its cleanup: work,
mount a further ESP (--add-esp, the listed ESPs of an install), give up - through
[die] or by returning 1, which runs the deferred call. *)
Inductive action := Proceed | MountMore (m : nat) | Fail.

Definition act (a : action) : list stmt :=
  match a with Proceed => [Work] | MountMore m => [Attach m] | Fail => die true end.

(** A command: [die] on each of its early checks, the discovery, which fails
before anything is mounted or mounts the members, [defer withCleanup(h.cleanup)()],
the body, the deferred call and the exit. *)
Definition command (checks : list bool) (discovered : option (list nat)) (body : list action) (code : Z) : list stmt :=
  (checks ≫= die) ++
  match discovered with
  | None => [Exit exitFailure]
  | Some ms => (Attach <$> ms) ++ WithCleanup :: (body ≫= act) ++ [RunActiveCleanup; Exit code]
  end.

Definition start (checks : list bool) (discovered : option (list nat)) (body : list action) (code : Z) : process :=
  mkProcess (mkThread [] (command checks discovered body code)) (mkThread [] handler)
            (mkShared None false [] [] [] None).

(** ** The shapes of a command *)

Definition exits (l : list stmt) : bool := match l with Exit _ :: _ => true | _ => false end.

(** After the registration; no further mount when [settled]. *)
Fixpoint closing (settled : bool) (l : list stmt) : bool :=
  match l with
  | Work :: l => closing settled l
  | Attach _ :: l => negb settled && closing settled l
  | RunActiveCleanup :: l => exits l
  | _ => false
  end.

Fixpoint attaching (l : list stmt) : bool :=
  match l with
  | Attach _ :: l => attaching l
  | WithCleanup :: l => closing false l
  | _ => false
  end.

Definition opening (l : list stmt) : bool :=
  match l with RunActiveCleanup :: l => exits l | _ => exits l || attaching l end.

Lemma closing_command body code : closing false ((body ≫= act) ++ [RunActiveCleanup; Exit code]) = true.
Proof. induction body as [|[] body IH]; (done || exact IH). Qed.

Lemma attaching_command ms l : attaching ((Attach <$> ms) ++ WithCleanup :: l) = closing false l.
Proof. by induction ms. Qed.

Lemma opening_command checks discovered body code : opening (command checks discovered body code) = true.
Proof.
  unfold command. induction checks as [|[|] checks IH]; [|done|exact IH].
  destruct discovered as [ms|]; [|done]. cbn [mbind list_bind app].
  assert (attaching ((Attach <$> ms) ++ WithCleanup :: (body ≫= act) ++ [RunActiveCleanup; Exit code]) = true) as E.
  { by rewrite attaching_command, closing_command. }
  by destruct ms.
Qed.

Definition ends (l : list stmt) : Prop := exists c, Exit c ∈ l.

Lemma ends_tail st l : ends (st :: l) -> (forall c, st <> Exit c) -> ends l.
Proof. intros [c Hc] Hn. exists c. apply elem_of_cons in Hc as [<-|Hc]; [by destruct (Hn c)|done]. Qed.

Lemma ends_command checks discovered body code : ends (command checks discovered body code).
Proof.
  unfold command, ends. destruct discovered as [ms|]; [exists code|exists exitFailure]; apply list_elem_of_In;
    repeat (rewrite in_app_iff; right); cbn; [|tauto]. right. rewrite in_app_iff. cbn. tauto.
Qed.

(** ** No execution goes on for ever *)

Definition tests (b : list micro) : nat := length (List.filter (fun m => match m with IfActive => true | _ => false end) b).

(** Statements and tests left, then steps of critical sections left. *)
Definition thread_left (th : thread) : nat * nat := ((2 * length (todo th) + tests (busy th))%nat, length (busy th)).

Definition fewer : nat * nat -> nat * nat -> Prop := slexprod nat nat lt lt.

Lemma fewer_intro a b a' b' : (a' < a \/ a' = a /\ b' < b)%nat -> fewer (a', b') (a, b).
Proof. intros [H|[-> H]]; [by apply left_slex|by apply right_slex]. Qed.

Lemma tests_cleanup sh b : tests (host_cleanup sh ++ ClearActive :: b) = tests b.
Proof.
  unfold tests, host_cleanup. rewrite <-app_assoc, List.filter_app, length_app.
  by induction (rev _) as [|i l IH].
Qed.

Lemma thread_decreases w th sh th' sh' :
  run_thread w th sh = Some (th', sh') ->
  ((thread_left th').1 < (thread_left th).1 \/
   (thread_left th').1 = (thread_left th).1 /\ (thread_left th').2 < (thread_left th).2)%nat.
Proof.
  unfold run_thread, thread_left. destruct th as [[|m b] l], sh as [mu act cl att rel [e|]]; intros H; try discriminate H.
  - left. cbn in H. destruct l as [|st l]; [discriminate H|].
    destruct st; [..|destruct mu; [discriminate H|]|destruct mu; [discriminate H|]|];
      injection H as <- <-; cbn; lia.
  - cbn [exited run_micro] in H. destruct m; injection H as <- <-; cbn [busy todo fst snd]; [left|right; unfold tests; cbn; lia..].
    change (tests (IfActive :: b)) with (S (tests b)). destruct act; [rewrite tests_cleanup|]; lia.
Qed.

Definition process_left (p : process) : nat * nat :=
  let '(a, b) := thread_left (main_thread p) in let '(a', b') := thread_left (signal_thread p) in ((a + a')%nat, (b + b')%nat).

Lemma step_decreases p p' : step p p' -> fewer (process_left p') (process_left p).
Proof.
  intros [w H]. unfold process_left. destruct w; apply bind_Some in H as ([th sh'] & H & [= <-]);
    apply thread_decreases in H; cbn [main_thread signal_thread]; repeat destruct (thread_left _); apply fewer_intro; cbn in *; lia.
Qed.

Lemma step_terminates p : Acc (flip step) p.
Proof.
  assert (well_founded fewer) as Hw by (apply wf_slexprod; apply lt_wf).
  apply (wf_projected fewer process_left); [|done]. intros x y H. by apply step_decreases.
Qed.

(** ** What holds in every interleaving

Whoever holds the mutex is inside one of the two functions, and the mounts
still to be released are not among those released. *)

Definition releasing (k : nat) : list micro := (Release <$> rev (seq 0 k)) ++ [DropCleanups; ClearActive; Unlock].

Inductive critical (sh : shared) : list micro -> Prop :=
| critical_plain b : released sh ++ cleanups sh ⊆+ attached sh ->
    b ∈ [withCleanup; runActiveCleanup; [ClearActive; Unlock]; [Unlock]] -> critical sh b
| critical_releasing k : (k <= length (cleanups sh))%nat -> released sh ++ take k (cleanups sh) ⊆+ attached sh ->
    critical sh (releasing k).

Definition mutex_ok (sh : shared) (m s : list micro) : Prop :=
  match activeCleanupMu sh with
  | None => m = [] /\ s = [] /\ released sh ++ cleanups sh ⊆+ attached sh
  | Some Main => s = [] /\ critical sh m
  | Some Signal => m = [] /\ critical sh s
  end.

Definition sound (p : process) : Prop :=
  mutex_ok (state p) (busy (main_thread p)) (busy (signal_thread p)) /\
  (exited (state p) = None -> ends (todo (main_thread p))).

Lemma critical_not_nil sh : ~ critical sh [].
Proof.
  intros H. inversion H as [b _ Hb E|k _ _ E]; [set_solver|]. by apply app_nil in E as [_ E].
Qed.

(** A step inside a critical section stays inside, or leaves it. *)
Lemma critical_step m b sh b' sh' :
  critical sh (m :: b) -> run_micro m b sh = (b', sh') ->
  (activeCleanupMu sh' = activeCleanupMu sh /\ critical sh' b') \/
  (b' = [] /\ activeCleanupMu sh' = None /\ released sh' ++ cleanups sh' ⊆+ attached sh').
Proof.
  destruct sh as [mu ac cl att rel ex]. intros H E. inversion H as [? Hs Hb|k Hk Hs Eb]; subst; cbn [released cleanups attached] in *.
  - assert (forall x, x ∈ [withCleanup; runActiveCleanup; [ClearActive; Unlock]; [Unlock]] -> critical (mkShared mu ac cl att rel ex) x) as Hx.
    { intros x Hx. by apply critical_plain. }
    set_unfold in Hb. destruct Hb as [[= -> ->]|[[= -> ->]|[[= -> ->]|[[= -> ->]|[]]]]].
    + injection E as <- <-. left. split; [done|]. apply critical_plain; [done|set_solver].
    + injection E as <- <-. left. split; [done|]. destruct ac; [|apply critical_plain; [done|set_solver]].
      unfold host_cleanup. rewrite <-app_assoc. apply critical_releasing; [done|]. cbn. by rewrite firstn_all.
    + injection E as <- <-. left. split; [done|]. apply critical_plain; [done|set_solver].
    + injection E as <- <-. right. done.
  - destruct k as [|k]; unfold releasing in Eb.
    + injection Eb as <- <-. injection E as <- <-. left. split; [done|]. apply critical_plain; [done|set_solver].
    + rewrite seq_S, rev_app_distr in Eb. injection Eb as <- <-. destruct (lookup_lt_is_Some_2 cl k) as [x Hx]; [lia|].
      injection E as <- <-. left. split; [done|]. apply critical_releasing; cbn [released cleanups attached]; [lia|].
      rewrite Hx. change (option_list (Some x)) with [x]. cbn [plus] in Hs. erewrite take_S_r in Hs by done.
      by rewrite <-app_assoc, (Permutation_app_comm [x]).
Qed.

Lemma sound_idle_step w l sh th sh' :
  run_thread w (mkThread [] l) sh = Some (th, sh') -> released sh ++ cleanups sh ⊆+ attached sh ->
  released sh' ++ cleanups sh' ⊆+ attached sh' /\
  (activeCleanupMu sh' = activeCleanupMu sh /\ busy th = [] \/
   activeCleanupMu sh = None /\ activeCleanupMu sh' = Some w /\ critical sh' (busy th)).
Proof.
  destruct sh as [mu ac cl att rel [e|]]; cbn; [done|]. intros H Hs. destruct l as [|[] l]; [done|..].
  4,5: destruct mu; [done|]; injection H as <- <-; (split; [done|]); right; (split_and!; [done..|]); apply critical_plain; [done|set_solver].
  all: injection H as <- <-; cbn; split; [|by left]; try done. rewrite app_assoc. by apply submseteq_app.
Qed.

(** The other goroutine, while one is inside. *)
Lemma critical_beside w l sh th sh' b :
  run_thread w (mkThread [] l) sh = Some (th, sh') -> activeCleanupMu sh <> None -> critical sh b ->
  busy th = [] /\ activeCleanupMu sh' = activeCleanupMu sh /\ critical sh' b.
Proof.
  destruct sh as [[o|] ac cl att rel [e|]]; cbn; [done| |done|done]. intros H _ Hc. destruct l as [|[] l]; [done|..]; try discriminate H.
  all: injection H as <- <-; (split_and!; [done|done|]); try done.
  - destruct Hc as [b Hs Hb|k Hk Hs]; [apply critical_plain; [|done]|apply critical_releasing]; cbn in *.
    + rewrite app_assoc. by apply submseteq_app.
    + rewrite length_app. lia.
    + rewrite take_app_le by done. by apply submseteq_inserts_r.
  - by destruct Hc; [apply critical_plain|apply critical_releasing].
Qed.

Lemma main_ends th sh th' sh' :
  run_thread Main th sh = Some (th', sh') -> (exited sh = None -> ends (todo th)) -> exited sh' = None -> ends (todo th').
Proof.
  destruct sh as [mu ac cl att rel [e|]], th as [[|m b] l]; cbn; try done; intros H Hl He.
  - destruct l as [|st l]; [done|]. specialize (Hl eq_refl). apply ends_tail in Hl.
    2: { intros c ->. injection H as <- <-. discriminate He. }
    destruct st; [..|destruct mu; [done|]|destruct mu; [done|]|]; by injection H as <- <-.
  - destruct m; injection H as <- <-; by apply Hl.
Qed.

Lemma run_busy w m b l sh : exited sh = None ->
  run_thread w (mkThread (m :: b) l) sh = let (b', sh') := run_micro m b sh in Some (mkThread b' l, sh').
Proof. intros E. unfold run_thread. by rewrite E. Qed.

(** A goroutine that is inside moves on, or out. *)
Lemma inside_step w m b l sh th sh' :
  run_thread w (mkThread (m :: b) l) sh = Some (th, sh') -> critical sh (m :: b) ->
  todo th = l /\
  ((activeCleanupMu sh' = activeCleanupMu sh /\ critical sh' (busy th)) \/
   (busy th = [] /\ activeCleanupMu sh' = None /\ released sh' ++ cleanups sh' ⊆+ attached sh')).
Proof.
  intros H Hc. assert (exited sh = None) as Ex by (unfold run_thread in H; by destruct (exited sh)).
  rewrite run_busy in H by done. destruct (run_micro m b sh) as [b' sh1] eqn:E. injection H as <- <-.
  split; [done|]. by eapply critical_step in E.
Qed.

Lemma sound_step p p' : sound p -> step p p' -> sound p'.
Proof.
  intros [Hm He] [w H]. destruct p as [[mb ml] [sb sl] sh]. unfold sound, mutex_ok, exec in *. cbn [main_thread signal_thread state busy todo] in *.
  destruct w; apply bind_Some in H as ([th sh'] & H & [= <-]); cbn [main_thread signal_thread state busy todo].
  - split; [|by eapply main_ends]. destruct (activeCleanupMu sh) as [[|]|] eqn:Emu.
    + destruct Hm as [-> Hc]. destruct mb as [|m b]; [by apply critical_not_nil in Hc|].
      apply inside_step in H as [_ [[-> Hc']|(-> & -> & Hs)]]; [|done|done]. by rewrite Emu.
    + destruct Hm as [-> Hc]. eapply critical_beside in H as (-> & -> & Hc'); [|by rewrite Emu|done]. by rewrite Emu.
    + destruct Hm as (-> & -> & Hs). apply sound_idle_step in H as [Hs' [[-> ->]|(_ & -> & Hc)]]; [|done|done]. by rewrite Emu.
  - split.
    2: { intros Ex. apply He. unfold run_thread in H. by destruct (exited sh). }
    destruct (activeCleanupMu sh) as [[|]|] eqn:Emu.
    + destruct Hm as [-> Hc]. eapply critical_beside in H as (-> & -> & Hc'); [|by rewrite Emu|done]. by rewrite Emu.
    + destruct Hm as [-> Hc]. destruct sb as [|m b]; [by apply critical_not_nil in Hc|].
      apply inside_step in H as [_ [[-> Hc']|(-> & -> & Hs)]]; [|done|done]. by rewrite Emu.
    + destruct Hm as (-> & -> & Hs). apply sound_idle_step in H as [Hs' [[-> ->]|(_ & -> & Hc)]]; [|done|done]. by rewrite Emu.
Qed.

Lemma sound_start checks discovered body code : sound (start checks discovered body code).
Proof. split; [done|]. intros _. apply ends_command. Qed.

Lemma sound_rtc p p' : sound p -> rtc step p p' -> sound p'.
Proof. intros Hs H. induction H as [|p q r Hq _ IH]; [done|]. by eapply IH, sound_step. Qed.

Lemma sound_released p : sound p -> released (state p) ⊆+ attached (state p).
Proof.
  assert (forall l, released (state p) ++ l ⊆+ attached (state p) -> released (state p) ⊆+ attached (state p)) as H.
  { intros l Hl. etransitivity; [|exact Hl]. by apply submseteq_inserts_r. }
  intros [Hm _]. unfold mutex_ok in Hm. destruct (activeCleanupMu (state p)) as [[|]|];
    [destruct Hm as [_ []]|destruct Hm as [_ []]|destruct Hm as (_ & _ & ?)]; by eapply H.
Qed.

(** The main goroutine can move, or the handler holds the mutex and can. *)
Definition goes_on (p : process) : Prop :=
  exec Main p <> None \/ activeCleanupMu (state p) = Some Signal /\ exec Signal p <> None.

Lemma busy_moves w m b l sh : exited sh = None -> run_thread w (mkThread (m :: b) l) sh <> None.
Proof. intros E. rewrite run_busy by done. by destruct (run_micro _ _ _). Qed.

Lemma idle_moves w l sh : exited sh = None -> activeCleanupMu sh = None -> ends l -> run_thread w (mkThread [] l) sh <> None.
Proof.
  destruct sh as [mu ac cl att rel ex]; cbn; intros -> -> [c Hc]. destruct l as [|[] l]; try done. by apply not_elem_of_nil in Hc.
Qed.

Lemma exec_moves (w : who) p :
  run_thread w (match w with Main => main_thread p | Signal => signal_thread p end) (state p) <> None -> exec w p <> None.
Proof. unfold exec. destruct w; by destruct (run_thread _ _ _) as [[]|]. Qed.

Lemma sound_goes_on p : sound p -> exited (state p) = None -> goes_on p.
Proof.
  intros [Hm He] Ex. specialize (He Ex). destruct p as [[mb ml] [sb sl] sh]. unfold mutex_ok in Hm. cbn [main_thread signal_thread state busy todo] in *.
  destruct (activeCleanupMu sh) as [[|]|] eqn:Emu.
  - left. apply exec_moves. destruct Hm as [_ Hc]. destruct mb; [by apply critical_not_nil in Hc|]. by apply busy_moves.
  - right. split; [done|]. apply exec_moves. destruct Hm as [_ Hc]. destruct sb; [by apply critical_not_nil in Hc|]. by apply busy_moves.
  - left. apply exec_moves. destruct Hm as (-> & _). by apply idle_moves.
Qed.

(** ** Executions that release everything

While the handler waits, the state is exactly known; and once no further mount
is to come ([settled]), so it is whatever the handler does. *)

Inductive phase := Fresh | Armed | Releasing (k : nat) | Emptied | Done.

(** The shared state in a phase, [att] the mounts made so far. *)
Definition state_in (ph : phase) (mu : option who) (att : list nat) : shared :=
  match ph with
  | Fresh => mkShared mu false att att [] None
  | Armed => mkShared mu true att att [] None
  | Releasing k => mkShared mu true att att (rev (drop k att)) None
  | Emptied => mkShared mu true [] att (rev att) None
  | Done => mkShared mu false [] att (rev att) None
  end.

(** Outside a critical section. *)
Definition main_idle (settled : bool) (ph : phase) (att : list nat) (l : list stmt) : Prop :=
  match ph with
  | Fresh => settled = false /\ (attaching l = true \/ att = [] /\ (opening l = true \/ exits l = true))
  | Armed => closing settled l = true
  | Releasing _ | Emptied => settled = true /\ closing true l = true
  | Done => exits l = true \/ settled = true /\ closing true l = true
  end.

Definition signal_waits (l : list stmt) : Prop := l = handler \/ l = tail handler.

Definition signal_idle (settled : bool) (ph : phase) (l : list stmt) : Prop :=
  signal_waits l \/ settled = true /\ l = [Exit 1] /\ ph = Done.

(** Inside [runActiveCleanup]. *)
Definition cleaning (ph : phase) (att : list nat) (b : list micro) : Prop :=
  match ph with
  | Fresh | Done => b = runActiveCleanup \/ b = [Unlock]
  | Armed => b = runActiveCleanup
  | Releasing k => (k <= length att)%nat /\ b = releasing k
  | Emptied => b = [ClearActive; Unlock]
  end.

Definition at_rest (ph : phase) : bool := match ph with Fresh | Armed | Done => true | _ => false end.

Definition main_busy (settled : bool) (ph : phase) (att : list nat) (th : thread) : Prop :=
  (ph = Fresh /\ settled = false /\ busy th = withCleanup /\ closing settled (todo th) = true) \/
  (ph = Armed /\ busy th = [Unlock] /\ closing settled (todo th) = true) \/
  (cleaning ph att (busy th) /\ exits (todo th) = true /\ (ph = Fresh -> settled = false /\ att = [])).

Inductive exact (settled : bool) : process -> Prop :=
| exact_free ph att m s : at_rest ph = true -> main_idle settled ph att m -> signal_idle settled ph s ->
    exact settled (mkProcess (mkThread [] m) (mkThread [] s) (state_in ph None att))
| exact_main ph att th s : main_busy settled ph att th -> signal_idle settled ph s ->
    exact settled (mkProcess th (mkThread [] s) (state_in ph (Some Main) att))
| exact_signal ph att m b : settled = true -> main_idle settled ph att m -> cleaning ph att b ->
    exact settled (mkProcess (mkThread [] m) (mkThread b [Exit 1]) (state_in ph (Some Signal) att)).

(** The process has ended with every mount released. *)
Definition released_all (p : process) : Prop :=
  exited (state p) <> None /\ released (state p) = rev (attached (state p)).

(** A step of [runActiveCleanup] moves the phase on, from [Armed] to [Done]. *)
Definition advances (ph ph' : phase) : Prop :=
  match ph, ph' with
  | Fresh, Fresh | Done, Done => True
  | (Armed | Releasing _ | Emptied), (Releasing _ | Emptied | Done) => True
  | _, _ => False
  end.

Lemma release_next (att : list nat) k x : att !! k = Some x -> rev (drop (S k) att) ++ [x] = rev (drop k att).
Proof. intros H. by rewrite (drop_S att x k H). Qed.

Lemma cleaning_step w ph att m b b' sh' :
  cleaning ph att (m :: b) -> run_micro m b (state_in ph (Some w) att) = (b', sh') ->
  (exists ph', sh' = state_in ph' (Some w) att /\ cleaning ph' att b' /\ advances ph ph') \/
  (sh' = state_in ph None att /\ b' = [] /\ (ph = Fresh \/ ph = Done)).
Proof.
  intros Hc H. destruct ph as [| |k| |]; cbn [cleaning] in Hc.
  - destruct Hc as [[= -> ->]|[= -> ->]]; injection H as <- <-; [left; exists Fresh|right]; cbn; tauto.
  - injection Hc as -> ->. injection H as <- <-. left. exists (Releasing (length att)). cbn [state_in cleaning advances].
    rewrite drop_all. split_and!; [done|lia| |done]. unfold host_cleanup, releasing. by rewrite <-app_assoc.
  - destruct Hc as [Hk Hc]. unfold releasing in Hc. destruct k as [|k].
    + injection Hc as -> ->. injection H as <- <-. left. by exists Emptied.
    + rewrite seq_S, rev_app_distr in Hc. injection Hc as -> ->. destruct (lookup_lt_is_Some_2 att k) as [x Hx]; [lia|].
      injection H as <- <-. left. exists (Releasing k). cbn [state_in cleaning advances plus]. rewrite Hx.
      change (option_list (Some x)) with [x]. rewrite (release_next _ _ _ Hx). split_and!; [done|lia|done|done].
  - injection Hc as -> ->. injection H as <- <-. left. exists Done. cbn. tauto.
  - destruct Hc as [[= -> ->]|[= -> ->]]; injection H as <- <-; [left; exists Done|right]; cbn; tauto.
Qed.

Lemma cleaning_not_nil ph att : ~ cleaning ph att [].
Proof. destruct ph; cbn; [naive_solver..| |done|naive_solver]. intros [_ H]. by apply symmetry, app_nil in H as [_ H]. Qed.

Lemma running ph mu att : exited (state_in ph mu att) = None.
Proof. by destruct ph. Qed.

Lemma main_idle_advances ph ph' att l : advances ph ph' -> main_idle true ph att l -> main_idle true ph' att l.
Proof. destruct ph, ph'; cbn; naive_solver. Qed.

Lemma signal_idle_advances settled ph ph' l :
  advances ph ph' \/ ph = Fresh -> signal_idle settled ph l -> signal_idle settled ph' l.
Proof.
  intros Ha [H|(Hs & H & ->)]; [by left|]. destruct Ha as [Ha|[=]]. right. by destruct ph'.
Qed.

(** What the main goroutine does outside a critical section. *)
Lemma main_idle_step settled ph att mu l th sh' :
  main_idle settled ph att l -> (mu = None -> at_rest ph = true) ->
  run_thread Main (mkThread [] l) (state_in ph mu att) = Some (th, sh') ->
  (exists l' att', th = mkThread [] l' /\ sh' = state_in ph mu att' /\ main_idle settled ph att' l' /\ (settled = true -> att' = att)) \/
  (mu = None /\ sh' = state_in ph (Some Main) att /\ main_busy settled ph att th) \/
  (exited sh' <> None /\ released sh' = rev (attached sh')).
Proof.
  intros Hi Hr H. unfold main_busy, cleaning. destruct l as [|st l]; [destruct ph; cbn in Hi; naive_solver|].
  destruct ph, settled; destruct st; cbn in Hi, H; try (exfalso; naive_solver).
  all: try (destruct mu; [discriminate H|]; try (specialize (Hr eq_refl); discriminate Hr)).
  all: injection H as <- <-; cbn [busy todo state_in main_idle].
  all: try (left; eexists _, _; do 2 (split; [done|]); split; [cbn; naive_solver|first [done|intros [=]]]).
  all: try (right; left; split_and!; [done|done|]; naive_solver).
  all: right; right; split; [done|]; cbn; try done; naive_solver.
Qed.

(** What the handler does outside a critical section. *)
Lemma signal_idle_step settled ph att mu l th sh' :
  signal_idle settled ph l -> run_thread Signal (mkThread [] l) (state_in ph mu att) = Some (th, sh') ->
  (exists l', th = mkThread [] l' /\ sh' = state_in ph mu att /\ signal_idle settled ph l') \/
  (mu = None /\ sh' = state_in ph (Some Signal) att /\ th = mkThread runActiveCleanup [Exit 1]) \/
  (exited sh' <> None /\ released sh' = rev (attached sh')).
Proof.
  intros [[->| ->]|(Hs & -> & ->)] H.
  - left. exists (tail handler). destruct ph; injection H as <- <-; (split_and!; [done|done|]); left; by right.
  - right; left. destruct ph, mu; try discriminate H; by injection H as <- <-.
  - right; right. by injection H as <- <-.
Qed.

Lemma exact_main_step settled p p' : exact settled p -> exec Main p = Some p' -> exact settled p' \/ released_all p'.
Proof.
  intros Hp H. unfold exec in H. apply bind_Some in H as ([th sh'] & H & [= <-]).
  destruct Hp as [ph att l s Hr Hm Hs|ph att [b l] s Hb Hs|ph att l b E Hm Hc]; cbn [main_thread signal_thread state] in *.
  - apply (main_idle_step settled) in H as [(l' & att' & -> & -> & Hi & _)|[(_ & -> & Hb)|Ho]]; [..|done|by intros _].
    + left. by apply (exact_free settled ph).
    + left. by apply (exact_main settled ph).
    + by right.
  - destruct Hb as [(-> & E' & E & Hl)|[(-> & E & Hl)|(Hc & Hl & Hf)]]; cbn [busy todo] in *.
    + subst b. injection H as <- <-. left. apply (exact_main settled Armed); [by right; left|].
      eapply signal_idle_advances, Hs. by right.
    + subst b. injection H as <- <-. left. by apply (exact_free settled Armed).
    + destruct b as [|m b]; [by apply cleaning_not_nil in Hc|]. rewrite run_busy in H by apply running.
      destruct (run_micro _ _ _) as [b' sh1] eqn:E. injection H as <- <-.
      apply cleaning_step in E as [(ph' & -> & Hc' & Ha)|(-> & -> & Hph)]; [..|done]; left.
      * apply (exact_main settled ph'); [right; right|eapply signal_idle_advances, Hs; by left].
        split_and!; [done|done|]. intros ->. apply Hf. by destruct ph.
      * apply (exact_free settled ph); [by destruct Hph as [->| ->]| |done].
        destruct Hph as [->| ->]; cbn; [|by left]. destruct (Hf eq_refl). tauto.
  - apply (main_idle_step settled) in H as [(l' & att' & -> & -> & Hi & Ha)|[([=] & _)|Ho]]; [..|done|done].
    + left. rewrite Ha in * by done. by apply (exact_signal settled ph).
    + by right.
Qed.

Definition handler_waits (p : process) : Prop := busy (signal_thread p) = [] /\ signal_waits (todo (signal_thread p)).

Lemma exact_signal_step settled p p' : exact settled p -> exec Signal p = Some p' ->
  settled = true \/ handler_waits p' -> exact settled p' \/ released_all p'.
Proof.
  intros Hp H Hw. unfold exec in H. apply bind_Some in H as ([th sh'] & H & [= <-]).
  destruct Hp as [ph att l s Hr Hm Hs|ph att th1 s Hb Hs|ph att l b E Hm Hc]; cbn [main_thread signal_thread state] in *.
  - eapply signal_idle_step in H as [(l' & -> & -> & Hi)|[(_ & -> & ->)|Ho]]; [..|done].
    + left. by apply (exact_free settled ph).
    + destruct Hw as [->|[[=] _]]. left. apply (exact_signal true ph); [done|done|].
      destruct ph; cbn; (done || by left).
    + by right.
  - eapply signal_idle_step in H as [(l' & -> & -> & Hi)|[([=] & _)|Ho]]; [..|done].
    + left. by apply (exact_main settled ph).
    + by right.
  - subst settled. destruct b as [|m b]; [by apply cleaning_not_nil in Hc|]. rewrite run_busy in H by apply running.
    destruct (run_micro _ _ _) as [b' sh1] eqn:E. injection H as <- <-.
    apply cleaning_step in E as [(ph' & -> & Hc' & Ha)|(-> & -> & Hph)]; [..|done]; left.
    + apply (exact_signal true ph'); [done|by eapply main_idle_advances|done].
    + destruct Hph as [->| ->]; [by destruct Hm as [[=] _]|]. apply (exact_free true Done); [done|done|by right].
Qed.

Lemma ended_stuck w p : exited (state p) <> None -> exec w p = None.
Proof. unfold exec, run_thread. by destruct w, (exited (state p)). Qed.

Lemma ended_rtc p p' : exited (state p) <> None -> rtc step p p' -> p' = p.
Proof. intros Ho H. inversion H as [|? q ? [w Hw] _]; subst; [done|]. by rewrite ended_stuck in Hw. Qed.

(** Once settled. *)
Lemma exact_rtc p p' : exact true p -> rtc step p p' -> exact true p' \/ released_all p'.
Proof.
  intros Hp H. assert (exact true p \/ released_all p) as Ho by by left. clear Hp.
  induction H as [|p q r [w Hw] _ IH]; [done|]. apply IH. destruct Ho as [Hp|[Ho _]].
  - destruct w; [by eapply exact_main_step|eapply exact_signal_step; [done..|by left]].
  - by rewrite ended_stuck in Hw.
Qed.

(** The handler waits and the state is exactly known, or it waits no more. *)
Definition handler_past (p : process) : Prop := todo (signal_thread p) ∈ [[Exit 1]; []].

Definition known (p : process) : Prop := handler_waits p /\ (exact false p \/ released_all p) \/ handler_past p.

Lemma past_not_waiting p : handler_past p -> ~ handler_waits p.
Proof. unfold handler_past, handler_waits, signal_waits. intros H [_ Hw]. set_unfold in H. destruct Hw as [E|E]; rewrite E in H; naive_solver. Qed.

Lemma todo_next w th sh th' sh' : run_thread w th sh = Some (th', sh') -> todo th' = todo th \/ todo th' = tail (todo th).
Proof.
  unfold run_thread. destruct (exited sh); [done|]. destruct th as [[|m b] l].
  - destruct sh as [mu ac cl att rel ex], l as [|[] l]; try done; cbn; intros H; [..|destruct mu; [done|]|destruct mu; [done|]|];
      injection H as <- <-; by right.
  - destruct (run_micro _ _ _) as [b' sh1]. intros [= <- <-]. by left.
Qed.

Lemma past_next p p' : exec Signal p = Some p' -> handler_past p -> handler_past p'.
Proof.
  intros H Hp. apply bind_Some in H as ([th sh'] & H & [= <-]). apply todo_next in H. unfold handler_past in *. cbn.
  set_unfold in Hp. destruct H as [->| ->], Hp as [->|[->|[]]]; set_solver.
Qed.

Lemma waits_next p p' : exec Signal p = Some p' -> handler_waits p -> handler_waits p' \/ handler_past p'.
Proof.
  intros H [Hb Hw]. apply bind_Some in H as ([th sh'] & H & [= <-]). destruct (signal_thread p) as [b l]. cbn in Hb, Hw. subst b.
  unfold run_thread in H. destruct (state p) as [mu ac cl att rel [e|]]; [done|]. destruct Hw as [->| ->]; cbn in H.
  - injection H as <- <-. left. split; [done|by right].
  - destruct mu; [done|]. injection H as <- <-. right. unfold handler_past. set_solver.
Qed.

Lemma known_step p p' : known p -> step p p' -> known p'.
Proof.
  intros Hk [w H]. destruct Hk as [[Hw [He|[Ho _]]]|Hp]; [|by rewrite ended_stuck in H|].
  - destruct w.
    + assert (signal_thread p' = signal_thread p) as E by (apply bind_Some in H as ([th sh'] & H & [= <-]); done).
      left. split; [unfold handler_waits; by rewrite E|]. by eapply exact_main_step.
    + destruct (waits_next p p' H Hw) as [Hw'|Hp]; [left|by right]. split; [done|].
      eapply exact_signal_step; [done..|by right].
  - right. destruct w; [by apply bind_Some in H as ([th sh'] & H & [= <-])|by eapply past_next].
Qed.

Lemma known_start checks discovered body code : known (start checks discovered body code).
Proof.
  left. split; [split; [done|by left]|]. left. apply (exact_free false Fresh []); [done| |by left; left].
  split; [done|]. right. split; [done|]. left. apply opening_command.
Qed.

Lemma known_rtc p p' : known p -> rtc step p p' -> known p'.
Proof. intros Hs H. induction H as [|p q r Hq _ IH]; [done|]. by eapply IH, known_step. Qed.

(** No mount is left to be made, and the cleanup is registered. *)
Definition settled (p : process) : Prop :=
  activeCleanup (state p) = true /\ (forall m, Attach m ∉ todo (main_thread p)).

Lemma closing_settled l : closing false l = true -> (forall m, Attach m ∉ l) -> closing true l = true.
Proof.
  induction l as [|[] l IH]; cbn; try done; intros H Hn.
  - apply IH; [done|]. set_solver.
  - exfalso. apply (Hn m). by left.
Qed.

Lemma exact_settled p : exact false p -> settled p -> exact true p.
Proof.
  intros Hp [Ha Hn]. destruct Hp as [ph att l s Hr Hm [Hs|(? & _)]|ph att [b l] s Hb [Hs|(? & _)]|]; cbn in Hn; try done.
  - apply (exact_free true ph); [done| |by left]. destruct ph; try done. by apply closing_settled.
  - apply (exact_main true ph); [|by left]. destruct Hb as [(-> & _)|[(-> & Hb & Hl)|(Hc & Hl & Hf)]]; [done|right; left|right; right].
    + split_and!; [done|done|]. by apply closing_settled.
    + split_and!; [done|done|]. intros ->. done.
Qed.

(** C16 - In every interleaving of a command with the signal handler: a mount is
released at most once; when the command itself ends the process, normally or
through [die], and no signal has been acted on, every mount is released, last
mounted first; and from the moment the cleanup is registered and no mount is
left to be made, with the handler still waiting, so it is however the process
ends. *)
Theorem mounts_released checks discovered body code p
    (Hp : rtc step (start checks discovered body code) p) :
  released (state p) ⊆+ attached (state p) /\
  (handler_waits p -> exited (state p) <> None -> released (state p) = rev (attached (state p))) /\
  (settled p -> handler_waits p -> forall p', rtc step p p' ->
     exited (state p') <> None -> released (state p') = rev (attached (state p'))).
Proof.
  split; [eapply sound_released, sound_rtc, Hp; apply sound_start|].
  eapply known_rtc in Hp as [[Hw Hk]|Hk]; [..|apply known_start].
  - assert (forall q s, exact s q \/ released_all q -> exited (state q) <> None -> released (state q) = rev (attached (state q))) as Hend.
    { intros q s [[]|[_ Hr]] He; [cbn in He; by rewrite running in He..|done]. }
    split; [intros _; by eapply Hend|]. intros Hs _ p' H He. destruct Hk as [Hk|[Ho Hr]].
    + eapply Hend; [|done]. eapply exact_rtc, H. by apply exact_settled.
    + by rewrite (ended_rtc _ _ Ho H).
  - split; [intros Hw|intros _ Hw]; by apply past_not_waiting in Hk.
Qed.

(** C32 - The process always ends: no execution is infinite, and until it has
exited some goroutine that waits for nothing can move - the two never deadlock
on the mutex. *)
Theorem process_ends checks discovered body code p
    (Hp : rtc step (start checks discovered body code) p) :
  Acc (flip step) p /\ (exited (state p) = None -> goes_on p).
Proof. split; [apply step_terminates|]. eapply sound_goes_on, sound_rtc, Hp. apply sound_start. Qed.

(** ** Executions *)

Lemma schedule_rtc l p p' : run_schedule l p = Some p' -> rtc step p p'.
Proof.
  revert p. induction l as [|w l IH]; intros p H; [by injection H as ->|]. apply bind_Some in H as (q & H & Hq).
  eapply rtc_l; [by exists w|by apply IH].
Qed.

(** A mirrored update with two ESPs and one added, interrupted in its body. *)
Definition three_mounts : process := start [false] (Some [1%nat; 2%nat]) [MountMore 3; Proceed; Proceed] 0.
Definition registers : list who := [Main; Main; Main; Main; Main; Main].
Definition interrupted : list who := [Signal; Main; Signal; Signal; Main; Signal; Signal; Signal; Signal; Signal; Signal; Signal].

Definition at_registered : process := default three_mounts (run_schedule registers three_mounts).
Definition at_end : process := default three_mounts (run_schedule interrupted at_registered).

Lemma registered_reached : rtc step three_mounts at_registered.
Proof. by apply (schedule_rtc registers). Qed.

Lemma end_reached : rtc step at_registered at_end.
Proof. by apply (schedule_rtc interrupted). Qed.

Lemma registered_settled : settled at_registered.
Proof. split; [reflexivity|]. intros m. cbn. set_solver. Qed.

Lemma mounts_released_witness : exited (state at_end) = Some (Signal, 1) /\ released (state at_end) = [3; 2; 1]%nat.
Proof.
  split; [reflexivity|].
  apply (mounts_released [false] (Some [1%nat; 2%nat]) [MountMore 3; Proceed; Proceed] 0 at_registered registered_reached);
    [exact registered_settled|split; [reflexivity|left; reflexivity]|exact end_reached|discriminate].
Defined.

Lemma process_ends_witness : goes_on at_registered.
Proof. apply (process_ends [false] (Some [1%nat; 2%nat]) [MountMore 3; Proceed; Proceed] 0 at_registered registered_reached). reflexivity. Defined.

(** A signal while the discovery is still mounting finds nothing registered:
the handler exits and the mount stays. *)
Theorem signal_during_discovery_leaks :
  exists p, rtc step three_mounts p /\ exited (state p) = Some (Signal, 1) /\
    attached (state p) = [1%nat] /\ released (state p) = [].
Proof.
  exists (default three_mounts (run_schedule [Main; Signal; Signal; Signal; Signal; Signal] three_mounts)).
  split; [by apply (schedule_rtc [Main; Signal; Signal; Signal; Signal; Signal])|]. by split_and!.
Qed.
