(* ===== verification/Settings.v ===== *)
(** * cmd/tool: the integrity and int13chunk commands, and payload-manifest

The two commands that set one word on every ESP of the set (newIntegrityCmd of
main.go, newInt13ChunkCmd of int13chunk.go), what the status line says of the
INT 13h setting, and the build's manifest command (manifestcmd.go). [die] ends
the process with status 1. *)

From Stdlib Require Import ZArith Lia Strings.Byte.
From stdpp Require Import base list gmap.
From S2P Require Import Prelude GoStrings Layout World EspConfig EspMember Metadata PayloadSum BlkSum EspSet CmdLine UefiBoot Verify Update Spare Mirror MirrorOps MirrorRun.
Local Open Scope Z_scope.

Section settings.
Context {O : Oracle}.
Context (pe : bytes -> option peFile).
Context (s : seams).

(** The closure of newIntegrityCmd. *)
Definition integrity_one (mode : bytes) (t : target) : io unit :=
  if t_uefi t then throw (ERefused (bs "integrity modes apply to BIOS installs only")) else setIntegrityMode pe t mode.

Definition integrityCmd (root firmware : bytes) (o : hostOpts) (mode : bytes) : io Z :=
  forEachMember pe s root firmware o (integrity_one mode).

(** The closure of newInt13ChunkCmd; the last read is for the line it prints. *)
Definition int13_one (value : bytes) (t : target) : io unit :=
  if t_uefi t then throw (ERefused (bs "int13chunk applies to BIOS installs only")) else
  run setInt13Chunk (t_mountpoint t) value then
  run attempt (readFile (t_mountpoint t) CmdlineFile) then
  ret tt.

Definition int13ChunkCmd (root firmware : bytes) (o : hostOpts) (arg : bytes) : io Z :=
  match parseInt13Chunk arg with
  | Ok value => forEachMember pe s root firmware o (int13_one value)
  | Err _ => ret 1
  | Panic => lift Panic
  end.

(** [os.WriteFile]: create or truncate, write, close. *)
Definition osWriteFile (dir name content : bytes) : io unit :=
  run createFile dir name then
  run copyInto dir name content then
  plain_call OpClose.

Definition writeManifestFiles (dir kernel initrd mode : bytes) : io unit :=
  do sum := sums (Generate kernel initrd mode) in
  do blk := sums (GenerateBlkSum kernel initrd) in
  run osWriteFile dir (bs "BLKSUM") blk then
  osWriteFile dir (bs "CHECKSUM") sum.

(** The two paths are a directory and a name in it. *)
Definition payloadManifestCmd (kernelFile initrdFile : bytes * bytes) (outDir mode : bytes) : io unit :=
  do kernel := readFile kernelFile.1 kernelFile.2 in
  do initrd := readFile initrdFile.1 initrdFile.2 in
  writeManifestFiles outDir kernel initrd mode.

End settings.

(** ** What the setting commands may write *)

Definition setting_names : list bytes := [PayloadSumFile; BlkSumFile; CmdlineFile; MemberFile].

(** A settings file or the marker of a member that may be written. *)
Definition setting_file (force : bool) (h : host) (k : bytes * bytes) : Prop :=
  exists m t, may_write force h m t /\ k.1 = t_mountpoint t /\ k.2 ∈ setting_names.

Definition no_disk (d : bytes) : Prop := False.

Section confined.
Context {O : Oracle}.
Context (pe : bytes -> option peFile).
Context (s : seams) (h : host) (force : bool).

Abbreviation W := (within (setting_file force h) no_disk).

Lemma setting_may_write m t rel : may_write force h m t -> rel ∈ setting_names -> setting_file force h (t_mountpoint t, rel).
Proof. intros Hm Hr. by exists m, t. Qed.

Lemma within_integrity_one m t mode : may_write force h m t -> W (integrity_one pe mode t).
Proof.
  intros Hm. unfold integrity_one, setIntegrityMode.
  assert (W (wrap PayloadSumFile (readInstalledKernelInitrd pe t))) by (apply within_wrap, within_looks, looks_installed).
  assert (forall A (r : outcome payloadsum_error A), W (sums r)) by (intros; apply within_looks, looks_sums).
  assert (setting_file force h (t_mountpoint t, PayloadSumFile)) by (eapply setting_may_write; [done|set_solver]).
  assert (setting_file force h (t_mountpoint t, BlkSumFile)) by (eapply setting_may_write; [done|set_solver]).
  confining.
Qed.

Lemma within_int13_one m t v : may_write force h m t -> W (int13_one v t).
Proof.
  intros Hm. unfold int13_one, setInt13Chunk.
  assert (forall A (r : outcome cmdline_error A), W (lift_cmdline r)) by (intros; apply within_looks, looks_lift_cmd).
  assert (setting_file force h (t_mountpoint t, CmdlineFile)) by (eapply setting_may_write; [done|set_solver]).
  confining.
Qed.

(** The members a setting reached could be written. *)
Lemma gives_apply_each fn ms :
  gives (fun p => Forall (fun im => im ∈ ms /\ usable im.2 true force (h_uefi h) = None) p.2) (apply_each h force fn ms).
Proof.
  induction ms as [|[i m] ms IH]; cbn [apply_each]; [by apply gives_ret|].
  eapply gives_bind with (P := fun r => is_ok r = true -> usable m true force (h_uefi h) = None).
  { destruct (usable m true force (h_uefi h)); [by apply gives_ret|by intros w a w' _ _]. }
  assert (forall p : bool * list (nat * member), Forall (fun im => im ∈ ms /\ usable im.2 true force (h_uefi h) = None) p.2 ->
    Forall (fun im => im ∈ (i, m) :: ms /\ usable im.2 true force (h_uefi h) = None) p.2) as Hmore.
  { intros p Hp. eapply Forall_impl; [exact Hp|]. intros im [Hin Hu]. split; [by right|done]. }
  intros [x|e|] Hr; [| |apply gives_panic].
  - eapply gives_bind; [exact IH|]. intros p Hp. apply gives_ret. constructor; [split; [by left|by apply Hr]|by apply Hmore].
  - eapply gives_bind; [exact IH|]. intros p Hp. apply gives_ret. by apply Hmore.
Qed.

Lemma within_apply_each fn ms :
  (forall m t, may_write force h m t -> W (fn t)) -> Forall (fun im => im.2 ∈ h_members h) ms -> W (apply_each h force fn ms).
Proof.
  intros Hfn. induction 1 as [|[i m] ms Hm _ IH]; cbn [apply_each]; [apply within_looks, looks_ret|].
  apply within_bind; [|intros r; confining].
  destruct (usable m true force (h_uefi h)) eqn:Hu; [apply within_looks, looks_ret|].
  apply within_target. intros t Ht. apply within_attempt. eapply Hfn, usable_write; done.
Qed.

Lemma looks_digests_before ms : looks (digests_before pe ms).
Proof. induction ms as [|m ms IH]; cbn [digests_before]; [apply looks_ret|]. pose proof looks_digestMember. looking. Qed.

Lemma looks_any_changed before ms : looks (any_changed pe before ms).
Proof. induction ms as [|[i m] ms IH]; cbn [any_changed]; [apply looks_ret|]. pose proof looks_digestMember. looking. Qed.

Lemma within_recordSetting reached unreached changed :
  Forall (fun im => im ∈ numbered (h_members h) /\ usable im.2 true force (h_uefi h) = None) reached ->
  W (recordSettingGeneration pe s h reached unreached changed).
Proof.
  intros Hr. unfold recordSettingGeneration. do 2 (case_match; [apply within_looks, looks_ret|]).
  apply within_bind; [apply within_looks, looks_poolOf|]. intros pool.
  apply within_bind; [|intros p; apply within_looks, looks_ret].
  apply within_finalizeMembersAt. eapply Forall_impl; [exact Hr|]. intros im [Hin Hu] t Ht.
  eapply setting_may_write; [|set_solver]. eapply usable_write; [|done|done].
  apply numbered_elem in Hin. by eapply list_elem_of_lookup_2.
Qed.

Lemma within_apply_setting o fn : forceAdopt o = force ->
  (forall m t, may_write force h m t -> W (fn t)) -> W (apply_setting pe s h o fn).
Proof.
  intros Ho Hfn. unfold apply_setting. rewrite Ho. apply within_bind; [apply within_looks, looks_digests_before|]. intros before.
  eapply within_bind_gives; [apply gives_apply_each|apply within_apply_each; [done|apply all_members]|]. intros p Hp.
  apply within_bind; [apply within_looks, looks_any_changed|]. intros changed.
  apply within_bind; [by apply within_recordSetting|]. intros h'. apply within_looks, looks_ret.
Qed.

End confined.

(** What [forEachMember] does to the media, for a setting that writes only
settings files of the member it is given. *)
Lemma forEachMember_confined {O : Oracle} pe s root firmware o fn w :
  (forall h m t, may_write (forceAdopt o) h m t -> within (setting_file (forceAdopt o) h) no_disk (fn t)) ->
  match discoverHost s root firmware false o with
  | Ok h => spares (setting_file (forceAdopt o) h) no_disk w (forEachMember pe s root firmware o fn w).2
  | _ => frame w (forEachMember pe s root firmware o fn w).2
  end.
Proof.
  intros Hfn. destruct (forEachMember pe s root firmware o fn w) as [r w'] eqn:H. cbn [snd].
  unfold forEachMember, or_exit in H. apply bind_attempt_inv in H as (rh & x & [= <- <-] & H).
  destruct (discoverHost s root firmware false o) as [h|e|] eqn:Eh; [|by injection H as <- <-..].
  revert H. assert (within (setting_file (forceAdopt o) h) no_disk
    (do what := (if mirrored h then payloadDifference pe h else ret None) in
     match what with Some _ => ret exitFailure | None => apply_setting pe s h o fn end)) as Hw; [|apply Hw].
  apply within_bind; [apply within_looks; destruct (mirrored h); [|apply looks_ret]|].
  - unfold payloadDifference. pose proof looks_digest_members. looking.
  - intros [what|]; [apply within_looks, looks_ret|]. apply within_apply_setting; [done|]. by intros m t; apply Hfn.
Qed.

(** C18 - The integrity and int13chunk commands write nothing but CHECKSUM,
BLKSUM, CMDLINE and MEMBER of mounted members that are not marked for another
installation (or with --force-adopt), in every state of the run and whatever
calls fail; no disk is written, and when the set cannot be determined nothing
is. *)
Theorem setting_commands_confined {O : Oracle} (pe : bytes -> option peFile) (s : seams) (root firmware : bytes)
  (o : hostOpts) (arg : bytes) (w : world) :
  let confined w' := match discoverHost s root firmware false o with
                     | Ok h => spares (setting_file (forceAdopt o) h) no_disk w w'
                     | _ => frame w w'
                     end in
  confined (integrityCmd pe s root firmware o arg w).2 /\ confined (int13ChunkCmd pe s root firmware o arg w).2.
Proof.
  cbv zeta. split.
  - apply forEachMember_confined. intros h m t. apply within_integrity_one.
  - unfold int13ChunkCmd. destruct (parseInt13Chunk arg) as [v|e|]; [apply forEachMember_confined; intros h m t; apply (within_int13_one pe)|..];
      cbn [snd ret lift]; destruct (discoverHost s root firmware false o); try apply frame_spares; reflexivity.
Qed.

(** ** A setting that reached every member *)

Section reached.
Context {O : Oracle}.
Context (pe : bytes -> option peFile) (s : seams).
Context (Q : bytes -> filemap -> Prop) (fn : target -> io unit).

(** [fn] establishes [Q] of the target it is given and keeps it of the others;
[Q] does not depend on markers. *)
Context (Hset : forall t w w', fn t w = (Ok tt, w') -> Q (t_mountpoint t) (files w')).
Context (Hkeep : forall t w r w' mp, fn t w = (r, w') -> Q mp (files w) -> Q mp (files w')).
Context (Hmarker : forall mp f f', (forall k, k.2 <> MemberFile -> f' !! k = f !! k) -> Q mp f -> Q mp f').

Definition holds_at (f : filemap) (m : member) : Prop := exists t, m_target m = Some t /\ Q (t_mountpoint t) f.

Lemma apply_each_reached h force ms w p w' : apply_each h force fn ms w = (Ok p, w') ->
  (forall mp, Q mp (files w) -> Q mp (files w')) /\ (p.1 = false -> Forall (fun im => holds_at (files w') im.2) ms).
Proof.
  revert w p. induction ms as [|[i m] ms IH]; cbn [apply_each]; intros w p H; [injection H as <- <-; split; [done|constructor]|].
  apply bind_ok_inv in H as (r & x & E & H).
  assert ((forall mp, Q mp (files w) -> Q mp (files x)) /\ (is_ok r = true -> holds_at (files x) m)) as [Hk Hx].
  { destruct (usable m true force (h_uefi h)); [injection E as <- <-; by split|]. unfold the_target in E.
    destruct (m_target m) as [t|] eqn:Et; [|discriminate E]. apply attempt_inv in E as (r' & E & [= ->]).
    split; [intros mp; by eapply Hkeep|]. intros Hr. destruct r' as [[]|e|]; try discriminate Hr. exists t. split; [done|by eapply Hset]. }
  destruct r as [[]|e|]; [| |discriminate H]; apply bind_ok_inv in H as (q & y & E' & H); injection H as <- <-;
    apply IH in E' as [Hk' Hq]; (split; [auto|]); cbn [fst]; intros Hp; [|discriminate Hp].
  constructor; [|by apply Hq]. destruct (Hx eq_refl) as (t & Ht & HQ). exists t. auto.
Qed.

Lemma marker_keeps {A : Type} (c : io A) w r w' mp :
  within (fun k => k.2 = MemberFile) no_disk c -> c w = (r, w') -> Q mp (files w) -> Q mp (files w').
Proof. intros Hc H. apply Hmarker. intros k Hk. apply Hc in H as [[Hf _] _]. by apply Hf. Qed.

Lemma looks_keeps {A : Type} (c : io A) w r w' mp : looks c -> c w = (r, w') -> Q mp (files w) -> Q mp (files w').
Proof. intros Hc H. apply Hc in H as (-> & _). done. Qed.

Lemma forEachMember_reached root firmware o w w' :
  forEachMember pe s root firmware o fn w = (Ok 0, w') ->
  exists h, discoverHost s root firmware false o = Ok h /\ Forall (holds_at (files w')) (h_members h).
Proof.
  intros H. unfold forEachMember, or_exit in H. apply bind_attempt_inv in H as (rh & x & [= <- <-] & H).
  destruct (discoverHost s root firmware false o) as [h|e|]; [|discriminate H..]. exists h. split; [done|].
  apply bind_ok_inv in H as (what & x & _ & H). destruct what; [discriminate H|].
  unfold apply_setting in H. apply bind_ok_inv in H as (before & y & _ & H).
  apply bind_ok_inv in H as (p & z & E & H). apply apply_each_reached in E as [_ Hp].
  apply bind_ok_inv in H as (changed & u & Eu & H). apply bind_ok_inv in H as (h' & v & Ev & H). injection H as Hc <-.
  assert (p.1 = false) as Hp1 by (unfold exitCode in Hc; by destruct p.1). specialize (Hp Hp1).
  assert (Forall (fun im => holds_at (files v) im.2) (numbered (h_members h))) as Hall.
  { eapply Forall_impl; [exact Hp|]. intros im (t & Ht & HQ). exists t. split; [done|].
    eapply marker_keeps; [|exact Ev|by eapply looks_keeps; [apply looks_any_changed|..]].
    unfold recordSettingGeneration. do 2 (case_match; [apply within_looks, looks_ret|]).
    apply within_bind; [apply within_looks, looks_poolOf|]. intros pool. apply within_bind; [|intros q; apply within_looks, looks_ret].
    apply within_finalizeMembersAt, Forall_forall. by intros. }
  rewrite Forall_forall in Hall. apply Forall_forall. intros m Hm. apply list_elem_of_lookup in Hm as (i & Hi).
  by apply (Hall (i, m)), numbered_elem.
Qed.

End reached.

(** CHECKSUM of the ESP mounted at [mp] records the mode. *)
Definition mode_at (mode mp : bytes) (f : filemap) : Prop :=
  exists raw m, f !! (mp, PayloadSumFile) = Some raw /\ PayloadSum.Decode raw = Ok m /\ PayloadSum.Mode m = mode.

Lemma mode_at_other mode mp f f' : f' !! (mp, PayloadSumFile) = f !! (mp, PayloadSumFile) -> mode_at mode mp f -> mode_at mode mp f'.
Proof. unfold mode_at. by intros ->. Qed.

Section mode.
Context {O : Oracle}.
Context (pe : bytes -> option peFile) (mode : bytes).

(** Every write of the file carries a manifest with the mode. *)
Lemma WriteFile_mode mp m w r w' :
  wf_Manifest m -> PayloadSum.Mode m = mode -> WriteFile mp PayloadSumFile (PayloadSum.Encode m) w = (r, w') ->
  (r = Ok tt -> mode_at mode mp (files w')) /\ forall mp', mode_at mode mp' (files w) -> mode_at mode mp' (files w').
Proof.
  intros Hm Hmode H. apply WriteFile_spec in H.
  assert (replaced mp PayloadSumFile (PayloadSum.Encode m) w w' \/ r <> Ok tt /\ frame w w') as [(_ & Hf & _)|[Hr (Hf & _)]].
  { destruct H as [[-> H]|(H & _ & _ & [Hf|Hr])]; [by left|by right|by left]. }
  - assert (mode_at mode mp (files w')) as Hat.
    { exists (PayloadSum.Encode m), m. split_and!; [by rewrite Hf, lookup_insert_eq|by apply checksum_of_Encode|done]. }
    split; [done|]. intros mp' Hmp. destruct (decide (mp' = mp)) as [->|Hne]; [done|].
    eapply mode_at_other, Hmp. rewrite Hf, lookup_insert_ne; [done|congruence].
  - split; [done|]. by rewrite Hf.
Qed.

Definition keeps_mode {A : Type} (c : io A) : Prop :=
  forall w r w' mp, c w = (r, w') -> mode_at mode mp (files w) -> mode_at mode mp (files w').

Lemma keeps_mode_looks {A : Type} (c : io A) : looks c -> keeps_mode c.
Proof. intros Hc w r w' mp H. by apply Hc in H as (-> & _). Qed.

Lemma keeps_mode_bind {A B : Type} (c : io A) (k : A -> io B) : keeps_mode c -> (forall a, keeps_mode (k a)) -> keeps_mode (bind c k).
Proof. intros Hc Hk w r w' mp H Hm. io_bind H x E; specialize (Hc _ _ _ mp E Hm); [by eapply Hk|done|done]. Qed.

Lemma keeps_mode_checksum mp m : wf_Manifest m -> PayloadSum.Mode m = mode -> keeps_mode (WriteFile mp PayloadSumFile (PayloadSum.Encode m)).
Proof. intros Hm Hmode w r w' mp' H. eapply WriteFile_mode in H as [_ H]; [apply H|done|done]. Qed.

Lemma keeps_mode_other mp rel c : rel <> PayloadSumFile -> keeps_mode (WriteFile mp rel c).
Proof.
  intros Hne w r w' mp' H. apply mode_at_other.
  assert (within (fun k => k = (mp, rel)) no_disk (WriteFile mp rel c)) as Hw by by apply within_WriteFile.
  apply Hw in H as [[Hf _] _]. apply Hf. congruence.
Qed.

Lemma with_mode_wf m : ValidMode mode = true -> wf_Manifest m -> wf_Manifest (PayloadSum.mkManifest (PayloadSum.Kernel m) (Initrd m) mode).
Proof. intros Hv (Hk & Hi & _). by split_and!. Qed.

Lemma keeps_mode_sums {A B : Type} (r : outcome payloadsum_error A) (k : A -> io B) :
  (forall a, r = Ok a -> keeps_mode (k a)) -> keeps_mode (bind (sums r) k).
Proof. intros Hk. destruct r as [a|e|]; [by apply Hk|apply keeps_mode_looks..]; [by intros w r w' [= <- <-]|by intros w r w' [= <- <-]]. Qed.

Lemma integrity_one_keeps t : keeps_mode (integrity_one pe mode t).
Proof.
  unfold integrity_one, setIntegrityMode. destruct (t_uefi t); [apply keeps_mode_looks; looking|].
  destruct (ValidMode mode) eqn:Hv; cbn [negb]; [|apply keeps_mode_looks; looking].
  apply keeps_mode_bind; [apply keeps_mode_looks; looking|]. intros [raw|e|]; [| |apply keeps_mode_looks; looking].
  - apply keeps_mode_sums. intros m Em. apply keeps_mode_checksum; [|done]. apply with_mode_wf; [done|by eapply checksum_decode_wf].
  - destruct e; try (apply keeps_mode_looks; solve [looking]).
    apply keeps_mode_bind; [apply keeps_mode_looks, looks_wrap, looks_installed|]. intros [[kernel initrd] info].
    apply keeps_mode_sums. intros m Em. apply keeps_mode_sums. intros blk _. apply keeps_mode_bind; [by apply keeps_mode_other|]. intros _.
    apply keeps_mode_checksum; [by eapply New_wf|]. by apply New_inv in Em as (_ & _ & _ & _ & Hm & _).
Qed.

Lemma sums_ok {A B : Type} (r : outcome payloadsum_error A) (k : A -> io B) b w w' :
  bind (sums r) k w = (Ok b, w') -> exists a, r = Ok a /\ k a w = (Ok b, w').
Proof. destruct r; cbn; [eauto|done|done]. Qed.

Lemma integrity_one_sets t w w' : integrity_one pe mode t w = (Ok tt, w') -> mode_at mode (t_mountpoint t) (files w').
Proof.
  unfold integrity_one, setIntegrityMode. intros H. destruct (t_uefi t); [done|].
  destruct (ValidMode mode) eqn:Hv; cbn [negb] in H; [|done].
  apply bind_ok_inv in H as (raw & x & _ & H). destruct raw as [raw|e|]; [| |done].
  - apply sums_ok in H as (m & Em & H). eapply WriteFile_mode in H as [H _]; [by apply H| |done].
    apply with_mode_wf; [done|by eapply checksum_decode_wf].
  - destruct e; try done. apply bind_ok_inv in H as ([[kernel initrd] info] & y & _ & H).
    apply sums_ok in H as (m & Em & H). apply sums_ok in H as (blk & _ & H). apply bind_ok_inv in H as (u & z & _ & H).
    eapply WriteFile_mode in H as [H _]; [by apply H|by eapply New_wf|]. by apply New_inv in Em as (_ & _ & _ & _ & Hm & _).
Qed.

End mode.

(** C17 - When the integrity command exits with 0, CHECKSUM of every ESP of the
host's set decodes and records the mode it was given. *)
Theorem integrity_reaches_all {O : Oracle} (pe : bytes -> option peFile) (s : seams) (root firmware : bytes)
  (o : hostOpts) (mode : bytes) (w : world) :
  let '(r, w') := integrityCmd pe s root firmware o mode w in
  r <> Ok 0 \/
  exists h, discoverHost s root firmware false o = Ok h /\
    Forall (fun m => exists t, m_target m = Some t /\ mode_at mode (t_mountpoint t) (files w')) (h_members h).
Proof.
  destruct (integrityCmd pe s root firmware o mode w) as [r w'] eqn:H.
  assert (r <> Ok 0 \/ r = Ok 0) as [Hr| ->]; [|by left|right].
  { destruct r as [[| |]|e|]; (by right) || by left. }
  eapply (forEachMember_reached pe s (mode_at mode)), H.
  - intros t x x'. apply integrity_one_sets.
  - intros t x r x' mp E. by eapply integrity_one_keeps.
  - intros mp f f' Hf. apply mode_at_other. by apply Hf.
Qed.

(** ** payload-manifest *)

Section manifest.
Context {O : Oracle}.

Lemma within_osWriteFile (F : bytes * bytes -> Prop) dir name c : F (dir, name) -> within F no_disk (osWriteFile dir name c).
Proof.
  intros HF. unfold osWriteFile. apply within_bind; [by apply within_createFile|]. intros _.
  apply within_bind; [by apply within_copyInto|]. intros _. apply within_looks, looks_plain_call.
Qed.

Lemma osWriteFile_ok dir name c w w' : osWriteFile dir name c w = (Ok tt, w') -> files w' !! (dir, name) = Some c.
Proof.
  unfold osWriteFile. intros H. apply bind_ok_inv in H as (u & x & _ & H). apply bind_ok_inv in H as (u' & y & E & H).
  apply copyInto_only in E as [_ E]. apply looks_plain_call in H as (-> & _). by destruct u'; apply E.
Qed.

Definition BLKSUM : bytes := bs "BLKSUM".
Definition CHECKSUM : bytes := bs "CHECKSUM".

(** The two files describe the pair. *)
Definition describe (kernel initrd mode sum blk : bytes) : Prop :=
  exists m, PayloadSum.Decode sum = Ok m /\ PayloadSum.Mode m = mode /\ Verify m kernel initrd = Ok [] /\
    forall koff, KernelRAMOffset kernel = Ok koff -> describable kernel initrd koff ->
      exists b, DecodeBlkSum blk = Ok b /\ VerifyBlkSum b m kernel initrd = Ok [].

Lemma generated_describe kernel initrd mode sum blk :
  Generate kernel initrd mode = Ok sum -> GenerateBlkSum kernel initrd = Ok blk -> describe kernel initrd mode sum blk.
Proof.
  intros Hs Hb. apply generated_verifies in Hs as (m & Hn & Hd & _ & Hm & Hv). exists m. split_and!; [done..|].
  intros koff Hk Hdesc. by eapply blksum_generated.
Qed.

(** Every outcome of [payload-manifest]'s writes. *)
Lemma writeManifestFiles_spec dir kernel initrd mode w r w' :
  writeManifestFiles dir kernel initrd mode w = (r, w') ->
  spares (fun k => k ∈ [(dir, BLKSUM); (dir, CHECKSUM)]) no_disk w w' /\
  (r <> Ok tt \/ exists sum blk, files w' !! (dir, CHECKSUM) = Some sum /\ files w' !! (dir, BLKSUM) = Some blk /\
     describe kernel initrd mode sum blk) /\
  (files w' !! (dir, CHECKSUM) = files w !! (dir, CHECKSUM) \/
   exists sum blk, Generate kernel initrd mode = Ok sum /\ GenerateBlkSum kernel initrd = Ok blk /\
     files w' !! (dir, BLKSUM) = Some blk).
Proof.
  intros H. split.
  { revert H. assert (within (fun k => k ∈ [(dir, BLKSUM); (dir, CHECKSUM)]) no_disk (writeManifestFiles dir kernel initrd mode)) as Hw; [|apply Hw].
    unfold writeManifestFiles. do 2 (apply within_bind; [apply within_looks, looks_sums|intros ?]).
    apply within_bind; [|intros _]; apply within_osWriteFile; unfold BLKSUM, CHECKSUM; set_solver. }
  unfold writeManifestFiles in H. destruct (Generate kernel initrd mode) as [sum|e|] eqn:Hs; cbn [sums] in H;
    [|by injection H as <- <-; split; left..].
  change (bind (ret sum) ?k) with (k sum) in H. cbv beta in H.
  destruct (GenerateBlkSum kernel initrd) as [blk|e|] eqn:Hb; cbn [sums] in H; [|by injection H as <- <-; split; left..].
  change (bind (ret blk) ?k) with (k blk) in H. cbv beta in H.
  assert (forall name c x q y, osWriteFile dir name c x = (q, y) -> forall k, k <> (dir, name) -> files y !! k = files x !! k) as Hoff.
  { intros name c x q y E k Hk. eapply (within_osWriteFile (fun k => k = (dir, name))) in E as [[Hf _] _]; [by apply Hf|done]. }
  io_bind H x E; rename a into u || idtac.
  - destruct u. pose proof (osWriteFile_ok _ _ _ _ _ E) as Hx. pose proof (Hoff _ _ _ _ _ H (dir, BLKSUM) ltac:(discriminate)) as Hy.
    split; [|right; exists sum, blk; by rewrite Hy].
    destruct r as [[]|e|]; [right|by left..]. exists sum, blk. split_and!; [by eapply osWriteFile_ok|by rewrite Hy|by apply generated_describe].
  - subst r. split; [by left|]. left. by eapply Hoff.
  - subst r. split; [by left|]. left. by eapply Hoff.
Qed.

Lemma within_payloadManifest kernelFile initrdFile dir mode :
  within (fun k => k ∈ [(dir, BLKSUM); (dir, CHECKSUM)]) no_disk (payloadManifestCmd kernelFile initrdFile dir mode).
Proof.
  unfold payloadManifestCmd. do 2 (apply within_bind; [apply within_looks, looks_readFile|intros ?]).
  intros w r w' H. by apply writeManifestFiles_spec in H as [H _].
Qed.

End manifest.

(** C31 - payload-manifest: on success CHECKSUM of the directory decodes, records
the mode given and verifies against the kernel and initrd given, and so does
BLKSUM when the pair is one the block table can describe (32-bit sizes and
addresses); however the command ends, CHECKSUM is what it was unless the BLKSUM
next to it is the complete one of these very files; and nothing else is ever
written. *)
Theorem payload_manifest_verifies {O : Oracle} (kernelFile initrdFile : bytes * bytes) (dir mode : bytes) (w : world) :
  let '(r, w') := payloadManifestCmd kernelFile initrdFile dir mode w in
  spares (fun k => k ∈ [(dir, BLKSUM); (dir, CHECKSUM)]) no_disk w w' /\
  (r <> Ok tt \/ exists kernel initrd sum blk, files w !! kernelFile = Some kernel /\ files w !! initrdFile = Some initrd /\
     files w' !! (dir, CHECKSUM) = Some sum /\ files w' !! (dir, BLKSUM) = Some blk /\ describe kernel initrd mode sum blk) /\
  (files w' !! (dir, CHECKSUM) = files w !! (dir, CHECKSUM) \/
   exists kernel initrd sum blk, files w !! kernelFile = Some kernel /\ files w !! initrdFile = Some initrd /\
     Generate kernel initrd mode = Ok sum /\ GenerateBlkSum kernel initrd = Ok blk /\ files w' !! (dir, BLKSUM) = Some blk).
Proof.
  destruct (payloadManifestCmd kernelFile initrdFile dir mode w) as [r w'] eqn:H. split_and!.
  - eapply within_payloadManifest, H.
  - destruct r as [[]|e|]; [right|by left..]. unfold payloadManifestCmd in H.
    apply bind_ok_inv in H as (kernel & x & Ek & H). apply bind_ok_inv in H as (initrd & y & Ei & H).
    apply readFile_ok_inv in Ek as [Ek Fx], Ei as [Ei _].
    apply writeManifestFiles_spec in H as (_ & [Hr|(sum & blk & H1 & H2 & Hd)] & _); [done|].
    exists kernel, initrd, sum, blk. rewrite Fx in Ei. destruct kernelFile, initrdFile. by split_and!.
  - unfold payloadManifestCmd in H. io_bind H x E; [|apply readFile_spec in E as ((Fx & _) & _); left; by rewrite Fx..].
    apply readFile_ok_inv in E as [Ek Fx]. io_bind H y E; [|apply readFile_spec in E as ((Fy & _) & _); left; by rewrite Fy, Fx..].
    apply readFile_ok_inv in E as [Ei Fy]. rewrite Fx in Ei. destruct kernelFile, initrdFile.
    apply writeManifestFiles_spec in H as (_ & _ & [Hc|(sum & blk & Hs & Hb & Hf)]); [left; by rewrite Hc, Fy, Fx|right].
    eexists _, _, sum, blk. by split_and!.
Qed.

(** ** What the int13chunk command leaves to be read *)

Section int13.

(** The value the command sets is one the loader takes. *)
Lemma parseInt13Chunk_valid arg v : parseInt13Chunk arg = Ok v -> v <> [] ->
  exists n, v = itoa n /\ 1 <= n <= Int13ChunkMax.
Proof.
  unfold parseInt13Chunk. destruct (beq arg _); [by intros [= <-]|]. destruct (atoi arg) as [n|]; [|done].
  destruct (n <? 1) eqn:E1; [done|]. destruct (Int13ChunkMax <? n) eqn:E2; [done|]. destruct (negb _); [done|].
  cbn [orb]. intros [= <-] _. exists n. zb. split; [done|lia].
Qed.

Definition readable_value (n : Z) : bool :=
  match atoi (itoa n) with
  | Some m => (m =? n) && (len (itoa n) <=? 5) && all_digits (itoa n)
  | None => false
  end.

Lemma readable_chunks : forallb readable_value (seqZ 1 127) = true.
Proof. vm_compute. reflexivity. Qed.

Lemma itoa_readable n : 1 <= n <= Int13ChunkMax ->
  atoi (itoa n) = Some n /\ len (itoa n) <= 5 /\ all_digits (itoa n) = true.
Proof.
  intros Hn. pose proof readable_chunks as H. rewrite forallb_forall in H. specialize (H n).
  unfold readable_value in H. destruct (atoi (itoa n)) as [m|].
  - assert ((m =? n) && (len (itoa n) <=? 5) && all_digits (itoa n) = true) as E.
    { apply H, list_elem_of_In, elem_of_seqZ. unfold Int13ChunkMax in Hn. lia. }
    apply andb_true_iff in E as [E ->]. apply andb_true_iff in E as [E1 E2]. zb. by subst.
  - discriminate H. apply list_elem_of_In, elem_of_seqZ. unfold Int13ChunkMax in Hn. lia.
Qed.

Lemma first_value_none p ws : first_value p (List.filter (fun w => negb (has_prefix w p)) ws) = None.
Proof.
  induction ws as [|w ws IH]; [done|]. cbn [List.filter]. unfold has_prefix at 1.
  destruct (cut_prefix w p) eqn:E; cbn [negb]; [done|]. cbn [first_value]. by rewrite E.
Qed.

Lemma first_value_app p a b : first_value p a = None -> first_value p (a ++ b) = first_value p b.
Proof. induction a as [|w a IH]; [done|]. cbn. by destruct (cut_prefix w p). Qed.

Lemma word_no_space w : is_word w -> x20 ∉ w.
Proof.
  intros [_ Hw] (i & Hi)%list_elem_of_lookup. pose proof (lookup_lt_Some _ _ _ Hi) as Hl. specialize (Hw i Hl).
  rewrite (drop_S _ _ _ Hi) in Hw. discriminate Hw.
Qed.

Lemma join_words_snoc ws w : ws <> [] -> join [x20] (ws ++ [w]) = join [x20] ws ++ [x20] ++ w.
Proof.
  induction ws as [|v ws IH]; [done|]. intros _. destruct ws as [|v' ws]; [done|].
  cbn [app]. rewrite join_cons by done. rewrite (join_cons _ v (v' :: ws)) by done. rewrite <-!app_assoc. do 2 f_equal. by apply IH.
Qed.

Lemma trim_right_words ws : Forall is_word ws -> trim_right (join [x20] ws) [x20] = join [x20] ws.
Proof.
  intros Hw. destruct ws as [|w ws _] using rev_ind; [done|]. apply Forall_app in Hw as [_ Hw1]. rewrite Forall_singleton in Hw1.
  destruct (join_snoc x20 ws w) as [p ->]. pose proof (word_no_space w Hw1) as Hs. destruct Hw1 as [Hne _].
  destruct w as [|b w _] using rev_ind; [done|]. apply not_elem_of_app in Hs as [_ Hb%not_elem_of_cons].
  unfold trim_right. rewrite app_assoc, rev_app_distr. cbn [rev app trim_left].
  rewrite decide_False by set_solver. cbn [rev]. by rewrite rev_involutive.
Qed.

Lemma first_line_text s rest : x0a ∉ s -> rest_shape rest -> firstCmdlineLine (s ++ rest) = s.
Proof.
  intros Hs Hr. pose proof (split_first_text _ _ Hs Hr) as H.
  destruct (split_first_cases (s ++ rest)) as (l & r & E & _ & Hl). rewrite Hl. congruence.
Qed.

Lemma fields_space s : fields (x20 :: s) = fields s.
Proof. exact (fields_from_word [] [] s eq_refl). Qed.

(** The words of the first line afterwards. *)
Lemma int13_words ws rest v :
  Forall is_word ws -> rest_shape rest -> settable Int13ChunkKey v ->
  fields (firstCmdlineLine (setCmdlineInt13Chunk (join [x20] ws ++ rest) v)) = edit Int13ChunkKey v ws.
Proof.
  intros Hw Hr Hv. unfold setCmdlineInt13Chunk. rewrite split_first_text by (by apply join_no_newline || done).
  set (kept := List.filter _ _). assert (join [x20] kept = join [x20] (edit Int13ChunkKey [] ws)) as ->.
  { unfold kept, edit. destruct ws as [|w ws]; [done|]. rewrite split_join; [done|done|].
    eapply Forall_impl; [exact Hw|]. apply word_no_space. }
  pose proof (edit_words Int13ChunkKey [] ws Hw (or_introl eq_refl)) as Hk.
  destruct (beq v []) eqn:Ev; cbn [negb]; zb.
  - subst v. rewrite first_line_text, fields_join_words by (by apply join_no_newline || done). done.
  - destruct Hv as [?|Hv]; [done|]. rewrite trim_right_words by done. unfold edit in *. rewrite beq_refl in *. cbn [negb] in *.
    rewrite (proj2 (beq_false v [])) by done. cbn [negb]. set (k := List.filter _ ws) in *.
    change (bs " " ++ Int13ChunkKey ++ bs "=" ++ v) with ([x20] ++ word_of Int13ChunkKey v).
    assert (Forall is_word (k ++ [word_of Int13ChunkKey v])) as Hall by (apply Forall_app; split; [done|by apply Forall_singleton]).
    destruct k as [|w k].
    + change (join [x20] [] ++ [x20] ++ word_of Int13ChunkKey v) with (x20 :: word_of Int13ChunkKey v).
      pose proof (join_no_newline _ Hall) as Hn. rewrite first_line_text; [|by apply not_elem_of_cons|done].
      rewrite fields_space. by apply (fields_join_words [word_of Int13ChunkKey v]).
    + rewrite <-join_words_snoc by done. by rewrite first_line_text, fields_join_words by (by apply join_no_newline || done).
Qed.

Lemma plain_chunks : forallb (fun n => forallb plain_byte (itoa n)) (seqZ 1 127) = true.
Proof. vm_compute. reflexivity. Qed.

Lemma chunk_settable n : 1 <= n <= Int13ChunkMax -> settable Int13ChunkKey (itoa n).
Proof.
  intros Hn. right. apply plain_is_word; [|done]. unfold word_of. rewrite !forallb_app.
  pose proof plain_chunks as H. rewrite forallb_forall in H. rewrite (H n); [reflexivity|].
  apply list_elem_of_In, elem_of_seqZ. unfold Int13ChunkMax in Hn. lia.
Qed.

(** What the loader and status make of CMDLINE after the setting: on a first
line of words separated by single spaces, "default" leaves the build default,
and a number is the value in effect, capped to the loader's batch. *)
Theorem int13_status_after (arg v : bytes) (ws : list bytes) (rest : bytes) :
  parseInt13Chunk arg = Ok v -> Forall is_word ws -> rest_shape rest ->
  let raw := setCmdlineInt13Chunk (join [x20] ws ++ rest) v in
  (v = [] /\ int13ChunkStatus raw None = BuildDefault) \/
  (exists n, v = itoa n /\ cmdlineInt13Chunk raw = (v, true) /\
     int13ChunkStatus raw None = if int13FATBatch <? n then CappedTo n int13FATBatch else InEffect v).
Proof.
  intros Hp Hw Hr raw. destruct (decide (v = [])) as [->|Hv].
  - left. split; [done|]. unfold int13ChunkStatus, cmdlineInt13Chunk, raw. rewrite int13_words by (done || by left).
    unfold edit. rewrite beq_refl. cbn [negb]. by rewrite first_value_none.
  - right. destruct (parseInt13Chunk_valid _ _ Hp Hv) as (n & -> & Hn). exists n. split; [done|].
    destruct (itoa_readable n Hn) as (Ha & Hl & Hd).
    assert (cmdlineInt13Chunk raw = (itoa n, true)) as E.
    { unfold cmdlineInt13Chunk, raw. rewrite int13_words by (done || by apply chunk_settable). unfold edit.
      rewrite (proj2 (beq_false _ [])) by done. cbn [negb]. rewrite first_value_app by apply first_value_none. cbn [first_value].
      unfold word_of. rewrite app_assoc, cut_prefix_app, Ha, Hd. f_equal.
      rewrite (proj2 (Z.leb_le 1 n)), (proj2 (Z.leb_le n _)), (proj2 (Z.leb_le (len _) 5)) by lia. done. }
    split; [done|]. unfold int13ChunkStatus. rewrite E. rewrite (proj2 (beq_false _ [])) by done. cbn [negb].
    unfold atoi_value. rewrite Ha. done.
Qed.

End int13.
