(* ===== verification/Status.v ===== *)
(** * cmd/tool: status, the single-ESP view and the checks of install

[discover] and the checks newInstallCmd makes before it writes anything
(main.go), and [runStatus] with its two sections (mirror.go). A line that is
printed is the constructor of the branch that prints it. The pool's user
property, read with the zfs command, is an argument. *)

From Stdlib Require Import ZArith Lia Strings.Byte.
From stdpp Require Import base list gmap.
From S2P Require Import Prelude GoStrings Layout World NetMac EspConfig EspMember BootEnv EspSet InitrdInfo CmdLine UefiBoot Verify Update Spare Mirror MirrorOps MirrorRun ZfsCompat Inspect.
Local Open Scope Z_scope.

(** [discover]: the target of the one ESP of a single-ESP install. *)
Definition discover (s : seams) (root firmware : bytes) (readonly : bool) : outcome ioerr target :=
  let! h := discoverHost s root firmware readonly (mkHostOpts [] [] false) in
  match h_members h with
  | [m] =>
      if 0 <? len (Missing (h_set h)) then Err (ERefused (bs "mirrored boot")) else
      match m_mountErr m, m_target m with
      | Some e, _ => Err e
      | None, Some t => Ok t
      | None, None => Panic
      end
  | _ => Err (ERefused (bs "mirrored boot"))
  end.

(** ** The ESP set *)

Inductive esp_state :=
| SError (e : ioerr)
| SForeign (installID : bytes)
| SUnreadable
| SNoMarker
| SStale (generation newest : Z)
| SGeneration (generation : Z).

Definition esp_state_of (h : host) (m : member) : esp_state :=
  match m_mountErr m with
  | Some e => SError e
  | None =>
      if m_foreign m then SForeign (eInstallID (m_info m))
      else if MemberErr (m_info m) then SUnreadable
      else if negb (ValidMember (m_info m)) then SNoMarker
      else if m_generation m <? maxGeneration h then SStale (m_generation m) (maxGeneration h)
      else SGeneration (m_generation m)
  end.

(** The disk column of a BIOS member: none, the disk, or its error. *)
Inductive disk_column := NoDisk | OnDisk (disk : bytes) | DiskError (e : ioerr).

Definition disk_column_of (h : host) (m : member) : disk_column :=
  if h_uefi h then NoDisk else
  match m_diskErr m with
  | Some e => DiskError e
  | None => match m_target m with Some t => OnDisk (t_disk t) | None => NoDisk end
  end.

Inductive pool_identity := PNotShown | PNotChecked | PMatches | PNotSet | PDiffers (value : bytes).

Record set_section := mkSetSection {
  ss_mode : mode;
  ss_installID : bytes;
  ss_members : list (bytes * bytes * disk_column * esp_state);
  ss_missing : list bytes;
  ss_ignored : list Ignored;
  ss_pool : pool_identity
}.

(** [alpine-zfsboot.net.mac=]: where it is set, and what it resolves to. *)
Inductive nic_section :=
| NNotShown
| NDefault
| NMalformed (mac source : bytes)
| NCard (mac source : bytes) (found : option (outcome netmac_error bytes)).

Section status.
Context {O : Oracle}.
Context (pe : bytes -> option peFile).
Context (kgzip : bytes -> option (bytes * bool)) (gzip xz : bytes -> option reader) (modinfo : bytes -> elf_section).
Context (live : bytes -> zfsCompat).
Context (s : seams).
(** [runZFS("get", ...)] of the pool's install id, and /sys/class/net. *)
Context (zfsGet : bytes -> option bytes) (sysClassNet : option (list net_entry)).

Definition pool_identity_of (h : host) : io pool_identity :=
  match bestSource h with
  | None => ret PNotShown
  | Some (_, best) =>
      if beq (h_installID h) [] then ret PNotShown else
      do pool := poolOf pe (m_target best) in
      ret (if beq pool [] then PNotShown else
           match zfsGet pool with
           | None => PNotChecked
           | Some v =>
               if beq v (h_installID h) then PMatches
               else if beq v (bs "-") || beq v [] then PNotSet else PDiffers v
           end)
  end.

Definition printSet (h : host) : io set_section :=
  do pool := pool_identity_of h in
  ret (mkSetSection (Mode (h_set h)) (h_installID h)
         ((fun m => (m_uuid m, eDev (m_info m), disk_column_of h m, esp_state_of h m)) <$> h_members h)
         (Missing (h_set h)) (hsIgnored (h_set h)) pool).

(** The value of a readable CMDLINE of a BIOS target, of a readable config. *)
Definition cmdline_mac (t : target) : io bytes :=
  if t_uefi t then ret [] else
  do raw := attempt (readFile (t_mountpoint t) CmdlineFile) in
  ret (match raw with Ok raw => cmdlineValue raw NetMACKey | _ => [] end).

Definition config_mac (t : target) : io bytes :=
  do raw := attempt (readFile (t_mountpoint t) ConfigFile) in
  ret (match raw with
       | Ok raw => match ConfigValue raw NetMACKey with Some v => trim v (bs " " ++ [x09]) | None => [] end
       | _ => []
       end).

Definition rescueNIC (t : option target) : io (bytes * bytes) :=
  match t with
  | None => ret ([], [])
  | Some t =>
      do v := cmdline_mac t in
      if negb (beq v []) then ret (v, CmdlineFile) else
      do v := config_mac t in
      ret (if negb (beq v []) then (v, ConfigFile) else ([], []))
  end.

Definition printRescueNIC (root : bytes) (h : host) : io nic_section :=
  match bestSource h with
  | None => ret NNotShown
  | Some (_, best) =>
      do p := rescueNIC (m_target best) in
      let (mac, src) := (p : bytes * bytes) in
      ret (if beq mac [] then NDefault else
           match Normalize mac with
           | Ok norm => NCard norm src (if beq root (bs "/") then Some (Resolve sysClassNet norm) else None)
           | _ => NMalformed mac src
           end)
  end.

(** The loop over the members: the report of each mounted one. *)
Fixpoint status_members (ms : list member) : io (list (bytes * option report)) :=
  match ms with
  | [] => ret []
  | m :: rest =>
      do r := match m_target m with
              | None => ret None
              | Some t => do r := inspect pe kgzip gzip xz modinfo live t in ret (Some r)
              end in
      do rs := status_members rest in
      ret ((m_uuid m, r) :: rs)
  end.

Record status := mkStatus { st_reports : list (bytes * option report); st_set : set_section; st_nic : nic_section }.

Definition runStatus (root firmware : bytes) (o : hostOpts) : io (Z * option status) :=
  match discoverHost s root firmware true o with
  | Panic => lift Panic
  | Err _ => ret (exitFailure, None)
  | Ok h =>
      do rs := status_members (h_members h) in
      do set := printSet h in
      do nic := printRescueNIC root h in
      ret (exitCode h false, Some (mkStatus rs set nic))
  end.

End status.

(** ** The pool's user property

The zfs command as [setPoolInstallID] uses it: the value of the property per
pool ("-" when unset), [avail] and [settable] whether the two calls succeed. *)

Inductive zfs_call := ZGet (pool : bytes) | ZSet (pool id : bytes).

Definition setPoolInstallID (avail settable : bool) (pool id : bytes) (props : gmap bytes bytes) : list zfs_call * gmap bytes bytes :=
  if beq pool [] || beq id [] then ([], props) else
  if negb avail then ([ZGet pool], props) else
  if beq (default (bs "-") (props !! pool)) id then ([ZGet pool], props) else
  ([ZGet pool; ZSet pool id], if settable then <[pool := id]> props else props).

(** A second run sets nothing: the property is only written when it differs. *)
Theorem setPoolInstallID_once (settable avail : bool) (pool id : bytes) (props : gmap bytes bytes) :
  let '(_, props') := setPoolInstallID true true pool id props in
  setPoolInstallID avail settable pool id props' = (if beq pool [] || beq id [] then [] else [ZGet pool], props').
Proof.
  unfold setPoolInstallID at 1. destruct (beq pool [] || beq id []) eqn:E; cbn [negb].
  - unfold setPoolInstallID. by rewrite E.
  - destruct (beq (default _ _) id) eqn:Ei; unfold setPoolInstallID; rewrite E; destruct avail; cbn [negb]; try done.
    + by rewrite Ei.
    + rewrite lookup_insert_eq. cbn [default]. by rewrite beq_refl.
Qed.

(** ** install's checks *)

Definition flagOrEnv (flag env : bytes) : bytes := if negb (beq flag []) then flag else env.

Record installFlags := mkInstallFlags {
  if_disk : bytes; if_root : bytes; if_firmware : bytes; if_yes : bool;
  if_cfg : Config; if_netMAC : bytes; if_sshKey : bytes; if_opts : biosOpts; if_ho : hostOpts
}.

(** The config the flags give, with the console and the address checked. *)
Definition install_config (f : installFlags) (mac : bytes) : Config :=
  let c := if_cfg f in
  mkConfig (Net c) (IPv4 c) (IPv4Address c) (IPv4Gateway c) (IPv6 c) (IPv6Address c) (IPv6Gateway c)
    (SSHListen c) (SSHPort c) (SSHAllow c) (Console c) [] mac.

(** The process ends with status 1 where the source calls [die]. *)
Definition installCmd {O : Oracle} pe kgzip gzip xz modinfo (s : seams) (mounts : option bytes) (abs eval : bytes -> option bytes)
    (envNetMAC : bytes) (f : installFlags) (loadU : io uefiAsset) (loadB : io biosAssets) : io Z :=
  if negb (beq (if_firmware f) (bs "uefi") || beq (if_firmware f) (bs "bios")) then ret 1 else
  let uefi := beq (if_firmware f) (bs "uefi") in
  let mountpoint := boot_efi (if_root f) in
  match VerifyESPMounted mounts abs eval mountpoint (if uefi then [] else if_disk f) with
  | Panic => lift Panic
  | Err _ => ret 1
  | Ok _ =>
      if negb (ValidateConsole (Console (if_cfg f))) then ret 1 else
      match ValidateNetMAC (flagOrEnv (if_netMAC f) envNetMAC) with
      | Panic => lift Panic
      | Err _ => ret 1
      | Ok mac =>
          runInstall pe kgzip gzip xz modinfo s
            (mkInstallRun (if_disk f) (detectArch s) uefi mountpoint (if_yes f) (install_config f mac)
               (if_sshKey f) (if_opts f) (if_ho f)) loadU loadB
      end
  end.

(** ** What status says *)

Section truthful.
Context {O : Oracle}.
Context (pe : bytes -> option peFile).
Context (kgzip : bytes -> option (bytes * bool)) (gzip xz : bytes -> option reader) (modinfo : bytes -> elf_section).
Context (live : bytes -> zfsCompat).
Context (s : seams) (zfsGet : bytes -> option bytes) (sysClassNet : option (list net_entry)).

Lemma looks_printSet h : looks (printSet pe zfsGet h).
Proof. unfold printSet, pool_identity_of. pose proof (looks_poolOf pe). looking. Qed.

Lemma looks_printRescueNIC root h : looks (printRescueNIC sysClassNet root h).
Proof. unfold printRescueNIC, rescueNIC, cmdline_mac, config_mac. looking. Qed.

Lemma looks_status_members ms : looks (status_members pe kgzip gzip xz modinfo live ms).
Proof.
  pose proof (looks_inspect pe kgzip gzip xz modinfo live).
  induction ms as [|m ms IH]; cbn [status_members]; looking.
Qed.

Lemma looks_status_sections root h :
  looks (do rs := status_members pe kgzip gzip xz modinfo live (h_members h) in do set := printSet pe zfsGet h in
         do nic := printRescueNIC sysClassNet root h in ret (exitCode h false, Some (mkStatus rs set nic))).
Proof. pose proof looks_status_members. pose proof looks_printSet. pose proof looks_printRescueNIC. looking. Qed.

Lemma looks_runStatus root firmware o : looks (runStatus pe kgzip gzip xz modinfo live s zfsGet sysClassNet root firmware o).
Proof. unfold runStatus. pose proof looks_status_sections. destruct (discoverHost _ _ _ _ _); [done|looking..]. Qed.




(** [n] is the newest generation among the members that are not foreign. *)
Definition newest (h : host) (n : Z) : Prop :=
  (forall m, m ∈ h_members h -> m_foreign m = false -> m_generation m <= n) /\
  (n = 0 \/ exists m, m ∈ h_members h /\ m_foreign m = false /\ m_generation m = n).




End truthful.

(** The single-ESP view is the one mounted member of a complete set of one. *)
Theorem discover_sole s root firmware readonly :
  match discover s root firmware readonly with
  | Ok t => exists h m, discoverHost s root firmware readonly (mkHostOpts [] [] false) = Ok h /\
      h_members h = [m] /\ Missing (h_set h) = [] /\ m_target m = Some t
  | _ => True
  end.
Proof.
  unfold discover. destruct (discoverHost _ _ _ _ _) as [h|e|] eqn:Eh; cbn [obind]; [|done|done].
  destruct (h_members h) as [|m [|]] eqn:Em; [done| |done]. destruct (0 <? _) eqn:El; [done|]. zb.
  destruct (m_mountErr m); [done|]. destruct (m_target m) eqn:Et; [|done]. exists h, m. split_and!; [done..| |done].
  destruct (Missing (h_set h)) as [|u us]; [done|]. rewrite len_cons in El. pose proof (len_nonneg us). lia.
Qed.

(** ** What install requires *)

(** The mounted ESP install would write to. *)
Definition esp_mounted mounts (abs eval : bytes -> option bytes) (f : installFlags) (uefi : bool) : Prop :=
  exists dev, FindMountAtPath mounts (canonicalizeMountpoint abs eval (boot_efi (if_root f))) = Some (dev, bs "vfat") /\
    (uefi = true \/ if_disk f = [] \/
     DevicePartitionBase (resolveSymlinkOrSelf eval dev) = DevicePartitionBase (resolveSymlinkOrSelf eval (if_disk f))).

Lemma VerifyESPMounted_ok mounts abs eval (f : installFlags) (uefi : bool) u :
  VerifyESPMounted mounts abs eval (boot_efi (if_root f)) (if uefi then [] else if_disk f) = Ok u -> esp_mounted mounts abs eval f uefi.
Proof.
  unfold VerifyESPMounted, checkMountInfo, esp_mounted. destruct (FindMountAtPath _ _) as [[dev fstype]|]; [|done].
  destruct (beq fstype (bs "vfat")) eqn:Ef; cbn [negb]; [|done]. apply beq_true in Ef as ->. intros H. exists dev. split; [done|].
  destruct uefi; [by left|right]. destruct (beq (if_disk f) []) eqn:Ed; [left; by apply beq_true|right].
  destruct (beq (DevicePartitionBase _) _) eqn:Eb; [by apply beq_true in Eb|done].
Qed.

Lemma VerifyESPMounted_safe mounts abs eval mp disk : safe (VerifyESPMounted mounts abs eval mp disk).
Proof. unfold VerifyESPMounted, checkMountInfo. destruct (FindMountAtPath _ _) as [[]|]; [|done]. by repeat (apply safe_if; intros _). Qed.

(** install writes nothing before its checks: it stops with the world
unchanged, or --firmware is one of the two values, a vfat filesystem is mounted
at <root>/boot/efi and - on BIOS - lies on the disk named (an empty name is not
checked), the console is well formed, the network card's address is empty or in
its canonical unicast form, and what runs is exactly [runInstall] with these. *)
Theorem install_checked {O : Oracle} (pe : bytes -> option peFile) (kgzip : bytes -> option (bytes * bool))
  (gzip xz : bytes -> option reader) (modinfo : bytes -> elf_section) s mounts (abs eval : bytes -> option bytes) envNetMAC (f : installFlags) loadU loadB (w : world) :
  let '(r, w') := installCmd pe kgzip gzip xz modinfo s mounts abs eval envNetMAC f loadU loadB w in
  (r = Ok 1 /\ w' = w) \/
  exists (uefi : bool) mac, if_firmware f = (if uefi then bs "uefi" else bs "bios") /\ esp_mounted mounts abs eval f uefi /\
    ValidateConsole (Console (if_cfg f)) = true /\ (mac = [] \/ canonical_unicast mac) /\
    Normalize (flagOrEnv (if_netMAC f) envNetMAC) = Ok mac /\
    runInstall pe kgzip gzip xz modinfo s
      (mkInstallRun (if_disk f) (detectArch s) uefi (boot_efi (if_root f)) (if_yes f) (install_config f mac)
         (if_sshKey f) (if_opts f) (if_ho f)) loadU loadB w = (r, w').
Proof.
  destruct (installCmd _ _ _ _ _ _ _ _ _ _ _ _ _ _) as [r w'] eqn:H. unfold installCmd in H.
  destruct (negb _) eqn:Ef; [left; by injection H as <- <-|]. cbv zeta in H.
  destruct (VerifyESPMounted _ _ _ _ _) as [u|e|] eqn:Ev; [|left; by injection H as <- <-|by apply VerifyESPMounted_safe in Ev].
  destruct (ValidateConsole _) eqn:Ec; cbn [negb] in H; [|left; by injection H as <- <-].
  unfold ValidateNetMAC in H. destruct (Normalize _) as [mac|e|] eqn:En; [|left; by injection H as <- <-|by apply Normalize_safe in En].
  right. exists (beq (if_firmware f) (bs "uefi")), mac. split_and!; [|by eapply VerifyESPMounted_ok|done|by eapply Normalize_inv|done|done].
  apply negb_false_iff, orb_true_iff in Ef. destruct (beq (if_firmware f) (bs "uefi")) eqn:Eu; [by apply beq_true|].
  destruct Ef as [[=]|Ef]. by apply beq_true.
Qed.
