(* ===== verification/Confine.v ===== *)
(** * cmd/tool: what each command may write

For install, esp add and esp remove: the files and disks a run can change, in
every state it goes through and whatever calls fail; then the commands together. *)

From Stdlib Require Import ZArith Lia Strings.Byte.
From stdpp Require Import base list gmap.
From S2P Require Import Prelude GoStrings Layout Device World EspConfig EspMember BootEnv EspSet Stages KernelInfo InitrdInfo Payload CmdLine UefiBoot Verify Update Spare Mirror MirrorOps MirrorRepair MirrorRun EspCmd Settings.
Local Open Scope Z_scope.

(** ** The set an install writes *)

(** Whatever is validly marked carries an install id: [espmember.Decode] accepts
no empty one. *)
Definition ids_present (infos : list ESPInfo) : Prop :=
  forall i, i ∈ infos -> ValidMember i = true -> eInstallID i <> [].

(** The root ESP, written as it is mounted, or a scanned ESP that is this
installation's (or taken with --force-adopt). *)
Definition install_member (s : seams) (ir : installRun) (h : host) (m : member) : Prop :=
  m_foreign m = false /\
  ((exists t, m_target m = Some t /\ t_mountpoint t = ir_mountpoint ir) \/ member_ok s (forceAdopt (ir_ho ir)) h m).

Lemma install_member_set s ir h h' m :
  h_infos h' = h_infos h -> h_uefi h' = h_uefi h -> h_installID h' = h_installID h ->
  install_member s ir h m -> install_member s ir h' m.
Proof.
  intros Hi Hu Hd [Hf [Hr|[]]]; (split; [done|]); [by left|right].
  constructor; rewrite ?Hi, ?Hu, ?Hd; done.
Qed.

(** Without an id in the set, no listed ESP is validly marked. *)
Lemma selectList_no_id infos lst src p hs :
  ids_present infos -> selectList infos lst src p = Ok hs -> hsInstallID hs = [] ->
  Forall (fun hm => ValidMember (hm_info hm) = false) (hsMembers hs).
Proof.
  intros Hids H. pose proof (selectList_sound _ _ _ _ _ H) as [_ Hs _ _ _ _ _ _]. revert H. unfold selectList.
  destruct (list_loop infos lst [] []) as [[found miss]| |] eqn:El; [|done..].
  cbn [obind]. destruct (len found =? 0); [done|]. intros [= <-]. cbn [hsInstallID hsMembers] in *. intros Hid.
  apply list_loop_spec in El as (f & mm & Hf & _ & Hsole & Hu & _). cbn in Hf. subst f.
  apply Forall_fmap, Forall_forall. intros x Hx. cbn.
  assert (hm_info x ∈ found) as Hin.
  { rewrite orderMembers_perm in Hx. by apply list_elem_of_fmap in Hx as (i & -> & ?). }
  apply not_true_iff_false. intros Hv.
  assert (eUUID (hm_info x) ∈ lst) as Hl.
  { apply (elem_of_lfilter (present_uuid infos)). rewrite <-Hu. by apply list_elem_of_fmap_2. }
  rewrite Forall_forall in Hsole. destruct (Hsole _ Hin) as [Hi Hc].
  assert (infoByUUID infos (eUUID (hm_info x)) = Some (hm_info x)) as Hinfo by (by apply sole_found).
  unfold list_identity in Hid. destruct (omap _ lst) as [|id ids] eqn:Eo.
  - assert (eInstallID (hm_info x) ∈ @nil bytes) as Hn; [|by apply elem_of_nil in Hn].
    rewrite <-Eo. apply list_elem_of_omap. exists (eUUID (hm_info x)). split; [done|]. rewrite Hinfo. cbn. by rewrite Hc, Hv.
  - assert (id ∈ id :: ids) as Hn by (by left). rewrite <-Eo in Hn. apply list_elem_of_omap in Hn as (u & _ & Hu').
    destruct (infoByUUID infos u) as [j|] eqn:Ej; [|done]. cbn in Hu'. destruct (_ && _) eqn:Eb; [|done].
    injection Hu' as Hu'. apply andb_true_iff in Eb as [_ Hvj]. apply infoByUUID_Some in Ej as [Hj _].
    apply (Hids j Hj Hvj). congruence.
Qed.

Lemma attach_listed_members s force root h hms h' :
  attach_listed s h force root hms = Ok h' ->
  exists ms, h' = set_members h (h_members h ++ ms) /\
    Forall (fun m => exists hm, hm ∈ hms /\ m = attach s h (hm_info hm) false false false /\
      (h_installID h <> [] -> force = false -> ValidMember (hm_info hm) = true -> eInstallID (hm_info hm) = h_installID h)) ms.
Proof.
  revert h. induction hms as [|hm hms IH]; intros h H; cbn [attach_listed] in H.
  { injection H as <-. exists []. rewrite app_nil_r. by destruct h. }
  assert (forall (P : HostMember -> member -> Prop) ms, Forall (fun m => exists x, x ∈ hms /\ P x m) ms ->
    Forall (fun m => exists x, x ∈ hm :: hms /\ P x m) ms) as Hmore.
  { intros P ms Hm. eapply Forall_impl; [exact Hm|]. intros m (x & Hx & Hp). exists x. split; [by right|done]. }
  destruct (beq _ root).
  { apply IH in H as (ms & -> & Hms). exists ms. split; [done|]. by apply (Hmore (fun x m => _ /\ _)). }
  cbv zeta in H. destruct (_ && _ && _ && _) eqn:Eb; [done|]. apply IH in H as (ms & -> & Hms).
  exists (attach s h (hm_info hm) false false false :: ms). split; [unfold set_members; cbn; by rewrite <-app_assoc|].
  constructor; [|by apply (Hmore (fun x m => _ /\ _))]. exists hm. split_and!; [by left|done|]. intros Hid Hf Hv.
  rewrite Hv, Hf in Eb. cbn in Eb. rewrite andb_true_r in Eb. destruct (beq (h_installID h) []) eqn:E0; [by apply beq_true in E0|].
  cbn in Eb. apply negb_false_iff in Eb. by apply beq_true.
Qed.

Lemma install_listed_members s ir h lst src root h' :
  ids_present (h_infos h) -> 0 <? len lst = true -> install_listed s ir h lst src root = Ok h' ->
  Forall (install_member s ir h) (h_members h) ->
  h_infos h' = h_infos h /\ h_uefi h' = h_uefi h /\
  (h_installID h <> [] -> h_installID h' = h_installID h) /\ Forall (install_member s ir h') (h_members h').
Proof.
  intros Hids Hl H Hm. unfold install_listed in H.
  destruct (SelectHost _ _) as [hs|e|] eqn:Es; [|done..]. destruct (negb (no_errs _)); [done|]. destruct (negb _); [done|].
  cbv zeta in H. set (h1 := if beq _ [] then _ else _) in H. pose proof Es as Hsound. apply SelectHost_inv in Hsound as [_ Hs _ Hid _ _ _ _].
  unfold SelectHost in Es. cbn [opt_List] in Es. rewrite Hl in Es.
  assert (h_infos h1 = h_infos h /\ h_uefi h1 = h_uefi h /\ h_members h1 = h_members h /\
    (h_installID h <> [] -> h_installID h1 = h_installID h) /\ (h_installID h = [] -> h_installID h1 = hsInstallID hs))
    as (Hi & Hu & Hms & Hk & Hn).
  { subst h1. cbn [h_installID set_explicit set_host]. destruct (beq (h_installID h) []) eqn:E0; cbn; split_and!; try done.
    - by apply beq_true in E0.
    - apply not_true_iff_false in E0. intros E. destruct E0. by apply beq_true. }
  apply attach_listed_members in H as (ms & -> & Hnew). cbn [h_infos h_uefi h_installID h_members set_members].
  split_and!; [done|done|done|]. rewrite Hms. apply Forall_app. split.
  - destruct (beq (h_installID h) []) eqn:E0.
    + eapply Forall_impl; [exact Hm|]. intros m [Hf Ho]. split; [done|]. destruct Ho as [Ho|[]]; [by left|right].
      constructor; cbn; rewrite ?Hi, ?Hu; try done. intros Hf' Hfo Hv. apply beq_true in E0.
      exfalso. eapply Hids; [done|done|]. rewrite mo_own; done.
    + assert (h_installID h <> []) by (intros E; rewrite E in E0; by rewrite beq_refl in E0).
      eapply Forall_impl; [exact Hm|]. intros m. apply install_member_set; cbn; auto.
  - eapply Forall_impl; [exact Hnew|]. intros m (hm & Hin & -> & Hown). split; [apply attach_foreign|right].
    rewrite Forall_forall in Hs. destruct (Hs _ Hin) as [Hin' _].
    apply member_ok_members, attach_ok; [by rewrite Hi|]. intros _ Hf Hv. destruct (decide (h_installID h1 = [])) as [E1|E1]; [|by apply Hown].
    exfalso. assert (hsInstallID hs = []) as E2.
    { destruct (decide (h_installID h = [])) as [E|E]; [by rewrite <-Hn|]. rewrite Hk in E1; done. }
    apply selectList_no_id in Es; [|done|done]. rewrite Forall_forall in Es. rewrite (Es _ Hin) in Hv. done.
Qed.

Lemma install_marked_members s ir h root rootInfo :
  Forall (install_member s ir h) (h_members h) ->
  Forall (install_member s ir (install_marked s h root rootInfo)) (h_members (install_marked s h root rootInfo)).
Proof.
  intros Hm. unfold install_marked. cbn [h_members set_host set_members]. apply Forall_app. split.
  - eapply Forall_impl; [exact Hm|]. intros m. by apply install_member_set.
  - apply Forall_fmap, Forall_forall. intros i Hi. apply elem_of_lfilter in Hi as [Hi Hb].
    apply andb_true_iff in Hb as [Hb Hid]. apply beq_true in Hid. cbn.
    eapply install_member_set with (h := h); [done..|]. split; [apply attach_foreign|right]. by apply attach_ok.
Qed.

(** Every member of the set an install writes; what it scanned. *)
Lemma install_set_members s ir lst src dev root h :
  (forall infos, scanESPs s = Some infos -> ids_present infos) ->
  install_set s ir lst src dev root = Ok h ->
  (h_infos h = [] \/ scanESPs s = Some (h_infos h)) /\ h_uefi h = ir_uefi ir /\ Forall (install_member s ir h) (h_members h).
Proof.
  intros Hids H. unfold install_set in H. cbv zeta in H. set (rootInfo := probeMounted _ _ _) in H.
  set (rootM := mkMirrorMember _ rootInfo _ _ _ _) in H.
  assert (forall h, install_member s ir h rootM) as Hroot by (intros h0; split; [done|left; by eexists]).
  destruct (_ || _ || _) eqn:Eb; [|injection H as <-; split_and!; [by left|done|by constructor]].
  destruct (scanESPs s) as [infos|] eqn:Esc; [|done]. specialize (Hids _ eq_refl).
  destruct (_ && _) in H; [done|]. match type of H with obind ?c _ = _ => destruct c as [h1|e|] eqn:E1; cbn [obind] in H; [|done..] end.
  assert (h_infos h1 = infos /\ h_uefi h1 = ir_uefi ir /\ Forall (install_member s ir h1) (h_members h1)) as (Hi & Hu & Hm).
  { destruct lst as [|u us]; cbn [no_errs negb] in E1.
    - destruct (ValidMember rootInfo); injection E1 as <-.
      + split_and!; [done|done|]. apply install_marked_members. by constructor.
      + split_and!; [done|done|]. by constructor.
    - apply install_listed_members in E1 as (? & ? & _ & ?); [done|done| |by constructor].
      apply Z.ltb_lt. rewrite len_cons. pose proof (len_nonneg us). lia. }
  apply addESPs_new in H as (ms & -> & Hms). cbn [h_infos h_uefi set_members]. split_and!; [right; congruence|done|].
  cbn [h_members set_members]. apply Forall_app. split.
  - eapply Forall_impl; [exact Hm|]. intros m. by apply install_member_set.
  - eapply Forall_impl; [exact Hms|]. intros m (Hk & _ & Hf). split; [done|right]. by apply member_ok_members.
Qed.

(** ** What an install may write *)

Section install.
Context {O : Oracle}.
Context (pe : bytes -> option peFile).
Context (kgzip : bytes -> option (bytes * bool)) (gzip xz : bytes -> option reader) (modinfo : bytes -> elf_section).
Context (s : seams) (loadU : io uefiAsset) (loadB : io biosAssets) (HlU : looks loadU) (HlB : looks loadB).
Context (ir : installRun) (h : host).
Context (Hown : Forall (fun m => m_foreign m = false) (h_members h)).

Abbreviation W := (within (run_file s false h) (chain_disk false h)).

Lemma install_may_write m t : m ∈ h_members h -> m_target m = Some t -> may_write false h m t.
Proof. intros Hm Ht. rewrite Forall_forall in Hown. split_and!; [done|done|]. by rewrite Hown. Qed.

Lemma run_member m t rel : may_write false h m t -> run_file s false h (t_mountpoint t, rel).
Proof. intros Hm. right. by exists m, t. Qed.

Lemma within_install_each f : (forall m, m ∈ h_members h -> W (f m)) -> W (install_each f (h_members h)).
Proof.
  intros Hf. assert (forall ms, (forall m, m ∈ ms -> m ∈ h_members h) -> W (install_each f ms)) as Hw; [|by apply Hw].
  induction ms as [|m ms IH]; intros Hms; cbn [install_each]; [apply within_looks, looks_ret|].
  apply within_bind; [apply within_attempt, Hf, Hms; by left|]. intros r.
  assert (W (install_each f ms)) by (apply IH; intros x Hx; apply Hms; by right). confining.
Qed.

Lemma looks_check_disks ms : looks (check_disks s ms).
Proof. induction ms as [|m ms IH]; cbn [check_disks]; [apply looks_ret|]. pose proof looks_gate. pose proof looks_target. looking. Qed.

Lemma looks_prepare arch a opts : looks (prepareBIOSInstall kgzip gzip xz modinfo arch a opts).
Proof. unfold prepareBIOSInstall, stage_pair, valid_mode, applyInt13Chunk. pose proof @looks_lift_cmd. looking. Qed.

Lemma within_install_members cfg hostKey :
  h_uefi h = ir_uefi ir -> all_ready (ir_uefi ir) (h_members h) = true ->
  W (install_members pe kgzip gzip xz modinfo s ir h cfg hostKey loadU loadB).
Proof.
  intros Hu Hr. unfold install_members. destruct (ir_uefi ir) eqn:Eu.
  - apply within_bind; [by apply within_looks|]. intros a. destruct (_ && _); [apply within_looks, looks_ret|].
    apply within_bind; [|intros rs; apply within_looks, looks_ret]. apply within_install_each. intros m Hm. apply within_target.
    intros t Ht. apply within_UEFIInstall. intros rel _. by eapply run_member, install_may_write.
  - apply within_bind; [by apply within_looks|]. intros a. apply within_bind; [apply within_looks, looks_check_disks|]. intros _.
    apply within_bind; [apply within_looks, looks_prepare|]. intros p. destruct (_ && _); [apply within_looks, looks_ret|].
    apply within_bind; [|intros rs; apply within_looks, looks_ret]. apply within_install_each. intros m Hm.
    unfold install_bios_one. cbv zeta. apply within_bind; [apply within_looks, looks_lift_cmd|]. intros _.
    apply within_target. intros t Ht. apply within_BIOSInstall.
    + intros rel _. by eapply run_member, install_may_write.
    + exists m, t. split_and!; [by apply install_may_write|done| |done].
      unfold all_ready in Hr. rewrite forallb_forall in Hr. apply list_elem_of_In in Hm. specialize (Hr m Hm). cbn in Hr.
      apply andb_true_iff in Hr as [_ Hr]. by destruct (m_diskErr m).
Qed.

Lemma within_install_host : h_uefi h = ir_uefi ir -> W (install_host pe kgzip gzip xz modinfo s ir h loadU loadB).
Proof.
  intros Hu. unfold install_host. destruct (all_ready _ _) eqn:Er; cbn [negb]; [|apply within_looks, looks_ret].
  apply within_or_exit; [apply within_looks, looks_lift|]. intros _. cbv zeta.
  apply within_or_exit; [apply within_looks, looks_plain_call|]. intros _.
  apply within_or_exit; [apply within_looks; looking|]. intros hostKey.
  apply within_or_exit; [by apply within_install_members|]. intros [res|]; [|apply within_looks, looks_ret].
  apply within_bind; [apply within_looks, looks_poolOf|]. intros pool.
  apply within_bind; [|intros q; apply within_looks, looks_ret]. apply within_finalizeMembersAt, Forall_forall.
  intros im Him t Ht. apply elem_of_lfilter in Him as [Him _]. apply numbered_elem in Him.
  eapply run_member, install_may_write; [by eapply list_elem_of_lookup_2|done].
Qed.

End install.

(** The set an install writes: the list the flags or the environment give, and
the volume mounted at the place it is told to install to. *)
Definition install_selects (s : seams) (ir : installRun) (h : host) : Prop :=
  exists lst src exp dev fs root,
    resolveList s (ir_ho ir) [] false = Ok (lst, src, exp) /\
    findMountAtPath s (canonicalPath s (ir_mountpoint ir)) = Some (dev, fs) /\ volumeUUID s dev = Some root /\
    install_set s ir lst src dev root = Ok h.

Lemma spares_runInstall {O : Oracle} pe kgzip gzip xz modinfo s loadU loadB ir w r w' :
  looks loadU -> looks loadB -> (forall infos, scanESPs s = Some infos -> ids_present infos) ->
  runInstall pe kgzip gzip xz modinfo s ir loadU loadB w = (r, w') ->
  frame w w' \/
  exists h, install_selects s ir h /\
    (h_infos h = [] \/ scanESPs s = Some (h_infos h)) /\ Forall (install_member s ir h) (h_members h) /\
    spares (run_file s false h) (chain_disk false h) w w'.
Proof.
  intros HlU HlB Hids H. unfold runInstall, or_exit in H. apply bind_attempt_inv in H as (rc & x & [= <- <-] & H).
  destruct (resolveList _ _ _ _) as [[[lst src] exp]| |] eqn:El; [|left; injection H as <- <-; reflexivity..].
  destruct (findMountAtPath _ _) as [[dev fs]|] eqn:Ef; [|left; injection H as <- <-; reflexivity].
  destruct (volumeUUID _ _) as [root|] eqn:Ev; [|left; injection H as <- <-; reflexivity].
  apply bind_attempt_inv in H as (rc & x & [= <- <-] & H).
  destruct (install_set s ir lst src dev root) as [h| |] eqn:Eh; [|left; injection H as <- <-; reflexivity..].
  right. exists h. pose proof (install_set_members _ _ _ _ _ _ _ Hids Eh) as (Hi & Hu & Hm).
  split_and!; [by exists lst, src, exp, dev, fs, root|done|done|]. eapply within_install_host; [done|done| |done|done].
  eapply Forall_impl; [exact Hm|]. by intros m [].
Qed.

(** ** esp add and esp remove *)

Section esp.
Context {O : Oracle}.
Context (pe : bytes -> option peFile).
Context (kgzip : bytes -> option (bytes * bool)) (gzip xz : bytes -> option reader) (modinfo : bytes -> elf_section).
Context (s : seams) (h : host).

(** esp add writes the new ESP and its disk; of the other members of this
installation only the list in config and CMDLINE, and the marker. *)
Definition add_file (new : member) (k : bytes * bytes) : Prop :=
  k = scratchFile s \/ (exists t, m_target new = Some t /\ k.1 = t_mountpoint t) \/
  (exists m t, may_write false h m t /\ k.1 = t_mountpoint t).

Definition add_disk (new : member) (d : bytes) : Prop := h_uefi h = false /\ exists t, m_target new = Some t /\ d = t_disk t.

Lemma within_add_member sm new m :
  m ∈ h_members h -> within (add_file m) (add_disk m) (add_member pe kgzip gzip xz modinfo s h sm new m).
Proof.
  intros Hm. unfold add_member. apply within_or_exit.
  { apply within_copyBootChain.
    - intros t rel Ht _. right. left. by exists t.
    - by left.
    - intros t Ht Hu. split; [done|by exists t]. }
  intros _. cbv zeta.
  assert (forall im t, im ∈ List.filter (fun im => mounted im.2 && negb (m_foreign im.2)) (numbered (h_members h)) ->
    m_target im.2 = Some t -> may_write false h im.2 t) as Hw.
  { intros im t Him Ht. apply elem_of_lfilter in Him as [Him Hb]. apply numbered_elem in Him. apply andb_true_iff in Hb as [_ Hb].
    apply negb_true_iff in Hb. split_and!; [by eapply list_elem_of_lookup_2|done|congruence]. }
  apply within_bind.
  { apply within_addToLists. apply Forall_fmap, Forall_forall. intros im Him _ t rel Ht _. right. right.
    exists im.2, t. split; [by apply Hw|done]. }
  intros p. apply within_bind; [apply within_looks, looks_poolOf|]. intros pool. apply within_bind; [|intros q; confining].
  apply within_finalizeMembersAt, Forall_forall. intros im Him t Ht. right. right. exists im.2, t. split; [by apply Hw|done].
Qed.

End esp.

Section remove.
Context {O : Oracle}.
Context (pe : bytes -> option peFile) (s : seams) (h : host).

(** esp remove writes the marker of the ESP it takes out, and of the other
members of this installation config, CMDLINE and MEMBER; no disk. *)
Definition others_file (uuid : bytes) (k : bytes * bytes) : Prop :=
  k.2 ∈ [ConfigFile; CmdlineFile; MemberFile] /\ exists m t, may_write false h m t /\ m_uuid m <> uuid /\ k.1 = t_mountpoint t.

Definition removed_marker (uuid : bytes) (k : bytes * bytes) : Prop :=
  k.2 = MemberFile /\ exists m t, m ∈ h_members h /\ m_uuid m = uuid /\ m_target m = Some t /\ k.1 = t_mountpoint t.

Definition remove_file (uuid : bytes) (k : bytes * bytes) : Prop := removed_marker uuid k \/ others_file uuid k.

Lemma without_elem uuid m : m ∈ h_members (without h uuid) -> m ∈ h_members h /\ m_uuid m <> uuid.
Proof.
  unfold without. cbn. rewrite elem_of_lfilter. intros [Hm Hb]. split; [done|]. intros E. by rewrite E, beq_refl in Hb.
Qed.

Lemma others_may_write uuid m t rel :
  m ∈ h_members (without h uuid) -> m_foreign m = false -> m_target m = Some t -> rel ∈ [ConfigFile; CmdlineFile; MemberFile] ->
  others_file uuid (t_mountpoint t, rel).
Proof.
  intros [Hm Hu]%without_elem Hf Ht Hr. split; [done|]. exists m, t. split_and!; [|done|done]. split_and!; [done|done|congruence].
Qed.

Lemma within_drop uefi uuid m :
  m ∈ h_members (without h uuid) -> within (others_file uuid) no_disk (drop_from_lists uefi uuid m).
Proof.
  intros Hm. unfold drop_from_lists. destruct (m_target m) as [t|] eqn:Et; [|apply within_looks, looks_ret].
  destruct (m_foreign m) eqn:Ef; [apply within_looks, looks_ret|].
  assert (others_file uuid (t_mountpoint t, CmdlineFile)) by (eapply others_may_write; [done..|set_solver]).
  assert (forall v, within (others_file uuid) no_disk (SetConfigKey (t_mountpoint t) ESPUUIDsKey v)).
  { intros v. unfold SetConfigKey. assert (others_file uuid (t_mountpoint t, ConfigFile)) by (eapply others_may_write; [done..|set_solver]). confining. }
  apply within_bind; [apply within_looks, looks_read_or_empty|]. intros raw. cbv zeta.
  apply within_bind; [confining|]. intros ok1. confining.
Qed.

Lemma within_drop_each uefi uuid ms :
  (forall m, m ∈ ms -> m ∈ h_members (without h uuid)) -> within (others_file uuid) no_disk (drop_each uefi uuid ms).
Proof.
  induction ms as [|m ms IH]; intros Hms; cbn [drop_each]; [apply within_looks, looks_ret|].
  apply within_bind; [apply within_drop, Hms; by left|]. intros a.
  apply within_bind; [apply IH; intros x Hx; apply Hms; by right|]. intros b. apply within_looks, looks_ret.
Qed.

Lemma within_others uuid ok1 : within (others_file uuid) no_disk (remove_from_others pe s h uuid ok1).
Proof.
  unfold remove_from_others. cbv zeta. apply within_bind; [by apply within_drop_each|].
  intros ok2. apply within_bind; [apply within_looks, looks_poolOf|]. intros pool. apply within_bind; [|intros q; confining].
  apply within_finalizeMembersAt, Forall_forall. intros im Him t Ht. apply elem_of_lfilter in Him as [Him Hb].
  apply numbered_elem, list_elem_of_lookup_2 in Him. apply andb_true_iff in Hb as [_ Hb]. apply negb_true_iff in Hb.
  eapply others_may_write; [done..|set_solver].
Qed.

Lemma within_remove_marker uuid : within (removed_marker uuid) no_disk (remove_marker h uuid).
Proof.
  unfold remove_marker. destruct (last _) as [m|] eqn:El; cbn [mbind option_bind]; [|apply within_looks, looks_ret].
  destruct (m_target m) as [t|] eqn:Et; [|apply within_looks, looks_ret].
  apply last_Some_elem_of, elem_of_lfilter in El as [Hm Hb]. apply beq_true in Hb.
  assert (within (removed_marker uuid) no_disk (EspMember.Remove (t_mountpoint t))).
  { apply within_Member_Remove. split; [done|]. by exists m, t. }
  confining.
Qed.

Lemma within_remove_member uuid : within (remove_file uuid) no_disk (remove_member pe s h uuid).
Proof.
  unfold remove_member. apply within_bind.
  - intros w r w' H. apply within_remove_marker in H. eapply spares_mono; [|done|exact H]. intros k Hk. by left.
  - intros ok1 w r w' H. apply within_others in H. eapply spares_mono; [|done|exact H]. intros k Hk. by right.
Qed.

End remove.

(** The ESP [esp add] writes is the one [addESPs] appended. *)
Lemma last_added {A : Type} (l ms : list A) x : last (l ++ ms) = Some x -> length (l ++ ms) <> length l -> x ∈ ms.
Proof.
  destruct ms as [|y ms] using rev_ind; [rewrite app_nil_r; done|]. rewrite app_assoc, last_snoc. intros [= <-] _.
  apply elem_of_app. right. by left.
Qed.

Lemma spares_runESPAdd {O : Oracle} pe kgzip gzip xz modinfo s root firmware o arg yes w r w' :
  runESPAdd pe kgzip gzip xz modinfo s root firmware o arg yes w = (r, w') ->
  frame w w' \/
  exists h0 ms m, discoverHost s root firmware false o = Ok h0 /\ m ∈ ms /\
    Forall (fun x => member_ok s (forceAdopt o) h0 x /\ m_foreign x = false) ms /\
    spares (add_file s (set_members h0 (h_members h0 ++ ms)) m) (add_disk (set_members h0 (h_members h0 ++ ms)) m) w w'.
Proof.
  unfold runESPAdd, or_exit. intros H. apply bind_attempt_inv in H as (rc & x & [= <- <-] & H).
  destruct (discoverHost s root firmware false o) as [h0| |] eqn:Eh; [|left; injection H as <- <-; reflexivity..].
  destruct (bestSource h0) as [[j sm]|]; [|left; injection H as <- <-; reflexivity].
  destruct (negb (no_mount_err sm)); [left; injection H as <- <-; reflexivity|].
  apply bind_attempt_inv in H as (rc & x & [= <- <-] & H).
  destruct (addESPs s _ h0) as [h| |] eqn:Ea; [|left; injection H as <- <-; reflexivity..].
  apply addESPs_new in Ea as (ms & -> & Hms). cbn [forceAdopt h_members set_members] in *.
  destruct (_ =? _)%nat eqn:El; [left; injection H as <- <-; reflexivity|].
  destruct (last _) as [m|] eqn:Em; [|left; injection H as <- <-; reflexivity].
  destruct (usable m true true _); [left; injection H as <- <-; reflexivity|].
  apply bind_attempt_inv in H as (rc & x & [= <- <-] & H).
  destruct (checkDistinctDisks _) as [u| |]; [|left; injection H as <- <-; reflexivity..].
  destruct (_ && _); [left; injection H as <- <-; reflexivity|].
  right. exists h0, ms, m. apply Nat.eqb_neq in El. apply last_added in Em; [|done]. split_and!; [done|done| |].
  - eapply Forall_impl; [exact Hms|]. by intros y (? & _ & ?).
  - eapply within_add_member; [|exact H]. cbn. apply elem_of_app. by right.
Qed.

(** [uuid] is what the argument of a command names. *)
Definition names_esp (s : seams) (h : host) (arg uuid : bytes) : Prop :=
  NormalizeFATUUID arg = Ok uuid \/ exists i, findInfo s h arg = Ok i /\ eUUID i = uuid.

(** esp remove stopped before it wrote: an error, or the prompt was declined. *)
Definition stopped_short (s : seams) (yes : bool) (w : world) (r : outcome ioerr Z) (w' : world) : Prop :=
  w' = w /\ (r = Ok exitFailure \/ r = Panic \/ (r = Ok 0 /\ yes = false /\ answerYes s = false)).

Lemma runESPRemove_inv {O : Oracle} pe s root firmware o arg yes w r w' :
  runESPRemove pe s root firmware o arg yes w = (r, w') ->
  stopped_short s yes w r w' \/
  exists h uuid, discoverHost s root firmware false o = Ok h /\ names_esp s h arg uuid /\
    (exists m, m ∈ h_members h /\ m_uuid m <> uuid) /\ remove_member pe s h uuid w = (r, w').
Proof.
  unfold runESPRemove, or_exit. intros H. apply bind_attempt_inv in H as (rc & x & [= <- <-] & H).
  destruct (discoverHost s root firmware false o) as [h| |] eqn:Eh; [|left; injection H as <- <-; split; [done|tauto]..].
  apply bind_attempt_inv in H as (rc & x & [= <- <-] & H).
  match type of H with (match ?c with _ => _ end) _ = _ => destruct c as [uuid| |] eqn:Eu end; [|left; injection H as <- <-; split; [done|tauto]..].
  cbv zeta in H. destruct (negb _); [left; injection H as <- <-; split; [done|tauto]|].
  destruct (List.filter _ (h_members h)) as [|m ms] eqn:Em; cbn [no_errs] in H; [left; injection H as <- <-; split; [done|tauto]|].
  destruct (negb yes && _) eqn:Ey; [left; injection H as <- <-; split; [done|]; right; right; destruct yes, (answerYes s); done|].
  right. exists h, uuid. split_and!; [done| |exists m|exact H].
  - destruct (NormalizeFATUUID arg) eqn:En; [left; congruence| |done]. right.
    destruct (findInfo s h arg) as [i| |]; cbn [obind] in Eu; [|done..]. exists i. split; [done|congruence].
  - assert (m ∈ List.filter (fun m => negb (beq (m_uuid m) uuid)) (h_members h)) as Hm by (rewrite Em; by left).
    apply elem_of_lfilter in Hm as [Hm Hb]. split; [done|]. intros E. by rewrite E, beq_refl in Hb.
Qed.

Lemma spares_runESPRemove {O : Oracle} pe s root firmware o arg yes w r w' :
  runESPRemove pe s root firmware o arg yes w = (r, w') ->
  frame w w' \/
  exists h uuid, discoverHost s root firmware false o = Ok h /\ names_esp s h arg uuid /\ spares (remove_file h uuid) no_disk w w'.
Proof.
  intros [[-> _]|(h & uuid & Hh & Hn & _ & H)]%runESPRemove_inv; [left; reflexivity|right].
  exists h, uuid. split_and!; [done|done|by eapply within_remove_member].
Qed.

(** ** What esp remove achieves *)

Lemma Remove_absent {O : Oracle} mp w w' : EspMember.Remove mp w = (Ok tt, w') -> files w' !! (mp, MemberFile) = None.
Proof.
  unfold EspMember.Remove. intros H. apply bind_attempt_inv in H as (r & x & E & H).
  assert (looks (do o := attempt (plain_call OpOpenDir) in match o with Ok _ => run attempt (plain_call OpSyncDir) then ret tt | _ => ret tt end)) as Hl by looking.
  apply removeFile_spec in E as (_ & _ & E). destruct r as [u|e|]; [| |discriminate H].
  - destruct E as (_ & Hf & _). apply Hl in H as [Hx _]. rewrite Hx, Hf. apply lookup_delete_eq.
  - destruct e; try discriminate H. destruct E as [Hn [Hf _]]. apply Hl in H as [Hx _]. by rewrite Hx, Hf.
Qed.

(** Members are told apart by their UUID, and mounted where their device is. *)
Lemma discoverHost_sole s root firmware ro o h :
  discoverHost s root firmware ro o = Ok h ->
  Forall (fun m => sole (h_infos h) (m_info m) /\ t_mountpoint <$> m_target m = mountESP s (eDev (m_info m)) ro) (h_members h).
Proof.
  unfold discoverHost. destruct (firmwareOf _ _ _) as [uefi| |]; cbn [obind]; [|done..].
  destruct (resolveList _ _ _ _) as [[[lst src] explicit]| |]; cbn [obind]; [|done..].
  destruct (scanESPs s) as [infos|]; [|done]. destruct (SelectHost _ _) as [hs| |] eqn:Es; [|done..].
  intros [= <-]. apply SelectHost_inv in Es as [_ Hs _ _ _ _ _ _]. cbn [h_members set_members h_infos].
  apply Forall_fmap. eapply Forall_impl; [exact Hs|]. intros hm Hm. cbn. rewrite attach_uuid. split; [done|].
  unfold attach. by destruct (mountESP s _ ro).
Qed.

Lemma one_member s root firmware o h m m' :
  discoverHost s root firmware false o = Ok h -> m ∈ h_members h -> m' ∈ h_members h -> m_uuid m = m_uuid m' ->
  t_mountpoint <$> m_target m = t_mountpoint <$> m_target m'.
Proof.
  intros Hh Hm Hm' Hu. apply discoverHost_sole in Hh as Hs. rewrite Forall_forall in Hs.
  destruct (Hs _ Hm) as [E%sole_found ->], (Hs _ Hm') as [E'%sole_found ->].
  unfold m_uuid in Hu. rewrite Hu, E' in E. by injection E as ->.
Qed.

Lemma bind_settles {A B : Type} (c : io A) (k : A -> io B) w r w' :
  bind c k w = (r, w') -> (forall e, r <> Err e) -> r <> Panic -> exists a x, c w = (Ok a, x) /\ k a x = (r, w').
Proof. intros H He Hp. io_bind H x E; [by eauto|by destruct (He e)|done]. Qed.

Lemma others_failed {O : Oracle} pe s h uuid ok1 w r w' :
  remove_from_others pe s h uuid ok1 w = (r, w') -> r = Ok 0 \/ r = Ok exitMemberMissing -> ok1 = true.
Proof.
  unfold remove_from_others. cbv zeta. intros H Hr. apply bind_settles in H as (ok2 & x & _ & H); [|by destruct Hr as [->| ->]..].
  apply bind_settles in H as (pool & y & _ & H); [|by destruct Hr as [->| ->]..].
  apply bind_settles in H as (q & z & _ & H); [|by destruct Hr as [->| ->]..].
  destruct ok1; [done|]. cbn in H. injection H as <- <-. by destruct Hr.
Qed.

Lemma marker_removed {O : Oracle} s root firmware o h uuid w x m t :
  discoverHost s root firmware false o = Ok h -> m ∈ h_members h -> m_uuid m = uuid -> m_target m = Some t ->
  remove_marker h uuid w = (Ok true, x) -> files x !! (t_mountpoint t, MemberFile) = None.
Proof.
  intros Hh Hm Hu Ht. unfold remove_marker. destruct (last _) as [m'|] eqn:El.
  - apply last_Some_elem_of, elem_of_lfilter in El as [Hm' Hb]. apply beq_true in Hb. cbn [mbind option_bind].
    assert (m_uuid m = m_uuid m') as Hsame by (by rewrite Hu). pose proof (one_member _ _ _ _ _ _ _ Hh Hm Hm' Hsame) as E. rewrite Ht in E. cbn in E.
    destruct (m_target m') as [t'|]; [|done]. injection E as ->. intros H.
    apply bind_attempt_inv in H as (rc & y & E & H). destruct rc as [[]|e|]; [|done..]. injection H as <-. by eapply Remove_absent.
  - exfalso. apply last_None in El. assert (m ∈ List.filter (fun m => beq (m_uuid m) uuid) (h_members h)) as Hin.
    { apply elem_of_lfilter. split; [done|]. rewrite Hu. apply beq_refl. }
    rewrite El in Hin. by apply elem_of_nil in Hin.
Qed.

(** C13 - esp remove takes the ESP out and nothing else, with or without a prompt.
Either it stops with the media unchanged, reporting a failure or, at a declined
prompt, 0; or the ESP its argument names is not the last one, and in every state
of the run and whatever calls fail it changes no disk, of that ESP only the
MEMBER marker, and of the other ESPs only config, CMDLINE and MEMBER of members
of this installation. When such a run reports success and the ESP is mounted,
its marker is gone (of an ESP that is not mounted nothing is written). *)
Theorem esp_remove_effect {O : Oracle} (pe : bytes -> option peFile) (s : seams) (root firmware arg : bytes) (o : hostOpts)
  (w w' : world) (r : outcome ioerr Z)
  (Hmounts : forall d1 d2 mp, mountESP s d1 false = Some mp -> mountESP s d2 false = Some mp -> d1 = d2)
  (Hdev : forall infos, scanESPs s = Some infos -> NoDup (eDev <$> infos))
  (yes : bool) (H : runESPRemove pe s root firmware o arg yes w = (r, w')) :
  stopped_short s yes w r w' \/
  exists h uuid, discoverHost s root firmware false o = Ok h /\ names_esp s h arg uuid /\
    (exists m, m ∈ h_members h /\ m_uuid m <> uuid) /\
    spares (remove_file h uuid) no_disk w w' /\
    (r = Ok 0 \/ r = Ok exitMemberMissing ->
     forall m t, m ∈ h_members h -> m_uuid m = uuid -> m_target m = Some t -> files w' !! (t_mountpoint t, MemberFile) = None).
Proof.
  apply runESPRemove_inv in H as [H|(h & uuid & Hh & Hn & Hrest & H)]; [by left|right].
  exists h, uuid. split_and!; [done|done|done|by eapply within_remove_member|]. intros Hr m t Hm Hu Ht.
  unfold remove_member in H. apply bind_settles in H as (ok1 & x & E & H); [|by destruct Hr as [->| ->]..].
  assert (ok1 = true) as -> by (eapply others_failed; [exact H|exact Hr]).
  pose proof (marker_removed _ _ _ _ _ _ _ _ _ _ Hh Hm Hu Ht E) as Hgone.
  apply within_others in H as [[Hf _] _]. cbn in Hf. rewrite <-Hgone. apply Hf. intros (_ & m' & t' & (Hm' & Ht' & _) & Hu' & Hmp).
  cbn in Hmp. apply discoverHost_members in Hh as Hok. destruct Hok as [Hs Hok]. rewrite Forall_forall in Hok. apply Hu'. rewrite <-Hu.
  pose proof (Hok _ Hm) as [Hin Hmt _ _ _]. unfold m_uuid. f_equal.
  eapply mounted_at; [done|by apply Hdev|exact Hin|by apply Hmt|by apply Hok|done|done].
Qed.

(** The host of MirrorRun's example drops the foreign ESP from its list. *)
Definition pair_remove (O : Oracle) : outcome ioerr Z * world :=
  runESPRemove (O:=O) pair_pe pair_seams (bs "/") [] pair_opts (bs "BBBB-0002") true pair_world.

Lemma esp_remove_effect_witness : files (pair_remove no_faults).2 !! (bs "/dev/sdb1", MemberFile) = None.
Proof.
  destruct (esp_remove_effect (O:=no_faults) pair_pe pair_seams (bs "/") [] (bs "BBBB-0002") pair_opts pair_world
    (pair_remove no_faults).2 (pair_remove no_faults).1) with (yes := true) as [(_ & [H|[H|(_ & H & _)]])|(h & uuid & Hh & Hn & _ & _ & H)].
  - intros d1 d2 mp H1 H2. cbn in H1, H2. congruence.
  - intros infos [= <-]. apply (bool_decide_unpack _). vm_compute. exact I.
  - apply surjective_pairing.
  - vm_compute in H. discriminate H.
  - vm_compute in H. discriminate H.
  - discriminate H.
  - rewrite pair_discovered in Hh. injection Hh as <-.
    assert (uuid = bs "BBBB-0002") as ->.
    { destruct Hn as [Hn|(i & Hf & <-)]; [vm_compute in Hn; by injection Hn as <-|vm_compute in Hf; by injection Hf as <-]. }
    apply (H ltac:(left; vm_compute; reflexivity) (attach pair_seams pair_host esp_there true false false)
             (mkTarget true (bs "x86_64") (bs "/dev/sdb1") (bs "/dev/sdb") (bs "/dev/sdb1"))).
    + apply list_elem_of_In. vm_compute. right. left. reflexivity.
    + vm_compute. reflexivity.
    + vm_compute. reflexivity.
Defined.

(** ** Two installations and nothing that names the host's *)

Definition two_seams : seams :=
  mkSeams (Some [esp_here; esp_there]) (fun dev _ => Some dev) (fun dev => Some dev)
    (fun _ => None) (fun _ => None) (fun _ => true) [] (fun p => p) (fun d => d)
    (bs "2026-01-01T00:00:00Z") None [] (bs "x86_64") (fun _ => Some 512) (bs "/tmp", bs "x.efi")
    (fun v _ => mkESPInfo v false false None false [] false) None true.

(** The error of this situation advises to remove the other installation's
marker with esp remove; esp remove then fails with the same error, whatever it
is given, and changes nothing. *)
Theorem esp_remove_undetermined {O : Oracle} (pe : bytes -> option peFile) (arg : bytes) (yes : bool) (w : world) :
  SelectHost [esp_here; esp_there] (mkSelectOpts [] [] []) = Err (EManyInstalls [id_here; id_there]) /\
  runESPRemove pe two_seams (bs "/") [] pair_opts arg yes w = (Ok exitFailure, w).
Proof.
  split; [vm_compute; reflexivity|]. unfold runESPRemove, or_exit.
  assert (discoverHost two_seams (bs "/") [] false pair_opts = Err (ERefused (bs "select"))) as -> by (vm_compute; reflexivity).
  reflexivity.
Qed.
