(* ===== verification/Commands.v ===== *)
(** * cmd/tool: the commands

[main] and the [Run] closures of the commands: which flags a command has, what
it runs and with which status the process ends. Then what holds of all of them. *)

From Stdlib Require Import ZArith Lia Strings.Byte.
From stdpp Require Import base list gmap.
From S2P Require Import Prelude GoStrings Layout Device World EspConfig EspMember BootEnv EspSet NetMac Stages KernelInfo InitrdInfo Payload CmdLine UefiBoot Verify Update Spare Mirror MirrorOps MirrorRepair MirrorRun EspCmd ZfsCompat Inspect Settings Status Confine.
Local Open Scope Z_scope.

(** ** The command line *)

(** A command with its flags. A command that is no writer ([addHostFlags] with
[writer] false) has only --esp-uuids; esp remove has not even that. *)
Inductive command :=
| Version (dir path : bytes)
| Status (root firmware espUUIDs : bytes)
| VerifyCmd (root firmware espUUIDs : bytes) (deep repair : bool) (f : verifyFiles)
| UpdateCmd (root firmware : bytes) (ho : hostOpts) (yes : bool) (opts : biosOpts)
| InstallCmd (f : installFlags)
| Integrity (root firmware espUUIDs mode : bytes)
| Int13Chunk (root firmware espUUIDs arg : bytes)
| ESPList (root espUUIDs : bytes)
| ESPAdd (root firmware espUUIDs : bytes) (forceAdopt : bool) (arg : bytes) (yes : bool)
| ESPRemove (root firmware arg : bytes) (yes : bool)
| ESPAdopt (args : list bytes) (yes forceAdopt : bool)
| PayloadManifest (kernel initrd : bytes * bytes) (out mode : bytes).

(** [addHostFlags(cmd, &ho, false)] *)
Definition reader_opts (espUUIDs : bytes) : hostOpts := mkHostOpts espUUIDs [] false.

(** [detectArch], of runtime.GOARCH. *)
Definition arch_of_GOARCH (goarch : bytes) : bytes :=
  if beq goarch (bs "amd64") then bs "x86_64" else if beq goarch (bs "arm64") then bs "aarch64" else goarch.

(** [confirm], of the line read from standard input (empty at its end). *)
Definition confirm (line : bytes) : bool := beq (to_lower (trim_space line)) (bs "y").

(** The files and devices outside the model that [main] runs with. *)
Record environment := mkEnvironment {
  env_seams : seams; env_mounts : option bytes; env_abs : bytes -> option bytes; env_eval : bytes -> option bytes;
  env_netMAC : bytes; env_live : bytes -> zfsCompat; env_zfsGet : bytes -> option bytes; env_sysClassNet : option (list net_entry)
}.

Section commands.
Context {O : Oracle}.
Context (pe : bytes -> option peFile).
Context (kgzip : bytes -> option (bytes * bool)) (gzip xz : bytes -> option reader) (modinfo : bytes -> elf_section).
Context (e : environment) (loadU : io uefiAsset) (loadB : io biosAssets).

Abbreviation s := (env_seams e).

(** The exit status of the process; [die] ends it with 1. *)
Definition execute (c : command) : io Z :=
  match c with
  | Version dir path => or_exit (Read pe dir path) (fun _ => ret 0)
  | Status root firmware u =>
      do r := runStatus pe kgzip gzip xz modinfo (env_live e) s (env_zfsGet e) (env_sysClassNet e) root firmware (reader_opts u) in ret r.1
  | VerifyCmd root firmware u deep repair f =>
      or_exit (runVerify pe kgzip gzip xz modinfo (env_live e) s root firmware (reader_opts u) deep repair f) ret
  | UpdateCmd root firmware ho yes opts => runUpdate pe kgzip gzip xz modinfo s root firmware ho yes loadU loadB opts
  | InstallCmd f => installCmd pe kgzip gzip xz modinfo s (env_mounts e) (env_abs e) (env_eval e) (env_netMAC e) f loadU loadB
  | Integrity root firmware u mode => integrityCmd pe s root firmware (reader_opts u) mode
  | Int13Chunk root firmware u arg => int13ChunkCmd pe s root firmware (reader_opts u) arg
  | ESPList root u => do r := lift (runESPList s root (reader_opts u)) in ret r.1
  | ESPAdd root firmware u force arg yes => runESPAdd pe kgzip gzip xz modinfo s root firmware (mkHostOpts u [] force) arg yes
  | ESPRemove root firmware arg yes => runESPRemove pe s root firmware (mkHostOpts [] [] false) arg yes
  | ESPAdopt args yes force => runESPAdopt s args yes force
  | PayloadManifest kernel initrd out mode => or_exit (payloadManifestCmd kernel initrd out mode) (fun _ => ret 0)
  end.

End commands.

(** ** A foreign ESP *)

(** The run an install starts, whatever address the flags give. *)
Definition install_run (s : seams) (f : installFlags) (uefi : bool) (mac : bytes) : installRun :=
  mkInstallRun (if_disk f) (detectArch s) uefi (boot_efi (if_root f)) (if_yes f) (install_config f mac)
    (if_sshKey f) (if_opts f) (if_ho f).

Definition install_uefi (f : installFlags) : bool := beq (if_firmware f) (bs "uefi").

(** [h] is the set command [c] writes. *)
Definition command_host (s : seams) (c : command) (h : host) : Prop :=
  match c with
  | UpdateCmd root firmware ho _ _ => discoverHost s root firmware false ho = Ok h
  | InstallCmd f => exists mac, install_selects s (install_run s f (install_uefi f) mac) h
  | Integrity root firmware u _ | Int13Chunk root firmware u _ => discoverHost s root firmware false (reader_opts u) = Ok h
  | ESPAdd root firmware u force _ _ => discoverHost s root firmware false (mkHostOpts u [] force) = Ok h
  | ESPRemove root firmware _ _ => discoverHost s root firmware false (mkHostOpts [] [] false) = Ok h
  | _ => False
  end.

(** The commands that must leave the ESP [i] alone: all without --force-adopt
but [esp adopt], [verify --repair], and [esp remove] of [i] itself. *)
Definition must_spare (s : seams) (i : ESPInfo) (c : command) : Prop :=
  match c with
  | UpdateCmd _ _ ho _ _ => forceAdopt ho = false
  | InstallCmd f => forceAdopt (if_ho f) = false
  | ESPAdd _ _ _ force _ _ => force = false
  | VerifyCmd _ _ _ _ repair _ => repair = false
  | ESPRemove _ _ arg _ => NormalizeFATUUID arg <> Ok (eUUID i) /\
      forall h j, command_host s c h -> findInfo s h arg = Ok j -> eUUID j <> eUUID i
  | ESPAdopt _ _ _ => False
  | _ => True
  end.

(** A place no command writes for another reason: not the temporary directory,
the filesystem install is given, or the directory of the manifest files. *)
Definition elsewhere (s : seams) (c : command) (mp : bytes) : Prop :=
  (scratchFile s).1 <> mp /\
  match c with
  | InstallCmd f => boot_efi (if_root f) <> mp
  | PayloadManifest _ _ out _ => out <> mp
  | _ => True
  end.

Section foreign.
Context {O : Oracle}.
Context (pe : bytes -> option peFile).
Context (kgzip : bytes -> option (bytes * bool)) (gzip xz : bytes -> option reader) (modinfo : bytes -> elf_section).
Context (e : environment) (loadU : io uefiAsset) (loadB : io biosAssets) (HlU : looks loadU) (HlB : looks loadB).

Abbreviation s := (env_seams e).

Context (infos : list ESPInfo) (i : ESPInfo) (mp : bytes).
Context (Hscan : scanESPs s = Some infos) (Hids : ids_present infos) (Hdev : NoDup (eDev <$> infos)).
Context (Hmounts : forall d1 d2 mp, mountESP s d1 false = Some mp -> mountESP s d2 false = Some mp -> d1 = d2).
Context (Hi : i ∈ infos) (Hv : ValidMember i = true) (Hmp : mountESP s (eDev i) false = Some mp).

Abbreviation spared := (spares (fun k => k.1 <> mp) (fun _ => True)).

Lemma own_elsewhere h m t :
  h_infos h = infos -> eInstallID i <> h_installID h -> member_ok s false h m -> m_foreign m = false -> m_target m = Some t ->
  t_mountpoint t <> mp.
Proof.
  intros Hh Hid Hm Hf Ht Heq. subst infos. pose proof (mounted_at _ _ _ _ _ _ _ Hmounts Hdev Hi Hmp Hm Ht Heq) as E.
  destruct Hm as [_ _ _ _ Hown]. rewrite E in Hown. by apply Hid, Hown.
Qed.

Lemma discovered root firmware o h :
  discoverHost s root firmware false o = Ok h -> h_infos h = infos /\ Forall (member_ok s false h) (h_members h).
Proof. intros [Hs Hm]%discoverHost_members. split; [congruence|done]. Qed.

Lemma writable_elsewhere root firmware o h m t :
  discoverHost s root firmware false o = Ok h -> eInstallID i <> h_installID h -> may_write false h m t -> t_mountpoint t <> mp.
Proof.
  intros [Hin Hm]%discovered Hid (Hmem & Ht & Hf). rewrite Forall_forall in Hm. eapply own_elsewhere; [done|done|by apply Hm| |done].
  destruct (m_foreign m); [|done]. discriminate (Hf eq_refl).
Qed.

Lemma update_spared root firmware o yes opts w r w' :
  forceAdopt o = false -> (scratchFile s).1 <> mp ->
  (forall h, discoverHost s root firmware false o = Ok h -> eInstallID i <> h_installID h) ->
  runUpdate pe kgzip gzip xz modinfo s root firmware o yes loadU loadB opts w = (r, w') -> spared w w'.
Proof.
  intros Ho Htmp Hid H. apply spares_runUpdate in H as [H|(h0 & h & Hh & Ha & H)]; [by apply frame_spares| |done|done].
  specialize (Hid _ Hh). apply discovered in Hh as [Hin Hm]. apply addESPs_new in Ha as (ms & -> & Hms).
  eapply spares_mono; [|done|exact H]. intros k [->|(m & t & (Hmem & Ht & Hf) & ->)]; [done|]. rewrite Ho in *.
  cbn in Hmem. apply elem_of_app in Hmem as [Hmem|Hmem].
  - rewrite Forall_forall in Hm. eapply own_elsewhere; [done|done|by apply Hm| |done]. destruct (m_foreign m); [|done]. discriminate (Hf eq_refl).
  - rewrite Forall_forall in Hms. destruct (Hms _ Hmem) as (Hk & _ & Hf'). by eapply own_elsewhere.
Qed.

Lemma install_spared f mac w r w' :
  forceAdopt (if_ho f) = false -> (scratchFile s).1 <> mp -> boot_efi (if_root f) <> mp ->
  (forall h, command_host s (InstallCmd f) h -> eInstallID i <> h_installID h) ->
  runInstall pe kgzip gzip xz modinfo s (install_run s f (install_uefi f) mac) loadU loadB w = (r, w') -> spared w w'.
Proof.
  intros Ho Htmp Hroot Hid H. apply spares_runInstall in H as [H|(h & Hh & Hin & Hm & H)];
    [by apply frame_spares| |done|done|intros l Hl; by simplify_eq].
  assert (eInstallID i <> h_installID h) as Hne by (apply Hid; by exists mac).
  eapply spares_mono; [|done|exact H]. intros k [->|(m & t & (Hmem & Ht & Hf) & ->)]; [done|].
  rewrite Forall_forall in Hm. destruct (Hm _ Hmem) as [Hf' [(t' & Ht' & Hr)|Hk]].
  { cbn in Hr. rewrite Ht' in Ht. injection Ht as <-. by rewrite Hr. }
  cbn in Hk. rewrite Ho in Hk. destruct Hin as [Hin|Hin]; [|eapply (own_elsewhere h m); [congruence|done..]].
  destruct Hk as [Hs _ _ _ _]. rewrite Hin in Hs. by apply elem_of_nil in Hs.
Qed.

Lemma setting_spared root firmware u fn w r w' :
  (forall h, discoverHost s root firmware false (reader_opts u) = Ok h -> eInstallID i <> h_installID h) ->
  forEachMember pe s root firmware (reader_opts u) fn w = (r, w') ->
  (forall h m t, may_write false h m t -> within (setting_file false h) no_disk (fn t)) -> spared w w'.
Proof.
  intros Hid H Hfn. pose proof (forEachMember_confined pe s root firmware (reader_opts u) fn w Hfn) as Hc. rewrite H in Hc. cbn [snd] in Hc.
  destruct (discoverHost s root firmware false (reader_opts u)) as [h| |] eqn:Eh; [|by apply frame_spares..].
  eapply spares_mono; [|done|exact Hc]. intros k (m & t & Hm & -> & _). by eapply writable_elsewhere; [|apply Hid|].
Qed.

Lemma install_inv mounts abs eval mac f w r w' :
  installCmd pe kgzip gzip xz modinfo s mounts abs eval mac f loadU loadB w = (r, w') ->
  (w' = w /\ (r = Ok 1 \/ r = Panic)) \/
  exists mac, runInstall pe kgzip gzip xz modinfo s (install_run s f (install_uefi f) mac) loadU loadB w = (r, w').
Proof.
  unfold installCmd. destruct (negb _); [intros [= <- <-]; left; by auto|]. cbv zeta.
  destruct (VerifyESPMounted _ _ _ _ _) as [u| |]; [|intros [= <- <-]; left; by auto..].
  destruct (negb _); [intros [= <- <-]; left; by auto|]. destruct (ValidateNetMAC _) as [a| |]; [|intros [= <- <-]; left; by auto..].
  intros H. right. exists a. exact H.
Qed.

Lemma add_spared root firmware o arg yes w r w' :
  forceAdopt o = false -> (scratchFile s).1 <> mp ->
  (forall h, discoverHost s root firmware false o = Ok h -> eInstallID i <> h_installID h) ->
  runESPAdd pe kgzip gzip xz modinfo s root firmware o arg yes w = (r, w') -> spared w w'.
Proof.
  intros Ho Htmp Hid H. apply spares_runESPAdd in H as [H|(h & ms & m & Hh & Hm & Hms & H)]; [by apply frame_spares|].
  rewrite Ho in Hms. rewrite Forall_forall in Hms. assert (forall x t, x ∈ ms -> m_target x = Some t -> t_mountpoint t <> mp) as Hnew.
  { intros x t Hx Ht. destruct (Hms _ Hx) as [Hk Hf]. apply discovered in Hh as Hi'. destruct Hi' as [Hin _].
    by eapply own_elsewhere; [|apply Hid|..]. }
  eapply spares_mono; [|done|exact H]. intros k [->|[(t & Ht & ->)|(x & t & (Hx & Ht & Hf) & ->)]]; [done|by eapply Hnew|].
  cbn in Hx. apply elem_of_app in Hx as [Hx|Hx]; [|by eapply Hnew].
  by eapply (writable_elsewhere root firmware o h x); [|apply Hid|].
Qed.

Lemma remove_spared root firmware arg yes w r w' :
  must_spare s i (ESPRemove root firmware arg yes) ->
  (forall h, discoverHost s root firmware false (mkHostOpts [] [] false) = Ok h -> eInstallID i <> h_installID h) ->
  runESPRemove pe s root firmware (mkHostOpts [] [] false) arg yes w = (r, w') -> spared w w'.
Proof.
  intros [Hu Hj] Hid H. apply spares_runESPRemove in H as [H|(h & uuid & Hh & Harg & H)]; [by apply frame_spares|].
  eapply spares_mono; [|done|exact H]. intros k [(_ & m & t & Hm & Hmu & Ht & ->)|(_ & m & t & Hw & _ & ->)].
  - intros Heq. apply discovered in Hh as Hi'. destruct Hi' as [Hin Hall]. rewrite Forall_forall in Hall.
    assert (m_info m = i) as E by (subst infos; by eapply mounted_at; [..|by apply Hall|done|]).
    unfold m_uuid in Hmu. rewrite E in Hmu. subst uuid. destruct Harg as [Ha|(j & Ha & Hj')]; [done|]. by eapply Hj.
  - by eapply writable_elsewhere; [|apply Hid|].
Qed.

End foreign.

(** C8 - No command but three writes to an ESP of another installation behind the
operator's back. For every command without --force-adopt - except [esp adopt],
[verify --repair] and [esp remove] of that very ESP, which do write to it - every
file on an ESP that carries the valid marker of an installation other than the
one of the command's set is, in every state of the run and whatever calls fail,
what it was before. (Different devices are mounted at different places, and the
temporary file, install's own filesystem and the manifest directory are not on
that ESP.) *)
Theorem tool_never_foreign {O : Oracle} (pe : bytes -> option peFile) (kgzip : bytes -> option (bytes * bool))
  (gzip xz : bytes -> option reader) (modinfo : bytes -> elf_section) (e : environment) (loadU : io uefiAsset) (loadB : io biosAssets)
  (infos : list ESPInfo) (i : ESPInfo) (mp : bytes) (c : command) (w w' : world) (r : outcome ioerr Z)
  (HlU : looks loadU) (HlB : looks loadB)
  (Hscan : scanESPs (env_seams e) = Some infos) (Hids : ids_present infos) (Hdev : NoDup (eDev <$> infos))
  (Hmounts : forall d1 d2 mp, mountESP (env_seams e) d1 false = Some mp -> mountESP (env_seams e) d2 false = Some mp -> d1 = d2)
  (Hi : i ∈ infos) (Hv : ValidMember i = true) (Hmp : mountESP (env_seams e) (eDev i) false = Some mp)
  (Hother : forall h, command_host (env_seams e) c h -> eInstallID i <> h_installID h)
  (Hspare : must_spare (env_seams e) i c) (Helse : elsewhere (env_seams e) c mp)
  (H : execute pe kgzip gzip xz modinfo e loadU loadB c w = (r, w')) :
  spares (fun k => k.1 <> mp) (fun _ => True) w w'.
Proof.
  destruct Helse as [Htmp Helse], c; cbn [execute must_spare command_host] in *.
  - revert H. apply within_or_exit; [apply within_looks, looks_Read|]. intros _. apply within_looks, looks_ret.
  - revert H. apply within_bind; [apply within_looks, looks_runStatus|]. intros st. apply within_looks, looks_ret.
  - subst repair. revert H. apply within_or_exit; [|intros z; apply within_looks, looks_ret]. intros x y x' Hx.
    eapply spares_mono; [| |by eapply careful_runVerify]; [by intros k []|done].
  - by eapply update_spared.
  - apply install_inv in H as [[-> _]|(mac & H)]; [reflexivity|].
    by eapply install_spared.
  - eapply setting_spared; [done..|]. intros h m t. apply (within_integrity_one pe).
  - unfold int13ChunkCmd in H. destruct (parseInt13Chunk _) as [v| |]; [|injection H as <- <-; reflexivity..].
    eapply setting_spared; [done..|]. intros h m t. apply (within_int13_one pe).
  - revert H. apply within_bind; [apply within_looks, looks_lift|]. intros l. apply within_looks, looks_ret.
  - subst. by eapply add_spared with (o := mkHostOpts espUUIDs [] false).
  - by eapply remove_spared.
  - done.
  - revert H. apply within_or_exit; [|intros _; apply within_looks, looks_ret]. intros x y x' Hx. apply within_payloadManifest in Hx.
    eapply spares_mono; [|done|exact Hx]. intros k Hk. apply list_elem_of_In in Hk. by destruct Hk as [<-|[<-|[]]].
Qed.

(** The host of MirrorRun's example: its list names an ESP of another installation. *)
Definition pair_env : environment :=
  mkEnvironment pair_seams (Some (bs "/dev/sda1 /boot/efi vfat rw 0 0")) (fun p => Some (bs "/" ++ p)) (fun p => Some p) [] (fun _ => mkZfsCompat [] [] [] None) (fun _ => None) None.

Definition pair_execute (O : Oracle) (c : command) : outcome ioerr Z * world :=
  execute (O:=O) pair_pe no_kgzip no_gzip no_gzip boot_modinfo pair_env (ret pair_asset) (throw ENotExist) c pair_world.

Definition pair_updating : command := UpdateCmd (bs "/") [] pair_opts true sample_opts.

(** A fresh UEFI install at the root directory, onto the ESP mounted there. *)
Definition no_config : Config := mkConfig [] [] [] [] [] [] [] [] [] [] (bs "tty0") [] [].
Definition pair_installing : command :=
  InstallCmd (mkInstallFlags [] [] (bs "uefi") true no_config [] [] sample_opts pair_opts).

Lemma pair_install_selects : exists h, command_host pair_seams pair_installing h.
Proof.
  eexists (ok_or pair_host _), [], [], [], false, (bs "/dev/sda1"), (bs "vfat"), (bs "AAAA-0001").
  split_and!; [vm_compute; reflexivity..|]. apply ok_or_ok. vm_compute. reflexivity.
Qed.

Lemma pair_install_host mac h :
  install_selects pair_seams (install_run pair_seams (mkInstallFlags [] [] (bs "uefi") true no_config [] [] sample_opts pair_opts) true mac) h ->
  h_installID h = [].
Proof.
  intros (lst & src & exp & dev & fs & root & Hl & Hf & Hv & Hs). vm_compute in Hl. injection Hl as <- <- <-. vm_compute in Hf. injection Hf as <- <-.
  vm_compute in Hv. injection Hv as <-. vm_compute in Hs. by injection Hs as <-.
Qed.

(** The fourth call of an update fails, and an install goes through its first
calls; the foreign ESP is untouched by either. *)
Lemma tool_never_foreign_witness :
  spares (fun k => k.1 <> bs "/dev/sdb1") (fun _ => True) pair_world (pair_execute (fail_at 3 0) pair_updating).2 /\
  spares (fun k => k.1 <> bs "/dev/sdb1") (fun _ => True) pair_world (pair_execute (fail_at 9 0) pair_installing).2 /\
  exists h, command_host pair_seams pair_installing h.
Proof.
  assert (ids_present [esp_here; esp_there]) as Hids.
  { intros j Hj _. apply list_elem_of_In in Hj. destruct Hj as [<-|[<-|[]]]; vm_compute; discriminate. }
  assert (NoDup (eDev <$> [esp_here; esp_there])) as Hdev by (apply (bool_decide_unpack _); vm_compute; exact I).
  assert (forall d1 d2 mp, mountESP pair_seams d1 false = Some mp -> mountESP pair_seams d2 false = Some mp -> d1 = d2) as Hmounts.
  { intros d1 d2 mp H1 H2. cbn in H1, H2. congruence. }
  split; [|split].
  - apply (tool_never_foreign (O:=fail_at 3 0) pair_pe no_kgzip no_gzip no_gzip boot_modinfo pair_env (ret pair_asset)
      (throw ENotExist) [esp_here; esp_there] esp_there (bs "/dev/sdb1") pair_updating pair_world _ (pair_execute (fail_at 3 0) pair_updating).1);
      [apply looks_ret|apply looks_throw|reflexivity|exact Hids|exact Hdev|exact Hmounts|right; left|vm_compute; reflexivity|reflexivity
      | |reflexivity|split; [vm_compute; discriminate|exact I]|apply surjective_pairing].
    intros h Hh. cbn [command_host pair_updating env_seams pair_env] in Hh. rewrite pair_discovered in Hh. injection Hh as <-. vm_compute. discriminate.
  - apply (tool_never_foreign (O:=fail_at 9 0) pair_pe no_kgzip no_gzip no_gzip boot_modinfo pair_env (ret pair_asset)
      (throw ENotExist) [esp_here; esp_there] esp_there (bs "/dev/sdb1") pair_installing pair_world _ (pair_execute (fail_at 9 0) pair_installing).1);
      [apply looks_ret|apply looks_throw|reflexivity|exact Hids|exact Hdev|exact Hmounts|right; left|vm_compute; reflexivity|reflexivity
      | |reflexivity|split; vm_compute; discriminate|apply surjective_pairing].
    intros h [mac Hh]. apply pair_install_host in Hh. rewrite Hh. vm_compute. discriminate.
  - exact pair_install_selects.
Defined.

(** ** verify --repair *)

(** The loader of both ESPs holds a kernel and an initrd; neither has metadata. *)
Definition full_pe (c : bytes) : option peFile :=
  if beq c here_loader
  then Some (mkPE 0x8664 [(bs ".cmdline", Some stamped_cmdline); (bs ".linux", Some boot_kernel); (bs ".initrd", Some sample_archive)])
  else None.

(** With a build that has all its sections, that install writes its own ESP. *)
Definition pair_installed : outcome ioerr Z * world :=
  execute (O:=no_faults) full_pe no_kgzip no_gzip no_gzip boot_modinfo pair_env (ret pair_asset) (throw ENotExist)
    pair_installing (fresh_world (<[local_efi := here_loader]> (files pair_world)) ∅).

Example pair_install_writes : files pair_installed.2 !! (bs "boot/efi", x64) = Some here_loader.
Proof. vm_compute. reflexivity. Qed.

Definition pair_repair : outcome ioerr Z * world :=
  execute (O:=no_faults) full_pe no_kgzip no_gzip no_gzip boot_modinfo pair_env (ret pair_asset) (throw ENotExist)
    (VerifyCmd (bs "/") [] [] false true no_files) pair_world.

Definition has_file (w : world) (dev rel : bytes) : bool := match files w !! (dev, rel) with Some _ => true | None => false end.

(** [verify --repair] writes to an ESP of another installation: on a host
whose list names one, the metadata manifest that ESP lacks is created, without
--force-adopt, which verify does not even have. *)
Theorem verify_repair_writes_foreign :
  has_file pair_world (bs "/dev/sdb1") MetadataFile = false /\ has_file pair_repair.2 (bs "/dev/sdb1") MetadataFile = true.
Proof. split; vm_compute; reflexivity. Qed.
