(* ===== verification/Print.v ===== *)
(** * cmd/tool: the printed report

[report.print] of main.go as the list of lines it writes, with the helpers that
choose their texts. An error is kept as the value whose text is printed. *)

From Stdlib Require Import ZArith Lia Strings.Byte.
From stdpp Require Import base list gmap.
From S2P Require Import Prelude GoStrings Layout Device ExtentCheck World EspConfig Metadata PayloadSum BlkSum BiosBoot Stages KernelInfo InitrdInfo Payload CmdLine UefiBoot Verify Update Spare EspSet Mirror MirrorOps ZfsNative ZfsCompat Inspect.
Local Open Scope Z_scope.

(** ** Texts *)

Definition orNone (s : bytes) : bytes := if beq s [] then bs "(none)" else s.

(** [DiskLayout.String] *)
Definition DiskLayout_String (l : DiskLayout) : bytes :=
  match l with LayoutGPT => bs "gpt" | LayoutMSDOS => bs "msdos" | LayoutUnknown => bs "unknown" end.

Definition integrityModeHelp (mode : bytes) : bytes :=
  if beq mode ModeOff then bs "the BIOS loader does not hash kernel/initrd"
  else if beq mode ModeEnforce then bs "the BIOS loader refuses to boot a kernel/initrd that does not match"
  else bs "the BIOS loader hashes kernel/initrd and on a mismatch shows both digests, then boots".

Definition mismatchAction (mode : bytes) : bytes :=
  if beq mode ModeEnforce then bs "will refuse to boot it - integrity mode enforce" else bs "will warn and boot".

(** What follows a label. *)
Inductive value :=
| Text (v : bytes)
| ERROR (e : verify_error)
| WARNING (e : verify_error)
| VersionError  (* ERROR with the error of a version that could not be read *)
| PoolError (e : zfs_error)
| Problems (n : Z)  (* N problem(s) - see above *)
| ChunkStatus (c : int13_status)
| BlockTable (b : blk_line)
| Blocks_confirmed
| UnknownReason.

Inductive line := Heading (t : bytes) | Row (label : bytes) (v : value).

Definition printField (name : bytes) (err : option verify_error) (okMsg : bytes) : line :=
  Row (name ++ bs ":") (match err with Some e => ERROR e | None => Text okMsg end).

(** [printField] of a version, whose error the report keeps as [None]. *)
Definition version_field (name : bytes) (v : option bytes) (f : bytes -> bytes) : line :=
  Row (name ++ bs ":") (match v with Some v => Text (f v) | None => VersionError end).

Definition openZFSSummary (r : report) : value :=
  match r_openZFSVersion r with Some v => Text (bs "OpenZFS " ++ v) | None => VersionError end.

(** ** The sections *)

Section print.
Context (verbose : bool) (layoutKind : DiskLayout) (t : target) (r : report).

Definition is_BIOS : bool := negb (t_uefi t).

Definition when (b : bool) (ls : list line) : list line := if b then ls else [].

Definition print_head : list line :=
  [Heading (bs "alpine-zfsboot by UniDoc");
   Row (bs "Version:") (Text (orNone (r_installedVersion r)));
   Row (bs "Architecture:") (Text (t_arch t));
   Row (bs "Firmware:") (Text (if t_uefi t then bs "UEFI" else bs "BIOS"));
   Row (bs "Boot disk:") (Text (t_disk t))]
  ++ when is_BIOS [Row (bs "Partitioning:") (Text (DiskLayout_String layoutKind))].

Definition stage1Desc : bytes := bs "MBR " ++ t_disk t.
Definition stage2Desc : bytes := t_disk t ++ bs " LBA " ++ itoa Stage2LBA ++ bs "-" ++ itoa (Stage2LBA + Stage2Sectors - 1).
Definition loaderPath : bytes := match LoaderPath (t_arch t) with Ok rel => rel | _ => [] end.

Definition print_bootstrap : list line :=
  [Heading (bs "Bootstrap")]
  ++ (if is_BIOS then
        [printField (bs "Stage1") (r_stage1Err r) (bs "OK (" ++ stage1Desc ++ bs ")");
         printField (bs "Stage2") (r_stage2Err r) (bs "OK (" ++ stage2Desc ++ bs ")");
         Row (bs "Stage2 version:") (Text (orNone (r_installedVersion r)))]
        ++ match r_int13Chunk r with Some c => [Row (bs "INT13 chunk:") (ChunkStatus c)] | None => [] end
      else [printField (bs "EFI loader") (r_loaderErr r) (bs "OK (" ++ loaderPath ++ bs ")")])
  ++ [Row (bs "Status:") (if no_errs (report_errs r) then Text (bs "OK") else Problems (len (report_errs r)))].

Definition print_metadata : line :=
  Row (bs "Metadata:")
    (if r_metadataVerified r then Text (bs "OK (confirmed against the real installed payload)") else
     match r_metadataErr r with
     | Some e => ERROR e
     | None =>
         if r_metadataPresent r then Text (bs "from manifest (run 'alpine-zfsboot verify' to confirm it matches the real payload)")
         else Text (bs "MISSING (deep-inspected instead - run 'alpine-zfsboot verify --repair' to add it)")
     end).

Definition print_payloadSum : line :=
  let sr := r_sums r in
  Row (bs "Payload sum:")
    (match payloadSumErr sr with
     | Some e => WARNING e
     | None =>
         if payloadSumWarn sr then Text (bs "WARNING (does not match the installed kernel/initrd; mode " ++ payloadSumMode sr ++ bs " - the BIOS loader does not refuse it)")
         else if payloadSumVerified sr then Text (bs "OK (SHA-256 confirmed against the installed kernel/initrd)")
         else if payloadSumPresent sr then Text (bs "present, sizes match (run 'alpine-zfsboot verify' to confirm the SHA-256)")
         else Text (bs "INFO: not present (older install, run 'alpine-zfsboot update' or 'verify --repair' to add it)")
     end).

Definition print_integrity : list line :=
  let mode := payloadSumMode (r_sums r) in
  if negb (beq (r_integrityOverride r) []) then
    [Row (bs "Integrity mode:") (Text (r_integrityOverride r ++ bs " - set by alpine-zfsboot.integrity= in " ++ CmdlineFile
       ++ bs ", which wins over CHECKSUM's " ++ [x22] ++ mode ++ [x22] ++ bs " (" ++ integrityModeHelp (r_integrityOverride r) ++ bs ")"))]
  else if negb (beq mode []) then [Row (bs "Integrity mode:") (Text (mode ++ bs " (" ++ integrityModeHelp mode ++ bs ")"))]
  else [].

Definition print_environment : list line :=
  [Heading (bs "Boot environment"); Row (bs "FAT:") (Text (t_espDev t)); Row (bs "Namespace:") (Text ESPDir)]
  ++ when is_BIOS
       [printField (bs "Kernel") (r_kernelErr r) KernelFile; printField (bs "Initramfs") (r_initrdErr r) InitrdFile;
        printField (bs "Cmdline") (r_cmdlineErr r) (bs "OK"); printField (bs "Config") (r_configErr r) (bs "OK")]
  ++ [version_field (bs "Kernel version") (r_kernelVersion r) ShortVersion;
      version_field (bs "OpenZFS") (r_openZFSVersion r) id; print_metadata]
  ++ when is_BIOS
       ([print_payloadSum]
        ++ match r_blkSum r with
           | Some b => [Row (bs "Block table:") (if blkSumOK (r_sums r) then Blocks_confirmed else BlockTable b)]
           | None => []
           end
        ++ print_integrity).

(** The zero value where [inspect] stopped before it asked. *)
Definition report_zfs : zfsCompat := default (mkZfsCompat [] [] [] None) (r_zfs r).

Definition print_pool : list line :=
  let z := report_zfs in
  match poolErr z with
  | Some e => [Row (bs "Pool:") (PoolError e)]
  | None =>
      [Row (bs "Pool:") (Text (poolName z));
       Row (bs "Pool features:")
         (if verbose then
            Text (if no_errs (poolFeatures z) then bs "(none active)" else join (bs ", ") (poolFeatures z))
          else
            Text (itoa (len (activeFeatures z)) ++ bs " active, " ++ itoa (len (poolFeatures z) - len (activeFeatures z))
                  ++ bs " enabled (use --verbose for the full list)"))]
  end.

Definition print_verdict : list line :=
  match report_verdict r with
  | UNKNOWN => [Row (bs "Boot compatible:") (Text (bs "UNKNOWN")); Row (bs "Reason:") UnknownReason]
  | VERIFIED => [Row (bs "Boot compatible:") (Text (bs "VERIFIED"))]
  | NO un => Row (bs "Boot compatible:") (Text (bs "NO")) ::
             (if beq (join (bs ", ") un) [] then [] else [Row (bs "Unsupported active:") (Text (join (bs ", ") un))])
  end.

Definition print : list line :=
  print_head ++ print_bootstrap ++ print_environment
  ++ [Heading (bs "ZFS compatibility")] ++ print_pool ++ [Row (bs "Boot environment:") (openZFSSummary r)] ++ print_verdict.

End print.

(** ** Every problem is printed *)

Definition line_error (l : line) : option verify_error := match l with Row _ (ERROR e) => Some e | _ => None end.
Definition line_warning (l : line) : option verify_error := match l with Row _ (WARNING e) => Some e | _ => None end.
Definition line_status (l : line) : option value :=
  match l with Row label v => if beq label (bs "Status:") then Some v else None | _ => None end.

(** The errors and warnings of the lines, and the values of the Status line. *)
Definition errors_shown (ls : list line) : list verify_error := omap line_error ls.
Definition warnings_shown (ls : list line) : list verify_error := omap line_warning ls.
Definition statuses (ls : list line) : list value := omap line_status ls.

(** The fields of the other firmware are not set, and nothing is confirmed. *)
Definition fits (t : target) (r : report) : Prop :=
  r_metadataVerified r = false /\
  if t_uefi t then
    r_stage1Err r = None /\ r_stage2Err r = None /\ r_kernelErr r = None /\ r_initrdErr r = None /\ r_cmdlineErr r = None /\
    r_configErr r = None /\ payloadSumErr (r_sums r) = None
  else r_loaderErr r = None.

Section complete.
Context {O : Oracle}.
Context (pe : bytes -> option peFile).
Context (kgzip : bytes -> option (bytes * bool)) (gzip xz : bytes -> option reader) (modinfo : bytes -> elf_section).
Context (live : bytes -> zfsCompat).

Lemma gives_inspect t : gives (fits t) (inspect pe kgzip gzip xz modinfo live t).
Proof.
  unfold inspect, fits. destruct (t_uefi t).
  - unfold inspect_uefi. destruct (LoaderPath _); [|by apply gives_ret|apply gives_panic].
    eapply gives_bind; [apply gives_any|]. intros [info| |] _; [|by apply gives_ret|apply gives_panic].
    eapply gives_bind; [apply gives_any|]. intros f _. eapply gives_bind; [apply gives_any|]. intros v _. by apply gives_ret.
  - unfold inspect_bios. do 9 (eapply gives_bind; [apply gives_any|]; intros ? _).
    eapply gives_bind; [apply gives_any|]. intros [[present mode] sumErr] _.
    do 2 (eapply gives_bind; [apply gives_any|]; intros ? _). by apply gives_ret.
Qed.

End complete.

(** Lines that only tell something. *)
Definition quiet (l : line) : Prop := line_error l = None /\ line_warning l = None.

Lemma omap_app_lines {A : Type} (f : line -> option A) l1 l2 : omap f (l1 ++ l2) = omap f l1 ++ omap f l2.
Proof. induction l1 as [|x l1 IH]; [done|]. cbn. rewrite IH. by destruct (f x). Qed.

Lemma omap_line {A : Type} (f : line -> option A) x l : omap f (x :: l) = option_list (f x) ++ omap f l.
Proof. cbn. by destruct (f x). Qed.

Lemma field_error name err ok : line_error (printField name err ok) = err.
Proof. by destruct err. Qed.

Lemma field_warning name err ok : line_warning (printField name err ok) = None.
Proof. by destruct err. Qed.

Lemma quiet_version name v f : quiet (version_field name v f).
Proof. by destruct v. Qed.

Lemma quiet_lines ls : Forall quiet ls -> errors_shown ls = [] /\ warnings_shown ls = [].
Proof.
  induction 1 as [|l ls [He Hw] _ [IH1 IH2]]; [done|]. unfold errors_shown, warnings_shown in *. by rewrite !omap_line, He, Hw, IH1, IH2.
Qed.

Section sections.
Context (verbose : bool) (lk : DiskLayout) (t : target) (r : report).

Ltac telling := repeat first [apply List.Forall_cons; [first [apply quiet_version | done]|] | apply List.Forall_nil | apply Forall_app; split].

Lemma quiet_head : Forall quiet (print_head lk t r).
Proof. unfold print_head, when. destruct (is_BIOS t); telling. Qed.

Lemma quiet_rest : Forall quiet (print_pool verbose r ++ [Row (bs "Boot environment:") (openZFSSummary r)] ++ print_verdict r).
Proof.
  apply Forall_app. split; [|apply Forall_app; split].
  - unfold print_pool. destruct (poolErr _); [telling|]. destruct verbose; telling.
  - unfold openZFSSummary. destruct (r_openZFSVersion r); telling.
  - unfold print_verdict. destruct (report_verdict r); [telling..|]. destruct (beq _ _); telling.
Qed.

Lemma status_line : line_error (Row (bs "Status:") (if no_errs (report_errs r) then Text (bs "OK") else Problems (len (report_errs r)))) = None /\
  line_warning (Row (bs "Status:") (if no_errs (report_errs r) then Text (bs "OK") else Problems (len (report_errs r)))) = None.
Proof. by destruct (no_errs _). Qed.

Lemma bootstrap_shown :
  errors_shown (print_bootstrap t r) = omap id (if t_uefi t then [r_loaderErr r] else [r_stage1Err r; r_stage2Err r]) /\
  warnings_shown (print_bootstrap t r) = [].
Proof.
  assert (Forall quiet (match r_int13Chunk r with Some c => [Row (bs "INT13 chunk:") (ChunkStatus c)] | None => [] end)) as Hq
    by (destruct (r_int13Chunk r); telling). apply quiet_lines in Hq as [Hq1 Hq2]. unfold errors_shown, warnings_shown in *.
  destruct status_line as [Hs1 Hs2]. unfold print_bootstrap, is_BIOS. destruct (t_uefi t); cbn [negb];
    rewrite !omap_app_lines, !omap_line, ?field_error, ?field_warning, Hs1, Hs2, ?Hq1, ?Hq2; split; try done.
  - by destruct (r_loaderErr r).
  - by destruct (r_stage1Err r), (r_stage2Err r).
Qed.

Lemma metadata_shown : r_metadataVerified r = false -> line_error (print_metadata r) = r_metadataErr r /\ line_warning (print_metadata r) = None.
Proof. intros Hv. unfold print_metadata. rewrite Hv. destruct (r_metadataErr r); [done|]. by destruct (r_metadataPresent r). Qed.

Lemma payloadSum_shown : line_error (print_payloadSum r) = None /\ line_warning (print_payloadSum r) = payloadSumErr (r_sums r).
Proof.
  unfold print_payloadSum. cbv zeta. destruct (payloadSumErr _); [done|]. destruct (payloadSumWarn _); [done|].
  destruct (payloadSumVerified _); [done|]. by destruct (payloadSumPresent _).
Qed.

Lemma environment_shown : r_metadataVerified r = false ->
  errors_shown (print_environment t r)
  = omap id ((if t_uefi t then [] else [r_kernelErr r; r_initrdErr r; r_cmdlineErr r; r_configErr r]) ++ [r_metadataErr r]) /\
  warnings_shown (print_environment t r) = omap id (if t_uefi t then [] else [payloadSumErr (r_sums r)]).
Proof.
  intros [Hm1 Hm2]%metadata_shown. destruct payloadSum_shown as [Hp1 Hp2].
  assert (Forall quiet (match r_blkSum r with Some b => [Row (bs "Block table:") (if blkSumOK (r_sums r) then Blocks_confirmed else BlockTable b)] | None => [] end
    ++ print_integrity r)) as Hq.
  { apply Forall_app. split; [destruct (r_blkSum r); [|telling]; destruct (blkSumOK _); telling|].
    unfold print_integrity. cbv zeta. destruct (negb _); [telling|]. destruct (negb _); telling. }
  apply quiet_lines in Hq as [Hq1 Hq2]. unfold errors_shown, warnings_shown in *. rewrite omap_app_lines in Hq1, Hq2.
  destruct (quiet_version (bs "Kernel version") (r_kernelVersion r) ShortVersion) as [Hk1 Hk2].
  destruct (quiet_version (bs "OpenZFS") (r_openZFSVersion r) id) as [Hz1 Hz2].
  unfold print_environment, when, is_BIOS. destruct (t_uefi t); cbn [negb];
    rewrite !omap_app_lines, !omap_line, ?field_error, ?field_warning, Hm1, Hm2, ?Hp1, ?Hp2, Hk1, Hk2, Hz1, Hz2, ?Hq1, ?Hq2; split.
  - by destruct (r_metadataErr r).
  - done.
  - by destruct (r_kernelErr r), (r_initrdErr r), (r_cmdlineErr r), (r_configErr r), (r_metadataErr r).
  - by destruct (payloadSumErr _).
Qed.

End sections.

Lemma fits_errs t r : fits t r ->
  omap id (if t_uefi t then [r_loaderErr r] else [r_stage1Err r; r_stage2Err r])
  ++ omap id ((if t_uefi t then [] else [r_kernelErr r; r_initrdErr r; r_cmdlineErr r; r_configErr r]) ++ [r_metadataErr r])
  = omap id [r_stage1Err r; r_stage2Err r; r_loaderErr r; r_kernelErr r; r_initrdErr r; r_cmdlineErr r; r_configErr r; r_metadataErr r].
Proof.
  intros [_ H]. destruct (t_uefi t).
  - destruct H as (-> & -> & -> & -> & -> & -> & _). by destruct (r_loaderErr r), (r_metadataErr r).
  - rewrite H. by destruct (r_stage1Err r), (r_stage2Err r), (r_kernelErr r), (r_initrdErr r), (r_cmdlineErr r), (r_configErr r), (r_metadataErr r).
Qed.

Lemma statuses_print verbose lk t r :
  statuses (print verbose lk t r) = [if no_errs (report_errs r) then Text (bs "OK") else Problems (len (report_errs r))].
Proof.
  unfold print, statuses. rewrite !omap_app_lines.
  assert (omap line_status (print_head lk t r) = []) as -> by (unfold print_head, when; by destruct (is_BIOS t)).
  assert (omap line_status (print_pool verbose r) = []) as -> by (unfold print_pool; by destruct (poolErr _)).
  assert (omap line_status (print_verdict r) = []) as ->
    by (unfold print_verdict; destruct (report_verdict r); [done..|]; by destruct (beq _ _)).
  assert (omap line_status (print_environment t r) = []) as ->.
  { unfold print_environment, when. rewrite !omap_app_lines. destruct (is_BIOS t); [|done]. rewrite !omap_app_lines.
    destruct (r_blkSum r); unfold print_integrity; cbv zeta; destruct (negb _); [done| |done|]; by destruct (negb _). }
  unfold print_bootstrap. rewrite !omap_app_lines. destruct (is_BIOS t); [|done]. rewrite omap_app_lines. by destruct (r_int13Chunk r).
Qed.

(** The printed report is complete and exact: whatever status finds of a
target, the ERROR lines show exactly the error fields of the report, in their
order, the WARNING line exactly a CHECKSUM problem, and the one Status line says
OK when there is no problem and otherwise their number, which counts the ERROR
lines and - when the loader enforces CHECKSUM's mode - the WARNING line. *)
Theorem print_complete {O : Oracle} (pe : bytes -> option peFile) (kgzip : bytes -> option (bytes * bool))
  (gzip xz : bytes -> option reader) (modinfo : bytes -> elf_section) (live : bytes -> zfsCompat)
  (verbose : bool) (lk : DiskLayout) (t : target) (w : world) :
  match (inspect pe kgzip gzip xz modinfo live t w).1 with
  | Ok r =>
      let ls := print verbose lk t r in
      let problems := errors_shown ls ++ (if beq (payloadSumMode (r_sums r)) ModeEnforce then warnings_shown ls else []) in
      errors_shown ls = omap id [r_stage1Err r; r_stage2Err r; r_loaderErr r; r_kernelErr r; r_initrdErr r; r_cmdlineErr r; r_configErr r; r_metadataErr r] /\
      warnings_shown ls = option_list (payloadSumErr (r_sums r)) /\
      report_errs r = problems /\
      statuses ls = [if no_errs problems then Text (bs "OK") else Problems (len problems)]
  | _ => True
  end.
Proof.
  destruct (inspect pe kgzip gzip xz modinfo live t w) as [[r| |] w'] eqn:H; [|done..]. apply gives_inspect in H as Hf. cbn [fst]. cbv zeta.
  destruct (bootstrap_shown t r) as [Hb1 Hb2]. destruct (environment_shown t r) as [He1 He2]; [apply Hf|].
  destruct (quiet_lines _ (quiet_head lk t r)) as [Hh1 Hh2]. destruct (quiet_lines _ (quiet_rest verbose r)) as [Hr1 Hr2].
  assert (errors_shown (print verbose lk t r)
    = omap id [r_stage1Err r; r_stage2Err r; r_loaderErr r; r_kernelErr r; r_initrdErr r; r_cmdlineErr r; r_configErr r; r_metadataErr r]) as E1.
  { rewrite <-(fits_errs t r Hf), <-Hb1, <-He1. unfold print, errors_shown in *. rewrite (omap_app_lines _ (print_head _ _ _)), Hh1.
    rewrite (omap_app_lines _ (print_bootstrap _ _)), (omap_app_lines _ (print_environment _ _)), (omap_app_lines _ [Heading _]), Hr1.
    by rewrite !app_nil_r. }
  assert (warnings_shown (print verbose lk t r) = option_list (payloadSumErr (r_sums r))) as E2.
  { unfold print, warnings_shown in *. rewrite (omap_app_lines _ (print_head _ _ _)), Hh2.
    rewrite (omap_app_lines _ (print_bootstrap _ _)), (omap_app_lines _ (print_environment _ _)), (omap_app_lines _ [Heading _]), Hb2, He2, Hr2.
    destruct Hf as [_ Hf]. destruct (t_uefi t); [|by destruct (payloadSumErr _)]. by destruct Hf as (_ & _ & _ & _ & _ & _ & ->). }
  assert (report_errs r = errors_shown (print verbose lk t r)
    ++ (if beq (payloadSumMode (r_sums r)) ModeEnforce then warnings_shown (print verbose lk t r) else [])) as E3.
  { rewrite E1, E2. unfold report_errs. f_equal. destruct (payloadSumErr _), (beq _ _); done. }
  split_and!; [done|done|done|]. rewrite <-E3. apply statuses_print.
Qed.

(** ** Where the problems are *)

(** The lines up to the Status line hold no error unless a stage or the loader
has one: "see above" refers to lines that come below. *)
Theorem status_points_up (verbose : bool) (lk : DiskLayout) (t : target) (r : report) :
  (if t_uefi t then r_loaderErr r = None else r_stage1Err r = None /\ r_stage2Err r = None) ->
  exists rest, print verbose lk t r = print_head lk t r ++ print_bootstrap t r ++ rest /\
    errors_shown (print_head lk t r ++ print_bootstrap t r) = [] /\ statuses rest = [].
Proof.
  intros H. eexists. split; [reflexivity|]. split.
  - unfold errors_shown. rewrite omap_app_lines. destruct (bootstrap_shown t r) as [Hb _]. unfold errors_shown in Hb. rewrite Hb.
    destruct (quiet_lines _ (quiet_head lk t r)) as [Hh _]. unfold errors_shown in Hh. rewrite Hh.
    destruct (t_uefi t); [by rewrite H|]. by destruct H as [-> ->].
  - pose proof (statuses_print verbose lk t r) as Hs. unfold print, statuses in Hs. rewrite omap_app_lines in Hs.
    rewrite (omap_app_lines _ (print_bootstrap t r)) in Hs. unfold statuses.
    assert (omap line_status (print_bootstrap t r) = [if no_errs (report_errs r) then Text (bs "OK") else Problems (len (report_errs r))]) as E.
    { unfold print_bootstrap. rewrite !omap_app_lines. destruct (is_BIOS t); [|done]. rewrite omap_app_lines. by destruct (r_int13Chunk r). }
    rewrite E in Hs. destruct (omap line_status (print_head lk t r)) as [|x l]; [by injection Hs|].
    cbn in Hs. injection Hs as _ Hs. by destruct l.
Qed.

(** A kernel that is missing: one problem "see above", shown below. *)
Definition kernel_missing : report :=
  mkReport (bs "0.6.0") None None None (Some (VIo ENotExist)) None None None (Some []) (Some (bs "2.3.4-1")) true None false
    (mkSumReport true None ModeWarn false false false) [] None None None.

Lemma status_points_up_witness :
  exists rest, print false LayoutGPT sample_target kernel_missing
    = print_head LayoutGPT sample_target kernel_missing ++ print_bootstrap sample_target kernel_missing ++ rest /\
    statuses (print_bootstrap sample_target kernel_missing) = [Problems 1] /\
    errors_shown (print_head LayoutGPT sample_target kernel_missing ++ print_bootstrap sample_target kernel_missing) = [].
Proof.
  destruct (status_points_up false LayoutGPT sample_target kernel_missing (conj eq_refl eq_refl)) as (rest & H1 & H2 & _).
  exists rest. split; [exact H1|]. split; [reflexivity|exact H2].
Defined.
