(* ===== verification/Stamp.v ===== *)
(** * internal/cmdline: build stamps

[HumanVersion] with what it uses of time.Parse and Format for the layouts
"20060102T150405Z" and "2006-01-02 15:04 UTC"; the version command's lines; and
why comparing stamps as strings, as every update does, compares times. *)

From Stdlib Require Import ZArith Lia Strings.Byte.
From stdpp Require Import base list gmap.
From S2P Require Import Prelude GoStrings Layout Device ExtentCheck World EspConfig CmdLine UefiBoot Print.
Local Open Scope Z_scope.

Record datetime := mkDate { year : Z; month : Z; day : Z; hour : Z; minute : Z; second : Z }.

(** ** time.Parse *)

Definition isDigit (s : bytes) (i : nat) : bool := match s !! i with Some b => is_digit b | None => false end.

(** [getnum]: two digits; one is enough unless [fixed]. *)
Definition getnum (s : bytes) (fixed : bool) : option (Z * bytes) :=
  match s with
  | a :: rest =>
      if negb (is_digit a) then None else
      match rest with
      | b :: rest' => if is_digit b then Some (10 * digit_val a + digit_val b, rest') else if fixed then None else Some (digit_val a, rest)
      | [] => if fixed then None else Some (digit_val a, rest)
      end
  | [] => None
  end.

(** The four digits of a year. *)
Definition get_year (s : bytes) : option (Z * bytes) :=
  if (4 <=? len s) && forallb is_digit (take 4 s) then Some (dec_val (take 4 s), drop 4 s) else None.

Definition skip (c : byte) (s : bytes) : option bytes :=
  match s with x :: rest => if beq [x] [c] then Some rest else None | [] => None end.

Fixpoint skip_digits (s : bytes) : bytes := match s with x :: rest => if is_digit x then skip_digits rest else s | [] => [] end.

(** A fraction after the seconds is accepted although the layout has none. *)
Definition skip_fraction (s : bytes) : bytes :=
  match s with
  | p :: d :: rest => if (beq [p] [x2e] || beq [p] [x2c]) && is_digit d then skip_digits rest else s
  | _ => s
  end.

Definition is_leap (y : Z) : bool := (y mod 4 =? 0) && (negb (y mod 100 =? 0) || (y mod 400 =? 0)).
Definition daysIn (m y : Z) : Z :=
  if m =? 2 then (if is_leap y then 29 else 28) else if bool_decide (m ∈ [4; 6; 9; 11]) then 30 else 31.

Definition in_bounds (lo v hi : Z) : option unit := if (lo <=? v) && (v <=? hi) then Some tt else None.

Definition parseStamp (raw : bytes) : option datetime :=
  '(y, s) ← get_year raw;
  '(mo, s) ← getnum s true; _ ← in_bounds 1 mo 12;
  '(d, s) ← getnum s true;
  s ← skip x54 s;
  '(h, s) ← getnum s false; _ ← in_bounds 0 h 23;
  '(mi, s) ← getnum s true; _ ← in_bounds 0 mi 59;
  '(se, s) ← getnum s true; _ ← in_bounds 0 se 59;
  s ← skip x5a (skip_fraction s);
  _ ← in_bounds 1 d (daysIn mo y);
  match s with [] => Some (mkDate y mo d h mi se) | _ => None end.

(** ** Format *)

Definition two (z : Z) : bytes := [digit_of (z / 10); digit_of (z mod 10)].
Definition four (z : Z) : bytes := two (z / 100) ++ two (z mod 100).

Definition formatHuman (t : datetime) : bytes :=
  four (year t) ++ bs "-" ++ two (month t) ++ bs "-" ++ two (day t) ++ bs " " ++ two (hour t) ++ bs ":" ++ two (minute t) ++ bs " UTC".

Definition HumanVersion (raw : bytes) : bytes := match parseStamp raw with Some t => formatHuman t | None => raw end.

(** ** The version command *)

Definition printInfo (path : bytes) (info : Info) : list (bytes * bytes) :=
  [(bs "path:", path); (bs "arch:", iArch info); (bs "console:", iConsole info); (bs "version:", iVersion info);
   (bs "built:", iBuildStamp info ++ bs " (" ++ HumanVersion (iBuildStamp info) ++ bs ")");
   (bs "pool:", orNone (iPool info)); (bs "timeout:", orNone (iTimeout info) ++ bs "s")].

(** ** A stamp of a time *)

(** What a build writes: [date -u +%Y%m%dT%H%M%SZ]. *)
Definition stamp_of (t : datetime) : bytes :=
  four (year t) ++ two (month t) ++ two (day t) ++ [x54] ++ two (hour t) ++ two (minute t) ++ two (second t) ++ [x5a].

Record valid_date (t : datetime) : Prop := mkValidDate {
  vd_year : 0 <= year t <= 9999; vd_month : 1 <= month t <= 12; vd_day : 1 <= day t <= daysIn (month t) (year t);
  vd_hour : 0 <= hour t <= 23; vd_minute : 0 <= minute t <= 59; vd_second : 0 <= second t <= 59
}.

(** A number that grows with time. *)
Definition moment (t : datetime) : Z :=
  ((((year t * 12 + (month t - 1)) * 31 + (day t - 1)) * 24 + hour t) * 60 + minute t) * 60 + second t.

Lemma daysIn_31 m y : daysIn m y <= 31.
Proof. unfold daysIn. repeat case_match; lia. Qed.

Lemma getnum_two z rest fixed : 0 <= z < 100 -> getnum (two z ++ rest) fixed = Some (z, rest).
Proof.
  intros Hz. cbn [two app getnum]. destruct (digit_of_digit (z / 10)) as [-> ->]; [split; [apply Z.div_pos; lia|apply Z.div_lt_upper_bound; lia]|].
  destruct (digit_of_digit (z mod 10)) as [-> ->]; [apply Z.mod_pos_bound; lia|]. cbn [negb]. do 2 f_equal. pose proof (Z.div_mod z 10). lia.
Qed.

Lemma get_year_four z rest : 0 <= z <= 9999 -> get_year (four z ++ rest) = Some (z, rest).
Proof.
  intros Hz. unfold get_year, four, two.
  assert (0 <= z / 100 / 10 < 10 /\ 0 <= (z / 100) mod 10 < 10 /\ 0 <= z mod 100 / 10 < 10 /\ 0 <= (z mod 100) mod 10 < 10) as (H1 & H2 & H3 & H4).
  { Z.to_euclidean_division_equations. lia. }
  destruct (digit_of_digit _ H1) as [D1 V1], (digit_of_digit _ H2) as [D2 V2], (digit_of_digit _ H3) as [D3 V3], (digit_of_digit _ H4) as [D4 V4].
  cbn [app]. rewrite !len_cons. pose proof (len_nonneg rest). rewrite (proj2 (Z.leb_le 4 _)) by lia. cbn [take drop forallb andb].
  rewrite D1, D2, D3, D4. cbn [andb]. unfold dec_val. cbn [fold_left]. rewrite V1, V2, V3, V4, take_0. cbn [fold_left]. do 2 f_equal.
  pose proof (Z.div_mod z 100). pose proof (Z.div_mod (z / 100) 10). pose proof (Z.div_mod (z mod 100) 10). lia.
Qed.

Lemma in_bounds_ok lo v hi : lo <= v <= hi -> in_bounds lo v hi = Some tt.
Proof. intros H. unfold in_bounds. by rewrite (proj2 (Z.leb_le _ _)), (proj2 (Z.leb_le _ _)) by lia. Qed.

Lemma parse_stamp t : valid_date t -> parseStamp (stamp_of t) = Some t.
Proof.
  intros []. pose proof (daysIn_31 (month t) (year t)). unfold parseStamp, stamp_of. rewrite get_year_four by done. cbn [mbind option_bind].
  rewrite getnum_two by lia. cbn [mbind option_bind]. rewrite in_bounds_ok by lia. cbn [mbind option_bind].
  rewrite getnum_two by lia. cbn [mbind option_bind app skip]. rewrite beq_refl. cbn [mbind option_bind].
  rewrite getnum_two by lia. cbn [mbind option_bind]. rewrite in_bounds_ok by lia. cbn [mbind option_bind].
  rewrite getnum_two by lia. cbn [mbind option_bind]. rewrite in_bounds_ok by lia. cbn [mbind option_bind].
  rewrite getnum_two by lia. cbn [mbind option_bind]. rewrite in_bounds_ok by lia. cbn [mbind option_bind skip_fraction skip].
  rewrite beq_refl. cbn [mbind option_bind]. rewrite in_bounds_ok by lia. by destruct t.
Qed.

(** ** Strings and times compare alike *)

Lemma digit_b2z z : 0 <= z < 10 -> b2z (digit_of z) = z + 48.
Proof. intros H. unfold digit_of. rewrite b2z_z2b, Z.mod_small; lia. Qed.

(** Two equally long numbers decide, or the rest does. *)
Lemma ltb_two a b x y : 0 <= a < 100 -> 0 <= b < 100 ->
  bytes_ltb (two a ++ x) (two b ++ y) = if a <? b then true else if a =? b then bytes_ltb x y else false.
Proof.
  intros Ha Hb. cbn [two app bytes_ltb]. assert (0 <= a / 10 < 10 /\ 0 <= a mod 10 < 10 /\ 0 <= b / 10 < 10 /\ 0 <= b mod 10 < 10) as (?&?&?&?).
  { Z.to_euclidean_division_equations. lia. }
  rewrite !digit_b2z by done. pose proof (Z.div_mod a 10). pose proof (Z.div_mod b 10).
  destruct (Z.ltb_spec (a / 10 + 48) (b / 10 + 48)); [by rewrite (proj2 (Z.ltb_lt a b)) by lia|].
  destruct (Z.eqb_spec (a / 10 + 48) (b / 10 + 48)).
  - destruct (Z.ltb_spec (a mod 10 + 48) (b mod 10 + 48)); [by rewrite (proj2 (Z.ltb_lt a b)) by lia|].
    destruct (Z.eqb_spec (a mod 10 + 48) (b mod 10 + 48)).
    + rewrite (proj2 (Z.ltb_ge a b)), (proj2 (Z.eqb_eq a b)) by lia. done.
    + rewrite (proj2 (Z.ltb_ge a b)), (proj2 (Z.eqb_neq a b)) by lia. done.
  - rewrite (proj2 (Z.ltb_ge a b)), (proj2 (Z.eqb_neq a b)) by lia. done.
Qed.

Lemma ltb_cons c x y : bytes_ltb (c :: x) (c :: y) = bytes_ltb x y.
Proof. cbn. by rewrite Z.ltb_irrefl, Z.eqb_refl. Qed.

Lemma ltb_stamps a b : valid_date a -> valid_date b -> bytes_ltb (stamp_of a) (stamp_of b) = (moment a <? moment b).
Proof.
  intros [] []. pose proof (daysIn_31 (month a) (year a)). pose proof (daysIn_31 (month b) (year b)). unfold stamp_of, four.
  rewrite <-!app_assoc. assert (forall z, 0 <= z <= 9999 -> 0 <= z / 100 < 100 /\ 0 <= z mod 100 < 100 /\ z = 100 * (z / 100) + z mod 100) as Hy.
  { intros z Hz. Z.to_euclidean_division_equations. lia. }
  destruct (Hy (year a)) as (?&?&Ea), (Hy (year b)) as (?&?&Eb); [done..|].
  rewrite !ltb_two by lia. cbn [app]. rewrite ltb_cons. rewrite !ltb_two by lia. rewrite bytes_ltb_irrefl. unfold moment.
  clear Hy. revert Ea Eb. generalize dependent (year a / 100). generalize dependent (year b / 100).
  generalize dependent (year a mod 100). generalize dependent (year b mod 100). intros yb Hyb ya Hya xb Hxb xa Hxa Ea Eb.
  repeat (match goal with |- (if ?x <? ?y then _ else _) = _ => destruct (Z.ltb_spec x y) end;
    [symmetry; apply Z.ltb_lt; lia|];
    match goal with |- (if ?x =? ?y then _ else _) = _ => destruct (Z.eqb_spec x y) end;
    [|symmetry; apply Z.ltb_ge; lia]).
  all: symmetry; apply Z.ltb_ge; lia.
Qed.

(** C36 - Newer as a string is newer in time: for the stamps of any two times,
the comparison every update makes agrees with the order of the times, the check
of an installed BIOS build calls it up to date exactly when it is not older (only
when the read of its CMDLINE fails does it count as unknown), and the stamp is shown as its own date and time. *)
Theorem stamps_chronological {O : Oracle} (a b : datetime) (mp raw : bytes) (w : world)
  (Ha : valid_date a) (Hb : valid_date b)
  (Hfile : files w !! (mp, CmdlineFile) = Some raw) (Hstamp : iBuildStamp (ParseText raw) = stamp_of a) :
  bytes_ltb (stamp_of a) (stamp_of b) = (moment a <? moment b) /\
  (stamp_of a = stamp_of b -> a = b) /\
  HumanVersion (stamp_of a) = formatHuman a /\
  (((exists e, (readFile mp CmdlineFile w).1 = Err e) /\ (checkBIOSUpToDate mp (stamp_of b) w).1 = Ok ([], false)) \/
   (checkBIOSUpToDate mp (stamp_of b) w).1 = Ok (stamp_of a, moment b <=? moment a)).
Proof.
  split_and!; [by apply ltb_stamps| | |].
  - intros E. apply (f_equal parseStamp) in E. rewrite !parse_stamp in E by done. by injection E.
  - unfold HumanVersion. by rewrite parse_stamp.
  - destruct (checkBIOSUpToDate mp (stamp_of b) w) as [r w'] eqn:H. unfold checkBIOSUpToDate in H. cbn [fst].
    apply bind_attempt_inv in H as (rc & x & E & H). pose proof E as E'. apply readFile_spec in E as (_ & _ & E).
    destruct rc as [c|e|]; [|left; rewrite E'; split; [by exists e|by injection H as <- _]|done]. rewrite Hfile in E. injection E as <-. rewrite Hstamp in H.
    right. destruct (beq (stamp_of a) []) eqn:E0; [by apply beq_true in E0|]. unfold ret in H. apply pair_equal_spec in H as [<- _].
    rewrite ltb_stamps by done. by rewrite Z.leb_antisym.
Qed.

(** Whatever is shown is a date that exists, or the stamp as it is. *)
Lemma getnum_bounds s fixed z rest : getnum s fixed = Some (z, rest) -> 0 <= z < 100.
Proof.
  unfold getnum. assert (forall c, is_digit c = true -> 0 <= digit_val c <= 9) as Hd.
  { intros c. unfold is_digit, in_range, digit_val. rewrite andb_true_iff, !Z.leb_le. lia. }
  destruct s as [|a [|b s]]; [done|..]; destruct (is_digit a) eqn:Ea; cbn [negb]; try done.
  - destruct fixed; [done|]. intros [= <- <-]. pose proof (Hd _ Ea). lia.
  - destruct (is_digit b) eqn:Eb; [intros [= <- <-]; pose proof (Hd _ Ea); pose proof (Hd _ Eb); lia|].
    destruct fixed; [done|]. intros [= <- <-]. pose proof (Hd _ Ea). lia.
Qed.

Lemma in_bounds_inv lo v hi u : in_bounds lo v hi = Some u -> lo <= v <= hi.
Proof. unfold in_bounds. destruct (_ && _) eqn:E; [|done]. intros _. apply andb_true_iff in E. rewrite !Z.leb_le in E. lia. Qed.

Lemma get_year_bounds s z rest : get_year s = Some (z, rest) -> 0 <= z <= 9999.
Proof.
  unfold get_year. destruct (4 <=? len s) eqn:El; cbn [andb]; [|done]. apply Z.leb_le in El. unfold len in El.
  destruct s as [|a [|b [|c [|d s]]]]; cbn [length] in El; try lia. cbn [take forallb].
  assert (forall c, is_digit c = true -> 0 <= digit_val c <= 9) as Hd.
  { intros x. unfold is_digit, in_range, digit_val. rewrite andb_true_iff, !Z.leb_le. lia. }
  destruct (is_digit a) eqn:Ea, (is_digit b) eqn:Eb, (is_digit c) eqn:Ec, (is_digit d) eqn:Ed; try done.
  cbn [andb]. rewrite take_0. intros [= <- <-]. unfold dec_val. cbn [fold_left].
  pose proof (Hd _ Ea). pose proof (Hd _ Eb). pose proof (Hd _ Ec). pose proof (Hd _ Ed). lia.
Qed.

Theorem HumanVersion_shows (raw : bytes) :
  HumanVersion raw = raw \/ exists t, parseStamp raw = Some t /\ valid_date t /\ HumanVersion raw = formatHuman t.
Proof.
  unfold HumanVersion. destruct (parseStamp raw) as [t|] eqn:E; [right|by left]. exists t. split_and!; [done| |done].
  unfold parseStamp in E.
  apply bind_Some in E as ([y s] & Hy & E). apply bind_Some in E as ([mo s1] & Hmo & E). apply bind_Some in E as (u1 & B1 & E).
  apply bind_Some in E as ([d s2] & Hd & E). apply bind_Some in E as (s3 & _ & E). apply bind_Some in E as ([h s4] & Hh & E).
  apply bind_Some in E as (u2 & B2 & E). apply bind_Some in E as ([mi s5] & Hmi & E). apply bind_Some in E as (u3 & B3 & E).
  apply bind_Some in E as ([se s6] & Hse & E). apply bind_Some in E as (u4 & B4 & E). apply bind_Some in E as (s7 & _ & E).
  apply bind_Some in E as (u5 & B5 & E). destruct s7; [|done]. injection E as <-. apply get_year_bounds in Hy.
  apply in_bounds_inv in B1, B2, B3, B4, B5. by constructor.
Qed.

Definition sample_date : datetime := mkDate 2026 1 1 0 0 0.
Definition later_date : datetime := mkDate 2026 9 10 0 32 0.

Definition stamped : bytes := bs "console=tty0 alpine-zfsboot.buildstamp=20260101T000000Z".
Definition stamped_world : world := fresh_world {[ (bs "/esp", CmdlineFile) := stamped ]} ∅.

Lemma stamps_chronological_witness :
  bytes_ltb (stamp_of sample_date) (stamp_of later_date) = true /\ HumanVersion (stamp_of sample_date) = bs "2026-01-01 00:00 UTC".
Proof.
  destruct (stamps_chronological (O:=no_faults) sample_date later_date (bs "/esp") stamped stamped_world) as (H1 & _ & H2 & _).
  - constructor; vm_compute; split; discriminate.
  - constructor; vm_compute; split; discriminate.
  - vm_compute. reflexivity.
  - vm_compute. reflexivity.
  - split; [rewrite H1; vm_compute; reflexivity|rewrite H2; vm_compute; reflexivity].
Defined.

(** A fraction of a second is accepted and dropped; a thirteenth month is not a date. *)
Example human_fraction : HumanVersion (bs "20260910T003200.5Z") = bs "2026-09-10 00:32 UTC".
Proof. reflexivity. Qed.
Example human_raw : HumanVersion (bs "20261310T003200Z") = bs "20261310T003200Z".
Proof. reflexivity. Qed.
Example human_leap : HumanVersion (bs "20240229T235959Z") = bs "2024-02-29 23:59 UTC" /\ HumanVersion (bs "20230229T235959Z") = bs "20230229T235959Z".
Proof. split; reflexivity. Qed.
