(* ===== verification/EspList.v ===== *)
(** * cmd/tool: what esp list says

The list names every member of the set with its state, and calls no other ESP a
member. *)

From Stdlib Require Import ZArith Lia Strings.Byte.
From stdpp Require Import base list gmap.
From S2P Require Import Prelude GoStrings Layout World EspConfig EspMember BootEnv EspSet CmdLine UefiBoot Verify Update Mirror MirrorOps MirrorRun EspCmd.
Local Open Scope Z_scope.

(** The state of the member at position [n]. *)
Definition member_state (n : nat) (m : HostMember) : list_state :=
  if Foreign m then LForeign else if (n =? 0)%nat then LBest else LMember.

Definition is_member_state (st : list_state) : Prop := st = LBest \/ st = LMember \/ st = LForeign.

(** A marker whose install id the list cannot abbreviate. *)
Definition short_id (i : ESPInfo) : Prop := exists m, eMember i = Some m /\ len (InstallID m) < 8.

Section rows.
Context (state : bytes -> option list_state).

(** [row] is the line of [i]. *)
Definition row_of (i : ESPInfo) (row : list_row) : Prop :=
  lr_uuid row = eUUID i /\ lr_dev row = eDev i /\ lr_state row = default LNotUsed (state (eUUID i)).

(** Every ESP that has something of ours has a line, and there are no others. *)
Definition rows_of (infos : list ESPInfo) (rows : list list_row) : Prop :=
  (forall i, i ∈ infos -> nothing_of_ours i (state (eUUID i)) = false -> exists row, row ∈ rows /\ row_of i row) /\
  (forall row, row ∈ rows -> exists i, i ∈ infos /\ row_of i row).

Lemma rows_skip i infos rows : nothing_of_ours i (state (eUUID i)) = true -> rows_of infos rows -> rows_of (i :: infos) rows.
Proof.
  intros En [H1 H2]. split.
  - intros j Hj Hn. apply elem_of_cons in Hj as [->|Hj]; [congruence|by apply H1].
  - intros row Hr. destruct (H2 _ Hr) as (j & Hj & ?). exists j. split; [by right|done].
Qed.

Lemma rows_add i infos row rows : row_of i row -> rows_of infos rows -> rows_of (i :: infos) (row :: rows).
Proof.
  intros Hi [H1 H2]. split.
  - intros j Hj Hn. apply elem_of_cons in Hj as [->|Hj]; [exists row; split; [by left|done]|].
    destruct (H1 _ Hj Hn) as (x & Hx & ?). exists x. split; [by right|done].
  - intros x Hx. apply elem_of_cons in Hx as [->|Hx]; [exists i; split; [by left|done]|].
    destruct (H2 _ Hx) as (j & Hj & ?). exists j. split; [by right|done].
Qed.

Lemma list_rows_spec infos :
  match list_rows state infos with
  | Ok rows => rows_of infos rows
  | Err _ => False
  | Panic => exists i, i ∈ infos /\ short_id i
  end.
Proof.
  induction infos as [|i infos IH]; cbn [list_rows].
  { split; [by intros i Hi%elem_of_nil|by intros row Hr%elem_of_nil]. }
  assert ((exists j, j ∈ infos /\ short_id j) -> exists j, j ∈ i :: infos /\ short_id j) as Hmore.
  { intros (j & Hj & ?). exists j. split; [by right|done]. }
  destruct (nothing_of_ours i (state (eUUID i))) eqn:En.
  { destruct (list_rows state infos); [by apply rows_skip|done|by apply Hmore]. }
  destruct (list_id_of i) as [id|e|] eqn:Ei; cbn [obind].
  - destruct (list_rows state infos); cbn [obind]; [|done|by apply Hmore]. by apply rows_add.
  - unfold list_id_of in Ei. destruct (MemberErr i), (eMember i) as [m|]; try done. by destruct (_ <? _).
  - exists i. split; [by left|]. unfold list_id_of in Ei. destruct (MemberErr i), (eMember i) as [m|] eqn:Em; try done.
    destruct (len (InstallID m) <? 8) eqn:El; [|done]. exists m. split; [done|by apply Z.ltb_lt].
Qed.

End rows.

(** The state of a member is that of the last position its ESP has in the set. *)
Lemma state_of_member infos hs n m :
  sound infos hs -> apart infos hs -> hsMembers hs !! n = Some m ->
  exists n' m', hsMembers hs !! n' = Some m' /\ hm_info m' = hm_info m /\ list_state_of hs (hmUUID m) = Some (member_state n' m').
Proof.
  intros [_ Hs _ _ _ _ _ _] Ha Hn. unfold list_state_of.
  assert (m ∈ hsMembers hs) as Hm by (by eapply list_elem_of_lookup_2).
  destruct (last (List.filter (fun ig => _) (hsIgnored hs))) as [ig|] eqn:El.
  { apply last_Some_elem_of, elem_of_lfilter in El as [Hig Hb]. apply beq_true in Hb. by destruct (Ha _ _ Hig Hm). }
  destruct (last (List.filter _ (imap pair _))) as [[n' m']|] eqn:El'.
  - apply last_Some_elem_of, elem_of_lfilter in El' as [Hin Hb]. apply beq_true in Hb. cbn in Hb.
    apply list_elem_of_lookup in Hin as (k & Hk). rewrite list_lookup_imap in Hk.
    destruct (hsMembers hs !! k) as [x|] eqn:Ek; [|done]. injection Hk as -> ->. exists n', m'. split_and!; [done| |done].
    rewrite Forall_forall in Hs. eapply sole_unique; [by apply Hs|apply Hs; by eapply list_elem_of_lookup_2|done].
  - exfalso. apply last_None in El'.
    assert ((n, m) ∈ List.filter (fun im => beq (hmUUID im.2) (hmUUID m)) (imap pair (hsMembers hs))) as Hin.
    { apply elem_of_lfilter. split; [|apply beq_refl]. apply list_elem_of_lookup. exists n. by rewrite list_lookup_imap, Hn. }
    rewrite El' in Hin. by apply elem_of_nil in Hin.
Qed.

Lemma member_of_state hs u st :
  list_state_of hs u = Some st -> is_member_state st -> exists m, m ∈ hsMembers hs /\ hmUUID m = u.
Proof.
  unfold list_state_of. destruct (last _) as [ig|]; [intros [= <-] [[=]|[[=]|[=]]]|].
  destruct (last _) as [[n m]|] eqn:El; [|done]. intros _ _. apply last_Some_elem_of, elem_of_lfilter in El as [Hin Hb].
  apply beq_true in Hb. apply list_elem_of_lookup in Hin as (k & Hk). rewrite list_lookup_imap in Hk.
  destruct (hsMembers hs !! k) as [x|] eqn:Ek; [|done]. injection Hk as _ ->. exists m. split; [by eapply list_elem_of_lookup_2|done].
Qed.

Definition listing_true (infos : list ESPInfo) (hs : HostSet) (l : esp_listing) : Prop :=
  l_missing l = Missing hs /\ l_set l = Some (EspSet.Mode hs, hsInstallID hs, ListSource hs) /\
  (forall n m, hsMembers hs !! n = Some m -> exists row n' m', row ∈ l_rows l /\ lr_uuid row = hmUUID m /\ lr_dev row = eDev (hm_info m) /\
     hsMembers hs !! n' = Some m' /\ hm_info m' = hm_info m /\ lr_state row = member_state n' m') /\
  (forall row, row ∈ l_rows l -> is_member_state (lr_state row) ->
     exists m, m ∈ hsMembers hs /\ lr_uuid row = hmUUID m /\ lr_dev row = eDev (hm_info m)).

Lemma listing_of infos hs rows :
  sound infos hs -> apart infos hs -> list_rows (list_state_of hs) infos = Ok rows ->
  listing_true infos hs (mkListing rows (Missing hs) (Some (EspSet.Mode hs, hsInstallID hs, ListSource hs))).
Proof.
  intros Hs Ha H. pose proof (list_rows_spec (list_state_of hs) infos) as Hr. rewrite H in Hr. destruct Hr as [Hr1 Hr2].
  pose proof Hs as [_ Hsole _ _ _ _ _ _]. rewrite Forall_forall in Hsole. split_and!; [done|done| |]; cbn [l_rows].
  - intros n m Hn. destruct (state_of_member _ _ _ _ Hs Ha Hn) as (n' & m' & Hn' & Hi & Hst).
    assert (m ∈ hsMembers hs) as Hm by (by eapply list_elem_of_lookup_2). destruct (Hsole _ Hm) as [Hin _].
    destruct (Hr1 (hm_info m) Hin) as (row & Hrow & Hu & Hd & Hst').
    { unfold nothing_of_ours. change (eUUID (hm_info m)) with (hmUUID m). rewrite Hst. by rewrite andb_false_r. }
    change (eUUID (hm_info m)) with (hmUUID m) in Hst'. rewrite Hst in Hst'. exists row, n', m'. split_and!; try done.
  - intros row Hrow Hst. destruct (Hr2 _ Hrow) as (i & Hi & Hu & Hd & E). rewrite E in Hst.
    destruct (list_state_of hs (eUUID i)) as [st|] eqn:Est; cbn in Hst; [|by destruct Hst as [?|[?|?]]].
    destruct (member_of_state _ _ _ Est Hst) as (m & Hm & Hmu). exists m. split_and!; [done|congruence|].
    rewrite Hd. f_equal. eapply sole_unique; [by apply Hsole|done|done].
Qed.

Lemma resolveList_safe s o root b : safe (resolveList s o root b).
Proof.
  unfold resolveList, parse_list. cbv zeta.
  destruct (negb (beq (espUUIDs o) [])); [pose proof (ParseUUIDList_safe (espUUIDs o)); by destruct (ParseUUIDList _)|].
  destruct (negb (beq (envESPUUIDs s) [])); [pose proof (ParseUUIDList_safe (envESPUUIDs s)); by destruct (ParseUUIDList _)|].
  destruct (_ && _); [|done]. pose proof (ParseUUIDList_safe (cmdlineValue (readProcCmdline s) ESPUUIDsKey)). by destruct (ParseUUIDList _).
Qed.

(** C25 - esp list tells the truth: it ends with a listing unless the scan or the
given list failed; when the set is determined every member has a line with its
device and its state (the first one is the best, one marked for another
installation is called foreign), no other ESP is called a member, the missing
ones are those of the set and the status is 3 exactly then; when it is not
determined, no line claims membership and the status is 1. It can panic only on
a marker with an install id of fewer than 8 bytes. *)
Theorem esp_list_truthful (s : seams) (root : bytes) (o : hostOpts) :
  match runESPList s root o with
  | Ok (code, None) => code = exitFailure /\ (scanESPs s = None \/ is_ok (resolveList s o root true) = false)
  | Ok (code, Some l) => exists infos lst src explicit, scanESPs s = Some infos /\ resolveList s o root true = Ok (lst, src, explicit) /\
      match SelectHost infos (mkSelectOpts lst src (primaryUUID s root)) with
      | Ok hs => code = (if 0 <? len (Missing hs) then exitMemberMissing else 0) /\ listing_true infos hs l
      | _ => code = exitFailure /\ Forall (fun row => ~ is_member_state (lr_state row)) (l_rows l)
      end
  | Err _ => False
  | Panic => exists infos i, scanESPs s = Some infos /\ i ∈ infos /\ short_id i
  end.
Proof.
  unfold runESPList. destruct (scanESPs s) as [infos|] eqn:Esc; [|by auto].
  destruct (resolveList s o root true) as [[[lst src] explicit]|e|] eqn:El; [|by auto|by apply resolveList_safe in El].
  destruct (SelectHost _ _) as [hs|e|] eqn:Es; [| |by apply SelectHost_safe in Es].
  - pose proof (list_rows_spec (list_state_of hs) infos) as Hr. destruct (list_rows (list_state_of hs) infos) as [rows|e|] eqn:Er; cbn [obind]; [|done|by destruct Hr as (i & ? & ?); eauto].
    exists infos, lst, src, explicit. split_and!; [done|done|]. rewrite Es. split; [done|].
    apply listing_of; [by eapply SelectHost_inv|by eapply SelectHost_apart|done].
  - pose proof (list_rows_spec (fun _ => None) infos) as Hr. destruct (list_rows (fun _ => None) infos) as [rows|e'|] eqn:Er; cbn [obind]; [|done|by destruct Hr as (i & ? & ?); eauto].
    exists infos, lst, src, explicit. split_and!; [done|done|]. rewrite Es. split; [done|]. apply Forall_forall. intros row Hrow.
    destruct Hr as [_ Hr]. destruct (Hr _ Hrow) as (i & _ & _ & _ & ->). by intros [?|[?|?]].
Qed.
