(* ===== verification/Summary.v ===== *)
(** * cmd/tool: summaries of a run over the set

[summarize], [warnMissing] and [digestKey] of mirror.go, [ScanESPs] of espset.go
and the small text helpers around them. *)

From Stdlib Require Import ZArith Lia Strings.Byte.
From stdpp Require Import base list gmap.
From S2P Require Import Prelude GoStrings Layout Device World EspConfig EspMember BootEnv EspSet CmdLine UefiBoot Verify Update Mirror MirrorOps MirrorRun.
Local Open Scope Z_scope.

(** ** The summary of a writing run *)

(** What is printed of one ESP, and the closing remark. *)
Inductive summary_line :=
| SError (e : ioerr)
| STitle (what : bytes) (n : Z)
| SNotTouched (uuid : bytes)
| SFailed (uuid : bytes) (e : ioerr)
| SWritten (uuid : bytes)
| SUpToDate (uuid : bytes)
| SMissing (uuid : bytes)
| SRolledBack.

Definition error_in (r : option result) : option ioerr :=
  match r with Some (_, Err e) => Some e | _ => None end.

Definition member_line (m : member) (r : option result) : summary_line :=
  match r with
  | None => SNotTouched (m_uuid m)
  | Some (_, Err e) => SFailed (m_uuid m) e
  | Some (true, _) => SWritten (m_uuid m)
  | Some (false, _) => SUpToDate (m_uuid m)
  end.

(** [res[m]] per member; [None]: the run never came to it. *)
Definition summarize (h : host) (what : bytes) (res : list (option result)) : bool * list summary_line :=
  let failed := existsb (fun r => bool_decide (is_Some (error_in r))) res in
  if negb (mirrored h) then (failed, SError <$> omap error_in res) else
  (failed, [STitle what (len (h_members h))] ++ zip_with member_line (h_members h) res ++ (SMissing <$> Missing (h_set h))
           ++ (if failed then [SRolledBack] else [])).

Definition warnMissing (h : host) : list bytes := Missing (h_set h).

(** ** Digest keys *)

Definition firstN (s : bytes) (n : nat) : bytes := if (n <? length s)%nat then take n s ++ bs "..." else s.
Definition firstLineOf (s : bytes) : bytes := match index_byte s x0a with Some i => take i s | None => s end.

Section key.
(** The text of an error, which a digest of an unreadable file carries. *)
Context (error_text : bytes * bytes -> ioerr -> bytes).

Definition digest_text (d : digest) : bytes :=
  match d with DAbsent => bs "absent" | DUnreadable p e => bs "unreadable: " ++ error_text p e | DSum h => h end.

Definition key_line (fs : list (bytes * digest)) (n : bytes) : bytes :=
  n ++ bs "=" ++ match d_lookup fs n with Some d => digest_text d | None => [] end ++ [x0a].

Definition digestKey (fs : list (bytes * digest)) : bytes := mjoin (key_line fs <$> sort_strings (fst <$> fs)).

(** Lines that end at the first newline can be told apart. *)
Lemma lines_inj (c : byte) (l1 l2 : list bytes) :
  Forall (fun x => c ∉ x) l1 -> Forall (fun x => c ∉ x) l2 ->
  mjoin ((fun x => x ++ [c]) <$> l1) = mjoin ((fun x => x ++ [c]) <$> l2) -> l1 = l2.
Proof.
  intros H1. revert l2. induction H1 as [|x l1 Hx _ IH]; intros l2 H2 E; destruct H2 as [|y l2 Hy H2]; [done|..]; cbn in E.
  - by destruct y.
  - by destruct x.
  - rewrite <-!app_assoc in E. assert (x = y /\ mjoin ((fun x => x ++ [c]) <$> l1) = mjoin ((fun x => x ++ [c]) <$> l2)) as [-> E'].
    { clear IH H2. revert y Hy E. induction x as [|a x IHx]; intros [|b y] Hy E; apply cons_eq_inj in E as [Ec E].
      - done.
      - destruct Hy. rewrite Ec. by left.
      - destruct Hx. rewrite Ec. by left.
      - subst b. apply not_elem_of_cons in Hx as [_ Hx], Hy as [_ Hy]. by destruct (IHx Hx y Hy E) as [-> ?]. }
    f_equal. by apply IH.
Qed.

Definition same_digests (f1 f2 : list (bytes * digest)) : Prop :=
  forall n, n ∈ (fst <$> f1) -> digest_text <$> d_lookup f1 n = digest_text <$> d_lookup f2 n.

Definition one_line (fs : list (bytes * digest)) : Prop :=
  forall n, n ∈ (fst <$> fs) -> x0a ∉ n /\ match d_lookup fs n with Some d => x0a ∉ digest_text d | None => True end.

Lemma d_lookup_found fs n : n ∈ (fst <$> fs) -> is_Some (d_lookup fs n).
Proof.
  induction fs as [|[k v] fs IH]; cbn; [by intros ?%elem_of_nil|]. rewrite elem_of_cons. destruct (beq k n) eqn:E; [eauto|].
  intros [->|Hn]; [by rewrite beq_refl in E|by apply IH].
Qed.

End key.

(** Two digests of the same files have the same key exactly when every file has
the same digest: a setting command that compares keys sees exactly the members
it changed. *)
Theorem digestKey_faithful (error_text : bytes * bytes -> ioerr -> bytes) (f1 f2 : list (bytes * digest))
  (Hnames : fst <$> f1 = fst <$> f2) (H1 : one_line error_text f1) (H2 : one_line error_text f2) :
  digestKey error_text f1 = digestKey error_text f2 <-> same_digests error_text f1 f2.
Proof.
  set (ns := sort_strings (fst <$> f1)). assert (forall n, n ∈ ns <-> n ∈ (fst <$> f1)) as Hns.
  { intros n. unfold ns. by rewrite sort_strings_perm. }
  set (line f n := n ++ bs "=" ++ match d_lookup f n with Some d => digest_text error_text d | None => [] end).
  assert (forall f, mjoin (key_line error_text f <$> ns) = mjoin ((fun x => x ++ [x0a]) <$> (line f <$> ns))) as Hk.
  { intros f. rewrite <-list_fmap_compose. f_equal. apply list_fmap_ext. intros _ n _. unfold key_line, line, compose. by rewrite <-!app_assoc. }
  assert (forall f, one_line error_text f -> (fst <$> f = fst <$> f1) -> Forall (fun x => x0a ∉ x) (line f <$> ns)) as Hl.
  { intros f Hf E. apply Forall_fmap, Forall_forall. intros n Hn. apply Hns in Hn. rewrite <-E in Hn. destruct (Hf n Hn) as [Hn1 Hn2].
    unfold line, compose. rewrite !not_elem_of_app. split_and!; [done|by apply (bool_decide_unpack _)|]. destruct (d_lookup f n); [done|by apply not_elem_of_nil]. }
  unfold digestKey. rewrite <-Hnames. fold ns. rewrite !Hk. split.
  - intros E n Hn. apply lines_inj in E; [|by apply Hl..]. apply Hns in Hn. apply list_elem_of_lookup in Hn as (k & Ek).
    assert (line f1 n = line f2 n) as El.
    { assert ((line f1 <$> ns) !! k = (line f2 <$> ns) !! k) as E' by (by rewrite E). rewrite !list_lookup_fmap, Ek in E'. by injection E'. }
    unfold line in El. apply app_inv_head in El. assert (n ∈ (fst <$> f1)) as Hin by (apply Hns; by eapply list_elem_of_lookup_2).
    destruct (d_lookup_found f1 n Hin) as [d1 E1]. rewrite Hnames in Hin. destruct (d_lookup_found f2 n Hin) as [d2 E2].
    rewrite E1, E2 in El |- *. apply app_inv_head in El. cbn. by f_equal.
  - intros Hs. do 2 f_equal. apply list_fmap_ext. intros k n Hk'. apply list_elem_of_lookup_2, Hns, Hs in Hk'. unfold line.
    destruct (d_lookup f1 n), (d_lookup f2 n); cbn in Hk'; try done. injection Hk' as ->. done.
Qed.

(** ** The scan *)

(** [mount]: what probing the volume read-only gave, [None] when it could not be
mounted. *)
Definition ScanESPs (proc : option bytes) (open : bytes -> option device) (mount : FATVolume -> option ESPInfo) : outcome bootenv_error (list ESPInfo) :=
  let! vols := ScanFATVolumes proc open in Ok ((fun v => probeESPFiles v (mount v)) <$> vols).
